(** * gene-graph-conv: the model layers, embedded in Rocq

    A shallow embedding of [models/model_layers.py] (the current model
    code), of the older [models.py] that [main.py] drives, and of the
    part of [main.py] that assembles the loss.

    Tensor entries are real numbers ([R]): the theorems speak about the
    mathematics the code computes, not about rounding.  Where the code
    can divide by zero or take a root of a negative number the same
    definitions are also run on [npfloat], reals extended with the IEEE
    special values and with overflow beyond the largest double, so that
    "no NaN, no Inf" is a statement about the code and not a convention
    of [R].

    Python exceptions are values of [exn] carried by [result]; the global
    random generator of torch and the numpy arrays shared with the caller
    are explicit state.

    Layout: Part I holds every definition, Part II the lemmas and the
    theorems about them. *)

From Stdlib Require Import Reals Lra Lia List Arith Bool.
From stdpp Require Import gmap strings.
Import ListNotations.

Local Open Scope R_scope.

(** * Part I.  Definitions *)

(** ** Python run time: exceptions *)

Inductive exn : Type :=
| ValueError
| RuntimeError
| AttributeError
| TypeError
| IndexError
| KeyError.

Inductive result (A : Type) : Type :=
| Ok (a : A)
| Raise (e : exn).

Arguments Ok {A} a.
Arguments Raise {A} e.

(** [result] is a monad: stdpp's notation [x ← r; k] runs [r] and, unless
    it raised, goes on with [k]. *)
#[export] Instance result_ret : MRet result := fun A a => Ok a.

#[export] Instance result_bind : MBind result := fun A B k r =>
  match r with
  | Ok a => k a
  | Raise e => Raise e
  end.

#[export] Instance result_fmap : FMap result := fun A B f r =>
  match r with
  | Ok a => Ok (f a)
  | Raise e => Raise e
  end.

(** [for x in xs: ...] with a body that may raise: the first exception ends
    the loop. *)
Fixpoint rmap {A B : Type} (f : A → result B) (xs : list A) : result (list B) :=
  match xs with
  | [] => Ok []
  | x :: xs' => y ← f x; ys ← rmap f xs'; Ok (y :: ys)
  end.

Definition is_ok {A : Type} (r : result A) : Prop :=
  match r with Ok _ => True | Raise _ => False end.

(** ** Scalars

    The numeric code is written once, over a type of scalars, and read at
    two instances: the real numbers, and the reals with IEEE special
    values. *)

Class Scalar (T : Type) : Type := {
  sc_zero : T;
  sc_one : T;
  sc_add : T → T → T;
  sc_sub : T → T → T;
  sc_mul : T → T → T;
  (** a literal of the source, such as [1e-5] *)
  sc_lit : R → T;
  (** [d ** -0.5] *)
  sc_pow_neg_half : T → T
}.

#[export] Instance R_scalar : Scalar R := {|
  sc_zero := 0;
  sc_one := 1;
  sc_add := Rplus;
  sc_sub := Rminus;
  sc_mul := Rmult;
  sc_lit := fun r => r;
  sc_pow_neg_half := fun d => / sqrt d
|}.

(** A float of numpy, without rounding: a real number, an infinity or
    NaN.  The operations follow IEEE 754 on the special values, and a
    result beyond the largest double overflows to an infinity. *)
Inductive npfloat : Type :=
| Finite (r : R)
| PosInf
| NegInf
| NaN.

(** The largest finite double, [(2 - 2^-52) * 2^1023], about [1.8e308]. *)
Definition max_float : R := (2 - / 2 ^ 52) * 2 ^ 1023.

(** The float that holds the result [r] of an operation. *)
Definition np_float (r : R) : npfloat :=
  if Rlt_dec max_float r then PosInf
  else if Rlt_dec r (- max_float) then NegInf
  else Finite r.

Definition np_neg (a : npfloat) : npfloat :=
  match a with
  | Finite r => Finite (- r)
  | PosInf => NegInf
  | NegInf => PosInf
  | NaN => NaN
  end.

Definition np_add (a b : npfloat) : npfloat :=
  match a, b with
  | NaN, _ | _, NaN => NaN
  | Finite x, Finite y => np_float (x + y)
  | PosInf, NegInf | NegInf, PosInf => NaN
  | PosInf, _ | _, PosInf => PosInf
  | NegInf, _ | _, NegInf => NegInf
  end.

Definition np_sub (a b : npfloat) : npfloat := np_add a (np_neg b).

(** An infinity times [r]: the sign decides, and zero gives NaN. *)
Definition np_scale_inf (positive : bool) (r : R) : npfloat :=
  if Rlt_dec 0 r then (if positive then PosInf else NegInf)
  else if Rlt_dec r 0 then (if positive then NegInf else PosInf)
  else NaN.

Definition np_mul (a b : npfloat) : npfloat :=
  match a, b with
  | NaN, _ | _, NaN => NaN
  | Finite x, Finite y => np_float (x * y)
  | Finite x, PosInf | PosInf, Finite x => np_scale_inf true x
  | Finite x, NegInf | NegInf, Finite x => np_scale_inf false x
  | PosInf, PosInf | NegInf, NegInf => PosInf
  | PosInf, NegInf | NegInf, PosInf => NegInf
  end.

(** [d ** -0.5] as numpy computes it: a positive base gives a finite
    value, a zero base gives [inf] (division by zero), a negative base
    gives [nan]; the infinities give [0.0] (C's [pow]). *)
Definition np_pow_neg_half (d : npfloat) : npfloat :=
  match d with
  | Finite r =>
      if Rlt_dec 0 r then np_float (/ sqrt r)
      else if Rlt_dec r 0 then NaN
      else PosInf
  | PosInf | NegInf => Finite 0
  | NaN => NaN
  end.

#[export] Instance npfloat_scalar : Scalar npfloat := {|
  sc_zero := Finite 0;
  sc_one := Finite 1;
  sc_add := np_add;
  sc_sub := np_sub;
  sc_mul := np_mul;
  sc_lit := Finite;
  sc_pow_neg_half := np_pow_neg_half
|}.

Definition is_finite (a : npfloat) : Prop :=
  match a with Finite _ => True | _ => False end.

(** ** numpy arrays

    A 2-d array is a list of rows.  The operations are those that
    [SparseLogisticRegression.__init__] calls. *)

Section NumPy.
Context {T : Type} `{Scalar T}.

Definition nrows (a : list (list T)) : nat := length a.
Definition ncols (a : list (list T)) : nat := length (hd [] a).

Definition entry (a : list (list T)) (i j : nat) : T :=
  nth j (nth i a []) sc_zero.

Definition sc_sum (xs : list T) : T := fold_right sc_add sc_zero xs.

(** The array whose entry (i, j) is [f i j]. *)
Definition tabulate (n m : nat) (f : nat → nat → T) : list (list T) :=
  map (fun i => map (fun j => f i j) (seq 0 m)) (seq 0 n).

(** [np.fill_diagonal(a, val)]: every position (i, i) of the array gets
    [val]; a row too short to have a position i is left as it is. *)
Definition fill_diagonal (a : list (list T)) (val : T) : list (list T) :=
  imap (fun i row => <[i := val]> row) a.

(** [a.sum(0)]: the sums of the columns. *)
Definition sum_axis0 (a : list (list T)) : list T :=
  map (fun j => sc_sum (map (fun i => entry a i j) (seq 0 (nrows a))))
      (seq 0 (ncols a)).

(** [np.diag(v)] for a vector [v]. *)
Definition np_diag (v : list T) : list (list T) :=
  tabulate (length v) (length v)
    (fun i j => if Nat.eqb i j then nth i v sc_zero else sc_zero).

(** [np.eye(n)]. *)
Definition np_eye (n : nat) : list (list T) :=
  tabulate n n (fun i j => if Nat.eqb i j then sc_one else sc_zero).

(** [a.dot(b)]. *)
Definition np_dot (a b : list (list T)) : list (list T) :=
  tabulate (nrows a) (ncols b)
    (fun i j =>
       sc_sum (map (fun k => sc_mul (entry a i k) (entry b k j))
                   (seq 0 (ncols a)))).

(** [a - b] for two arrays of one shape. *)
Definition np_sub_array (a b : list (list T)) : list (list T) :=
  tabulate (nrows a) (ncols a) (fun i j => sc_sub (entry a i j) (entry b i j)).

(** Lines 116-117 of [models/model_layers.py], on an array whose
    diagonal has been zeroed:
<<
      D = adj.sum(0) + 1e-5
      laplacian = np.eye(D.shape[0]) - np.diag((D**-0.5)).dot(adj).dot(np.diag((D**-0.5)))
>> *)
Definition degrees (adj : list (list T)) : list T :=
  map (fun d => sc_add d (sc_lit 1e-5)) (sum_axis0 adj).

Definition inv_sqrt_degrees (adj : list (list T)) : list T :=
  map sc_pow_neg_half (degrees adj).

Definition normalized_adjacency (adj : list (list T)) : list (list T) :=
  np_dot (np_dot (np_diag (inv_sqrt_degrees adj)) adj)
         (np_diag (inv_sqrt_degrees adj)).

Definition make_laplacian (adj : list (list T)) : list (list T) :=
  np_sub_array (np_eye (length (degrees adj))) (normalized_adjacency adj).

(** numpy's [a.dot(b)] raises [ValueError] unless [a] has as many columns
    as [b] has rows; [np_dot] is the product of two arrays so aligned.
    The two products of line 117 are aligned exactly when [adj] is
    square. *)
Definition dot_aligned (a b : list (list T)) : bool :=
  Nat.eqb (ncols a) (nrows b).

Definition laplacian_aligned (adj : list (list T)) : bool :=
  dot_aligned (np_diag (inv_sqrt_degrees adj)) adj
  && dot_aligned (np_dot (np_diag (inv_sqrt_degrees adj)) adj)
                 (np_diag (inv_sqrt_degrees adj)).

End NumPy.

(** Shapes and properties of real arrays. *)
Definition is_matrix {T : Type} (n m : nat) (a : list (list T)) : Prop :=
  length a = n ∧ Forall (fun row => length row = m) a.

Definition symmetric (n : nat) (a : list (list R)) : Prop :=
  ∀ i j, (i < n)%nat → (j < n)%nat → entry a i j = entry a j i.

Definition nonnegative (n : nat) (a : list (list R)) : Prop :=
  ∀ i j, (i < n)%nat → (j < n)%nat → 0 <= entry a i j.

(** A real array read as an array of floats. *)
Definition lift (a : list (list R)) : list (list npfloat) := map (map Finite) a.

Definition all_finite (a : list (list npfloat)) : Prop :=
  Forall (Forall is_finite) a.

(** ** torch tensors

    A tensor of rank 1, 2 or 3 is a list, a list of rows, or a list of
    such matrices; the entry [x[i][j][k]] is [nth k (nth j (nth i x []) []) 0].
    The ranks are those the models meet. *)

Inductive tensor : Type :=
| Tensor1 (v : list R)
| Tensor2 (m : list (list R))
| Tensor3 (t : list (list (list R))).

(** [a, b, c = x.size()]: unpacking the size of a tensor whose rank is not
    three raises [ValueError]. *)
Definition size3 (x : tensor) : result (nat * nat * nat) :=
  match x with
  | Tensor3 t => Ok (length t, length (hd [] t), length (hd [] (hd [] t)))
  | _ => Raise ValueError
  end.

(** The entries of a tensor in storage (row-major) order. *)
Definition flatten (x : tensor) : list R :=
  match x with
  | Tensor1 v => v
  | Tensor2 m => concat m
  | Tensor3 t => concat (concat t)
  end.

(** [r] consecutive blocks of [c] entries. *)
Definition reshape2 {A : Type} (r c : nat) (flat : list A) : list (list A) :=
  map (fun i => take c (drop (i * c) flat)) (seq 0 r).

(** [x.view(r, c)]: the same storage read as an [r] by [c] matrix; the
    sizes have to agree. *)
Definition view2 (r c : nat) (flat : list R) : result (list (list R)) :=
  if Nat.eqb (length flat) (r * c) then Ok (reshape2 r c flat)
  else Raise RuntimeError.

(** [x.view(-1, c)] and [x.view(r, -1)]: the free size is the quotient. *)
Definition view2_cols (c : nat) (flat : list R) : result (list (list R)) :=
  view2 (length flat / c) c flat.

Definition view2_rows (r : nat) (flat : list R) : result (list (list R)) :=
  view2 r (length flat / r) flat.

(** [x.view(e, n, c)]. *)
Definition view3 (e n c : nat) (flat : list R) : result (list (list (list R))) :=
  if Nat.eqb (length flat) (e * (n * c))
  then Ok (map (reshape2 n c) (reshape2 e (n * c) flat))
  else Raise RuntimeError.

(** torch's broadcasting of a binary operation along one dimension: the
    two sizes are equal, or one of them is 1. *)
Definition broadcast {A B C : Type} (f : A → B → result C)
    (xs : list A) (ys : list B) : result (list C) :=
  if Nat.eqb (length xs) (length ys)
  then rmap (fun p => f p.1 p.2) (zip xs ys)
  else match xs, ys with
       | [x], _ => rmap (f x) ys
       | _, [y] => rmap (fun x => f x y) xs
       | _, _ => Raise RuntimeError
       end.

Definition bcast0 (op : R → R → R) (a b : R) : result R := Ok (op a b).
Definition bcast1 (op : R → R → R) := broadcast (bcast0 op).
Definition bcast2 (op : R → R → R) := broadcast (bcast1 op).
Definition bcast3 (op : R → R → R) := broadcast (bcast2 op).
Definition bcast4 (op : R → R → R) := broadcast (bcast3 op).

(** Sums. *)
Definition sum_list (xs : list R) : R := fold_right Rplus 0 xs.

(** The sum of [f 0], ..., [f (n - 1)]. *)
Definition Rsum (n : nat) (f : nat → R) : R := sum_list (map f (seq 0 n)).

(** [t.sum()] of a matrix: all entries. *)
Definition torch_sum2 (m : list (list R)) : R := sum_list (concat m).

(** [t.sum(dim=0)] of a list of vectors, and of a list of matrices: the
    first axis is summed away. *)
Definition sum_vectors (vs : list (list R)) : list R :=
  map (fun j => sum_list (map (fun v => nth j v 0) vs))
      (seq 0 (length (hd [] vs))).

Definition sum_matrices (ms : list (list (list R))) : list (list R) :=
  map (fun i => sum_vectors (map (fun m => nth i m []) ms))
      (seq 0 (length (hd [] ms))).

(** [torch.abs], [F.relu], [torch.sigmoid]. *)
Definition torch_abs2 (m : list (list R)) : list (list R) := map (map Rabs) m.

Definition relu (a : R) : R := Rmax 0 a.

Definition sigmoid (a : R) : R := 1 / (1 + exp (- a)).

(** [a.mm(b)]: the rows of [a] have to be as long as [b] has rows. *)
Definition torch_mm (a b : list (list R)) : result (list (list R)) :=
  if forallb (fun row => Nat.eqb (length row) (length b)) a
  then Ok (tabulate (length a) (ncols b)
             (fun i j => sum_list (map (fun k => entry a i k * entry b k j)
                                       (seq 0 (length b)))))
  else Raise RuntimeError.

(** [xs[-1]]. *)
Definition last_item {A : Type} (xs : list A) : result A :=
  match last xs with
  | Some x => Ok x
  | None => Raise IndexError
  end.

(** *** [nn.Linear] *)
Module Linear.
Record t : Type := {
  in_features : nat;
  out_features : nat;
  weight : list (list R);   (* out_features rows of in_features entries *)
  bias : list R
}.

Definition wf (l : t) : Prop :=
  is_matrix (out_features l) (in_features l) (weight l)
  ∧ length (bias l) = out_features l.

Definition dot (w x : list R) : R :=
  sum_list (map (fun p => p.1 * p.2) (zip w x)).

(** One row of the input: [x W^T + b]. *)
Definition output (l : t) (x : list R) : list R :=
  map (fun p => dot p.1 x + p.2) (zip (weight l) (bias l)).

Definition apply_row (l : t) (x : list R) : result (list R) :=
  if Nat.eqb (length x) (in_features l)
  then Ok (output l x)
  else Raise RuntimeError.

(** [layer(x)] for a matrix [x] of one input per row. *)
Definition forward (l : t) (x : list (list R)) : result (list (list R)) :=
  rmap (apply_row l) x.
End Linear.

(** ** [SparseLogisticRegression] *)

(** What a [regularization] method returns to the training loop: a number,
    or a list of numbers. *)
Inductive reg_value : Type :=
| RegScalar (r : R)
| RegList (rs : list R).

(** numpy arrays live in a store, and a Python variable holds the location
    of its array: an array passed to a function is shared with the
    caller. *)
Abbreviation loc := nat (only parsing).
Abbreviation store := (gmap nat (list (list R))).

(** Every degree of the graph, the sum of a column of the adjacency
    matrix, is at most [bound]. *)
Definition degrees_at_most (n : nat) (a : list (list R)) (bound : R) : Prop :=
  ∀ j, (j < n)%nat → Rsum n (fun i => entry a i j) <= bound.

(** The Laplacian as the specification writes it, entry by entry:
    [I - D^-1/2 A D^-1/2], for the adjacency [A] without its diagonal and
    the degrees [D_j = sum_i A_ij + 1e-5]. *)
Definition off_diagonal (a : list (list R)) (i j : nat) : R :=
  if Nat.eqb i j then 0 else entry a i j.

Definition perturbed_degree (n : nat) (a : list (list R)) (j : nat) : R :=
  Rsum n (fun i => off_diagonal a i j) + 1e-5.

Definition normalized_laplacian (n : nat) (a : list (list R)) (i j : nat) : R :=
  (if Nat.eqb i j then 1 else 0)
  - off_diagonal a i j
    / (sqrt (perturbed_degree n a i) * sqrt (perturbed_degree n a j)).

Module SparseLogisticRegression.
Record t : Type := {
  nb_nodes : nat;
  input_dim : nat;
  laplacian : list (list R);
  out_dim : nat;
  on_cuda : bool;
  my_logistic_layers : list Linear.t
}.

(** [__init__(self, nb_nodes, input_dim, adj, out_dim, on_cuda)].  [adj]
    is the location of the caller's array; [w0], [b0] are the values torch
    initialises the logistic layer with.  The result is the model and the
    store the constructor leaves behind; [None] if [adj] is not a
    location of the store, or if the constructor raises: on an array that
    is not square the products of line 117 raise [ValueError]. *)
Definition init (σ : store) (nb_nodes input_dim : nat) (adj : loc)
    (out_dim : option nat) (on_cuda : bool)
    (w0 : list (list R)) (b0 : list R) : option (t * store) :=
  let out_dim := match out_dim with Some d => d | None => 2%nat end in
  a ← σ !! adj;
  (* np.fill_diagonal(adj, 0.): the array at [adj] is overwritten *)
  let a := fill_diagonal a 0 in
  let σ := <[adj := a]> σ in
  if laplacian_aligned a then
    let laplacian := make_laplacian a in
    let logistic_in_dim := (nb_nodes * input_dim)%nat in
    let logistic_layer :=
      {| Linear.in_features := logistic_in_dim; Linear.out_features := out_dim;
         Linear.weight := w0; Linear.bias := b0 |} in
    Some ({| nb_nodes := nb_nodes; input_dim := input_dim;
             laplacian := laplacian; out_dim := out_dim; on_cuda := on_cuda;
             my_logistic_layers := [logistic_layer] |}, σ)
  else None.

(** [forward(self, x)]. *)
Definition forward (self : t) (x : tensor) : result (list (list R)) :=
  '(nb_examples, nb_nodes, nb_channels) ← size3 x;
  x ← view2_rows nb_examples (flatten x);
  layer ← last_item (my_logistic_layers self);
  Linear.forward layer x.

(** The penalty [sum((|W| . L) * |W|)] of a weight matrix. *)
Definition smoothness_penalty (L W : list (list R)) : result R :=
  m ← torch_mm (torch_abs2 W) L;
  reg ← bcast2 Rmult m (torch_abs2 W);
  Ok (torch_sum2 reg).

(** [regularization(self, reg_lambda)].  Moving the Laplacian to the GPU
    ([on_cuda]) does not change its entries. *)
Definition regularization (self : t) (reg_lambda : R) : result reg_value :=
  let laplacian := laplacian self in
  layer ← last_item (my_logistic_layers self);
  let weight := Linear.weight layer in
  reg ← smoothness_penalty laplacian weight;
  Ok (RegScalar (reg * reg_lambda)).
End SparseLogisticRegression.

(** Well-formed tensors of rank 3: [e] examples of [n] nodes of [c]
    channels. *)
Definition has_shape3 {A : Type} (e n c : nat) (t : list (list (list A))) : Prop :=
  length t = e ∧ Forall (is_matrix n c) t.

(** [x[e][n][c]]. *)
Definition entry3 (t : list (list (list R))) (e n c : nat) : R :=
  nth c (nth n (nth e t []) []) 0.

(** [x.permute(0, 2, 1)]: every example is transposed. *)
Definition transpose (m : list (list R)) : list (list R) :=
  tabulate (ncols m) (nrows m) (fun c n => entry m n c).

Definition permute_0_2_1 (t : list (list (list R))) : list (list (list R)) :=
  map transpose t.

Definition relu3 (t : list (list (list R))) : list (list (list R)) :=
  map (map (map relu)) t.

(** ** The random generator of torch

    [torch.manual_seed] fixes a stream of uniform draws from [0, 1); every
    draw takes the next one.  A computation that draws is a function of
    the generator that also returns the generator it leaves behind. *)

Record Generator : Type := {
  stream : nat → R;
  cursor : nat
}.

Definition rand (A : Type) : Type := Generator → result (A * Generator).

#[export] Instance rand_ret : MRet rand := fun A a g => Ok (a, g).

#[export] Instance rand_bind : MBind rand := fun A B k m g =>
  match m g with
  | Ok (a, g') => k a g'
  | Raise e => Raise e
  end.

(** A computation that does not draw. *)
Definition pure {A : Type} (r : result A) : rand A := fun g =>
  match r with
  | Ok a => Ok (a, g)
  | Raise e => Raise e
  end.

Definition uniform : rand R := fun g =>
  Ok (stream g (cursor g), {| stream := stream g; cursor := S (cursor g) |}).

(** A loop whose body draws. *)
Fixpoint rand_map {A B : Type} (f : A → rand B) (xs : list A) : rand (list B) :=
  match xs with
  | [] => mret []
  | x :: xs' => y ← f x; ys ← rand_map f xs'; mret (y :: ys)
  end.

(** [torch.manual_seed(seed)], lines 119-121 of [main.py]: the generator
    starts the stream of the seed anew, whatever it has drawn before.
    Which stream a seed gives is torch's business, the parameter [prng]. *)
Definition manual_seed (prng : Z → nat → R) (seed : Z) : rand unit :=
  fun _ => Ok (tt, {| stream := prng seed; cursor := 0 |}).

(** Two states of the generator with the same draws ahead. *)
Definition same_draws (g1 g2 : Generator) : Prop :=
  ∀ k, stream g1 (cursor g1 + k) = stream g2 (cursor g2 + k).

(** Two runs with the same outcome: the same value and the same draws
    ahead afterwards, or the same exception. *)
Definition same_outcome {A : Type} (r1 r2 : result (A * Generator)) : Prop :=
  match r1, r2 with
  | Ok (a1, g1), Ok (a2, g2) => a1 = a2 ∧ same_draws g1 g2
  | Raise e1, Raise e2 => e1 = e2
  | _, _ => False
  end.

(** A computation whose outcome depends on the generator through the
    draws ahead only. *)
Definition reproducible {A : Type} (m : rand A) : Prop :=
  ∀ g1 g2, same_draws g1 g2 → same_outcome (m g1) (m g2).

(** *** [nn.Dropout] *)
Module Dropout.
Record t : Type := {
  p : R;
  training : bool   (* [nn.Module.training], set by [train()] and [eval()] *)
}.

(** One entry: kept with probability [1 - p] and scaled by [1 / (1 - p)],
    or zeroed. *)
Definition drop_entry (d : t) (a : R) : rand R :=
  u ← uniform;
  mret (if Rlt_dec u (1 - p d) then a / (1 - p d) else 0).

(** [dropout(x)] for a matrix [x]; the identity in evaluation mode. *)
Definition forward (d : t) (x : list (list R)) : rand (list (list R)) :=
  if training d then rand_map (rand_map (drop_entry d)) x
  else mret x.
End Dropout.

(** *** Operations on tensors of any rank *)

Definition torch_relu (x : tensor) : tensor :=
  match x with
  | Tensor1 v => Tensor1 (map relu v)
  | Tensor2 m => Tensor2 (map (map relu) m)
  | Tensor3 t => Tensor3 (relu3 t)
  end.

(** [x * y] with broadcasting: the tensor of lower rank gets leading
    dimensions of size 1. *)
Definition torch_mul (x y : tensor) : result tensor :=
  match x, y with
  | Tensor1 a, Tensor1 b => Tensor1 <$> bcast1 Rmult a b
  | Tensor1 a, Tensor2 b => Tensor2 <$> bcast2 Rmult [a] b
  | Tensor1 a, Tensor3 b => Tensor3 <$> bcast3 Rmult [[a]] b
  | Tensor2 a, Tensor1 b => Tensor2 <$> bcast2 Rmult a [b]
  | Tensor2 a, Tensor2 b => Tensor2 <$> bcast2 Rmult a b
  | Tensor2 a, Tensor3 b => Tensor3 <$> bcast3 Rmult [a] b
  | Tensor3 a, Tensor1 b => Tensor3 <$> bcast3 Rmult a [[b]]
  | Tensor3 a, Tensor2 b => Tensor3 <$> bcast3 Rmult a [b]
  | Tensor3 a, Tensor3 b => Tensor3 <$> bcast3 Rmult a b
  end.

(** [x.size(0)] and [x.size(1)]. *)
Definition size_0 (x : tensor) : nat :=
  match x with
  | Tensor1 v => length v
  | Tensor2 m => length m
  | Tensor3 t => length t
  end.

Definition size_1 (x : tensor) : result nat :=
  match x with
  | Tensor1 _ => Raise IndexError
  | Tensor2 m => Ok (length (hd [] m))
  | Tensor3 t => Ok (length (hd [] t))
  end.

(** [x.permute(0, 2, 1).contiguous()]: only a tensor of rank 3 has three
    dimensions to permute. *)
Definition torch_permute_0_2_1 (x : tensor) : result tensor :=
  match x with
  | Tensor3 t => Ok (Tensor3 (permute_0_2_1 t))
  | _ => Raise RuntimeError
  end.

(** [np.ones((e, n))]. *)
Definition ones (e n : nat) : list (list R) := replicate e (replicate n 1).

(** Python's truth value of an integer, and of [None] or an integer. *)
Definition truthy_int (n : nat) : bool :=
  match n with
  | O => false
  | S _ => true
  end.

Definition truthy (o : option nat) : bool :=
  match o with
  | Some n => truthy_int n
  | None => false
  end.

(** ** The layers of [models/model_layers.py] *)

Module EmbeddingLayer.
Record t : Type := {
  emb_size : nat;
  emb : list (list R)   (* nb_emb rows of emb_size entries *)
}.

(** [forward(self, x)]: [x * self.emb], the embedding broadcast over the
    examples. *)
Definition forward (self : t) (x : tensor) : result tensor :=
  torch_mul x (Tensor2 (emb self)).
End EmbeddingLayer.

Module AttentionLayer.
Record t : Type := {
  in_dim : nat;
  nb_attention_head : nat;
  attn : Linear.t;          (* nn.Linear(in_dim, nb_attention_head) *)
  temperature : R
}.

Definition wf (self : t) : Prop :=
  Linear.wf (attn self)
  ∧ Linear.in_features (attn self) = in_dim self
  ∧ Linear.out_features (attn self) = nb_attention_head self.

(** [forward(self, x)]: the pooled features and the attention weights. *)
Definition forward (self : t) (x : tensor)
    : result (list (list R) * list (list (list R))) :=
  '(nb_examples, nb_nodes, nb_channels) ← size3 x;
  x ← view2_cols nb_channels (flatten x);
  scores ← Linear.forward (attn self) x;
  let attn_weights := map (map (fun s => exp (s * temperature self))) scores in
  attn_weights ← view3 nb_examples nb_nodes (nb_attention_head self)
                    (concat attn_weights);
  (* attn_weights / attn_weights.sum(dim=1).unsqueeze(1) *)
  let total := map sum_vectors attn_weights in
  attn_weights ← bcast3 Rdiv attn_weights (map (fun v => [v]) total);
  x ← view3 nb_examples nb_nodes nb_channels (concat x);
  (* x.unsqueeze(-1) * attn_weights.unsqueeze(-2) *)
  attn_applied ← bcast4 Rmult
                   (map (map (map (fun a => [a]))) x)
                   (map (map (fun w => [w])) attn_weights);
  let attn_applied := map sum_matrices attn_applied in
  attn_applied ← view2_rows nb_examples (concat (concat attn_applied));
  Ok (attn_applied, attn_weights).

(** The values [forward] computes on a well-formed input, node by node:
    the exponentiated scores of a node, and those scores divided by
    their sums over the nodes of the example. *)
Definition unnormalized (self : t) (node : list R) : list R :=
  map (fun s => exp (s * temperature self)) (Linear.output (attn self) node).

Definition normalized (self : t) (example : list (list R)) (node : list R)
    : list R :=
  zip_with Rdiv (unnormalized self node)
           (sum_vectors (map (unnormalized self) example)).

Definition weights (self : t) (x : list (list (list R)))
    : list (list (list R)) :=
  map (fun example => map (normalized self example) example) x.

Definition pooled (self : t) (x : list (list (list R))) : list (list R) :=
  map (fun example =>
         concat (sum_matrices
                   (map (fun node =>
                           map (fun a => map (Rmult a) (normalized self example node))
                               node)
                        example)))
      x.
End AttentionLayer.

Module ElementwiseGateLayer.
Record t : Type := {
  in_dim : nat;
  attn : Linear.t   (* nn.Linear(in_dim, 1, bias=True) *)
}.

Definition wf (self : t) : Prop :=
  Linear.wf (attn self)
  ∧ Linear.in_features (attn self) = in_dim self
  ∧ Linear.out_features (attn self) = 1%nat.

(** [forward(self, x)]: one gate weight per example and node. *)
Definition forward (self : t) (x : tensor) : result (list (list (list R))) :=
  '(nb_examples, nb_nodes, nb_channels) ← size3 x;
  x ← view2_cols nb_channels (flatten x);
  scores ← Linear.forward (attn self) x;
  let gate_weights := map (map sigmoid) scores in
  view3 nb_examples nb_nodes 1 (concat gate_weights).

(** The gate weight of one node. *)
Definition gate_of (self : t) (node : list R) : list R :=
  map sigmoid (Linear.output (attn self) node).
End ElementwiseGateLayer.

(** ** The graph convolution layers

    [GCNLayer], [SGCLayer] and [LCGLayer] are defined in
    [models/graph_layers.py].  The models only call them, so a layer is
    any type with a forward pass that does not draw random numbers. *)
Class GraphLayer (L : Type) : Type := {
  layer_forward : L → tensor → result tensor
}.

(** A layer that hands its input on, for examples. *)
Definition passthrough_layer : GraphLayer unit :=
  {| layer_forward := fun _ x => Ok x |}.

(** ** [GraphNetwork] *)

Module GraphNetwork.
Section WithLayers.
Context {L : Type} `{GraphLayer L}.

Record t : Type := {
  out_dim : nat;
  on_cuda : bool;
  nb_nodes : nat;
  nb_channels : list nat;
  add_emb : option nat;
  emb : option EmbeddingLayer.t;
  dropout : bool;
  attention_head : nat;
  my_convs : list L;
  my_logistic_layers : list Linear.t;
  use_gate : R;
  gates : list (option ElementwiseGateLayer.t);
  my_dropouts : list (option Dropout.t);
  attentionLayer : option AttentionLayer.t
}.

(** The drop-out modules that [__init__] creates for [nb_layers]
    layers:
<<
    self.my_dropouts = [None] * (len(dims) - 1)
    if dropout:
        self.my_dropouts = nn.ModuleList([torch.nn.Dropout(int(dropout)*min((id_layer+1) / 10., 0.4)) for id_layer in range(len(dims)-1)])
>> *)
Definition init_dropouts (dropout : bool) (nb_layers : nat)
    : list (option Dropout.t) :=
  if dropout
  then map (fun id_layer =>
              Some {| Dropout.p := 1 * Rmin ((INR id_layer + 1) / 10) 0.4;
                      Dropout.training := true |})
           (seq 0 nb_layers)
  else replicate nb_layers None.

(** The first half of the body of the loop of [supervised]: the
    convolution, the gate and the non-linearity.
<<
        if self.use_gate > 0.:
            x = layer(x)
            g = gate(x)
            x = g * x
        else:
            x = layer(x)
        x = F.relu(x)
>> *)
Definition conv_gate_relu (self : t) (layer : L)
    (gate : option ElementwiseGateLayer.t) (x : tensor) : result tensor :=
  x ← (if Rlt_dec 0 (use_gate self)
       then
         x ← layer_forward layer x;
         g ← match gate with
             | Some gate => ElementwiseGateLayer.forward gate x
             | None => Raise TypeError
             end;
         torch_mul (Tensor3 g) x
       else layer_forward layer x);
  Ok (torch_relu x).

(** The second half: drop-out of whole nodes.
<<
        if dropout is not None:
            id_to_keep = dropout(torch.FloatTensor(np.ones((x.size(0), x.size(1))))).unsqueeze(2)
            x = x * id_to_keep
>> *)
Definition apply_dropout (dropout : option Dropout.t) (x : tensor)
    : rand tensor :=
  match dropout with
  | Some dropout =>
      n ← pure (size_1 x);
      id_to_keep ← Dropout.forward dropout (ones (size_0 x) n);
      pure (torch_mul x (Tensor3 (map (map (fun k => [k])) id_to_keep)))
  | None => mret x
  end.

(** [for i, [layer, gate, dropout] in enumerate(zip(...))]. *)
Fixpoint run_layers (self : t)
    (layers : list (L * option ElementwiseGateLayer.t * option Dropout.t))
    (x : tensor) : rand tensor :=
  match layers with
  | [] => mret x
  | (layer, gate, dropout) :: layers' =>
      x ← pure (conv_gate_relu self layer gate x);
      x ← apply_dropout dropout x;
      run_layers self layers' x
  end.

(** [supervised(self, x)].  The hooks registered on the way
    ([register_hook]) run in the backward pass only. *)
Definition supervised (self : t) (x : tensor) : rand (list (list R)) :=
  '(nb_examples, nb_nodes, nb_channels) ← pure (size3 x);
  x ← pure (if truthy (add_emb self)
            then match emb self with
                 | Some emb => EmbeddingLayer.forward emb x
                 | None => Raise AttributeError
                 end
            else Ok x);
  x ← run_layers self
        (zip (zip (my_convs self) (gates self)) (my_dropouts self)) x;
  (* Do attention pooling here *)
  x ← pure (if truthy_int (attention_head self)
            then match attentionLayer self with
                 | Some layer =>
                     '(x, attn) ← AttentionLayer.forward layer x;
                     Ok (Tensor2 x)
                 | None => Raise AttributeError
                 end
            else Ok x);
  pure (x ← view2_rows nb_examples (flatten x);
        layer ← last_item (my_logistic_layers self);
        Linear.forward layer x).

(** [forward(self, x)]. *)
Definition forward (self : t) (x : tensor) : rand (list (list R)) :=
  '(nb_examples, nb_nodes, nb_channels) ← pure (size3 x);
  supervised self x.

(** [semi_supervised(self, x)] and [gene_inference(self, x)] end in
    [self.last_semi_layer] and [self.last_inference_layer], attributes
    that [__init__] never sets: reading them raises [AttributeError]. *)
Fixpoint run_convs (layers : list L) (x : tensor) : result tensor :=
  match layers with
  | [] => Ok x
  | layer :: layers' =>
      x ← layer_forward layer x;
      run_convs layers' (torch_relu x)
  end.

Definition semi_supervised (self : t) (x : tensor) : rand tensor :=
  x ← pure (if truthy (add_emb self)
            then match emb self with
                 | Some emb => EmbeddingLayer.forward emb x
                 | None => Raise AttributeError
                 end
            else Ok x);
  x ← pure (run_convs (my_convs self) x);
  x ← pure (torch_permute_0_2_1 x);
  pure (Raise AttributeError).

Fixpoint run_layers_ungated (layers : list (L * option Dropout.t))
    (x : tensor) : rand tensor :=
  match layers with
  | [] => mret x
  | (layer, dropout) :: layers' =>
      x ← pure (layer_forward layer x);
      x ← apply_dropout dropout (torch_relu x);
      run_layers_ungated layers' x
  end.

Definition gene_inference (self : t) (x : tensor) : rand tensor :=
  x ← pure (if truthy (add_emb self)
            then match emb self with
                 | Some emb => EmbeddingLayer.forward emb x
                 | None => Raise AttributeError
                 end
            else Ok x);
  x ← run_layers_ungated (zip (my_convs self) (my_dropouts self)) x;
  (* Do attention pooling here *)
  if truthy_int (attention_head self)
  then
    x ← pure (match attentionLayer self with
              | Some layer =>
                  '(x, attn) ← AttentionLayer.forward layer x;
                  Ok (Tensor2 x)
              | None => Raise AttributeError
              end);
    pure (Raise AttributeError)
  else
    x ← pure (torch_permute_0_2_1 x);
    pure (Raise AttributeError).

(** [regularization(self, reg_lambda)]. *)
Definition regularization (self : t) (reg_lambda : R) : reg_value :=
  RegScalar 0.0.
End WithLayers.
End GraphNetwork.

(** ** [MLP] and [LogisticRegression] *)

Module MLP.
Record t : Type := {
  out_dim : nat;
  on_cuda : bool;
  dropout : bool;
  my_layers : list Linear.t;
  last_layer : Linear.t;
  my_dropout : option Dropout.t   (* [None], or [Dropout(0.5)] *)
}.

(** The body of the loop of [forward]:
<<
          x = F.relu(layer(x.view(nb_examples, -1)))
          if self.dropout:
              x = self.my_dropout(x)
>> *)
Definition hidden_layer (self : t) (nb_examples : nat) (layer : Linear.t)
    (x : tensor) : rand tensor :=
  x ← pure (x ← view2_rows nb_examples (flatten x);
            x ← Linear.forward layer x;
            Ok (map (map relu) x));
  if dropout self
  then match my_dropout self with
       | Some d => x ← Dropout.forward d x; mret (Tensor2 x)
       | None => pure (Raise TypeError)
       end
  else mret (Tensor2 x).

Fixpoint run_layers (self : t) (nb_examples : nat) (layers : list Linear.t)
    (x : tensor) : rand tensor :=
  match layers with
  | [] => mret x
  | layer :: layers' =>
      x ← hidden_layer self nb_examples layer x;
      run_layers self nb_examples layers' x
  end.

(** [forward(self, x)]. *)
Definition forward (self : t) (x : tensor) : rand (list (list R)) :=
  '(nb_examples, nb_nodes, nb_channels) ← pure (size3 x);
  x ← pure (torch_permute_0_2_1 x);
  x ← run_layers self nb_examples (my_layers self) x;
  pure (x ← view2_rows nb_examples (flatten x);
        Linear.forward (last_layer self) x).

(** [regularization(self, reg_lambda)]. *)
Definition regularization (self : t) (reg_lambda : R) : reg_value :=
  RegScalar 0.0.
End MLP.

Module LogisticRegression.
Record t : Type := {
  nb_nodes : nat;
  input_dim : nat;
  out_dim : nat;
  on_cuda : bool;
  my_logistic_layers : list Linear.t
}.

(** [forward(self, x)]. *)
Definition forward (self : t) (x : tensor) : result (list (list R)) :=
  '(nb_examples, nb_nodes, nb_channels) ← size3 x;
  x ← view2_rows nb_examples (flatten x);
  layer ← last_item (my_logistic_layers self);
  Linear.forward layer x.

(** [regularization(self, reg_lambda)]. *)
Definition regularization (self : t) (reg_lambda : R) : reg_value :=
  RegScalar 0.0.
End LogisticRegression.

(** ** Saved parameters

    [self.state_dict()] is the map from the names of the parameters of a
    model to its tensors; the tensors are the model's own, so writing into
    one of them with [copy_] changes the model.  A snapshot maps names to
    tensors, or to [nn.Parameter]s that wrap a tensor. *)

Inductive saved : Type :=
| SavedTensor (data : tensor)
| SavedParameter (data : tensor).

Definition saved_data (param : saved) : tensor :=
  match param with
  | SavedTensor data => data
  | SavedParameter data => data
  end.

(** [--model], as [get_model] of [models/model_layers.py] reads it.  The
    classes of ['gcn'], ['lcg'] and ['sgc'] are [GraphNetwork]s, which
    override [load_state_dict]; [SparseLogisticRegression] (['slr']),
    [LogisticRegression] (['lr']) and [MLP] (['mlp']) inherit the one
    of [nn.Module]. *)
Module ModelOption.
Inductive t : Type := gcn | lcg | sgc | slr | lr | mlp.

Definition is_graph_network (model : t) : bool :=
  match model with
  | gcn | lcg | sgc => true
  | slr | lr | mlp => false
  end.
End ModelOption.

Section LoadStateDict.
(** [dst.copy_(src)] is torch's: whether the shape of [src] fits [dst],
    and what [dst] holds afterwards (the entries of [src], converted and
    broadcast).  When the shapes do not fit it raises [RuntimeError]. *)
Variable compatible : tensor → tensor → bool.
Variable copied : tensor → tensor → tensor.

Definition copy_ (dst src : tensor) : result tensor :=
  if compatible dst src then Ok (copied dst src) else Raise RuntimeError.

(** The body of the loop of [GraphNetwork.load_state_dict]:
<<
          if name not in own_state:
              continue
          if isinstance(param, nn.Parameter):
              param = param.data
          try:
              own_state[name].copy_(param)
          except (AttributeError, RuntimeError):
              pass
>> *)
Definition load_entry (own_state : gmap string tensor)
    (name : string) (param : saved) : result (gmap string tensor) :=
  match own_state !! name with
  | None => Ok own_state
  | Some own =>
      let param := saved_data param in
      match copy_ own param with
      | Ok own => Ok (<[name := own]> own_state)
      | Raise AttributeError | Raise RuntimeError => Ok own_state
      | Raise e => Raise e
      end
  end.

(** [for name, param in state_dict.items()]. *)
Fixpoint load_items (items : list (string * saved))
    (own_state : gmap string tensor) : result (gmap string tensor) :=
  match items with
  | [] => Ok own_state
  | (name, param) :: items' =>
      own_state ← load_entry own_state name param;
      load_items items' own_state
  end.

(** [GraphNetwork.load_state_dict(self, state_dict)], as a function of the
    parameters of the model: the result is the parameters afterwards.  The
    names of a dictionary are distinct, and then the order in which the
    loop meets them does not matter ([load_items_lookup] below). *)
Definition load_state_dict (own_state : gmap string tensor)
    (state_dict : gmap string saved) : result (gmap string tensor) :=
  load_items (map_to_list state_dict) own_state.

(** [nn.Module.load_state_dict(state_dict)] of torch, with its default
    [strict=True], as of the torch 0.3 that the repository is written
    for: an entry whose name the model does not have raises [KeyError],
    an entry that cannot be copied raises [RuntimeError], and so does
    ([KeyError]) a parameter of the model that the snapshot does not
    name. *)
Definition module_load_entry (own_state : gmap string tensor)
    (name : string) (param : saved) : result (gmap string tensor) :=
  match own_state !! name with
  | Some own =>
      match copy_ own (saved_data param) with
      | Ok own => Ok (<[name := own]> own_state)
      | Raise _ => Raise RuntimeError
      end
  | None => Raise KeyError
  end.

Fixpoint module_load_items (items : list (string * saved))
    (own_state : gmap string tensor) : result (gmap string tensor) :=
  match items with
  | [] => Ok own_state
  | (name, param) :: items' =>
      own_state ← module_load_entry own_state name param;
      module_load_items items' own_state
  end.

Definition module_load_state_dict (own_state : gmap string tensor)
    (state_dict : gmap string saved) : result (gmap string tensor) :=
  own_state' ← module_load_items (map_to_list state_dict) own_state;
  if decide (dom own_state ⊆ dom state_dict) then Ok own_state'
  else Raise KeyError.

(** The end of [get_model]; [my_model.load_state_dict] is the method of
    the class of the model.
<<
  if model_state is not None:
      init_state_dict = my_model.state_dict()
      init_state_dict.update(model_state)
      my_model.load_state_dict(init_state_dict)
>> *)
Definition get_model_restore (model : ModelOption.t)
    (own_state : gmap string tensor)
    (model_state : option (gmap string saved)) : result (gmap string tensor) :=
  match model_state with
  | Some model_state =>
      let init_state_dict := (SavedTensor <$> own_state : gmap string saved) in
      let init_state_dict := model_state ∪ init_state_dict in
      if ModelOption.is_graph_network model
      then load_state_dict own_state init_state_dict
      else module_load_state_dict own_state init_state_dict
  | None => Ok own_state
  end.

(** A snapshot all of whose entries name a parameter of the model and can
    be copied to it. *)
Definition entry_fits (own_state : gmap string tensor)
    (name : string) (param : saved) : bool :=
  match own_state !! name with
  | Some own => compatible own (saved_data param)
  | None => false
  end.

Definition snapshot_fits (own_state : gmap string tensor)
    (model_state : gmap string saved) : Prop :=
  map_Forall (fun name param => entry_fits own_state name param = true)
             model_state.

(** What a parameter holds after a snapshot has been loaded. *)
Definition restored (own : tensor) (entry : option saved) : tensor :=
  match entry with
  | Some param =>
      if compatible own (saved_data param)
      then copied own (saved_data param)
      else own
  | None => own
  end.
End LoadStateDict.

(** Two tensors have the same shape. *)
Definition shape (x : tensor) : list nat :=
  match x with
  | Tensor1 v => [length v]
  | Tensor2 m => [length m; length (hd [] m)]
  | Tensor3 t => [length t; length (hd [] t); length (hd [] (hd [] t))]
  end.

Definition same_shape (dst src : tensor) : bool :=
  bool_decide (shape dst = shape src).

(** ** Computations that do not draw *)

Definition draws_nothing {A : Type} (m : rand A) : Prop :=
  ∃ r : result A, ∀ g, m g = pure r g.

(** A drop-out module that is absent, or switched off by [eval()]. *)
Definition inactive (dropout : option Dropout.t) : Prop :=
  match dropout with
  | Some d => Dropout.training d = false
  | None => True
  end.

(** ** The older [models.py] and the loop of [main.py]

    [main.py] drives the models of [models.py]: their [regularization]
    takes no argument and returns a list, one entry per [--lambdas]. *)

Module Legacy.

Module AttentionLayer.
Record t : Type := {
  in_dim : nat;
  attn : Linear.t;          (* nn.Linear(in_dim, 1) *)
  temperature : R
}.

Definition wf (self : t) : Prop :=
  Linear.wf (attn self)
  ∧ Linear.in_features (attn self) = in_dim self
  ∧ Linear.out_features (attn self) = 1%nat.

(** The weights that [forward] computes on its way:
<<
    nb_examples, nb_channels, nb_nodes = x.size()
    x = x.permute(0, 2, 1).contiguous()
    x = x.view(-1, nb_channels)
    attn_weights = torch.exp(self.attn(x)*self.temperature)
    attn_weights = attn_weights.view(nb_examples, nb_nodes, 1)
    attn_weights = attn_weights / attn_weights.sum(dim=1).unsqueeze(-1)
>>
    and the matrix [x] of the nodes. *)
Definition attention (self : t) (x : tensor)
    : result (list (list R) * list (list (list R))) :=
  '(nb_examples, nb_channels, nb_nodes) ← size3 x;
  x ← torch_permute_0_2_1 x;
  x ← view2_cols nb_channels (flatten x);
  scores ← Linear.forward (attn self) x;
  let attn_weights := map (map (fun s => exp (s * temperature self))) scores in
  attn_weights ← view3 nb_examples nb_nodes 1 (concat attn_weights);
  let total := map sum_vectors attn_weights in
  attn_weights ← bcast3 Rdiv attn_weights (map (fun v => [v]) total);
  Ok (x, attn_weights).

(** [forward(self, x)]. *)
Definition forward (self : t) (x : tensor) : result (list (list R)) :=
  '(nb_examples, nb_channels, nb_nodes) ← size3 x;
  '(x, attn_weights) ← attention self x;
  x ← view3 nb_examples nb_nodes nb_channels (concat x);
  attn_applied ← bcast3 Rmult x attn_weights;
  Ok (map sum_vectors attn_applied).
End AttentionLayer.

Module SparseLogisticRegression.
(** [__init__(self, nb_nodes, input_dim, adj, out_dim, on_cuda)]; [None]
    as for the constructor of [models/model_layers.py]. *)
Definition init (σ : store) (nb_nodes input_dim : nat) (adj : loc)
    (out_dim : nat) (on_cuda : bool)
    (w0 : list (list R)) (b0 : list R)
    : option (SparseLogisticRegression.t * store) :=
  a ← σ !! adj;
  (* np.fill_diagonal(adj, 0.) *)
  let a := fill_diagonal a 0 in
  let σ := <[adj := a]> σ in
  if laplacian_aligned a then
    let laplacian := make_laplacian a in
    let logistic_in_dim := (nb_nodes * input_dim)%nat in
    let logistic_layer :=
      {| Linear.in_features := logistic_in_dim; Linear.out_features := out_dim;
         Linear.weight := w0; Linear.bias := b0 |} in
    Some ({| SparseLogisticRegression.nb_nodes := nb_nodes;
             SparseLogisticRegression.input_dim := input_dim;
             SparseLogisticRegression.laplacian := laplacian;
             SparseLogisticRegression.out_dim := out_dim;
             SparseLogisticRegression.on_cuda := on_cuda;
             SparseLogisticRegression.my_logistic_layers := [logistic_layer] |},
          σ)
  else None.

(** [regularization(self)]. *)
Definition regularization (self : SparseLogisticRegression.t)
    : result reg_value :=
  layer ← last_item (SparseLogisticRegression.my_logistic_layers self);
  reg ← SparseLogisticRegression.smoothness_penalty
           (SparseLogisticRegression.laplacian self) (Linear.weight layer);
  Ok (RegList [reg]).
End SparseLogisticRegression.

Module GraphNetwork.
Section WithLayers.
Context {L : Type} `{GraphLayer L}.

(** The drop-out modules of [__init__]:
<<
  self.my_dropouts = [None] * (len(dims) - 1)
  if dropout:
      self.my_dropouts = nn.ModuleList([torch.nn.Dropout(int(dropout)*min(id_layer / 10., 0.5)) for id_layer in range(len(dims)-1)])
>> *)
Definition init_dropouts (dropout : bool) (nb_layers : nat)
    : list (option Dropout.t) :=
  if dropout
  then map (fun id_layer =>
              Some {| Dropout.p := 1 * Rmin (INR id_layer / 10) 0.5;
                      Dropout.training := true |})
           (seq 0 nb_layers)
  else replicate nb_layers None.

(** The body of the loop of [forward]; [last_g] is the product of the
    gates so far. *)
Definition conv_gate_relu (self : @GraphNetwork.t L) (layer : L)
    (gate : option ElementwiseGateLayer.t)
    (x : tensor) (last_g : option tensor) : result (tensor * option tensor) :=
  '(x, last_g) ←
    (if Rlt_dec 0 (GraphNetwork.use_gate self)
     then
       x ← layer_forward layer x;
       g ← match gate with
           | Some gate => ElementwiseGateLayer.forward gate x
           | None => Raise TypeError
           end;
       last_g ← match last_g with
                | None => Ok (Tensor3 g)
                | Some last_g => torch_mul last_g (Tensor3 g)
                end;
       x ← torch_mul (Tensor3 g) x;
       Ok (x, Some last_g)
     else
       x ← layer_forward layer x;
       Ok (x, last_g));
  Ok (torch_relu x, last_g).

Fixpoint run_layers (self : @GraphNetwork.t L)
    (layers : list (L * option ElementwiseGateLayer.t * option Dropout.t))
    (x : tensor) (last_g : option tensor) : rand tensor :=
  match layers with
  | [] => mret x
  | (layer, gate, dropout) :: layers' =>
      '(x, last_g) ← pure (conv_gate_relu self layer gate x last_g);
      x ← GraphNetwork.apply_dropout dropout x;
      run_layers self layers' x last_g
  end.

(** [forward(self, x)]. *)
Definition forward (self : @GraphNetwork.t L) (x : tensor)
    : rand (list (list R)) :=
  '(nb_examples, nb_nodes, nb_channels) ← pure (size3 x);
  x ← pure (if truthy (GraphNetwork.add_emb self)
            then match GraphNetwork.emb self with
                 | Some emb => EmbeddingLayer.forward emb x
                 | None => Raise AttributeError
                 end
            else Ok x);
  x ← run_layers self
        (zip (zip (GraphNetwork.my_convs self) (GraphNetwork.gates self))
             (GraphNetwork.my_dropouts self)) x None;
  pure (x ← view2_rows nb_examples (flatten x);
        layer ← last_item (GraphNetwork.my_logistic_layers self);
        Linear.forward layer x).

(** [regularization(self)]. *)
Definition regularization (self : @GraphNetwork.t L) : reg_value :=
  RegList [].
End WithLayers.
End GraphNetwork.

Module MLP.
(** [forward] is the one of [models/model_layers.py]. *)
Definition forward := MLP.forward.

(** [regularization(self)]. *)
Definition regularization (self : MLP.t) : reg_value := RegList [].
End MLP.

(** [main.py], line 172:
<<
          other_loss = sum([r * l for r, l in zip(my_model.regularization(), lambdas)])
>>
    A model whose [regularization] returned a number would fail here:
    [zip] takes sequences. *)
Definition other_loss (regularization : reg_value) (lambdas : list R)
    : result R :=
  match regularization with
  | RegList rs => Ok (sum_list (zip_with Rmult rs lambdas))
  | RegScalar _ => Raise TypeError
  end.
End Legacy.

(** The attention layer of [models/model_layers.py] with the parameters of
    one of [models.py], and one head. *)
Definition one_head (self : Legacy.AttentionLayer.t) : AttentionLayer.t :=
  {| AttentionLayer.in_dim := Legacy.AttentionLayer.in_dim self;
     AttentionLayer.nb_attention_head := 1;
     AttentionLayer.attn := Legacy.AttentionLayer.attn self;
     AttentionLayer.temperature := Legacy.AttentionLayer.temperature self |}.

(** ** The adjacency transform: pruning by percentile *)

Section PercentilePruning.
(** [np.percentile(values, q)]. *)
Variable percentile : list R → R → R.

(** Modelled from the spec: the percentile pruning of [get_transform],
    which is defined in [models/graph_layers.py] and not in the files at
    hand.  The spec: "Percentile pruning: retain only edge weights at or
    above a percentile threshold of the weight distribution; all others
    zeroed".  The parameter is the percentage of the edges to keep
    ([main.py]: [--percentile], default 100, "How many edges to keep"), so
    the threshold is the percentile [100 - keep] of the weights. *)
Definition percentile_prune (keep : R) (adj : list (list R)) : list (list R) :=
  let threshold := percentile (concat adj) (100 - keep) in
  map (map (fun w => if Rle_dec threshold w then w else 0)) adj.

(** Modelled from the spec: "Self-loops: optionally set diagonal to 1". *)
Definition add_self_loops (add_self : bool) (adj : list (list R))
    : list (list R) :=
  if add_self then fill_diagonal adj 1 else adj.
End PercentilePruning.

(** [np.percentile(values, 0)] is the smallest value. *)
Definition smallest (values : list R) : R :=
  fold_right Rmin (hd 0 values) values.

(** ** Networks for examples

    One pass-through layer, no gate and a logistic layer with weight 1:
    [plain_network] without drop-out, [dropout_network] with the drop-out
    module that [__init__] creates for the first layer ([p = 0.1]); and a
    generator whose first draw is 0 and whose later draws are 19/20. *)
Definition plain_network : @GraphNetwork.t unit :=
  {| GraphNetwork.out_dim := 1; GraphNetwork.on_cuda := false;
     GraphNetwork.nb_nodes := 1; GraphNetwork.nb_channels := [1%nat];
     GraphNetwork.add_emb := None; GraphNetwork.emb := None;
     GraphNetwork.dropout := false; GraphNetwork.attention_head := 0;
     GraphNetwork.my_convs := [tt];
     GraphNetwork.my_logistic_layers :=
       [ {| Linear.in_features := 1; Linear.out_features := 1;
            Linear.weight := [[1]]; Linear.bias := [0] |} ];
     GraphNetwork.use_gate := 0;
     GraphNetwork.gates := [None];
     GraphNetwork.my_dropouts := GraphNetwork.init_dropouts false 1;
     GraphNetwork.attentionLayer := None |}.

Definition dropout_network : @GraphNetwork.t unit :=
  {| GraphNetwork.out_dim := 1; GraphNetwork.on_cuda := false;
     GraphNetwork.nb_nodes := 1; GraphNetwork.nb_channels := [1%nat];
     GraphNetwork.add_emb := None; GraphNetwork.emb := None;
     GraphNetwork.dropout := true; GraphNetwork.attention_head := 0;
     GraphNetwork.my_convs := [tt];
     GraphNetwork.my_logistic_layers :=
       [ {| Linear.in_features := 1; Linear.out_features := 1;
            Linear.weight := [[1]]; Linear.bias := [0] |} ];
     GraphNetwork.use_gate := 0;
     GraphNetwork.gates := [None];
     GraphNetwork.my_dropouts := GraphNetwork.init_dropouts true 1;
     GraphNetwork.attentionLayer := None |}.


(** A perceptron with one hidden layer and drop-out. *)
Definition dropout_mlp : MLP.t :=
  {| MLP.out_dim := 1; MLP.on_cuda := false; MLP.dropout := true;
     MLP.my_layers :=
       [ {| Linear.in_features := 1; Linear.out_features := 1;
            Linear.weight := [[1]]; Linear.bias := [0] |} ];
     MLP.last_layer :=
       {| Linear.in_features := 1; Linear.out_features := 1;
          Linear.weight := [[2]]; Linear.bias := [1] |};
     MLP.my_dropout := Some {| Dropout.p := 0.5; Dropout.training := true |} |}.

Definition seeded_generator : Generator :=
  {| stream := fun k => match k with O => 0 | S _ => 19 / 20 end; cursor := 0 |}.


(** ** The other layers of [models/model_layers.py] *)

Module SoftPoolingLayer.
Record t : Type := {
  in_dim : nat;
  nb_attention_head : nat;
  attn : Linear.t;          (* nn.Linear(in_dim, nb_attention_head) *)
  temperature : R
}.

Definition wf (self : t) : Prop :=
  Linear.wf (attn self)
  ∧ Linear.in_features (attn self) = in_dim self
  ∧ Linear.out_features (attn self) = nb_attention_head self.

(** [forward(self, x)]: the weights of [AttentionLayer], summed over the
    heads; one number per example and node. *)
Definition forward (self : t) (x : tensor) : result (list (list (list R))) :=
  '(nb_examples, nb_nodes, nb_channels) ← size3 x;
  x ← view2_cols nb_channels (flatten x);
  scores ← Linear.forward (attn self) x;
  let attn_weights := map (map (fun s => exp (s * temperature self))) scores in
  attn_weights ← view3 nb_examples nb_nodes (nb_attention_head self)
                    (concat attn_weights);
  (* attn_weights / attn_weights.sum(dim=1).unsqueeze(1) *)
  let total := map sum_vectors attn_weights in
  attn_weights ← bcast3 Rdiv attn_weights (map (fun v => [v]) total);
  (* attn_weights.sum(dim=-1) *)
  let attn_weights := map (map sum_list) attn_weights in
  (* attn_weights.unsqueeze(-1) *)
  Ok (map (map (fun w => [w])) attn_weights).

(** The attention layer with the same parameters. *)
Definition as_attention (self : t) : AttentionLayer.t :=
  {| AttentionLayer.in_dim := in_dim self;
     AttentionLayer.nb_attention_head := nb_attention_head self;
     AttentionLayer.attn := attn self;
     AttentionLayer.temperature := temperature self |}.
End SoftPoolingLayer.

Module StaticElementwiseGateLayer.
Record t : Type := {
  in_dim : nat;
  attn : list R
}.

(** [__init__(self, id_dim)]:
<<
      self.attn = nn.Parameter(torch.zeros(50), requires_grad=True) + 1.
>> *)
Definition init (id_dim : nat) : t :=
  {| in_dim := id_dim; attn := map (fun z => z + 1) (replicate 50 0) |}.

(** [forward(self, x)]: the gate does not read the entries of [x], only
    its number of nodes. *)
Definition forward (self : t) (x : tensor) : result (list (list R)) :=
  '(nb_examples, nb_nodes, nb_channels) ← size3 x;
  let gate_weights := map sigmoid (attn self) in
  view2 nb_nodes 1 gate_weights.
End StaticElementwiseGateLayer.

(** ** The other models of [models.py] *)

(** [Random] has the layers of an [MLP]; its [forward] ignores them. *)
Module Random.
Record t : Type := {
  out_dim : nat;
  on_cuda : bool;
  my_layers : list Linear.t;
  last_layer : Linear.t
}.
End Random.

Module CNN.
(** One entry of [my_layers]:
    [nn.Sequential(nn.Conv2d(c_in, c_out, kernel_size, padding, stride), nn.ReLU())]. *)
Record conv_block : Type := {
  c_in : nat;
  c_out : nat
}.

Record t : Type := {
  input_dim : nat;
  channels : list nat;
  out_dim : nat;
  grid_shape : Z * Z;
  my_layers : list conv_block;
  fc : Linear.t
}.

Definition kernel_size : Z := 2.
Definition stride : Z := 1.
Definition padding : Z := 0.

(** [int(np.ceil(a / float(b)))] for integers [a] and [b]. *)
Definition ceil_div (a b : Z) : Z := (- ((- a) / b))%Z.

(** [zip(dims[:-1], dims[1:])]. *)
Definition consecutive (dims : list nat) : list (nat * nat) :=
  zip (removelast dims) (tail dims).

(** The loop of [__init__]: the layers, and the side of the grid that is
    left after them.
<<
        for c_in, c_out in zip(dims[:-1], dims[1:]):
            layer = nn.Sequential(nn.Conv2d(c_in, c_out, ...), nn.ReLU())
            layers.append(layer)
            new_size = np.ceil((current_size + 2*padding - (kernel_size -1))/float(stride))
            current_size = int(new_size)
>> *)
Fixpoint conv_loop (pairs : list (nat * nat)) (layers : list conv_block)
    (current_size : Z) : list conv_block * Z :=
  match pairs with
  | [] => (layers, current_size)
  | (c_in, c_out) :: pairs' =>
      let layer := {| c_in := c_in; c_out := c_out |} in
      let layers := layers ++ [layer] in
      let new_size :=
        ceil_div (current_size + 2 * padding - (kernel_size - 1)) stride in
      conv_loop pairs' layers new_size
  end.

(** [__init__(self, input_dim, channels, grid_shape, out_dim, on_cuda)];
    [w0], [b0] are the values torch initialises [fc] with. *)
Definition init (input_dim : nat) (channels : list nat) (grid_shape : Z * Z)
    (out_dim : nat) (w0 : list (list R)) (b0 : list R) : t :=
  let dims := input_dim :: channels in
  let current_size := grid_shape.1 in
  let '(layers, current_size) := conv_loop (consecutive dims) [] current_size in
  let out := (current_size * current_size * Z.of_nat (List.last dims 0%nat))%Z in
  {| input_dim := input_dim; channels := channels; out_dim := out_dim;
     grid_shape := grid_shape; my_layers := layers;
     fc := {| Linear.in_features := Z.to_nat out; Linear.out_features := out_dim;
              Linear.weight := w0; Linear.bias := b0 |} |}.
End CNN.

(** ** The L1 penalty

    [setup_l1_loss] and [calculate_l1_loss] are the same in
    [models/model_layers.py] and in [models.py]. *)

(** The models that [get_model] can return, in either file. *)
Inductive model (L : Type) : Type :=
| GraphNetworkModel (m : @GraphNetwork.t L)
| SparseLogisticRegressionModel (m : SparseLogisticRegression.t)
| LogisticRegressionModel (m : LogisticRegression.t)
| MLPModel (m : MLP.t)
| RandomModel (m : Random.t)
| CNNModel (m : CNN.t).

Arguments GraphNetworkModel {L} m.
Arguments SparseLogisticRegressionModel {L} m.
Arguments LogisticRegressionModel {L} m.
Arguments MLPModel {L} m.
Arguments RandomModel {L} m.
Arguments CNNModel {L} m.

(** A module as [type(...) == torch.nn.modules.linear.Linear] sees it. *)
Inductive nn_module : Type :=
| LinearModule (l : Linear.t)
| SequentialModule (block : CNN.conv_block).

(** [hasattr(my_model, ...)] and the attribute, for the three attributes
    that [setup_l1_loss] reads.  A [GraphNetwork] has
    [self.my_layers = []], set by [__init__] and never changed. *)
Definition attr_my_logistic_layers {L : Type} (my_model : model L)
    : option (list Linear.t) :=
  match my_model with
  | GraphNetworkModel m => Some (GraphNetwork.my_logistic_layers m)
  | SparseLogisticRegressionModel m =>
      Some (SparseLogisticRegression.my_logistic_layers m)
  | LogisticRegressionModel m => Some (LogisticRegression.my_logistic_layers m)
  | MLPModel _ | RandomModel _ | CNNModel _ => None
  end.

Definition attr_my_layers {L : Type} (my_model : model L)
    : option (list nn_module) :=
  match my_model with
  | GraphNetworkModel _ => Some []
  | MLPModel m => Some (map LinearModule (MLP.my_layers m))
  | RandomModel m => Some (map LinearModule (Random.my_layers m))
  | CNNModel m => Some (map SequentialModule (CNN.my_layers m))
  | SparseLogisticRegressionModel _ | LogisticRegressionModel _ => None
  end.

Definition attr_last_layer {L : Type} (my_model : model L) : option nn_module :=
  match my_model with
  | MLPModel m => Some (LinearModule (MLP.last_layer m))
  | RandomModel m => Some (LinearModule (Random.last_layer m))
  | _ => None
  end.

(** [layer.parameters()] of an [nn.Linear], and of an [nn.ModuleList] of
    them: the weight and the bias of every layer, in order. *)
Definition linear_parameters (l : Linear.t) : list tensor :=
  [Tensor2 (Linear.weight l); Tensor1 (Linear.bias l)].

Definition module_list_parameters (layers : list Linear.t) : list tensor :=
  concat (map linear_parameters layers).

(** [torch.FloatTensor(param.size()).zero_()]. *)
Definition zeros_like (param : tensor) : tensor :=
  match param with
  | Tensor1 v => Tensor1 (map (fun _ => 0) v)
  | Tensor2 m => Tensor2 (map (map (fun _ => 0)) m)
  | Tensor3 t => Tensor3 (map (map (map (fun _ => 0))) t)
  end.

(** [torch.nn.L1Loss(size_average)(input, target)]: the sum, or the mean,
    of the absolute differences; the two tensors have as many entries. *)
Definition L1Loss (size_average : bool) (input target : tensor) : result R :=
  let input := flatten input in
  let target := flatten target in
  if Nat.eqb (length input) (length target)
  then
    let total := sum_list (zip_with (fun a b => Rabs (a - b)) input target) in
    Ok (if size_average then total / INR (length input) else total)
  else Raise RuntimeError.

(** [calculate_l1_loss(param_generator, l1_loss_lambda, l1_criterion, on_cuda)]:
<<
    l1_loss = 0
    for param in param_generator:
        l1_target = Variable(torch.FloatTensor(param.size()).zero_())   # .cuda() if on_cuda
        l1_loss += l1_criterion(param, l1_target)
    return l1_loss * l1_loss_lambda
>> *)
Fixpoint calculate_l1_loss_loop (l1_criterion : tensor → tensor → result R)
    (param_generator : list tensor) (l1_loss : R) : result R :=
  match param_generator with
  | [] => Ok l1_loss
  | param :: rest =>
      let l1_target := zeros_like param in
      v ← l1_criterion param l1_target;
      calculate_l1_loss_loop l1_criterion rest (l1_loss + v)
  end.

Definition calculate_l1_loss (param_generator : list tensor) (l1_loss_lambda : R)
    (l1_criterion : tensor → tensor → result R) (on_cuda : bool) : result R :=
  l1_loss ← calculate_l1_loss_loop l1_criterion param_generator 0;
  Ok (l1_loss * l1_loss_lambda).

(** [setup_l1_loss(my_model, l1_loss_lambda, l1_criterion, on_cuda)]:
<<
    l1_loss = 0
    if hasattr(my_model, 'my_logistic_layers'):
        l1_loss += calculate_l1_loss(my_model.my_logistic_layers.parameters(), ...)
    if hasattr(my_model, 'my_layers') and len(my_model.my_layers) > 0 and type(my_model.my_layers[0]) == torch.nn.modules.linear.Linear:
        l1_loss += calculate_l1_loss(my_model.my_layers[0].parameters(), ...)
    if hasattr(my_model, 'last_layer') and type(my_model.last_layer) == torch.nn.modules.linear.Linear:
        l1_loss += calculate_l1_loss(my_model.last_layer.parameters(), ...)
    return l1_loss
>> *)
Definition setup_l1_loss {L : Type} (my_model : model L) (l1_loss_lambda : R)
    (l1_criterion : tensor → tensor → result R) (on_cuda : bool) : result R :=
  let l1_loss := 0 in
  l1_loss ←
    match attr_my_logistic_layers my_model with
    | Some layers =>
        v ← calculate_l1_loss (module_list_parameters layers) l1_loss_lambda
              l1_criterion on_cuda;
        Ok (l1_loss + v)
    | None => Ok l1_loss
    end;
  l1_loss ←
    match attr_my_layers my_model with
    | Some (LinearModule layer :: _) =>
        v ← calculate_l1_loss (linear_parameters layer) l1_loss_lambda
              l1_criterion on_cuda;
        Ok (l1_loss + v)
    | _ => Ok l1_loss
    end;
  l1_loss ←
    match attr_last_layer my_model with
    | Some (LinearModule layer) =>
        v ← calculate_l1_loss (linear_parameters layer) l1_loss_lambda
              l1_criterion on_cuda;
        Ok (l1_loss + v)
    | _ => Ok l1_loss
    end;
  Ok l1_loss.

(** The sum of the absolute values of the entries of a tensor, and of the
    parameters of a layer. *)
Definition l1_norm (x : tensor) : R := sum_list (map Rabs (flatten x)).

Definition linear_l1_norm (l : Linear.t) : R :=
  l1_norm (Tensor2 (Linear.weight l)) + l1_norm (Tensor1 (Linear.bias l)).

(** ** The training loop of [main.py] *)

Module Main.

(** [my_model.regularization()], line 172, for the models of [models.py].
    [LogisticRegression] is a class of [models/model_layers.py] only; its
    [regularization] takes [reg_lambda], and calling it without raises
    [TypeError]. *)
Definition model_regularization {L : Type} (my_model : model L)
    : result reg_value :=
  match my_model with
  | GraphNetworkModel m => Ok (Legacy.GraphNetwork.regularization m)
  | SparseLogisticRegressionModel m => Legacy.SparseLogisticRegression.regularization m
  | LogisticRegressionModel _ => Raise TypeError
  | MLPModel m => Ok (Legacy.MLP.regularization m)
  | RandomModel _ => Ok (RegList [])
  | CNNModel _ => Ok (RegList [])
  end.

(** Lines 171-174, after the forward pass; [cross_loss] is the value of
    the cross-entropy criterion.
<<
            other_loss = sum([r * l for r, l in zip(my_model.regularization(), lambdas)])
            l1_loss = models.setup_l1_loss(my_model, l1_loss_lambda, l1_criterion, on_cuda)
            total_loss = cross_loss + other_loss + l1_loss
>> *)
Definition total_loss {L : Type} (my_model : model L) (cross_loss : R)
    (lambdas : list R) (l1_loss_lambda : R) (on_cuda : bool) : result R :=
  regularization ← model_regularization my_model;
  other_loss ← Legacy.other_loss regularization lambdas;
  l1_loss ← setup_l1_loss my_model l1_loss_lambda (L1Loss false) on_cuda;
  Ok (cross_loss + other_loss + l1_loss).

Section BestSummary.
(** What [summarize] returns. *)
Context {Summary : Type}.

(** The end of the body of the loop over the epochs, lines 201-203:
<<
        if max_valid < auc['valid'] and t != 0:
            max_valid = auc['valid']
            best_summary = summarize(t, cross_loss.data[0], total_loss.data[0], acc, auc)
>>
    The state is [(max_valid, best_summary)]; the empty dictionary that
    [best_summary] starts with is [None]. *)
Definition keep_best (t : nat) (auc_valid : R) (summary : Summary)
    (state : R * option Summary) : R * option Summary :=
  let '(max_valid, best_summary) := state in
  if Rlt_dec max_valid auc_valid
  then if negb (Nat.eqb t 0) then (auc_valid, Some summary) else state
  else state.

(** [for t in range(epoch)], from epoch [t] on: [results] holds, for
    every epoch that is left, the validation AUC and the summary of the
    epoch. *)
Fixpoint epochs (t : nat) (results : list (R * Summary))
    (state : R * option Summary) : R * option Summary :=
  match results with
  | [] => state
  | (auc_valid, summary) :: results' =>
      epochs (S t) results' (keep_best t auc_valid summary state)
  end.

(** What [main] returns: [max_valid = 0], [best_summary = {}], the loop,
    [return best_summary]. *)
Definition best_summary (results : list (R * Summary)) : option Summary :=
  (epochs 0 results (0, None)).2.
End BestSummary.

(** *** The name of the experiment *)

(** The value of an option: [None], or anything else, as [format]
    prints it. *)
Inductive option_value : Type :=
| PyNone
| PyValue (printed : string).

Definition printed_value (v : option_value) : string :=
  match v with
  | PyNone => "None"
  | PyValue printed => printed
  end.

(** [del param[key]]; [None] stands for the [KeyError] of a missing
    key. *)
Definition del (key : string) (param : gmap string option_value)
    : option (gmap string option_value) :=
  match param !! key with
  | Some _ => Some (delete key param)
  | None => None
  end.

Fixpoint del_each (keys : list string) (param : gmap string option_value)
    : option (gmap string option_value) :=
  match keys with
  | [] => Some param
  | key :: keys' => param ← del key param; del_each keys' param
  end.

(** The options of lines 96-107, "a bunch of useless tag". *)
Definition useless_tags : list string :=
  ["data_dir"; "tensorboard_dir"; "cuda"; "log"; "train_ratio"; "epoch";
   "batch_size"; "clinical_file"; "attention_layer"; "clinical_label";
   "nb_per_class"; "lambdas"].

(** Lines 93-113: the options that name the experiment.
<<
    param = vars(opt).copy()
    del param['data_dir']
    ...
    del param['lambdas']
    v_to_delete = []
    for v in param:
        if param[v] is None:
            v_to_delete.append(v)
    for v in v_to_delete:
        del param[v]
>> *)
Definition is_none (param : gmap string option_value) (v : string) : bool :=
  match param !! v with
  | Some PyNone => true
  | _ => false
  end.

Definition experiment_param (opt : gmap string option_value)
    : option (gmap string option_value) :=
  let param := opt in
  param ← del_each useless_tags param;
  let v_to_delete :=
    filter (fun v => is_none param v) (map_to_list param).*1 in
  del_each v_to_delete param.

(** Line 115:
<<
    exp_name = '_'.join(['{}={}'.format(k, v) for k, v, in param.iteritems()])
>> *)
Definition exp_name (param : gmap string option_value) : string :=
  String.concat "_"
    (map (fun kv => (kv.1 +:+ "=" +:+ printed_value kv.2)%string)
         (map_to_list param)).

Definition experiment_name (opt : gmap string option_value) : option string :=
  exp_name <$> experiment_param opt.

(** Options for examples: the twelve tags, a model, a seed and no
    [--name]. *)
Definition example_options : gmap string option_value :=
  list_to_map
    [("data_dir", PyValue "data"); ("tensorboard_dir", PyValue "logs");
     ("cuda", PyValue "False"); ("log", PyValue "silent");
     ("train_ratio", PyValue "0.6"); ("epoch", PyValue "10");
     ("batch_size", PyValue "100"); ("clinical_file", PyValue "clinical");
     ("attention_layer", PyValue "0"); ("clinical_label", PyValue "gender");
     ("nb_per_class", PyNone); ("lambdas", PyValue "[]");
     ("model", PyValue "slr"); ("seed", PyValue "1993"); ("name", PyNone)].

End Main.

(** ** Networks whose parts fit together

    [GraphNetwork.__init__] creates one layer, one gate and one drop-out
    module for every pair of consecutive entries of
    [dims = [input_dim] + channels], and a logistic layer whose input
    size is [nb_nodes * dims[-1]], or [attention_head * dims[-1]] with
    attention.  The predicates below say this of a network, for inputs of
    [e] examples and [n] nodes. *)

Section Fits.
Context {L : Type} `{GraphLayer L}.

(** A graph layer from [c_in] to [c_out] channels that keeps the nodes. *)
Definition layer_maps (e n c_in c_out : nat) (layer : L) : Prop :=
  ∀ t, has_shape3 e n c_in t →
       ∃ t', layer_forward layer (Tensor3 t) = Ok (Tensor3 t')
             ∧ has_shape3 e n c_out t'.

(** With gating, the gate of a layer is there and reads the channels the
    layer writes. *)
Definition gate_fits (use_gate : R) (c : nat)
    (gate : option ElementwiseGateLayer.t) : Prop :=
  0 < use_gate →
  ∃ g, gate = Some g ∧ ElementwiseGateLayer.wf g
       ∧ ElementwiseGateLayer.in_dim g = c.

(** The layers lead from [c] channels to [c_last] channels. *)
Fixpoint layers_fit (use_gate : R) (e n c : nat)
    (layers : list (L * option ElementwiseGateLayer.t * option Dropout.t))
    (c_last : nat) : Prop :=
  match layers with
  | [] => c = c_last
  | (layer, gate, dropout) :: layers' =>
      ∃ c', (0 < c')%nat
            ∧ layer_maps e n c c' layer
            ∧ gate_fits use_gate c' gate
            ∧ layers_fit use_gate e n c' layers' c_last
  end.

(** The input has [c] channels and the first layer reads [c0]: the same
    number, or with embeddings one channel and the size of the
    embedding. *)
Definition input_fits (self : @GraphNetwork.t L) (n c c0 : nat) : Prop :=
  if truthy (GraphNetwork.add_emb self)
  then ∃ emb, GraphNetwork.emb self = Some emb
              ∧ is_matrix n c0 (EmbeddingLayer.emb emb) ∧ c = 1%nat
  else c0 = c.

(** The logistic layer reads what the last layer, or the attention
    pooling, writes. *)
Definition readout_fits (self : @GraphNetwork.t L) (n c_last : nat)
    (layer : Linear.t) : Prop :=
  last (GraphNetwork.my_logistic_layers self) = Some layer
  ∧ Linear.wf layer
  ∧ if truthy_int (GraphNetwork.attention_head self)
    then ∃ a, GraphNetwork.attentionLayer self = Some a
              ∧ AttentionLayer.wf a
              ∧ AttentionLayer.in_dim a = c_last
              ∧ AttentionLayer.nb_attention_head a = GraphNetwork.attention_head self
              ∧ (0 < c_last)%nat
              ∧ Linear.in_features layer
                = (GraphNetwork.attention_head self * c_last)%nat
    else Linear.in_features layer = (n * c_last)%nat.

End Fits.

(** The generator after [k] more draws. *)
Definition advance (g : Generator) (k : nat) : Generator :=
  {| stream := stream g; cursor := cursor g + k |}.

(** ** Multi-layer perceptrons whose layers fit together

    [MLP.__init__] creates the hidden layers [nn.Linear(c_in, c_out)] for
    the consecutive entries of [dims = [input_dim] + channels], and a last
    layer that reads [dims[-1]] numbers. *)
Fixpoint linear_chain_fits (c : nat) (layers : list Linear.t) (c_last : nat)
    : Prop :=
  match layers with
  | [] => c = c_last
  | layer :: layers' =>
      Linear.wf layer ∧ Linear.in_features layer = c
      ∧ linear_chain_fits (Linear.out_features layer) layers' c_last
  end.

(** What the hidden layers make of one flattened example, without
    drop-out. *)
Definition mlp_hidden (layers : list Linear.t) (v : list R) : list R :=
  fold_left (fun v layer => map relu (Linear.output layer v)) layers v.

(** ** [GraphNetwork.__init__]

    The graph layer classes are those of [models/graph_layers.py]: a
    class is its constructor, and [layer.adj] is the adjacency matrix that
    the layer hands to the next one.  The values that torch draws for the
    new parameters are arguments. *)

Record initial_values : Type := {
  init_emb : list (list R);                       (* nb_nodes x emb_size *)
  init_logistic : list (list R) * list R;         (* weight and bias *)
  init_gate : nat → list (list R) * list R;       (* of the gate of layer i *)
  init_attention : list (list R) * list R
}.

Section GraphNetworkInit.
Context {L Adj Tr Ag : Type}.
Variable graph_layer_type :
  Adj → nat → nat → bool → nat → option (list Tr) → option Ag → L.
Variable layer_adj : L → Adj.
(** [adj.shape[0]]. *)
Variable adj_shape_0 : Adj → nat.

(** The loop over the layers:
<<
        for i, [c_in, c_out] in enumerate(zip(dims[:-1], dims[1:])):
            if self.aggregate_adj is not None:
                for el in range(self.prepool_extralayers):
                    layer = graph_layer_type(adj, c_in, c_in, on_cuda, i, transform_adj=None, aggregate_adj=None)
                    convs.append(layer)
            layer = graph_layer_type(adj, c_in, c_out, on_cuda, i, transform_adj=transform_adj, aggregate_adj=aggregate_adj)
            convs.append(layer)
            adj = convs[-1].adj
>> *)
Fixpoint init_convs (on_cuda : bool) (transform_adj : list Tr)
    (aggregate_adj : option Ag) (prepool_extralayers : nat)
    (i : nat) (pairs : list (nat * nat)) (adj : Adj) (convs : list L) : list L :=
  match pairs with
  | [] => convs
  | (c_in, c_out) :: pairs' =>
      let convs :=
        match aggregate_adj with
        | Some _ =>
            convs ++ map (fun el => graph_layer_type adj c_in c_in on_cuda i None None)
                         (seq 0 prepool_extralayers)
        | None => convs
        end in
      let layer :=
        graph_layer_type adj c_in c_out on_cuda i (Some transform_adj)
          aggregate_adj in
      let convs := convs ++ [layer] in
      let adj := layer_adj layer in
      init_convs on_cuda transform_adj aggregate_adj prepool_extralayers
        (S i) pairs' adj convs
  end.

(** [ElementwiseGateLayer(c_in)] with the values [wb] of its
    [nn.Linear(c_in, 1, bias=True)]. *)
Definition new_gate (c_in : nat) (wb : list (list R) * list R)
    : ElementwiseGateLayer.t :=
  {| ElementwiseGateLayer.in_dim := c_in;
     ElementwiseGateLayer.attn :=
       {| Linear.in_features := c_in; Linear.out_features := 1;
          Linear.weight := wb.1; Linear.bias := wb.2 |} |}.

(** [__init__(self, nb_nodes, input_dim, channels, adj, out_dim, on_cuda,
    add_emb, transform_adj, aggregate_adj, prepool_extralayers,
    graph_layer_type, use_gate, dropout, attention_head, master_nodes)]. *)
Definition GraphNetwork_init (nb_nodes input_dim : nat) (channels : list nat)
    (adj : Adj) (out_dim : option nat) (on_cuda : bool) (add_emb : option nat)
    (transform_adj : option (list Tr)) (aggregate_adj : option Ag)
    (prepool_extralayers : nat) (use_gate : R) (dropout : bool)
    (attention_head : nat) (values : initial_values) : @GraphNetwork.t L :=
  let transform_adj := match transform_adj with Some tr => tr | None => [] end in
  let out_dim := match out_dim with Some d => d | None => 2%nat end in
  let self_nb_nodes := adj_shape_0 adj in
  (* if add_emb: self.emb = EmbeddingLayer(nb_nodes, add_emb) *)
  let emb :=
    match add_emb with
    | Some emb_size =>
        if truthy_int emb_size
        then Some {| EmbeddingLayer.emb_size := emb_size;
                     EmbeddingLayer.emb := init_emb values |}
        else None
    | None => None
    end in
  let input_dim :=
    match emb with
    | Some emb => EmbeddingLayer.emb_size emb
    | None => input_dim
    end in
  (* The graph convolutional layers *)
  let dims := input_dim :: channels in
  let convs :=
    init_convs on_cuda transform_adj aggregate_adj prepool_extralayers
      0 (CNN.consecutive dims) adj [] in
  (* The logistic layer *)
  let logistic_in_dim :=
    if Nat.ltb 0 attention_head
    then (attention_head * List.last dims 0)%nat
    else (self_nb_nodes * List.last dims 0)%nat in
  let logistic_layer :=
    {| Linear.in_features := logistic_in_dim; Linear.out_features := out_dim;
       Linear.weight := (init_logistic values).1;
       Linear.bias := (init_logistic values).2 |} in
  (* The gating *)
  let gates :=
    if Rlt_dec 0 use_gate
    then imap (fun i c_in => Some (new_gate c_in (init_gate values i))) (tail dims)
    else replicate (length dims - 1) None in
  (* Drop out *)
  let my_dropouts := GraphNetwork.init_dropouts dropout (length dims - 1) in
  (* Attention *)
  let attentionLayer :=
    if truthy_int attention_head
    then Some {| AttentionLayer.in_dim := List.last dims 0%nat;
                 AttentionLayer.nb_attention_head := attention_head;
                 AttentionLayer.attn :=
                   {| Linear.in_features := List.last dims 0%nat;
                      Linear.out_features := attention_head;
                      Linear.weight := (init_attention values).1;
                      Linear.bias := (init_attention values).2 |};
                 AttentionLayer.temperature := 1 |}
    else None in
  {| GraphNetwork.out_dim := out_dim;
     GraphNetwork.on_cuda := on_cuda;
     GraphNetwork.nb_nodes := self_nb_nodes;
     GraphNetwork.nb_channels := channels;
     GraphNetwork.add_emb := add_emb;
     GraphNetwork.emb := emb;
     GraphNetwork.dropout := dropout;
     GraphNetwork.attention_head := attention_head;
     GraphNetwork.my_convs := convs;
     GraphNetwork.my_logistic_layers := [logistic_layer];
     GraphNetwork.use_gate := use_gate;
     GraphNetwork.gates := gates;
     GraphNetwork.my_dropouts := my_dropouts;
     GraphNetwork.attentionLayer := attentionLayer |}.
End GraphNetworkInit.

(** Every parameter of a network has the shape that its constructor
    gives it: [nn.Linear(d_in, d_out)] a weight of [d_out] rows of [d_in]
    entries and a bias of [d_out] entries, [EmbeddingLayer(nb_emb,
    emb_size)] an embedding of [nb_emb] rows of [emb_size] entries. *)
Definition parameters_have_their_shapes {L : Type} (nb_emb : nat)
    (self : @GraphNetwork.t L) : Prop :=
  Forall Linear.wf (GraphNetwork.my_logistic_layers self)
  ∧ Forall (fun gate => match gate with
                        | Some gate => Linear.wf (ElementwiseGateLayer.attn gate)
                        | None => True
                        end)
           (GraphNetwork.gates self)
  ∧ match GraphNetwork.attentionLayer self with
    | Some layer => Linear.wf (AttentionLayer.attn layer)
    | None => True
    end
  ∧ match GraphNetwork.emb self with
    | Some emb =>
        is_matrix nb_emb (EmbeddingLayer.emb_size emb) (EmbeddingLayer.emb emb)
    | None => True
    end.

(** A graph layer for examples: a layer of [c_out] channels whose weights
    are all zero writes [c_out] zeros for every node. *)
Definition zero_layer : GraphLayer nat :=
  {| layer_forward := fun c_out x =>
       match x with
       | Tensor3 t => Ok (Tensor3 (map (map (fun _ => replicate c_out 0)) t))
       | _ => Raise ValueError
       end |}.

(** The values of the parameters of a network for examples: two nodes,
    one layer of three channels with its gate, and two classes. *)
Definition example_values : initial_values :=
  {| init_emb := [];
     init_logistic := ([[1; 0; 0; 0; 0; 0]; [0; 0; 0; 1; 0; 0]], [1; 2]);
     init_gate := fun _ => ([[1; 1; 1]], [0]);
     init_attention := ([], []) |}.

(** ** [MLP.__init__]

    [hidden_values i] and [last_values] are the values that torch draws
    for the weight and the bias of hidden layer [i] and of the last
    layer. *)
Definition MLP_init (input_dim : option nat) (channels : list nat)
    (out_dim : option nat) (on_cuda : bool) (dropout : bool)
    (hidden_values : nat → list (list R) * list R)
    (last_values : list (list R) * list R) : MLP.t :=
  let out_dim := match out_dim with Some d => d | None => 2%nat end in
  let input_dim := match input_dim with Some d => d | None => 2%nat end in
  let dims := input_dim :: channels in
  (* for c_in, c_out in zip(dims[:-1], dims[1:]): layers.append(nn.Linear(c_in, c_out)) *)
  let layers :=
    imap (fun i p =>
            {| Linear.in_features := p.1; Linear.out_features := p.2;
               Linear.weight := (hidden_values i).1;
               Linear.bias := (hidden_values i).2 |})
         (CNN.consecutive dims) in
  (* if channels: nn.Linear(channels[-1], out_dim) else: nn.Linear(input_dim, out_dim) *)
  let last_layer :=
    match channels with
    | _ :: _ =>
        {| Linear.in_features := List.last channels 0%nat;
           Linear.out_features := out_dim;
           Linear.weight := last_values.1; Linear.bias := last_values.2 |}
    | [] =>
        {| Linear.in_features := input_dim; Linear.out_features := out_dim;
           Linear.weight := last_values.1; Linear.bias := last_values.2 |}
    end in
  let my_dropout :=
    if dropout then Some {| Dropout.p := 0.5; Dropout.training := true |}
    else None in
  {| MLP.out_dim := out_dim; MLP.on_cuda := on_cuda; MLP.dropout := dropout;
     MLP.my_layers := layers; MLP.last_layer := last_layer;
     MLP.my_dropout := my_dropout |}.

(** * Part II.  Lemmas and theorems *)

(** ** Sums over an index range *)

Lemma sum_list_app (xs ys : list R) :
  sum_list (xs ++ ys) = sum_list xs + sum_list ys.
Proof.
  induction xs as [|x xs IH]; simpl.
  - lra.
  - rewrite IH. lra.
Qed.

Lemma Rsum_S (n : nat) (f : nat → R) : Rsum (S n) f = Rsum n f + f n.
Proof.
  unfold Rsum. rewrite seq_S, map_app, sum_list_app. simpl. lra.
Qed.

Lemma Rsum_0 (f : nat → R) : Rsum 0 f = 0.
Proof. reflexivity. Qed.

Lemma Rsum_ext (n : nat) (f g : nat → R) :
  (∀ i, (i < n)%nat → f i = g i) → Rsum n f = Rsum n g.
Proof.
  induction n as [|n IH]; intros Hfg.
  - reflexivity.
  - rewrite !Rsum_S, IH, (Hfg n) by (intros; try apply Hfg; lia). reflexivity.
Qed.

Lemma Rsum_plus (n : nat) (f g : nat → R) :
  Rsum n (fun i => f i + g i) = Rsum n f + Rsum n g.
Proof.
  induction n as [|n IH].
  - rewrite !Rsum_0. lra.
  - rewrite !Rsum_S, IH. lra.
Qed.

Lemma Rsum_minus (n : nat) (f g : nat → R) :
  Rsum n (fun i => f i - g i) = Rsum n f - Rsum n g.
Proof.
  induction n as [|n IH].
  - rewrite !Rsum_0. lra.
  - rewrite !Rsum_S, IH. lra.
Qed.

Lemma Rsum_scal_l (n : nat) (c : R) (f : nat → R) :
  Rsum n (fun i => c * f i) = c * Rsum n f.
Proof.
  induction n as [|n IH].
  - rewrite !Rsum_0. lra.
  - rewrite !Rsum_S, IH. lra.
Qed.

Lemma Rsum_scal_r (n : nat) (c : R) (f : nat → R) :
  Rsum n (fun i => f i * c) = Rsum n f * c.
Proof.
  induction n as [|n IH].
  - rewrite !Rsum_0. lra.
  - rewrite !Rsum_S, IH. lra.
Qed.

Lemma Rsum_zero (n : nat) : Rsum n (fun _ => 0) = 0.
Proof.
  induction n as [|n IH].
  - reflexivity.
  - rewrite Rsum_S, IH. lra.
Qed.

Lemma Rsum_nonneg (n : nat) (f : nat → R) :
  (∀ i, (i < n)%nat → 0 <= f i) → 0 <= Rsum n f.
Proof.
  induction n as [|n IH]; intros Hf.
  - rewrite Rsum_0. lra.
  - rewrite Rsum_S.
    assert (0 <= Rsum n f) by (apply IH; intros; apply Hf; lia).
    assert (0 <= f n) by (apply Hf; lia). lra.
Qed.

Lemma Rsum_pos (n : nat) (f : nat → R) :
  (0 < n)%nat → (∀ i, (i < n)%nat → 0 < f i) → 0 < Rsum n f.
Proof.
  intros Hn Hf. destruct n as [|n]; [lia|].
  rewrite Rsum_S.
  assert (0 <= Rsum n f) by (apply Rsum_nonneg; intros; left; apply Hf; lia).
  assert (0 < f n) by (apply Hf; lia). lra.
Qed.

(** The two orders of a double sum. *)
Lemma Rsum_swap (n m : nat) (f : nat → nat → R) :
  Rsum n (fun i => Rsum m (fun j => f i j))
  = Rsum m (fun j => Rsum n (fun i => f i j)).
Proof.
  induction n as [|n IH].
  - rewrite Rsum_0. symmetry. rewrite <- (Rsum_zero m). apply Rsum_ext.
    intros. reflexivity.
  - rewrite Rsum_S, IH, <- Rsum_plus. apply Rsum_ext.
    intros j _. rewrite Rsum_S. reflexivity.
Qed.

(** A sum with one non-zero term. *)
Lemma Rsum_single (n i : nat) (f : nat → R) :
  (i < n)%nat →
  Rsum n (fun k => if Nat.eqb i k then f k else 0) = f i.
Proof.
  induction n as [|n IH]; intros Hi; [lia|].
  rewrite Rsum_S. destruct (Nat.eqb_spec i n) as [->|Hne].
  - rewrite (Rsum_ext n _ (fun _ => 0)), Rsum_zero; [lra|].
    intros k Hk. destruct (Nat.eqb_spec n k); [lia|reflexivity].
  - rewrite IH by lia. lra.
Qed.

Lemma Rsum_single_r (n j : nat) (f : nat → R) :
  (j < n)%nat →
  Rsum n (fun k => if Nat.eqb k j then f k else 0) = f j.
Proof.
  intros Hj. rewrite <- (Rsum_single n j f Hj). apply Rsum_ext.
  intros k _. rewrite Nat.eqb_sym. reflexivity.
Qed.

Lemma sum_list_nth (xs : list R) :
  sum_list xs = Rsum (length xs) (fun i => nth i xs 0).
Proof.
  induction xs as [|x xs IH] using rev_ind.
  - reflexivity.
  - rewrite sum_list_app, length_app, Nat.add_1_r, Rsum_S. simpl.
    rewrite IH. f_equal.
    + apply Rsum_ext. intros i Hi. rewrite app_nth1 by lia. reflexivity.
    + rewrite app_nth2, Nat.sub_diag by lia. simpl. lra.
Qed.

(** ** Arrays *)

Section ArrayLemmas.
Context {T : Type} `{Scalar T}.

Lemma length_tabulate (n m : nat) (f : nat → nat → T) :
  length (tabulate n m f) = n.
Proof. unfold tabulate. by rewrite length_map, length_seq. Qed.

Lemma is_matrix_tabulate (n m : nat) (f : nat → nat → T) :
  is_matrix n m (tabulate n m f).
Proof.
  split; [apply length_tabulate|].
  unfold tabulate. apply Forall_forall. intros row Hrow.
  apply list_elem_of_In, in_map_iff in Hrow as (i & <- & _).
  by rewrite length_map, length_seq.
Qed.

Lemma nth_tabulate (n m : nat) (f : nat → nat → T) (i : nat) :
  (i < n)%nat →
  nth i (tabulate n m f) [] = map (fun j => f i j) (seq 0 m).
Proof.
  intros Hi. unfold tabulate.
  rewrite (nth_indep _ [] (map (fun j => f 0%nat j) (seq 0 m)))
    by (by rewrite length_map, length_seq).
  rewrite (map_nth (fun i => map (fun j => f i j) (seq 0 m))).
  by rewrite seq_nth.
Qed.

Lemma entry_tabulate (n m : nat) (f : nat → nat → T) (i j : nat) :
  (i < n)%nat → (j < m)%nat → entry (tabulate n m f) i j = f i j.
Proof.
  intros Hi Hj. unfold entry. rewrite nth_tabulate by done.
  rewrite (nth_indep _ sc_zero (f i 0%nat))
    by (by rewrite length_map, length_seq).
  rewrite (map_nth (fun j => f i j)). by rewrite seq_nth.
Qed.

Lemma ncols_tabulate (n m : nat) (f : nat → nat → T) :
  (0 < n)%nat → ncols (tabulate n m f) = m.
Proof.
  intros Hn. unfold ncols. destruct n as [|n]; [lia|].
  unfold tabulate. simpl. by rewrite length_map, length_seq.
Qed.

Lemma ncols_is_matrix (n m : nat) (a : list (list T)) :
  (0 < n)%nat → is_matrix n m a → ncols a = m.
Proof.
  intros Hn [Hlen Hrows]. unfold ncols.
  destruct a as [|row a]; simpl in *; [lia|].
  by apply Forall_cons_1 in Hrows as [? _].
Qed.

(** What [np.fill_diagonal] leaves at position (i, j). *)
Lemma length_fill_diagonal (a : list (list T)) (val : T) :
  length (fill_diagonal a val) = length a.
Proof. unfold fill_diagonal. apply length_imap. Qed.

Lemma nth_fill_diagonal (a : list (list T)) (val : T) (i : nat) :
  nth i (fill_diagonal a val) [] = <[i := val]> (nth i a []).
Proof.
  unfold fill_diagonal. rewrite !nth_lookup, list_lookup_imap.
  by destruct (a !! i).
Qed.

Lemma is_matrix_fill_diagonal (n m : nat) (a : list (list T)) (val : T) :
  is_matrix n m a → is_matrix n m (fill_diagonal a val).
Proof.
  intros [Hlen Hrows]. split; [by rewrite length_fill_diagonal|].
  unfold fill_diagonal. apply Forall_forall. intros row Hrow.
  apply list_elem_of_lookup in Hrow as [i Hi].
  rewrite list_lookup_imap in Hi.
  destruct (a !! i) as [row'|] eqn:Hrow'; simplify_eq/=.
  rewrite length_insert.
  eapply (Forall_lookup_1 _ _ _ _ Hrows Hrow').
Qed.

Lemma entry_fill_diagonal_diag (a : list (list T)) (val : T) (i : nat) :
  (i < length (nth i a []))%nat → entry (fill_diagonal a val) i i = val.
Proof.
  intros Hi. unfold entry. rewrite nth_fill_diagonal.
  apply nth_lookup_Some. by apply list_lookup_insert_eq.
Qed.

Lemma entry_fill_diagonal_off (a : list (list T)) (val : T) (i j : nat) :
  i ≠ j → entry (fill_diagonal a val) i j = entry a i j.
Proof.
  intros Hij. unfold entry. rewrite nth_fill_diagonal.
  by rewrite !nth_lookup, list_lookup_insert_ne.
Qed.

Lemma length_nth_is_matrix (n m : nat) (a : list (list T)) (i : nat) :
  is_matrix n m a → (i < n)%nat → length (nth i a []) = m.
Proof.
  intros [Hlen Hrows] Hi. rewrite Forall_forall in Hrows.
  apply Hrows, list_elem_of_In, nth_In. lia.
Qed.

Lemma ncols_square (n : nat) (a : list (list T)) :
  is_matrix n n a → ncols a = n.
Proof.
  intros [Hlen Hrows]. unfold ncols. destruct a as [|row a]; simpl in *.
  - done.
  - by apply Forall_cons_1 in Hrows as [? _].
Qed.

Lemma shape_np_diag (v : list T) :
  nrows (np_diag v) = length v ∧ ncols (np_diag v) = length v.
Proof.
  unfold np_diag. split.
  - unfold nrows. by rewrite length_tabulate.
  - apply ncols_square. apply is_matrix_tabulate.
Qed.

(** On a square array the products of the Laplacian are aligned. *)
Lemma laplacian_aligned_square (n : nat) (a : list (list T)) :
  is_matrix n n a → laplacian_aligned a = true.
Proof.
  intros Hsq. unfold laplacian_aligned, dot_aligned.
  assert (length (inv_sqrt_degrees a) = n) as Hs.
  { unfold inv_sqrt_degrees, degrees, sum_axis0.
    rewrite !length_map, length_seq. by apply ncols_square. }
  destruct (shape_np_diag (inv_sqrt_degrees a)) as [Hr Hc].
  rewrite Hs in Hr, Hc. rewrite Hc, Hr.
  assert (nrows a = n) as -> by (by destruct Hsq).
  rewrite Nat.eqb_refl. simpl.
  apply Nat.eqb_eq. unfold np_dot. rewrite Hr, (ncols_square n a Hsq).
  apply ncols_square. apply is_matrix_tabulate.
Qed.
End ArrayLemmas.

(** ** The constructor of [SparseLogisticRegression] and its caller's array *)

Lemma slr_init_unfold (σ : store) (nb_nodes input_dim n : nat) (adj : loc)
    (out_dim : option nat) (on_cuda : bool) (w0 : list (list R)) (b0 : list R)
    (a : list (list R)) :
  σ !! adj = Some a →
  is_matrix n n a →
  ∃ model,
    SparseLogisticRegression.init σ nb_nodes input_dim adj out_dim on_cuda w0 b0
    = Some (model, <[adj := fill_diagonal a 0]> σ)
    ∧ SparseLogisticRegression.laplacian model
      = make_laplacian (fill_diagonal a 0)
    ∧ SparseLogisticRegression.my_logistic_layers model
      = [ {| Linear.in_features := (nb_nodes * input_dim)%nat;
             Linear.out_features := default 2%nat out_dim;
             Linear.weight := w0; Linear.bias := b0 |} ].
Proof.
  intros Ha Hsq. unfold SparseLogisticRegression.init. rewrite Ha.
  cbn [mbind option_bind].
  rewrite (laplacian_aligned_square n)
    by (by apply is_matrix_fill_diagonal).
  eexists. split; [reflexivity|]. split; [reflexivity|].
  simpl. by destruct out_dim.
Qed.

(** C10.  Constructing a [SparseLogisticRegression] overwrites the array
    the caller passed as [adj]: after the constructor has run, the caller's
    array has the shape it had, every entry on its diagonal is 0, every
    entry off the diagonal is the one it was, and no other array of the
    store has changed.  The Laplacian of the model is computed from the
    array with the zeroed diagonal. *)
Theorem slr_init_zeroes_callers_diagonal
    (σ : store) (nb_nodes input_dim n : nat) (adj : loc)
    (out_dim : option nat) (on_cuda : bool) (w0 : list (list R)) (b0 : list R)
    (a : list (list R)) :
  σ !! adj = Some a →
  is_matrix n n a →
  ∃ model σ' a',
    SparseLogisticRegression.init σ nb_nodes input_dim adj out_dim on_cuda w0 b0
    = Some (model, σ')
    ∧ σ' !! adj = Some a'
    ∧ is_matrix n n a'
    ∧ (∀ i, (i < n)%nat → entry a' i i = 0)
    ∧ (∀ i j, i ≠ j → entry a' i j = entry a i j)
    ∧ (∀ l, l ≠ adj → σ' !! l = σ !! l)
    ∧ SparseLogisticRegression.laplacian model = make_laplacian a'.
Proof.
  intros Ha Hsq.
  destruct (slr_init_unfold σ nb_nodes input_dim n adj out_dim on_cuda w0 b0 a
              Ha Hsq) as (model & Hinit & HL & _).
  exists model, (<[adj := fill_diagonal a 0]> σ), (fill_diagonal a 0).
  split_and!.
  - exact Hinit.
  - apply lookup_insert_eq.
  - by apply (is_matrix_fill_diagonal n n a 0 Hsq).
  - intros i Hi. apply entry_fill_diagonal_diag.
    by rewrite (length_nth_is_matrix n n a i Hsq Hi).
  - intros i j Hij. by apply entry_fill_diagonal_off.
  - intros l Hl. by rewrite lookup_insert_ne.
  - exact HL.
Qed.

Lemma slr_init_zeroes_callers_diagonal_witness :
  ∃ model σ' a',
    SparseLogisticRegression.init {[ 7%nat := [[5; 1]; [1; 3]] ]} 2 1 7 None false
      [[0; 0]; [0; 0]] [0; 0] = Some (model, σ')
    ∧ σ' !! 7%nat = Some a'
    ∧ is_matrix 2 2 a'
    ∧ (∀ i, (i < 2)%nat → entry a' i i = 0)
    ∧ (∀ i j, i ≠ j → entry a' i j = entry [[5; 1]; [1; 3]] i j)
    ∧ (∀ l, l ≠ 7%nat → σ' !! l = ({[ 7%nat := [[5; 1]; [1; 3]] ]} : store) !! l)
    ∧ SparseLogisticRegression.laplacian model = make_laplacian a'.
Proof.
  apply (slr_init_zeroes_callers_diagonal
           {[ 7%nat := [[5; 1]; [1; 3]] ]} 2 1 2 7 None false
           [[0; 0]; [0; 0]] [0; 0] [[5; 1]; [1; 3]]).
  - apply lookup_singleton_eq.
  - split; [reflexivity|]. repeat constructor.
Defined.

(** The array the caller holds afterwards is not the one it passed. *)
Example slr_init_mutation_is_visible :
  ∃ model,
    SparseLogisticRegression.init {[ 7%nat := [[5; 1]; [1; 3]] ]} 2 1 7 None false
      [[0; 0]; [0; 0]] [0; 0]
    = Some (model, {[ 7%nat := [[0; 1]; [1; 0]] ]}).
Proof.
  destruct (slr_init_unfold {[ 7%nat := [[5; 1]; [1; 3]] ]} 2 1 2 7 None false
              [[0; 0]; [0; 0]] [0; 0] [[5; 1]; [1; 3]]) as (model & Hinit & _).
  { apply lookup_singleton_eq. }
  { split; [reflexivity|]. repeat constructor. }
  exists model. rewrite Hinit, insert_singleton_eq. reflexivity.
Qed.

(** ** Real arrays read as arrays of floats *)

Lemma entry_lift (a : list (list R)) (i j : nat) :
  entry (lift a) i j = Finite (entry a i j).
Proof.
  unfold entry, lift. simpl.
  change (@nil npfloat) with (map Finite []).
  rewrite (map_nth (map Finite)). apply (map_nth Finite).
Qed.

Lemma nrows_lift (a : list (list R)) : nrows (lift a) = nrows a.
Proof. unfold nrows, lift. apply length_map. Qed.

Lemma ncols_lift (a : list (list R)) : ncols (lift a) = ncols a.
Proof. unfold ncols, lift. destruct a; simpl; [done|apply length_map]. Qed.

Lemma all_finite_lift (a : list (list R)) : all_finite (lift a).
Proof.
  unfold all_finite, lift. apply Forall_forall. intros row Hrow.
  apply list_elem_of_In, in_map_iff in Hrow as (r & <- & _).
  apply Forall_forall. intros x Hx.
  apply list_elem_of_In, in_map_iff in Hx as (y & <- & _). exact I.
Qed.

Lemma tabulate_ext {T : Type} (n m : nat) (f g : nat → nat → T) :
  (∀ i j, (i < n)%nat → (j < m)%nat → f i j = g i j) →
  tabulate n m f = tabulate n m g.
Proof.
  intros Hfg. unfold tabulate. apply map_ext_in. intros i Hi%in_seq.
  apply map_ext_in. intros j Hj%in_seq. apply Hfg; lia.
Qed.

Lemma lift_tabulate (n m : nat) (f : nat → nat → R) :
  lift (tabulate n m f) = tabulate n m (fun i j => Finite (f i j)).
Proof.
  unfold lift, tabulate. rewrite map_map. apply map_ext. intros i.
  by rewrite map_map.
Qed.

Lemma degrees_positive (n : nat) (a : list (list R)) :
  is_matrix n n a → nonnegative n a → Forall (fun d => 0 < d) (degrees a).
Proof.
  intros Hsq Hnn. unfold degrees, sum_axis0.
  apply Forall_forall. intros d Hd.
  apply list_elem_of_In in Hd. rewrite map_map in Hd.
  apply in_map_iff in Hd as (j & <- & Hj%in_seq). simpl.
  destruct (Nat.eq_dec n 0%nat) as [->|Hn].
  { destruct Hsq as [Hlen _]. apply nil_length_inv in Hlen. subst a.
    unfold ncols in Hj. simpl in Hj. lia. }
  rewrite (ncols_is_matrix n n a) in Hj by (done || lia).
  assert (0 <= Rsum (nrows a) (fun i => entry a i j)) as Hsum.
  { apply Rsum_nonneg. intros i Hi. apply Hnn; [|lia].
    destruct Hsq as [Hlen _]. unfold nrows in Hi. lia. }
  unfold Rsum in Hsum. unfold sc_sum, sum_list in *. simpl. lra.
Qed.

Lemma fill_diagonal_lift (a : list (list R)) :
  fill_diagonal (lift a) (Finite 0) = lift (fill_diagonal a 0).
Proof.
  unfold fill_diagonal, lift. apply list_eq. intros i.
  rewrite list_lookup_imap, !list_lookup_fmap, list_lookup_imap.
  destruct (a !! i) as [row|]; simpl; [|done].
  f_equal. apply list_eq. intros j.
  destruct (decide (i = j)) as [<-|Hij].
  - destruct (decide (i < length row)%nat) as [Hi|Hi].
    + rewrite list_lookup_insert_eq by (by rewrite length_map).
      by rewrite list_lookup_fmap, list_lookup_insert_eq.
    + rewrite !list_insert_ge by (rewrite ?length_map; lia). done.
  - rewrite list_lookup_insert_ne by done.
    by rewrite !list_lookup_fmap, list_lookup_insert_ne.
Qed.

Lemma nonnegative_fill_diagonal (n : nat) (a : list (list R)) :
  nonnegative n a → nonnegative n (fill_diagonal a 0).
Proof.
  intros Hnn i j Hi Hj. destruct (decide (i = j)) as [<-|Hij].
  - unfold entry. rewrite nth_fill_diagonal, nth_lookup.
    destruct (decide (i < length (nth i a []))%nat).
    + rewrite list_lookup_insert_eq by done. simpl. lra.
    + rewrite list_insert_ge by lia. rewrite <- nth_lookup. by apply Hnn.
  - rewrite entry_fill_diagonal_off by done. by apply Hnn.
Qed.

(** ** The Laplacian is positive semi-definite *)

(** The algebra, on functions of indices: with symmetric non-negative
    weights [a] and degrees [sum_i a i j + eps], the quadratic form of
    [I - D^-1/2 A D^-1/2] at [x = y * sqrt D] is
    [eps * sum_j y_j^2 + 1/2 * sum_jk a_kj (y_j - y_k)^2]. *)
Lemma laplacian_form_nonneg (n : nat) (a : nat → nat → R) (y : nat → R) (eps : R) :
  (∀ i j, (i < n)%nat → (j < n)%nat → a i j = a j i) →
  (∀ i j, (i < n)%nat → (j < n)%nat → 0 <= a i j) →
  0 <= eps →
  0 <= Rsum n (fun j =>
         y j * y j * (Rsum n (fun i => a i j) + eps)
         - Rsum n (fun k => y k * a k j * y j)).
Proof.
  intros Hsym Hnn Heps.
  set (S1 := Rsum n (fun j => Rsum n (fun k => a k j * (y j * y j)))).
  set (S1' := Rsum n (fun j => Rsum n (fun k => a k j * (y k * y k)))).
  set (S2 := Rsum n (fun j => Rsum n (fun k => a k j * (y k * y j)))).
  set (Q := Rsum n (fun j => Rsum n (fun k => a k j * ((y j - y k) * (y j - y k))))).
  set (E := Rsum n (fun j => y j * y j)).
  assert (Rsum n (fun j =>
            y j * y j * (Rsum n (fun i => a i j) + eps)
            - Rsum n (fun k => y k * a k j * y j)) = S1 + eps * E - S2) as ->.
  { unfold S1, S2, E.
    rewrite <- Rsum_scal_l, <- Rsum_plus, <- Rsum_minus.
    apply Rsum_ext. intros j _.
    rewrite (Rsum_scal_r n (y j * y j) (fun k => a k j)).
    rewrite (Rsum_ext n (fun k => y k * a k j * y j)
               (fun k => a k j * (y k * y j))) by (intros; ring).
    ring. }
  assert (Q = S1 + S1' - 2 * S2) as HQ.
  { unfold Q, S1, S1', S2.
    rewrite <- Rsum_scal_l, <- Rsum_plus, <- Rsum_minus.
    apply Rsum_ext. intros j _.
    rewrite <- Rsum_scal_l, <- Rsum_plus, <- Rsum_minus.
    apply Rsum_ext. intros; ring. }
  assert (S1' = S1) as HS.
  { unfold S1', S1. rewrite Rsum_swap. apply Rsum_ext. intros j Hj.
    apply Rsum_ext. intros k Hk. rewrite (Hsym j k) by done. reflexivity. }
  assert (0 <= Q) as HQ0.
  { unfold Q. apply Rsum_nonneg. intros j Hj. apply Rsum_nonneg. intros k Hk.
    apply Rmult_le_pos; [by apply Hnn|]. apply Rle_0_sqr. }
  assert (0 <= E) as HE0.
  { unfold E. apply Rsum_nonneg. intros j _. apply Rle_0_sqr. }
  assert (0 <= eps * E) by (by apply Rmult_le_pos).
  lra.
Qed.

(** The entries of the arrays that [make_laplacian] builds. *)
Lemma length_degrees (n : nat) (a : list (list R)) :
  is_matrix n n a → length (degrees a) = n.
Proof.
  intros Hsq. unfold degrees, sum_axis0.
  by rewrite !length_map, length_seq, (ncols_square n a Hsq).
Qed.

Lemma nth_degrees (n : nat) (a : list (list R)) (j : nat) :
  is_matrix n n a → (j < n)%nat →
  nth j (degrees a) 0 = Rsum n (fun i => entry a i j) + 1e-5.
Proof.
  intros Hsq Hj. unfold degrees, sum_axis0. rewrite map_map.
  rewrite (ncols_square n a Hsq).
  rewrite (nth_indep _ 0 ((fun j => sc_add (sc_sum (map (fun i => entry a i j)
                             (seq 0 (nrows a)))) (sc_lit 1e-5)) 0%nat))
    by (by rewrite length_map, length_seq).
  rewrite (map_nth (fun j => sc_add (sc_sum (map (fun i => entry a i j)
                                 (seq 0 (nrows a)))) (sc_lit 1e-5))).
  rewrite seq_nth by done. unfold nrows.
  destruct Hsq as [-> _]. reflexivity.
Qed.

Lemma nth_inv_sqrt_degrees (n : nat) (a : list (list R)) (j : nat) :
  is_matrix n n a → (j < n)%nat →
  nth j (inv_sqrt_degrees a) 0 = / sqrt (nth j (degrees a) 0).
Proof.
  intros Hsq Hj. unfold inv_sqrt_degrees.
  rewrite (nth_indep _ 0 (sc_pow_neg_half 0))
    by (by rewrite length_map, (length_degrees n a Hsq)).
  by rewrite (map_nth sc_pow_neg_half).
Qed.

Lemma entry_np_diag (v : list R) (i j : nat) :
  (i < length v)%nat → (j < length v)%nat →
  entry (np_diag v) i j = if Nat.eqb i j then nth i v 0 else 0.
Proof. intros Hi Hj. unfold np_diag. by rewrite entry_tabulate. Qed.

Lemma entry_normalized_adjacency (n : nat) (a : list (list R)) (i j : nat) :
  is_matrix n n a → (i < n)%nat → (j < n)%nat →
  entry (normalized_adjacency a) i j
  = nth i (inv_sqrt_degrees a) 0 * entry a i j * nth j (inv_sqrt_degrees a) 0.
Proof.
  intros Hsq Hi Hj. unfold normalized_adjacency.
  assert (length (inv_sqrt_degrees a) = n) as Hs
    by (unfold inv_sqrt_degrees; by rewrite length_map, (length_degrees n a Hsq)).
  pose proof (is_matrix_tabulate (T:=R) n n) as Htab.
  assert (∀ i j, (i < n)%nat → (j < n)%nat →
            entry (np_dot (np_diag (inv_sqrt_degrees a)) a) i j
            = nth i (inv_sqrt_degrees a) 0 * entry a i j) as Hleft.
  { clear i j Hi Hj. intros i j Hi Hj. unfold np_dot.
    assert (nrows (np_diag (inv_sqrt_degrees a)) = n) as ->
      by (unfold nrows, np_diag; by rewrite length_tabulate).
    assert (ncols (np_diag (inv_sqrt_degrees a)) = n) as ->.
    { apply ncols_square. unfold np_diag. rewrite Hs. apply Htab. }
    rewrite (ncols_square n a Hsq), entry_tabulate by done.
    change (Rsum n (fun k => entry (np_diag (inv_sqrt_degrees a)) i k * entry a k j)
            = nth i (inv_sqrt_degrees a) 0 * entry a i j).
    rewrite (Rsum_ext n _ (fun k => if Nat.eqb i k
                                    then nth i (inv_sqrt_degrees a) 0 * entry a k j
                                    else 0)).
    - by rewrite (Rsum_single n i
                    (fun k => nth i (inv_sqrt_degrees a) 0 * entry a k j)).
    - intros k Hk. rewrite entry_np_diag by lia.
      destruct (Nat.eqb i k); simpl; lra. }
  unfold np_dot at 1.
  assert (nrows (np_dot (np_diag (inv_sqrt_degrees a)) a) = n) as ->.
  { unfold nrows, np_dot. rewrite length_tabulate.
    unfold nrows, np_diag. by rewrite length_tabulate. }
  assert (ncols (np_dot (np_diag (inv_sqrt_degrees a)) a) = n) as ->.
  { apply ncols_square. unfold np_dot.
    assert (nrows (np_diag (inv_sqrt_degrees a)) = n) as ->
      by (unfold nrows, np_diag; by rewrite length_tabulate).
    rewrite (ncols_square n a Hsq). apply Htab. }
  assert (ncols (np_diag (inv_sqrt_degrees a)) = n) as ->.
  { apply ncols_square. unfold np_diag. rewrite Hs. apply Htab. }
  rewrite entry_tabulate by done.
  change (Rsum n (fun k => entry (np_dot (np_diag (inv_sqrt_degrees a)) a) i k
                           * entry (np_diag (inv_sqrt_degrees a)) k j)
          = nth i (inv_sqrt_degrees a) 0 * entry a i j
            * nth j (inv_sqrt_degrees a) 0).
  rewrite (Rsum_ext n _ (fun k => if Nat.eqb k j
                                  then nth i (inv_sqrt_degrees a) 0 * entry a i k
                                       * nth k (inv_sqrt_degrees a) 0
                                  else 0)).
  - by rewrite (Rsum_single_r n j
                  (fun k => nth i (inv_sqrt_degrees a) 0 * entry a i k
                            * nth k (inv_sqrt_degrees a) 0)).
  - intros k Hk. rewrite Hleft, entry_np_diag by lia.
    destruct (Nat.eqb k j); simpl; lra.
Qed.

Lemma is_matrix_make_laplacian (n : nat) (a : list (list R)) :
  is_matrix n n a → is_matrix n n (make_laplacian a).
Proof.
  intros Hsq. unfold make_laplacian, np_sub_array.
  rewrite (length_degrees n a Hsq).
  assert (nrows (np_eye (T:=R) n) = n) as ->
    by (unfold nrows, np_eye; by rewrite length_tabulate).
  assert (ncols (np_eye (T:=R) n) = n) as ->
    by (apply ncols_square; unfold np_eye; apply is_matrix_tabulate).
  apply is_matrix_tabulate.
Qed.

Lemma entry_make_laplacian (n : nat) (a : list (list R)) (i j : nat) :
  is_matrix n n a → (i < n)%nat → (j < n)%nat →
  entry (make_laplacian a) i j
  = (if Nat.eqb i j then 1 else 0)
    - nth i (inv_sqrt_degrees a) 0 * entry a i j * nth j (inv_sqrt_degrees a) 0.
Proof.
  intros Hsq Hi Hj. unfold make_laplacian, np_sub_array.
  rewrite (length_degrees n a Hsq).
  assert (nrows (np_eye (T:=R) n) = n) as ->
    by (unfold nrows, np_eye; by rewrite length_tabulate).
  assert (ncols (np_eye (T:=R) n) = n) as ->
    by (apply ncols_square; unfold np_eye; apply is_matrix_tabulate).
  rewrite entry_tabulate by done.
  rewrite (entry_normalized_adjacency n a i j Hsq Hi Hj).
  unfold np_eye. rewrite entry_tabulate by done. reflexivity.
Qed.

Lemma laplacian_symmetric (n : nat) (a : list (list R)) :
  is_matrix n n a → symmetric n a → symmetric n (make_laplacian a).
Proof.
  intros Hsq Hsym i j Hi Hj.
  rewrite !(entry_make_laplacian n a) by done.
  rewrite (Hsym i j Hi Hj), (Nat.eqb_sym i j). lra.
Qed.

(** [x^T L x >= 0] for every vector [x]. *)
Lemma laplacian_positive_semidefinite (n : nat) (a : list (list R)) (x : nat → R) :
  is_matrix n n a → symmetric n a → nonnegative n a →
  0 <= Rsum n (fun j =>
         Rsum n (fun k => x k * entry (make_laplacian a) k j) * x j).
Proof.
  intros Hsq Hsym Hnn.
  set (s := fun j => nth j (inv_sqrt_degrees a) 0).
  set (y := fun j => x j * s j).
  assert (∀ j, (j < n)%nat →
            s j * s j * (Rsum n (fun i => entry a i j) + 1e-5) = 1) as Hs.
  { intros j Hj. unfold s.
    rewrite (nth_inv_sqrt_degrees n a j Hsq Hj), (nth_degrees n a j Hsq Hj).
    assert (0 <= Rsum n (fun i => entry a i j)) as Hd
      by (apply Rsum_nonneg; intros i Hi; by apply Hnn).
    set (d := Rsum n (fun i => entry a i j) + 1e-5) in *.
    assert (0 < d) as Hdpos by (unfold d; lra).
    pose proof (sqrt_lt_R0 d Hdpos) as Hsqrt.
    rewrite <- (sqrt_sqrt d) at 3 by lra.
    field. lra. }
  rewrite (Rsum_ext n _ (fun j =>
             y j * y j * (Rsum n (fun i => entry a i j) + 1e-5)
             - Rsum n (fun k => y k * entry a k j * y j))).
  - apply laplacian_form_nonneg; [done..|lra].
  - intros j Hj.
    rewrite (Rsum_ext n (fun k => x k * entry (make_laplacian a) k j)
               (fun k => (if Nat.eqb k j then x k else 0)
                         - y k * entry a k j * s j)).
    + rewrite Rsum_minus, (Rsum_single_r n j x Hj), Rsum_scal_r.
      rewrite (Rsum_ext n (fun k => y k * entry a k j * y j)
                 (fun k => y k * entry a k j * (s j * x j)))
        by (intros; unfold y; ring).
      rewrite (Rsum_scal_r n (s j * x j) (fun k => y k * entry a k j)).
      set (B := Rsum n (fun k => y k * entry a k j)).
      specialize (Hs j Hj). revert Hs.
      set (D := Rsum n (fun i => entry a i j) + 1e-5). intros Hs.
      unfold y.
      replace (x j * s j * (x j * s j) * D) with (x j * x j * (s j * s j * D))
        by ring.
      rewrite Hs. ring.
    + intros k Hk. rewrite (entry_make_laplacian n a k j Hsq Hk Hj).
      unfold y, s. destruct (Nat.eqb k j); ring.
Qed.

(** ** Loops that may raise, and broadcasting *)

Lemma rmap_ok {A B : Type} (f : A → result B) (g : A → B) (xs : list A) :
  (∀ x, x ∈ xs → f x = Ok (g x)) → rmap f xs = Ok (map g xs).
Proof.
  induction xs as [|x xs IH]; intros Hf; [done|].
  simpl. rewrite (Hf x) by apply list_elem_of_here. simpl.
  rewrite IH by (intros; apply Hf; by apply list_elem_of_further). done.
Qed.

Lemma broadcast_same_length {A B C : Type} (f : A → B → result C)
    (g : A → B → C) (xs : list A) (ys : list B) :
  length xs = length ys →
  (∀ x y, (x, y) ∈ zip xs ys → f x y = Ok (g x y)) →
  broadcast f xs ys = Ok (zip_with g xs ys).
Proof.
  intros Hlen Hf. unfold broadcast.
  rewrite (proj2 (Nat.eqb_eq _ _) Hlen).
  rewrite (rmap_ok _ (fun p => g p.1 p.2)) by (intros [x y]; apply Hf).
  f_equal. clear. revert ys. induction xs as [|x xs IH]; intros [|y ys]; simpl;
    try done. by rewrite <- IH.
Qed.

Lemma bcast1_same_length (op : R → R → R) (xs ys : list R) :
  length xs = length ys → bcast1 op xs ys = Ok (zip_with op xs ys).
Proof. intros Hlen. by apply broadcast_same_length. Qed.

Lemma elem_of_zip_is_matrix {A B : Type} (n m : nat)
    (a : list (list A)) (b : list (list B)) (r : list A) (s : list B) :
  is_matrix n m a → is_matrix n m b → (r, s) ∈ zip a b →
  length r = m ∧ length s = m.
Proof.
  intros [_ Ha] [_ Hb] Hin.
  rewrite Forall_forall in Ha. rewrite Forall_forall in Hb.
  split; [apply Ha|apply Hb].
  - eapply elem_of_zip_l, Hin.
  - eapply elem_of_zip_r, Hin.
Qed.

Lemma bcast2_same_shape (op : R → R → R) (n m : nat) (a b : list (list R)) :
  is_matrix n m a → is_matrix n m b →
  bcast2 op a b = Ok (zip_with (zip_with op) a b).
Proof.
  intros Ha Hb. apply broadcast_same_length.
  - destruct Ha as [-> _], Hb as [-> _]. done.
  - intros r s Hin.
    destruct (elem_of_zip_is_matrix n m a b r s Ha Hb Hin) as [Hr Hs].
    apply bcast1_same_length. congruence.
Qed.

Lemma is_matrix_zip_with (op : R → R → R) (n m : nat) (a b : list (list R)) :
  is_matrix n m a → is_matrix n m b →
  is_matrix n m (zip_with (zip_with op) a b).
Proof.
  intros Ha Hb. split.
  - rewrite length_zip_with. destruct Ha as [-> _], Hb as [-> _]. lia.
  - apply Forall_forall. intros row Hrow.
    apply elem_of_lookup_zip_with in Hrow as (i & r & s & -> & Hr & Hs).
    rewrite length_zip_with.
    destruct Ha as [_ Ha], Hb as [_ Hb].
    rewrite (Forall_lookup_1 _ _ _ _ Ha Hr), (Forall_lookup_1 _ _ _ _ Hb Hs). lia.
Qed.

Lemma entry_zip_with (op : R → R → R) (n m : nat) (a b : list (list R)) (i j : nat) :
  is_matrix n m a → is_matrix n m b → (i < n)%nat → (j < m)%nat →
  entry (zip_with (zip_with op) a b) i j = op (entry a i j) (entry b i j).
Proof.
  intros Ha Hb Hi Hj. unfold entry.
  destruct (lookup_lt_is_Some_2 a i) as [r Hr]; [destruct Ha; lia|].
  destruct (lookup_lt_is_Some_2 b i) as [s Hs]; [destruct Hb; lia|].
  assert (length r = m) as Hlr
    by (destruct Ha as [_ Ha]; apply (Forall_lookup_1 _ _ _ _ Ha Hr)).
  assert (length s = m) as Hls
    by (destruct Hb as [_ Hb]; apply (Forall_lookup_1 _ _ _ _ Hb Hs)).
  destruct (lookup_lt_is_Some_2 r j) as [x Hx]; [lia|].
  destruct (lookup_lt_is_Some_2 s j) as [y Hy]; [lia|].
  rewrite (nth_lookup_Some _ _ _ (zip_with op r s))
    by (by rewrite lookup_zip_with, Hr, Hs).
  rewrite (nth_lookup_Some _ _ _ (op x y))
    by (by rewrite lookup_zip_with, Hx, Hy).
  rewrite (nth_lookup_Some _ _ _ _ Hr), (nth_lookup_Some _ _ _ _ Hs).
  by rewrite (nth_lookup_Some _ _ _ _ Hx), (nth_lookup_Some _ _ _ _ Hy).
Qed.

Lemma sum_list_concat (m : list (list R)) :
  sum_list (concat m) = sum_list (map sum_list m).
Proof.
  induction m as [|row m IH]; simpl; [done|].
  by rewrite sum_list_app, IH.
Qed.

Lemma torch_sum2_entries (n m : nat) (a : list (list R)) :
  is_matrix n m a →
  torch_sum2 a = Rsum n (fun i => Rsum m (fun j => entry a i j)).
Proof.
  intros Ha. unfold torch_sum2.
  rewrite sum_list_concat, sum_list_nth, length_map.
  destruct Ha as [Hlen Hrows]. rewrite Hlen. apply Rsum_ext. intros i Hi.
  change 0 with (sum_list []). rewrite (map_nth sum_list).
  rewrite sum_list_nth.
  rewrite (length_nth_is_matrix n m a i (conj Hlen Hrows) Hi). reflexivity.
Qed.

Lemma is_matrix_torch_abs2 (n m : nat) (a : list (list R)) :
  is_matrix n m a → is_matrix n m (torch_abs2 a).
Proof.
  intros [Hlen Hrows]. split; [unfold torch_abs2; by rewrite length_map|].
  unfold torch_abs2. apply Forall_forall. intros row Hrow.
  apply list_elem_of_In, in_map_iff in Hrow as (r & <- & Hr).
  rewrite length_map. rewrite Forall_forall in Hrows.
  by apply Hrows, list_elem_of_In.
Qed.

Lemma entry_torch_abs2 (a : list (list R)) (i j : nat) :
  entry (torch_abs2 a) i j = Rabs (entry a i j).
Proof.
  unfold entry, torch_abs2. simpl.
  change (@nil R) with (map Rabs []). rewrite (map_nth (map Rabs)).
  rewrite <- Rabs_R0 at 1. apply (map_nth Rabs).
Qed.

Lemma torch_mm_ok (o n m : nat) (a b : list (list R)) :
  is_matrix o n a → is_matrix n m b →
  ∃ c, torch_mm a b = Ok c ∧ is_matrix o (ncols b) c
       ∧ ∀ i j, (i < o)%nat → (j < ncols b)%nat →
           entry c i j = Rsum n (fun k => entry a i k * entry b k j).
Proof.
  intros [Hla Hra] [Hlb Hrb]. unfold torch_mm.
  assert (forallb (fun row => Nat.eqb (length row) (length b)) a = true) as ->.
  { apply forallb_forall. intros row Hrow. apply Nat.eqb_eq.
    rewrite Forall_forall in Hra. rewrite Hlb. by apply Hra, list_elem_of_In. }
  eexists. split; [reflexivity|]. rewrite Hla, Hlb. split.
  - apply is_matrix_tabulate.
  - intros i j Hi Hj. by rewrite entry_tabulate.
Qed.

Lemma symmetric_fill_diagonal (n : nat) (a : list (list R)) :
  symmetric n a → symmetric n (fill_diagonal a 0).
Proof.
  intros Hsym i j Hi Hj. destruct (decide (i = j)) as [->|Hij]; [done|].
  rewrite !entry_fill_diagonal_off by done. by apply Hsym.
Qed.

(** ** The regulariser of [SparseLogisticRegression] *)

Lemma smoothness_penalty_value (o n : nat) (L W : list (list R)) :
  is_matrix n n L → is_matrix o n W →
  SparseLogisticRegression.smoothness_penalty L W
  = Ok (Rsum o (fun r =>
          Rsum n (fun j =>
            Rsum n (fun k => Rabs (entry W r k) * entry L k j)
            * Rabs (entry W r j)))).
Proof.
  intros HL HW. unfold SparseLogisticRegression.smoothness_penalty.
  pose proof (is_matrix_torch_abs2 o n W HW) as Habs.
  destruct (torch_mm_ok o n n (torch_abs2 W) L Habs HL) as (m & -> & Hm & Hentry).
  rewrite (ncols_square n L HL) in Hm, Hentry. simpl.
  rewrite (bcast2_same_shape Rmult o n m (torch_abs2 W) Hm Habs). simpl.
  f_equal.
  rewrite (torch_sum2_entries o n) by (by apply is_matrix_zip_with).
  apply Rsum_ext. intros r Hr. apply Rsum_ext. intros j Hj.
  rewrite (entry_zip_with Rmult o n) by done.
  rewrite Hentry by done. rewrite entry_torch_abs2. f_equal.
  apply Rsum_ext. intros k _. by rewrite entry_torch_abs2.
Qed.

(** The Laplacian of the constructor, entry by entry, is the one the
    specification writes. *)
Lemma entry_off_diagonal (n : nat) (a : list (list R)) (i j : nat) :
  is_matrix n n a → (i < n)%nat →
  entry (fill_diagonal a 0) i j = off_diagonal a i j.
Proof.
  intros Hsq Hi. unfold off_diagonal.
  destruct (Nat.eqb_spec i j) as [<-|Hij].
  - apply entry_fill_diagonal_diag.
    by rewrite (length_nth_is_matrix n n a i Hsq Hi).
  - by apply entry_fill_diagonal_off.
Qed.

Lemma entry_constructed_laplacian (n : nat) (a : list (list R)) (i j : nat) :
  is_matrix n n a → (i < n)%nat → (j < n)%nat →
  entry (make_laplacian (fill_diagonal a 0)) i j = normalized_laplacian n a i j.
Proof.
  intros Hsq Hi Hj.
  pose proof (is_matrix_fill_diagonal n n a 0 Hsq) as Hsq'.
  rewrite (entry_make_laplacian n _ i j Hsq' Hi Hj).
  rewrite !(nth_inv_sqrt_degrees n _ _ Hsq') by done.
  rewrite !(nth_degrees n _ _ Hsq') by done.
  rewrite (entry_off_diagonal n a i j Hsq Hi).
  unfold normalized_laplacian, perturbed_degree.
  rewrite (Rsum_ext n (fun k => entry (fill_diagonal a 0) k i)
             (fun k => off_diagonal a k i))
    by (intros k Hk; by apply (entry_off_diagonal n)).
  rewrite (Rsum_ext n (fun k => entry (fill_diagonal a 0) k j)
             (fun k => off_diagonal a k j))
    by (intros k Hk; by apply (entry_off_diagonal n)).
  unfold Rdiv. rewrite Rinv_mult. ring.
Qed.

(** C4.  [SparseLogisticRegression.regularization(reg_lambda)] is
    [reg_lambda] times the penalty [sum((|W| . L) * |W|)] over the weight
    matrix [W] of the logistic layer, where [L] is the Laplacian the
    constructor built: [I - D^-1/2 A D^-1/2] for the adjacency [A] given to
    the constructor, without its diagonal, and the degrees
    [D_j = sum_i A_ij + 1e-5].  If the adjacency is square, symmetric and
    has no negative entry, then [L] is symmetric and positive
    semi-definite ([x^T L x >= 0] for every [x]) and the penalty is
    non-negative for every [W]. *)
Theorem slr_regularization_is_scaled_nonnegative_penalty
    (σ : store) (nb_nodes input_dim n o : nat) (adj : loc)
    (out_dim : option nat) (on_cuda : bool) (w0 : list (list R)) (b0 : list R)
    (a : list (list R)) (reg_lambda : R) :
  σ !! adj = Some a →
  is_matrix n n a →
  symmetric n a →
  nonnegative n a →
  is_matrix o n w0 →
  ∃ model σ' penalty,
    SparseLogisticRegression.init σ nb_nodes input_dim adj out_dim on_cuda w0 b0
    = Some (model, σ')
    ∧ SparseLogisticRegression.smoothness_penalty
        (SparseLogisticRegression.laplacian model) w0 = Ok penalty
    ∧ penalty
      = Rsum o (fun r =>
          Rsum n (fun j =>
            Rsum n (fun k => Rabs (entry w0 r k)
                             * entry (SparseLogisticRegression.laplacian model) k j)
            * Rabs (entry w0 r j)))
    ∧ SparseLogisticRegression.regularization model reg_lambda
      = Ok (RegScalar (reg_lambda * penalty))
    ∧ 0 <= penalty
    ∧ is_matrix n n (SparseLogisticRegression.laplacian model)
    ∧ (∀ i j, (i < n)%nat → (j < n)%nat →
         entry (SparseLogisticRegression.laplacian model) i j
         = normalized_laplacian n a i j)
    ∧ symmetric n (SparseLogisticRegression.laplacian model)
    ∧ (∀ x : nat → R,
         0 <= Rsum n (fun j =>
                Rsum n (fun k =>
                  x k * entry (SparseLogisticRegression.laplacian model) k j)
                * x j)).
Proof.
  intros Ha Hsq Hsym Hnn HW.
  destruct (slr_init_unfold σ nb_nodes input_dim n adj out_dim on_cuda w0 b0 a
              Ha Hsq) as (model & Hinit & HL & Hlayers).
  pose proof (is_matrix_fill_diagonal n n a 0 Hsq) as Hsq'.
  pose proof (symmetric_fill_diagonal n a Hsym) as Hsym'.
  pose proof (nonnegative_fill_diagonal n a Hnn) as Hnn'.
  pose proof (is_matrix_make_laplacian n _ Hsq') as HLsq.
  pose proof (smoothness_penalty_value o n _ w0 HLsq HW) as Hpen.
  eexists model, _, _. rewrite HL. split_and!.
  - exact Hinit.
  - exact Hpen.
  - reflexivity.
  - unfold SparseLogisticRegression.regularization.
    rewrite Hlayers, HL. simpl. rewrite Hpen. simpl. do 2 f_equal.
    apply Rmult_comm.
  - apply Rsum_nonneg. intros r _.
    apply (laplacian_positive_semidefinite n _ (fun k => Rabs (entry w0 r k))
             Hsq' Hsym' Hnn').
  - exact HLsq.
  - intros i j Hi Hj. by apply entry_constructed_laplacian.
  - by apply laplacian_symmetric.
  - intros x. by apply laplacian_positive_semidefinite.
Qed.

Lemma slr_regularization_is_scaled_nonnegative_penalty_witness :
  ∃ model σ' penalty,
    SparseLogisticRegression.init {[ 7%nat := [[5; 1]; [1; 3]] ]} 2 1 7 (Some 1%nat)
      false [[1; -2]] [0] = Some (model, σ')
    ∧ SparseLogisticRegression.smoothness_penalty
        (SparseLogisticRegression.laplacian model) [[1; -2]] = Ok penalty
    ∧ penalty
      = Rsum 1 (fun r =>
          Rsum 2 (fun j =>
            Rsum 2 (fun k => Rabs (entry [[1; -2]] r k)
                             * entry (SparseLogisticRegression.laplacian model) k j)
            * Rabs (entry [[1; -2]] r j)))
    ∧ SparseLogisticRegression.regularization model 3
      = Ok (RegScalar (3 * penalty))
    ∧ 0 <= penalty
    ∧ is_matrix 2 2 (SparseLogisticRegression.laplacian model)
    ∧ (∀ i j, (i < 2)%nat → (j < 2)%nat →
         entry (SparseLogisticRegression.laplacian model) i j
         = normalized_laplacian 2 [[5; 1]; [1; 3]] i j)
    ∧ symmetric 2 (SparseLogisticRegression.laplacian model)
    ∧ (∀ x : nat → R,
         0 <= Rsum 2 (fun j =>
                Rsum 2 (fun k =>
                  x k * entry (SparseLogisticRegression.laplacian model) k j)
                * x j)).
Proof.
  apply (slr_regularization_is_scaled_nonnegative_penalty
           {[ 7%nat := [[5; 1]; [1; 3]] ]} 2 1 2 1 7 (Some 1%nat) false
           [[1; -2]] [0] [[5; 1]; [1; 3]] 3).
  - apply lookup_singleton_eq.
  - split; [reflexivity|]. repeat constructor.
  - intros i j Hi Hj.
    destruct i as [|[|i]]; destruct j as [|[|j]]; try lia; reflexivity.
  - intros i j Hi Hj.
    destruct i as [|[|i]]; destruct j as [|[|j]];
      try lia; unfold entry; simpl; lra.
  - split; [reflexivity|]. repeat constructor.
Defined.

(** ** Views *)

Lemma length_concat_is_matrix {A : Type} (r c : nat) (m : list (list A)) :
  is_matrix r c m → length (concat m) = (r * c)%nat.
Proof.
  intros [<- Hrows]. induction Hrows as [|row m Hrow Hrows IH]; [done|].
  simpl. rewrite length_app, IH, Hrow. done.
Qed.

Lemma reshape2_concat {A : Type} (r c : nat) (m : list (list A)) :
  is_matrix r c m → reshape2 r c (concat m) = m.
Proof.
  intros [<- Hrows]. unfold reshape2.
  induction Hrows as [|row m Hrow Hrows IH]; [done|].
  simpl. rewrite drop_0, take_app_length' by done. f_equal.
  rewrite <- seq_shift, map_map. rewrite <- IH at 2.
  apply map_ext. intros i.
  replace (S i * c)%nat with (length row + i * c)%nat by lia.
  by rewrite drop_app_add.
Qed.

Lemma view2_concat (r c : nat) (m : list (list R)) :
  is_matrix r c m → view2 r c (concat m) = Ok m.
Proof.
  intros Hm. unfold view2.
  rewrite (length_concat_is_matrix r c m Hm), Nat.eqb_refl.
  by rewrite reshape2_concat.
Qed.

Lemma view2_cols_concat (r c : nat) (m : list (list R)) :
  (0 < c)%nat → is_matrix r c m → view2_cols c (concat m) = Ok m.
Proof.
  intros Hc Hm. unfold view2_cols.
  rewrite (length_concat_is_matrix r c m Hm), Nat.div_mul by lia.
  by apply view2_concat.
Qed.

Lemma view2_rows_concat (r c : nat) (m : list (list R)) :
  (0 < r)%nat → is_matrix r c m → view2_rows r (concat m) = Ok m.
Proof.
  intros Hr Hm. unfold view2_rows.
  rewrite (length_concat_is_matrix r c m Hm), Nat.mul_comm, Nat.div_mul by lia.
  by apply view2_concat.
Qed.

Lemma is_matrix_concat {A : Type} (e n c : nat) (t : list (list (list A))) :
  has_shape3 e n c t → is_matrix (e * n) c (concat t).
Proof.
  intros [<- Hex]. induction Hex as [|ex t Hex Ht IH]; [by split|].
  destruct IH as [IHlen IHrows], Hex as [Hlen Hrows]. split; simpl.
  - rewrite length_app, IHlen, Hlen. done.
  - by apply Forall_app.
Qed.

Lemma is_matrix_map_concat {A : Type} (e n c : nat) (t : list (list (list A))) :
  has_shape3 e n c t → is_matrix e (n * c) (map (@concat _) t).
Proof.
  intros [Hlen Hex]. split; [by rewrite length_map|].
  apply Forall_forall. intros row Hrow.
  apply list_elem_of_In, in_map_iff in Hrow as (ex & <- & Hin).
  rewrite Forall_forall in Hex.
  by apply length_concat_is_matrix, Hex, list_elem_of_In.
Qed.

Lemma concat_map_concat {A : Type} (t : list (list (list A))) :
  concat (map (@concat _) t) = concat (concat t).
Proof.
  induction t as [|ex t IH]; [done|]. simpl. by rewrite concat_app, IH.
Qed.

Lemma view3_concat (e n c : nat) (t : list (list (list R))) :
  has_shape3 e n c t → view3 e n c (concat (concat t)) = Ok t.
Proof.
  intros Ht. unfold view3.
  pose proof (is_matrix_map_concat e n c t Ht) as Hm.
  rewrite <- concat_map_concat.
  rewrite (length_concat_is_matrix e (n * c) _ Hm), Nat.eqb_refl.
  rewrite (reshape2_concat e (n * c) _ Hm), map_map. f_equal.
  rewrite <- (map_id t) at 2. apply map_ext_in. intros ex Hex.
  destruct Ht as [_ Ht]. rewrite Forall_forall in Ht.
  by apply reshape2_concat, Ht, list_elem_of_In.
Qed.

Lemma size3_has_shape3 (e n c : nat) (t : list (list (list R))) :
  (0 < e)%nat → (0 < n)%nat → has_shape3 e n c t →
  size3 (Tensor3 t) = Ok (e, n, c).
Proof.
  intros He Hn [Hlen Hex]. destruct t as [|ex t]; simpl in *; [lia|].
  apply Forall_cons_1 in Hex as [[Hlen' Hrows] _].
  destruct ex as [|row ex]; simpl in *; [lia|].
  apply Forall_cons_1 in Hrows as [Hrow _]. by rewrite Hlen, Hlen', Hrow.
Qed.

(** ** Broadcasting against a dimension of size 1 *)

Lemma broadcast_map_map {A B C X : Type} (f : A → B → result C) (g : A → B → C)
    (h1 : X → A) (h2 : X → B) (xs : list X) :
  (∀ x, x ∈ xs → f (h1 x) (h2 x) = Ok (g (h1 x) (h2 x))) →
  broadcast f (map h1 xs) (map h2 xs) = Ok (map (fun x => g (h1 x) (h2 x)) xs).
Proof.
  intros Hf. unfold broadcast. rewrite !length_map, Nat.eqb_refl. clear -Hf.
  induction xs as [|x xs IH]; [done|]. simpl.
  rewrite (Hf x) by apply list_elem_of_here. simpl.
  rewrite IH by (intros; apply Hf; by apply list_elem_of_further). done.
Qed.

Lemma broadcast_single_r {A B C : Type} (f : A → B → result C) (g : A → B → C)
    (xs : list A) (y : B) :
  (∀ x, x ∈ xs → f x y = Ok (g x y)) →
  broadcast f xs [y] = Ok (map (fun x => g x y) xs).
Proof.
  intros Hf. unfold broadcast. destruct xs as [|x [|x' xs]]; cbn -[rmap].
  - done.
  - simpl. by rewrite (Hf x) by apply list_elem_of_here.
  - by apply (rmap_ok (fun x => f x y) (fun x => g x y)).
Qed.

Lemma broadcast_single_l {A B C : Type} (f : A → B → result C) (g : A → B → C)
    (x : A) (ys : list B) :
  (∀ y, y ∈ ys → f x y = Ok (g x y)) →
  broadcast f [x] ys = Ok (map (g x) ys).
Proof.
  intros Hf. unfold broadcast. destruct ys as [|y [|y' ys]]; cbn -[rmap].
  - done.
  - simpl. by rewrite (Hf y) by apply list_elem_of_here.
  - by apply (rmap_ok (f x) (g x)).
Qed.

(** ** Sums over the first axis *)

Lemma length_sum_vectors (n h : nat) (vs : list (list R)) :
  (0 < n)%nat → is_matrix n h vs → length (sum_vectors vs) = h.
Proof.
  intros Hn Hvs. unfold sum_vectors. rewrite length_map, length_seq.
  apply (ncols_is_matrix n h vs Hn Hvs).
Qed.

Lemma nth_sum_vectors (n h : nat) (vs : list (list R)) (j : nat) :
  (0 < n)%nat → is_matrix n h vs → (j < h)%nat →
  nth j (sum_vectors vs) 0 = Rsum n (fun i => entry vs i j).
Proof.
  intros Hn Hvs Hj. unfold sum_vectors.
  pose proof (ncols_is_matrix n h vs Hn Hvs) as Hc. unfold ncols in Hc.
  rewrite Hc.
  rewrite (nth_indep _ 0 ((fun j => sum_list (map (fun v => nth j v 0) vs)) 0%nat))
    by (by rewrite length_map, length_seq).
  rewrite (map_nth (fun j => sum_list (map (fun v => nth j v 0) vs))).
  rewrite seq_nth by done. simpl.
  rewrite sum_list_nth, length_map. destruct Hvs as [Hlen _]. rewrite Hlen.
  apply Rsum_ext. intros i Hi. unfold entry.
  rewrite (nth_indep _ 0 ((fun v => nth j v 0) []))
    by (rewrite length_map; lia).
  by rewrite (map_nth (fun v => nth j v 0)).
Qed.

Lemma is_matrix_sum_matrices (n c h : nat) (ms : list (list (list R))) :
  (0 < n)%nat → has_shape3 n c h ms → is_matrix c h (sum_matrices ms).
Proof.
  intros Hn [Hlen Hms]. unfold sum_matrices.
  assert (length (hd [] ms) = c) as ->.
  { destruct ms as [|m ms]; simpl in *; [lia|].
    by apply Forall_cons_1 in Hms as [[? _] _]. }
  split; [by rewrite length_map, length_seq|].
  apply Forall_forall. intros row Hrow.
  apply list_elem_of_In, in_map_iff in Hrow as (i & <- & Hi%in_seq).
  apply (length_sum_vectors n h); [done|].
  split; [by rewrite length_map|].
  apply Forall_forall. intros v Hv.
  apply list_elem_of_In, in_map_iff in Hv as (m & <- & Hm).
  rewrite Forall_forall in Hms.
  apply (length_nth_is_matrix c h m i); [|lia].
  by apply Hms, list_elem_of_In.
Qed.

(** ** [nn.Linear] on well-formed inputs *)

Lemma bind_Ok {A B : Type} (a : A) (k : A → result B) : (Ok a ≫= k) = k a.
Proof. reflexivity. Qed.

Lemma length_linear_output (l : Linear.t) (x : list R) :
  Linear.wf l → length (Linear.output l x) = Linear.out_features l.
Proof.
  intros [[Hlen _] Hb]. unfold Linear.output.
  rewrite length_map, length_zip. lia.
Qed.

Lemma linear_forward_ok (l : Linear.t) (r : nat) (x : list (list R)) :
  is_matrix r (Linear.in_features l) x →
  Linear.forward l x = Ok (map (Linear.output l) x).
Proof.
  intros [_ Hrows]. unfold Linear.forward. apply rmap_ok. intros row Hrow.
  unfold Linear.apply_row. rewrite Forall_forall in Hrows.
  by rewrite (Hrows row Hrow), Nat.eqb_refl.
Qed.

(** ** The attention layer *)

Lemma has_shape3_map_map {A B : Type} (f : list A → list B) (e n c h : nat)
    (t : list (list (list A))) :
  (∀ node, length node = c → length (f node) = h) →
  has_shape3 e n c t → has_shape3 e n h (map (map f) t).
Proof.
  intros Hf [Hlen Hex]. split; [by rewrite length_map|].
  apply Forall_forall. intros ex' Hex'.
  apply list_elem_of_In, in_map_iff in Hex' as (ex & <- & Hin).
  rewrite Forall_forall in Hex.
  destruct (Hex ex (proj2 (list_elem_of_In _ _) Hin)) as [Hn Hrows].
  split; [by rewrite length_map|].
  apply Forall_forall. intros row' Hrow'.
  apply list_elem_of_In, in_map_iff in Hrow' as (row & <- & Hin').
  rewrite Forall_forall in Hrows. by apply Hf, Hrows, list_elem_of_In.
Qed.

Lemma length_unnormalized (self : AttentionLayer.t) (node : list R) :
  AttentionLayer.wf self →
  length (AttentionLayer.unnormalized self node)
  = AttentionLayer.nb_attention_head self.
Proof.
  intros (Hwf & _ & Hout). unfold AttentionLayer.unnormalized.
  by rewrite length_map, length_linear_output.
Qed.

Lemma length_normalized (self : AttentionLayer.t) (n : nat)
    (example : list (list R)) (node : list R) :
  AttentionLayer.wf self → (0 < n)%nat → length example = n →
  length (AttentionLayer.normalized self example node)
  = AttentionLayer.nb_attention_head self.
Proof.
  intros Hwf Hn Hlen. unfold AttentionLayer.normalized.
  rewrite length_zip_with, length_unnormalized by done.
  rewrite (length_sum_vectors n (AttentionLayer.nb_attention_head self)); [lia|done|].
  split; [by rewrite length_map|].
  apply Forall_forall. intros row Hrow.
  apply list_elem_of_In, in_map_iff in Hrow as (? & <- & _).
  by apply length_unnormalized.
Qed.

(** On a well-formed input [forward] raises nothing and returns the pooled
    features and the normalised weights. *)
Lemma attention_forward_ok (self : AttentionLayer.t) (e n c : nat)
    (t : list (list (list R))) :
  AttentionLayer.wf self →
  AttentionLayer.in_dim self = c →
  (0 < e)%nat → (0 < n)%nat → (0 < c)%nat →
  has_shape3 e n c t →
  AttentionLayer.forward self (Tensor3 t)
  = Ok (AttentionLayer.pooled self t, AttentionLayer.weights self t).
Proof.
  intros Hwf Hc He Hn Hcpos Ht.
  pose proof Hwf as (Hlin & Hin & Hout).
  unfold AttentionLayer.forward.
  set (h := AttentionLayer.nb_attention_head self) in *.
  rewrite (size3_has_shape3 e n c t He Hn Ht), bind_Ok.
  change (flatten (Tensor3 t)) with (concat (concat t)).
  pose proof (is_matrix_concat e n c t Ht) as Hrows.
  rewrite (view2_cols_concat (e * n) c (concat t) Hcpos Hrows), bind_Ok.
  rewrite (linear_forward_ok _ (e * n)) by (by rewrite Hin, Hc).
  rewrite bind_Ok. cbv zeta.
  (* the exponentiated scores, example by example *)
  rewrite map_map.
  change (map (fun x => map (fun s => exp (s * AttentionLayer.temperature self))
                            (Linear.output (AttentionLayer.attn self) x))
              (concat t))
    with (map (AttentionLayer.unnormalized self) (concat t)).
  rewrite concat_map.
  assert (has_shape3 e n h (map (map (AttentionLayer.unnormalized self)) t)) as Hw
    by (apply (has_shape3_map_map _ e n c h); [intros; by apply length_unnormalized|done]).
  rewrite (view3_concat e n h _ Hw), bind_Ok.
  (* the division by the sums over the nodes *)
  rewrite !map_map.
  assert (bcast3 Rdiv (map (map (AttentionLayer.unnormalized self)) t)
            (map (fun ex => [sum_vectors (map (AttentionLayer.unnormalized self) ex)]) t)
          = Ok (AttentionLayer.weights self t)) as ->.
  { unfold bcast3.
    rewrite (broadcast_map_map _
               (fun a b => map (fun w => zip_with Rdiv w (hd [] b)) a)).
    - f_equal. unfold AttentionLayer.weights. apply map_ext. intros ex.
      rewrite map_map. reflexivity.
    - intros ex Hex. unfold bcast2.
      rewrite (broadcast_single_r _ (fun w tot => zip_with Rdiv w tot)); [done|].
      intros w Hw'. apply bcast1_same_length.
      apply list_elem_of_In, in_map_iff in Hw' as (node & <- & Hnode).
      destruct Ht as [_ Ht]. rewrite Forall_forall in Ht.
      destruct (Ht ex Hex) as [Hlen Hnodes].
      rewrite length_unnormalized by done.
      rewrite (length_sum_vectors n h); [done..|].
      split; [by rewrite length_map|].
      apply Forall_forall. intros row Hrow.
      apply list_elem_of_In, in_map_iff in Hrow as (? & <- & _).
      by apply length_unnormalized. }
  rewrite bind_Ok.
  rewrite (view3_concat e n c t Ht), bind_Ok.
  (* the weighted features *)
  assert (bcast4 Rmult (map (map (map (fun a => [a]))) t)
            (map (map (fun w => [w])) (AttentionLayer.weights self t))
          = Ok (map (fun ex =>
                  map (fun node =>
                         map (fun a => map (Rmult a)
                                           (AttentionLayer.normalized self ex node))
                             node) ex) t)) as ->.
  { unfold AttentionLayer.weights, bcast4. rewrite map_map.
    rewrite (broadcast_map_map _
               (fun a b => zip_with (fun xs ws =>
                  map (fun x => map (Rmult (hd 0 x)) (hd [] ws)) xs) a b)).
    - f_equal. apply map_ext. intros ex. rewrite map_map.
      rewrite zip_with_fmap_l, zip_with_fmap_r, zip_with_diag.
      apply map_ext. intros node. by rewrite map_map.
    - intros ex Hex. unfold bcast3. rewrite map_map.
      rewrite (broadcast_map_map _
                 (fun xs ws => map (fun x => map (Rmult (hd 0 x)) (hd [] ws)) xs)).
      + f_equal. by rewrite zip_with_fmap_l, zip_with_fmap_r, zip_with_diag.
      + intros node Hnode. unfold bcast2.
        rewrite (broadcast_single_r _
                   (fun x w => map (Rmult (hd 0 x)) w)); [done|].
        intros x Hx. apply list_elem_of_In, in_map_iff in Hx as (a & <- & _).
        unfold bcast1. by rewrite (broadcast_single_l _ Rmult). }
  rewrite bind_Ok. cbv zeta.
  rewrite map_map, <- concat_map_concat, map_map.
  rewrite (view2_rows_concat e (c * h)); [done|done|].
  split; [rewrite length_map; by destruct Ht|].
  apply Forall_forall. intros row Hrow.
  apply list_elem_of_In, in_map_iff in Hrow as (ex & <- & Hex).
  apply (length_concat_is_matrix c h).
  destruct Ht as [_ Ht]. rewrite Forall_forall in Ht.
  destruct (Ht ex (proj2 (list_elem_of_In _ _) Hex)) as [Hlen Hnodes].
  apply (is_matrix_sum_matrices n c h); [done|].
  split; [by rewrite length_map|].
  apply Forall_forall. intros m Hm.
  apply list_elem_of_In, in_map_iff in Hm as (node & <- & Hnode).
  split.
  - rewrite length_map. rewrite Forall_forall in Hnodes.
    by apply Hnodes, list_elem_of_In.
  - apply Forall_forall. intros r Hr.
    apply list_elem_of_In, in_map_iff in Hr as (a & <- & _).
    rewrite length_map. by apply (length_normalized self n).
Qed.

Lemma nth_zip_with_Rdiv (a b : list R) (k : nat) :
  (k < length a)%nat → (k < length b)%nat →
  nth k (zip_with Rdiv a b) 0 = nth k a 0 / nth k b 0.
Proof.
  intros Ha Hb.
  destruct (lookup_lt_is_Some_2 a k Ha) as [x Hx].
  destruct (lookup_lt_is_Some_2 b k Hb) as [y Hy].
  rewrite (nth_lookup_Some _ _ _ (x / y)) by (by rewrite lookup_zip_with, Hx, Hy).
  by rewrite (nth_lookup_Some _ _ _ _ Hx), (nth_lookup_Some _ _ _ _ Hy).
Qed.

Lemma nth_unnormalized_pos (self : AttentionLayer.t) (node : list R) (k : nat) :
  AttentionLayer.wf self → (k < AttentionLayer.nb_attention_head self)%nat →
  0 < nth k (AttentionLayer.unnormalized self node) 0.
Proof.
  intros Hwf Hk.
  pose proof (length_unnormalized self node Hwf) as Hlen.
  unfold AttentionLayer.unnormalized in *. rewrite length_map in Hlen.
  rewrite (nth_indep _ 0 ((fun s => exp (s * AttentionLayer.temperature self)) 0))
    by (rewrite length_map; lia).
  rewrite (map_nth (fun s => exp (s * AttentionLayer.temperature self))).
  apply exp_pos.
Qed.

(** The weights of one example, over its nodes, sum to 1 for every head. *)
Lemma normalized_sums_to_one (self : AttentionLayer.t) (n : nat)
    (example : list (list R)) (k : nat) :
  AttentionLayer.wf self → (0 < n)%nat → length example = n →
  (k < AttentionLayer.nb_attention_head self)%nat →
  Rsum n (fun j =>
    nth k (AttentionLayer.normalized self example (nth j example [])) 0) = 1.
Proof.
  intros Hwf Hn Hlen Hk.
  set (h := AttentionLayer.nb_attention_head self) in *.
  set (u := map (AttentionLayer.unnormalized self) example).
  assert (is_matrix n h u) as Hu.
  { split; [unfold u; by rewrite length_map|].
    apply Forall_forall. intros row Hrow.
    apply list_elem_of_In, in_map_iff in Hrow as (? & <- & _).
    by apply length_unnormalized. }
  assert (∀ j, (j < n)%nat →
            entry u j k = nth k (AttentionLayer.unnormalized self (nth j example [])) 0)
    as Hentry.
  { intros j Hj. unfold entry, u.
    rewrite (nth_indep _ [] (AttentionLayer.unnormalized self []))
      by (rewrite length_map; lia).
    by rewrite (map_nth (AttentionLayer.unnormalized self)). }
  assert (0 < Rsum n (fun j => entry u j k)) as Hpos.
  { apply Rsum_pos; [done|]. intros j Hj. rewrite Hentry by done.
    by apply nth_unnormalized_pos. }
  rewrite (Rsum_ext n _ (fun j => entry u j k * / nth k (sum_vectors u) 0)).
  - rewrite Rsum_scal_r, (nth_sum_vectors n h u k Hn Hu Hk).
    apply Rinv_r. lra.
  - intros j Hj. unfold AttentionLayer.normalized. fold u.
    rewrite nth_zip_with_Rdiv.
    + by rewrite Hentry.
    + by rewrite length_unnormalized.
    + by rewrite (length_sum_vectors n h u Hn Hu).
Qed.

(** C3.  For every well-formed input of [e] examples, [n] nodes and [c]
    channels, [AttentionLayer.forward] returns, together with the pooled
    features, one weight per example, node and head: the exponentiated
    linear score of the node divided by the sum of those scores over the
    nodes of the example.  For every example and every head these weights
    sum to 1 over the nodes, exactly, in real arithmetic. *)
Theorem attention_weights_sum_to_one (self : AttentionLayer.t) (e n c : nat)
    (t : list (list (list R))) :
  AttentionLayer.wf self →
  AttentionLayer.in_dim self = c →
  (0 < e)%nat → (0 < n)%nat → (0 < c)%nat →
  has_shape3 e n c t →
  ∃ attn_applied attn_weights,
    AttentionLayer.forward self (Tensor3 t) = Ok (attn_applied, attn_weights)
    ∧ has_shape3 e n (AttentionLayer.nb_attention_head self) attn_weights
    ∧ attn_weights = AttentionLayer.weights self t
    ∧ ∀ i k, (i < e)%nat → (k < AttentionLayer.nb_attention_head self)%nat →
        Rsum n (fun j => entry3 attn_weights i j k) = 1.
Proof.
  intros Hwf Hc He Hn Hcpos Ht.
  exists (AttentionLayer.pooled self t), (AttentionLayer.weights self t).
  split_and!.
  - by apply (attention_forward_ok self e n c).
  - destruct Ht as [Hlen Hex]. split.
    + unfold AttentionLayer.weights. by rewrite length_map.
    + apply Forall_forall. intros ex' Hex'.
      apply list_elem_of_In, in_map_iff in Hex' as (ex & <- & Hin).
      rewrite Forall_forall in Hex.
      destruct (Hex ex (proj2 (list_elem_of_In _ _) Hin)) as [Hn' _].
      split; [by rewrite length_map|].
      apply Forall_forall. intros row Hrow.
      apply list_elem_of_In, in_map_iff in Hrow as (node & <- & _).
      by apply (length_normalized self n).
  - reflexivity.
  - intros i k Hi Hk.
    destruct Ht as [Hlen Hex].
    assert (length (nth i t []) = n) as Hn'.
    { rewrite Forall_forall in Hex.
      apply (Hex (nth i t [])), list_elem_of_In, nth_In. lia. }
    rewrite <- (normalized_sums_to_one self n (nth i t []) k Hwf Hn Hn' Hk).
    apply Rsum_ext. intros j Hj. unfold entry3, AttentionLayer.weights.
    rewrite (nth_indep _ [] ((fun ex => map (AttentionLayer.normalized self ex) ex) []))
      by (rewrite length_map; lia).
    rewrite (map_nth (fun ex => map (AttentionLayer.normalized self ex) ex)).
    rewrite (nth_indep _ [] (AttentionLayer.normalized self (nth i t []) []))
      by (rewrite length_map; lia).
    by rewrite (map_nth (AttentionLayer.normalized self (nth i t []))).
Qed.

Lemma attention_weights_sum_to_one_witness :
  ∃ attn_applied attn_weights,
    AttentionLayer.forward
      {| AttentionLayer.in_dim := 2; AttentionLayer.nb_attention_head := 2;
         AttentionLayer.attn :=
           {| Linear.in_features := 2; Linear.out_features := 2;
              Linear.weight := [[1; 0]; [0; 1]]; Linear.bias := [0; 0] |};
         AttentionLayer.temperature := 1 |}
      (Tensor3 [[[1; 2]; [3; 4]; [5; 6]]]) = Ok (attn_applied, attn_weights)
    ∧ has_shape3 1 3 2 attn_weights
    ∧ attn_weights
      = AttentionLayer.weights
          {| AttentionLayer.in_dim := 2; AttentionLayer.nb_attention_head := 2;
             AttentionLayer.attn :=
               {| Linear.in_features := 2; Linear.out_features := 2;
                  Linear.weight := [[1; 0]; [0; 1]]; Linear.bias := [0; 0] |};
             AttentionLayer.temperature := 1 |}
          [[[1; 2]; [3; 4]; [5; 6]]]
    ∧ ∀ i k, (i < 1)%nat → (k < 2)%nat →
        Rsum 3 (fun j => entry3 attn_weights i j k) = 1.
Proof.
  apply (attention_weights_sum_to_one
           {| AttentionLayer.in_dim := 2; AttentionLayer.nb_attention_head := 2;
              AttentionLayer.attn :=
                {| Linear.in_features := 2; Linear.out_features := 2;
                   Linear.weight := [[1; 0]; [0; 1]]; Linear.bias := [0; 0] |};
              AttentionLayer.temperature := 1 |}
           1 3 2 [[[1; 2]; [3; 4]; [5; 6]]]).
  - split_and!; try reflexivity. repeat constructor.
  - reflexivity.
  - lia.
  - lia.
  - lia.
  - split; [reflexivity|]. repeat constructor.
Defined.

(** ** The element-wise gate *)

Lemma nth_map_lt {A B : Type} (f : A → B) (l : list A) (i : nat) (d : A) (d' : B) :
  (i < length l)%nat → nth i (map f l) d' = f (nth i l d).
Proof.
  intros Hi. rewrite (nth_indep _ d' (f d)) by (by rewrite length_map).
  apply map_nth.
Qed.

Lemma length_nth_has_shape3 {A : Type} (e n c : nat) (t : list (list (list A)))
    (i : nat) :
  has_shape3 e n c t → (i < e)%nat → is_matrix n c (nth i t []).
Proof.
  intros [Hlen Hex] Hi. rewrite Forall_forall in Hex.
  apply Hex, list_elem_of_In, nth_In. lia.
Qed.

Lemma nth_nth_map_map {A B : Type} (f : list A → list B) (e n c : nat)
    (t : list (list (list A))) (i j : nat) :
  has_shape3 e n c t → (i < e)%nat → (j < n)%nat →
  nth j (nth i (map (map f) t) []) [] = f (nth j (nth i t []) []).
Proof.
  intros Ht Hi Hj.
  pose proof (length_nth_has_shape3 e n c t i Ht Hi) as [Hlen _].
  rewrite (nth_map_lt _ _ _ []) by (destruct Ht; lia).
  by rewrite (nth_map_lt _ _ _ []) by lia.
Qed.


Lemma gate_of_single (self : ElementwiseGateLayer.t) (node : list R) :
  ElementwiseGateLayer.wf self →
  ElementwiseGateLayer.gate_of self node
  = [sigmoid (Linear.dot (hd [] (Linear.weight (ElementwiseGateLayer.attn self))) node
              + hd 0 (Linear.bias (ElementwiseGateLayer.attn self)))].
Proof.
  intros ([[Hlen Hrows] Hb] & _ & Hout).
  unfold ElementwiseGateLayer.gate_of, Linear.output.
  rewrite Hout in Hlen, Hb.
  destruct (Linear.weight (ElementwiseGateLayer.attn self)) as [|w [|w' ws]];
    simpl in Hlen; try lia.
  destruct (Linear.bias (ElementwiseGateLayer.attn self)) as [|b [|b' bs]];
    simpl in Hb; try lia.
  reflexivity.
Qed.

(** On a well-formed input the gate raises nothing and returns one weight
    per example and node. *)
Lemma gate_forward_ok (self : ElementwiseGateLayer.t) (e n c : nat)
    (t : list (list (list R))) :
  ElementwiseGateLayer.wf self →
  ElementwiseGateLayer.in_dim self = c →
  (0 < e)%nat → (0 < n)%nat → (0 < c)%nat →
  has_shape3 e n c t →
  ElementwiseGateLayer.forward self (Tensor3 t)
  = Ok (map (map (ElementwiseGateLayer.gate_of self)) t).
Proof.
  intros Hwf Hc He Hn Hcpos Ht. pose proof Hwf as (Hlin & Hin & Hout).
  unfold ElementwiseGateLayer.forward.
  rewrite (size3_has_shape3 e n c t He Hn Ht), bind_Ok.
  change (flatten (Tensor3 t)) with (concat (concat t)).
  pose proof (is_matrix_concat e n c t Ht) as Hrows.
  rewrite (view2_cols_concat (e * n) c (concat t) Hcpos Hrows), bind_Ok.
  rewrite (linear_forward_ok _ (e * n)) by (by rewrite Hin, Hc).
  rewrite bind_Ok. cbv zeta. rewrite map_map.
  change (map (fun x => map sigmoid (Linear.output (ElementwiseGateLayer.attn self) x))
              (concat t))
    with (map (ElementwiseGateLayer.gate_of self) (concat t)).
  rewrite concat_map. apply view3_concat.
  apply (has_shape3_map_map _ e n c 1); [|done].
  intros node _. by rewrite gate_of_single.
Qed.

Lemma broadcast_map_l {A B C : Type} (f : A → B → result C) (g : A → B → C)
    (h : B → A) (xs : list B) :
  (∀ x, x ∈ xs → f (h x) x = Ok (g (h x) x)) →
  broadcast f (map h xs) xs = Ok (map (fun x => g (h x) x) xs).
Proof.
  intros Hf. rewrite <- (map_id xs) at 2.
  rewrite (broadcast_map_map f g h (fun x => x) xs); [done|].
  intros x Hx. by apply Hf.
Qed.

Lemma gate_times_features (self : ElementwiseGateLayer.t) (e n c : nat)
    (t : list (list (list R))) :
  ElementwiseGateLayer.wf self →
  has_shape3 e n c t →
  bcast3 Rmult (map (map (ElementwiseGateLayer.gate_of self)) t) t
  = Ok (map (map (fun node =>
               map (Rmult (hd 0 (ElementwiseGateLayer.gate_of self node))) node))
            t).
Proof.
  intros Hwf Ht. unfold bcast3.
  rewrite (broadcast_map_l (bcast2 Rmult)
             (fun g ex => zip_with (fun gw node => map (Rmult (hd 0 gw)) node) g ex)
             (map (ElementwiseGateLayer.gate_of self)) t).
  - f_equal. apply map_ext. intros ex.
    by rewrite zip_with_fmap_l, zip_with_diag.
  - intros ex Hex. unfold bcast2.
    rewrite (broadcast_map_l _ (fun gw node => map (Rmult (hd 0 gw)) node)).
    + f_equal. by rewrite zip_with_fmap_l, zip_with_diag.
    + intros node Hnode. rewrite (gate_of_single self node Hwf). simpl.
      unfold bcast1. by rewrite (broadcast_single_l _ Rmult).
Qed.

(** ** [forward] is [supervised] *)

Lemma forward_unfold {L : Type} `{GraphLayer L}
    (self : GraphNetwork.t) (x : tensor) (g : Generator) :
  GraphNetwork.forward self x g
  = match size3 x with
    | Ok _ => GraphNetwork.supervised self x g
    | Raise e => Raise e
    end.
Proof.
  unfold GraphNetwork.forward, mbind, rand_bind, pure.
  by destruct (size3 x) as [[[nb_examples nb_nodes] nb_channels]|e].
Qed.

Lemma supervised_raises_on_bad_rank {L : Type} `{GraphLayer L}
    (self : GraphNetwork.t) (x : tensor) (g : Generator) (e : exn) :
  size3 x = Raise e → GraphNetwork.supervised self x g = Raise e.
Proof.
  intros He. unfold GraphNetwork.supervised, mbind, rand_bind, pure.
  by rewrite He.
Qed.

(** C9.  From every generator state, [GraphNetwork.forward(x)] is
    [GraphNetwork.supervised(x)]: the same value, the same exception and
    the same generator state afterwards. *)
Theorem forward_is_supervised {L : Type} `{GraphLayer L}
    (self : GraphNetwork.t) (x : tensor) (g : Generator) :
  GraphNetwork.forward self x g = GraphNetwork.supervised self x g.
Proof.
  rewrite forward_unfold.
  destruct (size3 x) as [shape|e] eqn:Hsize; [done|].
  symmetry. by apply supervised_raises_on_bad_rank.
Qed.

(** The two other modes never return: they end by reading an attribute
    that the constructor does not set. *)
Lemma rand_bind_raises {A B : Type} (m : rand A) (k : A → rand B) (g : Generator) :
  (∀ a g', ¬ is_ok (k a g')) → ¬ is_ok ((m ≫= k) g).
Proof.
  intros Hk. unfold mbind, rand_bind.
  destruct (m g) as [[a g']|e]; [apply Hk|simpl; tauto].
Qed.

Lemma semi_supervised_raises {L : Type} `{GraphLayer L}
    (self : GraphNetwork.t) (x : tensor) (g : Generator) :
  ¬ is_ok (GraphNetwork.semi_supervised self x g).
Proof.
  unfold GraphNetwork.semi_supervised.
  repeat (apply rand_bind_raises; intros ? ?). simpl. tauto.
Qed.

Lemma gene_inference_raises {L : Type} `{GraphLayer L}
    (self : GraphNetwork.t) (x : tensor) (g : Generator) :
  ¬ is_ok (GraphNetwork.gene_inference self x g).
Proof.
  unfold GraphNetwork.gene_inference.
  repeat (apply rand_bind_raises; intros ? ?).
  destruct (truthy_int _);
    repeat (apply rand_bind_raises; intros ? ?); simpl; tauto.
Qed.

(** ** Reproducibility of the forward pass *)

Lemma draws_nothing_pure {A : Type} (r : result A) : draws_nothing (pure r).
Proof. by exists r. Qed.

Lemma draws_nothing_ret {A : Type} (a : A) : draws_nothing (mret a : rand A).
Proof. by exists (Ok a). Qed.

Lemma draws_nothing_bind {A B : Type} (m : rand A) (k : A → rand B) :
  draws_nothing m → (∀ a, draws_nothing (k a)) → draws_nothing (m ≫= k).
Proof.
  intros [[a|e] Hm] Hk.
  - destruct (Hk a) as [r Hr]. exists r. intros g.
    unfold mbind, rand_bind. rewrite Hm. simpl. apply Hr.
  - exists (Raise e). intros g. unfold mbind, rand_bind. by rewrite Hm.
Qed.

(** Without drawing, the result does not depend on the generator, and the
    generator is left as it was. *)
Lemma draws_nothing_same_result {A : Type} (m : rand A) (g1 g2 : Generator)
    (y1 y2 : A) (g1' g2' : Generator) :
  draws_nothing m →
  m g1 = Ok (y1, g1') → m g2 = Ok (y2, g2') →
  y1 = y2 ∧ g1' = g1 ∧ g2' = g2.
Proof.
  intros [r Hr]. rewrite !Hr. unfold pure.
  destruct r as [a|e]; [|done]. intros [= <- <-] [= <- <-]. done.
Qed.

Lemma apply_dropout_inactive {L : Type} `{GraphLayer L}
    (dropout : option Dropout.t) (x : tensor) :
  inactive dropout → draws_nothing (GraphNetwork.apply_dropout dropout x).
Proof.
  intros Hd. destruct dropout as [d|]; simpl in *.
  - apply draws_nothing_bind; [apply draws_nothing_pure|]. intros n.
    apply draws_nothing_bind; [|intros; apply draws_nothing_pure].
    unfold Dropout.forward. rewrite Hd. apply draws_nothing_ret.
  - apply draws_nothing_ret.
Qed.

Lemma run_layers_draws_nothing {L : Type} `{GraphLayer L} (self : GraphNetwork.t)
    (layers : list (L * option ElementwiseGateLayer.t * option Dropout.t))
    (x : tensor) :
  Forall (fun l => inactive l.2) layers →
  draws_nothing (GraphNetwork.run_layers self layers x).
Proof.
  intros Hl. revert x.
  induction Hl as [|[[layer gate] dropout] layers Hd Hl IH]; intros x; simpl.
  - apply draws_nothing_ret.
  - apply draws_nothing_bind; [apply draws_nothing_pure|]. intros x'.
    apply draws_nothing_bind; [by apply apply_dropout_inactive|]. apply IH.
Qed.

Lemma Forall_inactive_zip {A : Type} (xs : list A)
    (dropouts : list (option Dropout.t)) :
  Forall inactive dropouts → Forall (fun l => inactive l.2) (zip xs dropouts).
Proof.
  intros Hd. revert xs. induction Hd as [|d ds Hd Hds IH]; intros [|x xs];
    simpl; try constructor; [done|apply IH].
Qed.

Lemma supervised_draws_nothing {L : Type} `{GraphLayer L}
    (self : GraphNetwork.t) (x : tensor) :
  Forall inactive (GraphNetwork.my_dropouts self) →
  draws_nothing (GraphNetwork.supervised self x).
Proof.
  intros Hd. unfold GraphNetwork.supervised.
  apply draws_nothing_bind; [apply draws_nothing_pure|].
  intros [[nb_examples nb_nodes] nb_channels].
  apply draws_nothing_bind; [apply draws_nothing_pure|]. intros x1.
  apply draws_nothing_bind;
    [by apply run_layers_draws_nothing, Forall_inactive_zip|]. intros x2.
  apply draws_nothing_bind; [apply draws_nothing_pure|]. intros x3.
  apply draws_nothing_pure.
Qed.

Lemma init_dropouts_inactive (nb_layers : nat) :
  Forall inactive (GraphNetwork.init_dropouts false nb_layers).
Proof.
  unfold GraphNetwork.init_dropouts. apply Forall_forall.
  intros d Hd. apply elem_of_replicate in Hd as [-> _]. exact I.
Qed.

(** Networks without active drop-out.  If no drop-out module of
    the network is active, because the network was built without drop-out
    or has been put in evaluation mode, then [forward] does not touch the
    random generator: from any two generator states it gives the same
    output, or raises the same exception, and leaves the state as it found
    it.  In particular two passes, one after the other or under different
    seeds, over the same input with the same parameters agree. *)
Theorem forward_is_reproducible_without_active_dropout
    {L : Type} `{GraphLayer L} (self : GraphNetwork.t) (x : tensor)
    (g1 g2 : Generator) :
  Forall inactive (GraphNetwork.my_dropouts self) →
  ∃ r : result (list (list R)),
    GraphNetwork.forward self x g1 = pure r g1
    ∧ GraphNetwork.forward self x g2 = pure r g2.
Proof.
  intros Hd. destruct (supervised_draws_nothing self x Hd) as [r Hr].
  exists r. rewrite !forward_unfold, !Hr.
  destruct (size3 x) as [shape|e] eqn:Hsize; [done|].
  pose proof (supervised_raises_on_bad_rank self x g1 e Hsize) as Hg1.
  rewrite Hr in Hg1. destruct r as [y|e']; simpl in *; [done|].
  by injection Hg1 as ->.
Qed.

Lemma forward_is_reproducible_without_active_dropout_witness :
  ∃ r : result (list (list R)),
    GraphNetwork.forward (H := passthrough_layer) plain_network
      (Tensor3 [[[1]]]) seeded_generator
    = pure r seeded_generator
    ∧ GraphNetwork.forward (H := passthrough_layer) plain_network
        (Tensor3 [[[1]]]) {| stream := fun _ => 3 / 4; cursor := 5 |}
      = pure r {| stream := fun _ => 3 / 4; cursor := 5 |}.
Proof.
  apply (forward_is_reproducible_without_active_dropout (H := passthrough_layer)).
  apply init_dropouts_inactive.
Defined.

(** One pass of [dropout_network] over the input [[[[1]]]]: the node is
    kept and scaled by [1 / (1 - 0.1)], or zeroed, as the next draw
    decides; the generator moves on by one draw. *)
Lemma dropout_network_forward (g : Generator) :
  GraphNetwork.forward (H := passthrough_layer) dropout_network (Tensor3 [[[1]]]) g
  = Ok ([[if Rlt_dec (stream g (cursor g)) (9 / 10) then 10 / 9 else 0]],
        {| stream := stream g; cursor := S (cursor g) |}).
Proof.
  unfold GraphNetwork.forward, GraphNetwork.supervised, dropout_network.
  unfold mbind, rand_bind, mret, rand_ret, pure. cbn.
  unfold GraphNetwork.conv_gate_relu. cbn.
  destruct (Rlt_dec 0 0) as [?|_]; [lra|].
  repeat (unfold mbind, rand_bind, mret, rand_ret, pure, uniform,
            Dropout.drop_entry, fmap, result_fmap, result_bind; cbn).
  assert (Rmin ((0 + 1) / 10) 0.4 = 1 / 10) as ->
    by (unfold Rmin; destruct (Rle_dec _ _); lra).
  assert (relu 1 = 1) as ->
    by (unfold relu, Rmax; destruct (Rle_dec _ _); lra).
  replace (1 - 1 * (1 / 10)) with (9 / 10) by lra.
  do 4 f_equal. destruct (Rlt_dec _ _); lra.
Qed.

(** With drop-out switched on, two passes in a row over the same input,
    with the same parameters and after one seeding, differ: they give the
    outputs [[[10/9]]] and [[[0]]]. *)
Lemma dropout_makes_two_passes_differ :
  ∃ y1 g1 y2 g2,
    GraphNetwork.forward (H := passthrough_layer) dropout_network
      (Tensor3 [[[1]]]) seeded_generator = Ok (y1, g1)
    ∧ GraphNetwork.forward (H := passthrough_layer) dropout_network
        (Tensor3 [[[1]]]) g1 = Ok (y2, g2)
    ∧ y1 ≠ y2.
Proof.
  eexists _, _, _, _. split_and!.
  - apply dropout_network_forward.
  - apply dropout_network_forward.
  - simpl.
    destruct (Rlt_dec 0 (9 / 10)) as [_|?]; [|lra].
    destruct (Rlt_dec (19 / 20) (9 / 10)) as [?|_]; [lra|].
    intros [= Heq]. lra.
Qed.

Lemma hidden_layer_draws_nothing (self : MLP.t) (nb_examples : nat)
    (layer : Linear.t) (x : tensor) :
  MLP.dropout self = false ∨ inactive (MLP.my_dropout self) →
  draws_nothing (MLP.hidden_layer self nb_examples layer x).
Proof.
  intros Hd. unfold MLP.hidden_layer.
  apply draws_nothing_bind; [apply draws_nothing_pure|]. intros y.
  destruct (MLP.dropout self); [|apply draws_nothing_ret].
  destruct Hd as [?|Hd]; [done|].
  destruct (MLP.my_dropout self) as [d|]; simpl in Hd.
  - apply draws_nothing_bind; [|intros; apply draws_nothing_ret].
    unfold Dropout.forward. rewrite Hd. apply draws_nothing_ret.
  - apply draws_nothing_pure.
Qed.

(** The same for [MLP.forward], whose only random step is its drop-out
    module. *)
Lemma mlp_forward_draws_nothing (self : MLP.t) (x : tensor) :
  MLP.dropout self = false ∨ inactive (MLP.my_dropout self) →
  draws_nothing (MLP.forward self x).
Proof.
  intros Hd. unfold MLP.forward.
  apply draws_nothing_bind; [apply draws_nothing_pure|].
  intros [[nb_examples nb_nodes] nb_channels].
  apply draws_nothing_bind; [apply draws_nothing_pure|]. intros x1.
  apply draws_nothing_bind; [|intros; apply draws_nothing_pure].
  generalize (MLP.my_layers self). intros layers. revert x1.
  induction layers as [|layer layers IH]; intros x1; simpl.
  - apply draws_nothing_ret.
  - apply draws_nothing_bind; [by apply hidden_layer_draws_nothing|]. apply IH.
Qed.

(** The same for the [forward] of [models.py]. *)
Lemma legacy_forward_draws_nothing {L : Type} `{GraphLayer L}
    (self : GraphNetwork.t) (x : tensor) :
  Forall inactive (GraphNetwork.my_dropouts self) →
  draws_nothing (Legacy.GraphNetwork.forward self x).
Proof.
  intros Hd. unfold Legacy.GraphNetwork.forward.
  apply draws_nothing_bind; [apply draws_nothing_pure|].
  intros [[nb_examples nb_nodes] nb_channels].
  apply draws_nothing_bind; [apply draws_nothing_pure|]. intros x1.
  apply draws_nothing_bind; [|intros; apply draws_nothing_pure].
  pose proof (Forall_inactive_zip
                (zip (GraphNetwork.my_convs self) (GraphNetwork.gates self))
                _ Hd) as Hl.
  revert Hl. generalize (zip (zip (GraphNetwork.my_convs self)
                                  (GraphNetwork.gates self))
                             (GraphNetwork.my_dropouts self)).
  intros layers Hl. generalize (@None tensor). revert x1.
  induction Hl as [|[[layer gate] dropout] layers Hdrop Hl IH];
    intros x1 last_g; simpl.
  - apply draws_nothing_ret.
  - apply draws_nothing_bind; [apply draws_nothing_pure|]. intros [x2 last_g'].
    apply draws_nothing_bind; [by apply apply_dropout_inactive|].
    intros x3. apply IH.
Qed.

(** ** Loading a snapshot of the parameters *)

Section LoadStateDictLemmas.
Variable compatible : tensor → tensor → bool.
Variable copied : tensor → tensor → tensor.

Lemma load_entry_ok (own_state : gmap string tensor) (name : string)
    (param : saved) :
  load_entry compatible copied own_state name param
  = Ok (match own_state !! name with
        | Some own =>
            <[name := restored compatible copied own (Some param)]> own_state
        | None => own_state
        end).
Proof.
  unfold load_entry, copy_, restored.
  destruct (own_state !! name) as [own|] eqn:Hown; [|done].
  destruct (compatible own (saved_data param)); [done|].
  by rewrite insert_id.
Qed.

Lemma load_items_lookup (items : list (string * saved))
    (own_state : gmap string tensor) :
  NoDup items.*1 →
  ∃ own_state',
    load_items compatible copied items own_state = Ok own_state'
    ∧ ∀ name,
        own_state' !! name
        = (fun own => restored compatible copied own
                        ((list_to_map items : gmap string saved) !! name))
          <$> own_state !! name.
Proof.
  revert own_state.
  induction items as [|[n p] items IH]; intros own_state Hnodup.
  - exists own_state. split; [done|]. intros name. simpl.
    rewrite lookup_empty. by destruct (own_state !! name).
  - apply NoDup_cons in Hnodup as [Hn Hnodup]. simpl.
    rewrite load_entry_ok, bind_Ok.
    destruct (IH (match own_state !! n with
                  | Some own =>
                      <[n := restored compatible copied own (Some p)]> own_state
                  | None => own_state
                  end) Hnodup) as (own_state' & -> & Hlookup).
    exists own_state'. split; [done|]. intros name. rewrite Hlookup.
    destruct (decide (n = name)) as [<-|Hne].
    + rewrite lookup_insert_eq.
      rewrite (not_elem_of_list_to_map_1 (M := gmap string)) by done.
      destruct (own_state !! n) as [own|] eqn:Hown.
      * by rewrite lookup_insert_eq.
      * by rewrite Hown.
    + rewrite (lookup_insert_ne _ n name) by done.
      destruct (own_state !! n) as [own|] eqn:Hown; [|done].
      by rewrite lookup_insert_ne.
Qed.

Lemma load_state_dict_lookup (own_state : gmap string tensor)
    (state_dict : gmap string saved) :
  ∃ own_state',
    load_state_dict compatible copied own_state state_dict = Ok own_state'
    ∧ ∀ name,
        own_state' !! name
        = (fun own => restored compatible copied own (state_dict !! name))
          <$> own_state !! name.
Proof.
  unfold load_state_dict.
  destruct (load_items_lookup (map_to_list state_dict) own_state)
    as (own_state' & Hload & Hlookup).
  { apply NoDup_fst_map_to_list. }
  exists own_state'. split; [done|]. intros name.
  by rewrite Hlookup, list_to_map_to_list.
Qed.

(** C2.  Loading a snapshot with [GraphNetwork.load_state_dict] never
    raises, whatever the snapshot holds.  Afterwards the model has the
    parameters it had, under the same names; a parameter whose name is in
    the snapshot with a tensor of a compatible shape holds the copy of
    that tensor; every other parameter (absent from the snapshot, or
    present with an incompatible shape) holds what it held; and a name
    of the snapshot that the model does not know adds nothing. *)
Theorem load_state_dict_restores_what_fits
    (own_state : gmap string tensor) (state_dict : gmap string saved) :
  ∃ own_state',
    load_state_dict compatible copied own_state state_dict = Ok own_state'
    ∧ (∀ name own param,
         own_state !! name = Some own →
         state_dict !! name = Some param →
         compatible own (saved_data param) = true →
         own_state' !! name = Some (copied own (saved_data param)))
    ∧ (∀ name own param,
         own_state !! name = Some own →
         state_dict !! name = Some param →
         compatible own (saved_data param) = false →
         own_state' !! name = Some own)
    ∧ (∀ name,
         state_dict !! name = None →
         own_state' !! name = own_state !! name)
    ∧ (∀ name,
         own_state !! name = None →
         own_state' !! name = None).
Proof.
  destruct (load_state_dict_lookup own_state state_dict)
    as (own_state' & Hload & Hlookup).
  exists own_state'. split_and!; [done|..].
  - intros name own param Hown Hparam Hfit.
    by rewrite Hlookup, Hown, Hparam; simpl; rewrite Hfit.
  - intros name own param Hown Hparam Hfit.
    by rewrite Hlookup, Hown, Hparam; simpl; rewrite Hfit.
  - intros name Hparam. rewrite Hlookup, Hparam.
    by destruct (own_state !! name).
  - intros name Hown. by rewrite Hlookup, Hown.
Qed.

(** [get_model] loads the snapshot laid over the model's own state; when
    copying a tensor onto itself changes nothing, that is loading the
    snapshot. *)
Lemma get_model_restore_is_load_state_dict
    (own_state : gmap string tensor) (model_state : gmap string saved) :
  (∀ t, compatible t t = true) →
  (∀ t, copied t t = t) →
  load_state_dict compatible copied own_state
    (model_state ∪ (SavedTensor <$> own_state))
  = load_state_dict compatible copied own_state model_state.
Proof.
  intros Hfit Hsame.
  destruct (load_state_dict_lookup own_state
              (model_state ∪ (SavedTensor <$> own_state)))
    as (own1 & -> & Hlookup1).
  destruct (load_state_dict_lookup own_state model_state)
    as (own2 & -> & Hlookup2).
  f_equal. apply map_eq. intros name. rewrite Hlookup1, Hlookup2.
  destruct (own_state !! name) as [own|] eqn:Hown; [|done]. simpl. f_equal.
  destruct (model_state !! name) as [param|] eqn:Hparam.
  - by rewrite (lookup_union_Some_l _ _ _ _ Hparam).
  - rewrite lookup_union_r by done. rewrite lookup_fmap, Hown. simpl.
    by rewrite Hfit, Hsame.
Qed.
End LoadStateDictLemmas.

(** A snapshot with a weight of the right shape, a bias of the wrong shape
    and a name the model does not have, loaded into a model with a weight,
    a bias and an embedding: only the weight changes. *)
Example load_state_dict_example :
  load_state_dict same_shape (fun _ src => src)
    (<["weight" := Tensor2 [[0; 0]]]>
       (<["bias" := Tensor1 [0]]> {["emb" := Tensor2 [[7]]]}))
    (<["weight" := SavedParameter (Tensor2 [[1; 2]])]>
       (<["bias" := SavedTensor (Tensor1 [3; 4])]>
          {["adj" := SavedTensor (Tensor2 [[1]])]}))
  = Ok (<["weight" := Tensor2 [[1; 2]]]>
          (<["bias" := Tensor1 [0]]> {["emb" := Tensor2 [[7]]]})).
Proof.
  destruct (load_state_dict_lookup same_shape (fun _ src => src)
              (<["weight" := Tensor2 [[0; 0]]]>
                 (<["bias" := Tensor1 [0]]> {["emb" := Tensor2 [[7]]]}))
              (<["weight" := SavedParameter (Tensor2 [[1; 2]])]>
                 (<["bias" := SavedTensor (Tensor1 [3; 4])]>
                    {["adj" := SavedTensor (Tensor2 [[1]])]})))
    as (own' & -> & Hlookup).
  f_equal. apply map_eq. intros name. rewrite Hlookup.
  destruct (decide (name = "weight")) as [->|Hw]; [done|].
  destruct (decide (name = "bias")) as [->|Hb]; [done|].
  destruct (decide (name = "emb")) as [->|He]; [done|].
  simplify_map_eq. by rewrite (lookup_singleton_ne "emb" name) by congruence.
Qed.

(** ** The regularisers of the plain models *)

(** In [models.py] the [regularization] of a graph network returns the
    empty list, which is not the number 0. *)
Lemma legacy_regularization_is_an_empty_list :
  Legacy.GraphNetwork.regularization plain_network
  = RegList []
  ∧ Legacy.GraphNetwork.regularization plain_network
    ≠ RegScalar 0.
Proof. split; [reflexivity|discriminate]. Qed.

(** C1, for the two versions of the models.  In [models/model_layers.py]
    the method [regularization(reg_lambda)] of a graph network (GCN, SGC,
    LCG), of an MLP and of a plain logistic regression returns the number 0
    for every [reg_lambda].  In [models.py] the method takes no argument
    and returns the empty list, from which the training loop of [main.py]
    computes an additional loss of 0 for every list of lambdas. *)
Theorem plain_models_add_no_regularization {L : Type}
    (network : @GraphNetwork.t L) (mlp : MLP.t) (lr : LogisticRegression.t)
    (reg_lambda : R) (lambdas : list R) :
  GraphNetwork.regularization network reg_lambda = RegScalar 0
  ∧ MLP.regularization mlp reg_lambda = RegScalar 0
  ∧ LogisticRegression.regularization lr reg_lambda = RegScalar 0
  ∧ Legacy.GraphNetwork.regularization network = RegList []
  ∧ Legacy.MLP.regularization mlp = RegList []
  ∧ Legacy.other_loss (Legacy.GraphNetwork.regularization network) lambdas = Ok 0
  ∧ Legacy.other_loss (Legacy.MLP.regularization mlp) lambdas = Ok 0.
Proof.
  unfold GraphNetwork.regularization, MLP.regularization,
    LogisticRegression.regularization.
  assert (0.0 = 0) as -> by lra.
  split_and!; reflexivity.
Qed.

(** ** Pruning at 100 percent *)

Lemma smallest_is_lower_bound (values : list R) (w : R) :
  w ∈ values → smallest values <= w.
Proof.
  unfold smallest. generalize (hd 0 values). intros d Hw.
  induction Hw as [w values|w w' values Hw IH]; simpl.
  - apply Rmin_l.
  - etransitivity; [apply Rmin_r|apply IH].
Qed.

Lemma percentile_prune_100 (percentile : list R → R → R) (adj : list (list R)) :
  (∀ values w, w ∈ values → percentile values 0 <= w) →
  percentile_prune percentile 100 adj = adj.
Proof.
  intros Hmin. unfold percentile_prune.
  replace (100 - 100) with 0 by lra.
  rewrite <- (map_id adj) at 2. apply map_ext_in. intros row Hrow.
  rewrite <- (map_id row) at 2. apply map_ext_in. intros w Hw.
  destruct (Rle_dec (percentile (concat adj) 0) w) as [_|Hlt]; [done|].
  exfalso. apply Hlt, Hmin, list_elem_of_In, in_concat. eauto.
Qed.

(** C7.  Pruning with the percentage of edges to keep set to 100 returns
    the adjacency it was given, for every adjacency: the threshold is then
    the percentile 0 of the weights, which no weight is below.  With the
    self-loop option, before or after the pruning, the result is the
    adjacency with its self-loops. *)
Theorem percentile_pruning_at_100_is_a_no_op
    (percentile : list R → R → R) (add_self : bool) (adj : list (list R)) :
  (∀ values w, w ∈ values → percentile values 0 <= w) →
  percentile_prune percentile 100 adj = adj
  ∧ add_self_loops add_self (percentile_prune percentile 100 adj)
    = add_self_loops add_self adj
  ∧ percentile_prune percentile 100 (add_self_loops add_self adj)
    = add_self_loops add_self adj.
Proof.
  intros Hmin. split_and!.
  - by apply percentile_prune_100.
  - by rewrite percentile_prune_100.
  - by apply percentile_prune_100.
Qed.

Lemma percentile_pruning_at_100_is_a_no_op_witness :
  percentile_prune (fun values _ => smallest values) 100 [[0; 2; 1]; [2; 0; 0]; [1; 0; 0]]
  = [[0; 2; 1]; [2; 0; 0]; [1; 0; 0]]
  ∧ add_self_loops true
      (percentile_prune (fun values _ => smallest values) 100
         [[0; 2; 1]; [2; 0; 0]; [1; 0; 0]])
    = add_self_loops true [[0; 2; 1]; [2; 0; 0]; [1; 0; 0]]
  ∧ percentile_prune (fun values _ => smallest values) 100
      (add_self_loops true [[0; 2; 1]; [2; 0; 0]; [1; 0; 0]])
    = add_self_loops true [[0; 2; 1]; [2; 0; 0]; [1; 0; 0]].
Proof.
  apply (percentile_pruning_at_100_is_a_no_op
           (fun values _ => smallest values) true
           [[0; 2; 1]; [2; 0; 0]; [1; 0; 0]]).
  intros values w Hw. by apply smallest_is_lower_bound.
Defined.

(** Below 100 the pruning does remove edges: keeping the upper half of
    these weights zeroes the weight 1. *)
Example percentile_prune_below_100 :
  percentile_prune (fun _ _ => 2) 50 [[0; 2; 1]; [2; 0; 0]; [1; 0; 0]]
  = [[0; 2; 0]; [2; 0; 0]; [0; 0; 0]].
Proof.
  unfold percentile_prune. simpl.
  repeat (destruct (Rle_dec _ _); try lra). reflexivity.
Qed.

(** ** The constructor of [models.py] *)

(** The older constructor zeroes the diagonal of its caller's array in
    the same way. *)
Lemma legacy_init_zeroes_the_diagonal
    (σ : store) (nb_nodes input_dim n : nat) (adj : loc)
    (out_dim : nat) (on_cuda : bool) (w0 : list (list R)) (b0 : list R)
    (a : list (list R)) :
  σ !! adj = Some a →
  is_matrix n n a →
  ∃ model a',
    Legacy.SparseLogisticRegression.init σ nb_nodes input_dim adj out_dim
      on_cuda w0 b0 = Some (model, <[adj := a']> σ)
    ∧ is_matrix n n a'
    ∧ (∀ i, (i < n)%nat → entry a' i i = 0)
    ∧ (∀ i j, i ≠ j → entry a' i j = entry a i j).
Proof.
  intros Ha Hsq. unfold Legacy.SparseLogisticRegression.init. rewrite Ha.
  cbn [mbind option_bind].
  rewrite (laplacian_aligned_square n)
    by (by apply is_matrix_fill_diagonal).
  eexists _, (fill_diagonal a 0). split_and!.
  - reflexivity.
  - by apply (is_matrix_fill_diagonal n n a 0 Hsq).
  - intros i Hi. apply entry_fill_diagonal_diag.
    by rewrite (length_nth_is_matrix n n a i Hsq Hi).
  - intros i j Hij. by apply entry_fill_diagonal_off.
Qed.

(** ** The attention layer of [models.py] *)

Lemma is_matrix_transpose (c n : nat) (m : list (list R)) :
  (0 < c)%nat → is_matrix c n m → is_matrix n c (transpose m).
Proof.
  intros Hc Hm. unfold transpose.
  rewrite (ncols_is_matrix c n m Hc Hm). unfold nrows.
  destruct Hm as [-> _]. apply is_matrix_tabulate.
Qed.

Lemma has_shape3_permute (e c n : nat) (t : list (list (list R))) :
  (0 < c)%nat → has_shape3 e c n t → has_shape3 e n c (permute_0_2_1 t).
Proof.
  intros Hc [Hlen Hex]. split; [unfold permute_0_2_1; by rewrite length_map|].
  unfold permute_0_2_1. apply Forall_forall. intros m' Hm'.
  apply list_elem_of_In, in_map_iff in Hm' as (m & <- & Hm).
  rewrite Forall_forall in Hex.
  by apply is_matrix_transpose, Hex, list_elem_of_In.
Qed.

Lemma legacy_one_head_wf (self : Legacy.AttentionLayer.t) :
  Legacy.AttentionLayer.wf self →
  AttentionLayer.wf (one_head self).
Proof. intros (Hlin & Hin & Hout). by split_and!. Qed.

(** On a well-formed input of [e] examples, [c] channels and [n] nodes the
    older layer computes the weights of the one-head layer on the permuted
    input. *)
Lemma legacy_attention_ok (self : Legacy.AttentionLayer.t) (e c n : nat)
    (t : list (list (list R))) :
  Legacy.AttentionLayer.wf self →
  Legacy.AttentionLayer.in_dim self = c →
  (0 < e)%nat → (0 < c)%nat → (0 < n)%nat →
  has_shape3 e c n t →
  Legacy.AttentionLayer.attention self (Tensor3 t)
  = Ok (concat (permute_0_2_1 t),
        AttentionLayer.weights (one_head self)
          (permute_0_2_1 t)).
Proof.
  intros Hwf Hc He Hcpos Hn Ht.
  pose proof (legacy_one_head_wf self Hwf) as Hwf'.
  pose proof Hwf as (Hlin & Hin & Hout).
  pose proof (has_shape3_permute e c n t Hcpos Ht) as Hp.
  unfold Legacy.AttentionLayer.attention.
  rewrite (size3_has_shape3 e c n t He Hcpos Ht), bind_Ok.
  unfold torch_permute_0_2_1. rewrite bind_Ok.
  change (flatten (Tensor3 (permute_0_2_1 t)))
    with (concat (concat (permute_0_2_1 t))).
  pose proof (is_matrix_concat e n c _ Hp) as Hrows.
  rewrite (view2_cols_concat (e * n) c _ Hcpos Hrows), bind_Ok.
  rewrite (linear_forward_ok _ (e * n)) by (by rewrite Hin, Hc).
  rewrite bind_Ok. cbv zeta. rewrite map_map.
  change (map (fun x => map (fun s => exp (s * Legacy.AttentionLayer.temperature self))
                            (Linear.output (Legacy.AttentionLayer.attn self) x))
              (concat (permute_0_2_1 t)))
    with (map (AttentionLayer.unnormalized (one_head self))
              (concat (permute_0_2_1 t))).
  rewrite concat_map.
  set (self' := one_head self) in *.
  assert (has_shape3 e n 1 (map (map (AttentionLayer.unnormalized self'))
                                (permute_0_2_1 t))) as Hw.
  { apply (has_shape3_map_map _ e n c 1); [|done].
    intros. by rewrite length_unnormalized. }
  rewrite (view3_concat e n 1 _ Hw), bind_Ok.
  rewrite !map_map.
  assert (bcast3 Rdiv (map (map (AttentionLayer.unnormalized self')) (permute_0_2_1 t))
            (map (fun ex => [sum_vectors (map (AttentionLayer.unnormalized self') ex)])
                 (permute_0_2_1 t))
          = Ok (AttentionLayer.weights self' (permute_0_2_1 t))) as ->.
  { unfold bcast3.
    rewrite (broadcast_map_map _
               (fun a b => map (fun w => zip_with Rdiv w (hd [] b)) a)).
    - f_equal. unfold AttentionLayer.weights. apply map_ext. intros ex.
      rewrite map_map. reflexivity.
    - intros ex Hex. unfold bcast2.
      rewrite (broadcast_single_r _ (fun w tot => zip_with Rdiv w tot)); [done|].
      intros w Hw'. apply bcast1_same_length.
      apply list_elem_of_In, in_map_iff in Hw' as (node & <- & Hnode).
      destruct Hp as [_ Hp]. rewrite Forall_forall in Hp.
      destruct (Hp ex Hex) as [Hlen Hnodes].
      rewrite length_unnormalized by done.
      rewrite (length_sum_vectors n 1); [done..|].
      split; [by rewrite length_map|].
      apply Forall_forall. intros row Hrow.
      apply list_elem_of_In, in_map_iff in Hrow as (? & <- & _).
      by apply length_unnormalized. }
  by rewrite bind_Ok.
Qed.

(** The weights of [models.py] sum to 1 over the nodes of every example as
    well. *)
Lemma legacy_weights_sum_to_one (self : Legacy.AttentionLayer.t)
    (e c n : nat) (t : list (list (list R))) :
  Legacy.AttentionLayer.wf self →
  Legacy.AttentionLayer.in_dim self = c →
  (0 < e)%nat → (0 < c)%nat → (0 < n)%nat →
  has_shape3 e c n t →
  ∃ x attn_weights,
    Legacy.AttentionLayer.attention self (Tensor3 t) = Ok (x, attn_weights)
    ∧ ∀ i, (i < e)%nat → Rsum n (fun j => entry3 attn_weights i j 0) = 1.
Proof.
  intros Hwf Hc He Hcpos Hn Ht.
  pose proof (legacy_one_head_wf self Hwf) as Hwf'.
  pose proof (has_shape3_permute e c n t Hcpos Ht) as Hp.
  eexists _, _. split; [by apply (legacy_attention_ok self e c n)|].
  intros i Hi. destruct Hp as [Hlen Hex].
  assert (length (nth i (permute_0_2_1 t) []) = n) as Hn'.
  { rewrite Forall_forall in Hex.
    apply (Hex (nth i (permute_0_2_1 t) [])), list_elem_of_In, nth_In. lia. }
  rewrite <- (normalized_sums_to_one (one_head self) n
                (nth i (permute_0_2_1 t) []) 0 Hwf' Hn Hn') by (simpl; lia).
  apply Rsum_ext. intros j Hj. unfold entry3, AttentionLayer.weights.
  rewrite (nth_map_lt _ _ _ []) by lia.
  by rewrite (nth_map_lt _ _ _ []) by lia.
Qed.

(** * Further properties of the code *)

(** ** The soft-pooling layer *)

(** [SoftPoolingLayer.forward] runs the first lines of
    [AttentionLayer.forward] and sums the weights over the heads. *)
Lemma soft_pooling_of_attention (self : SoftPoolingLayer.t) (x : tensor)
    (applied : list (list R)) (w : list (list (list R))) :
  AttentionLayer.forward (SoftPoolingLayer.as_attention self) x = Ok (applied, w) →
  SoftPoolingLayer.forward self x = Ok (map (map (fun v => [sum_list v])) w).
Proof.
  unfold AttentionLayer.forward, SoftPoolingLayer.forward,
    SoftPoolingLayer.as_attention. simpl.
  destruct (size3 x) as [[[e n] c]|]; simpl; [|discriminate].
  destruct (view2_cols c (flatten x)) as [x2|]; simpl; [|discriminate].
  destruct (Linear.forward _ x2) as [scores|]; simpl; [|discriminate].
  destruct (view3 e n (SoftPoolingLayer.nb_attention_head self) _) as [w0|];
    simpl; [|discriminate].
  destruct (bcast3 Rdiv w0 _) as [w1|]; simpl; [|discriminate].
  destruct (view3 e n c _) as [x3|]; simpl; [|discriminate].
  destruct (bcast4 Rmult _ _) as [a|]; simpl; [|discriminate].
  destruct (view2_rows e _) as [a2|]; simpl; [|discriminate].
  intros [= _ <-]. f_equal. rewrite map_map. apply map_ext. intros ex.
  by rewrite map_map.
Qed.

Lemma soft_pooling_wf (self : SoftPoolingLayer.t) :
  SoftPoolingLayer.wf self → AttentionLayer.wf (SoftPoolingLayer.as_attention self).
Proof. intros H. exact H. Qed.

(** X1.  On a well-formed input of [e] examples, [n] nodes and [c]
    channels [SoftPoolingLayer.forward] returns one number per example
    and node, in a tensor of shape [(e, n, 1)]: the sum over the heads of
    the normalised attention weights of the node.  For every example these
    numbers sum, over the nodes, to the number of heads. *)
Theorem soft_pooling_sums_to_the_number_of_heads (self : SoftPoolingLayer.t)
    (e n c : nat) (t : list (list (list R))) :
  SoftPoolingLayer.wf self →
  SoftPoolingLayer.in_dim self = c →
  (0 < e)%nat → (0 < n)%nat → (0 < c)%nat →
  has_shape3 e n c t →
  ∃ out,
    SoftPoolingLayer.forward self (Tensor3 t) = Ok out
    ∧ has_shape3 e n 1 out
    ∧ (∀ i j, (i < e)%nat → (j < n)%nat →
         entry3 out i j 0
         = Rsum (SoftPoolingLayer.nb_attention_head self) (fun k =>
             entry3 (AttentionLayer.weights (SoftPoolingLayer.as_attention self) t)
                    i j k))
    ∧ (∀ i, (i < e)%nat →
         Rsum n (fun j => entry3 out i j 0)
         = INR (SoftPoolingLayer.nb_attention_head self)).
Proof.
  intros Hwf Hc He Hn Hcpos Ht.
  set (a := SoftPoolingLayer.as_attention self).
  set (h := SoftPoolingLayer.nb_attention_head self).
  pose proof (soft_pooling_wf self Hwf) as Hwf'. fold a in Hwf'.
  pose proof (attention_forward_ok a e n c t Hwf' Hc He Hn Hcpos Ht) as Hfw.
  apply soft_pooling_of_attention in Hfw.
  assert (has_shape3 e n h (AttentionLayer.weights a t)) as Hw.
  { destruct Ht as [Hlen Hex]. split.
    - unfold AttentionLayer.weights. by rewrite length_map.
    - apply Forall_forall. intros ex' Hex'.
      apply list_elem_of_In, in_map_iff in Hex' as (ex & <- & Hin).
      rewrite Forall_forall in Hex.
      destruct (Hex ex (proj2 (list_elem_of_In _ _) Hin)) as [Hn' _].
      split; [by rewrite length_map|].
      apply Forall_forall. intros row Hrow.
      apply list_elem_of_In, in_map_iff in Hrow as (node & <- & _).
      by apply (length_normalized a n). }
  assert (∀ i j, (i < e)%nat → (j < n)%nat →
            entry3 (map (map (fun v => [sum_list v])) (AttentionLayer.weights a t))
                   i j 0
            = Rsum h (fun k => entry3 (AttentionLayer.weights a t) i j k)) as Hentry.
  { intros i j Hi Hj. unfold entry3.
    rewrite (nth_nth_map_map _ e n h _ i j Hw Hi Hj). simpl.
    rewrite sum_list_nth.
    pose proof (length_nth_has_shape3 e n h _ i Hw Hi) as Hm.
    by rewrite (length_nth_is_matrix n h _ j Hm Hj). }
  exists (map (map (fun v => [sum_list v])) (AttentionLayer.weights a t)).
  split_and!.
  - exact Hfw.
  - by apply (has_shape3_map_map _ e n h 1).
  - exact Hentry.
  - intros i Hi.
    rewrite (Rsum_ext n _ (fun j =>
               Rsum h (fun k => entry3 (AttentionLayer.weights a t) i j k)))
      by (intros j Hj; by apply Hentry).
    rewrite Rsum_swap.
    rewrite (Rsum_ext h _ (fun _ => 1)).
    + clear. induction h as [|h IH]; [by rewrite Rsum_0|].
      rewrite Rsum_S, IH, S_INR. done.
    + intros k Hk.
      destruct Ht as [Hlen Hex].
      assert (length (nth i t []) = n) as Hn'.
      { rewrite Forall_forall in Hex.
        apply (Hex (nth i t [])), list_elem_of_In, nth_In. lia. }
      rewrite <- (normalized_sums_to_one a n (nth i t []) k Hwf' Hn Hn' Hk).
      apply Rsum_ext. intros j Hj. unfold entry3, AttentionLayer.weights.
      rewrite (nth_map_lt _ _ _ []) by lia.
      by rewrite (nth_map_lt _ _ _ []) by lia.
Qed.

Lemma soft_pooling_sums_to_the_number_of_heads_witness :
  ∃ out,
    SoftPoolingLayer.forward
      {| SoftPoolingLayer.in_dim := 2; SoftPoolingLayer.nb_attention_head := 2;
         SoftPoolingLayer.attn :=
           {| Linear.in_features := 2; Linear.out_features := 2;
              Linear.weight := [[1; 0]; [0; 1]]; Linear.bias := [0; 0] |};
         SoftPoolingLayer.temperature := 1 |}
      (Tensor3 [[[1; 2]; [3; 4]; [5; 6]]]) = Ok out
    ∧ has_shape3 1 3 1 out
    ∧ (∀ i j, (i < 1)%nat → (j < 3)%nat →
         entry3 out i j 0
         = Rsum 2 (fun k =>
             entry3 (AttentionLayer.weights
                       (SoftPoolingLayer.as_attention
                          {| SoftPoolingLayer.in_dim := 2;
                             SoftPoolingLayer.nb_attention_head := 2;
                             SoftPoolingLayer.attn :=
                               {| Linear.in_features := 2; Linear.out_features := 2;
                                  Linear.weight := [[1; 0]; [0; 1]];
                                  Linear.bias := [0; 0] |};
                             SoftPoolingLayer.temperature := 1 |})
                       [[[1; 2]; [3; 4]; [5; 6]]])
                    i j k))
    ∧ (∀ i, (i < 1)%nat → Rsum 3 (fun j => entry3 out i j 0) = INR 2).
Proof.
  apply (soft_pooling_sums_to_the_number_of_heads
           {| SoftPoolingLayer.in_dim := 2; SoftPoolingLayer.nb_attention_head := 2;
              SoftPoolingLayer.attn :=
                {| Linear.in_features := 2; Linear.out_features := 2;
                   Linear.weight := [[1; 0]; [0; 1]]; Linear.bias := [0; 0] |};
              SoftPoolingLayer.temperature := 1 |}
           1 3 2 [[[1; 2]; [3; 4]; [5; 6]]]).
  - split_and!; try reflexivity. repeat constructor.
  - reflexivity.
  - lia.
  - lia.
  - lia.
  - split; [reflexivity|]. repeat constructor.
Defined.

(** ** The static gate *)

(** X2.  [StaticElementwiseGateLayer] holds 50 weights, all equal to 1.
    Its [forward] returns, for a tensor of rank 3, exactly when the tensor
    has 50 nodes; the result then is a column of 50 times [sigmoid 1],
    whatever the entries of the input are.  For any other number of nodes
    the [view] raises [RuntimeError]. *)
Theorem static_gate_needs_fifty_nodes (id_dim : nat) (t : list (list (list R))) :
  (length (hd [] t) = 50%nat →
   StaticElementwiseGateLayer.forward (StaticElementwiseGateLayer.init id_dim)
     (Tensor3 t) = Ok (replicate 50 [sigmoid 1]))
  ∧ (length (hd [] t) ≠ 50%nat →
     StaticElementwiseGateLayer.forward (StaticElementwiseGateLayer.init id_dim)
       (Tensor3 t) = Raise RuntimeError).
Proof.
  unfold StaticElementwiseGateLayer.forward, StaticElementwiseGateLayer.init.
  cbn [size3 mbind result_bind StaticElementwiseGateLayer.attn].
  unfold view2. rewrite !length_map, length_replicate, Nat.mul_1_r.
  split; intros Hn.
  - rewrite Hn. cbn [Nat.eqb]. f_equal.
    unfold reshape2. cbn.
    replace (0 + 1) with 1 by lra. reflexivity.
  - destruct (Nat.eqb_spec 50 (length (hd [] t))) as [Heq|_]; [|done].
    by destruct Hn.
Qed.

(** ** The embedding layer *)

Lemma nth_zip_with_lt {A B C : Type} (f : A → B → C) (xs : list A) (ys : list B)
    (i : nat) (da : A) (db : B) (dc : C) :
  (i < length xs)%nat → (i < length ys)%nat →
  nth i (zip_with f xs ys) dc = f (nth i xs da) (nth i ys db).
Proof.
  intros Hx Hy.
  destruct (lookup_lt_is_Some_2 xs i Hx) as [x Hx'].
  destruct (lookup_lt_is_Some_2 ys i Hy) as [y Hy'].
  rewrite (nth_lookup_Some _ _ _ (f x y)) by (by rewrite lookup_zip_with, Hx', Hy').
  by rewrite (nth_lookup_Some _ _ _ _ Hx'), (nth_lookup_Some _ _ _ _ Hy').
Qed.

Lemma embedding_forward_value (self : EmbeddingLayer.t)
    (e n s : nat) (t : list (list (list R))) :
  is_matrix n s (EmbeddingLayer.emb self) →
  has_shape3 e n 1 t →
  ∃ out,
    EmbeddingLayer.forward self (Tensor3 t) = Ok (Tensor3 out)
    ∧ has_shape3 e n s out
    ∧ ∀ i j k, (i < e)%nat → (j < n)%nat → (k < s)%nat →
        entry3 out i j k = entry3 t i j 0 * entry (EmbeddingLayer.emb self) j k.
Proof.
  intros Hemb Ht. set (emb := EmbeddingLayer.emb self) in *.
  set (g := fun (ex : list (list R)) (b : list (list R)) =>
              zip_with (fun node row => map (Rmult (hd 0 node)) row) ex b).
  assert (∀ ex, ex ∈ t → bcast2 Rmult ex emb = Ok (g ex emb)) as Hex.
  { intros ex Hin. destruct Ht as [_ Ht]. rewrite Forall_forall in Ht.
    pose proof (Ht ex Hin) as Hm.
    apply broadcast_same_length.
    - destruct Hm as [-> _], Hemb as [-> _]. done.
    - intros node row Hzip.
      assert (length node = 1%nat) as Hnode.
      { destruct Hm as [_ Hm]. rewrite Forall_forall in Hm.
        eapply Hm, elem_of_zip_l, Hzip. }
      destruct node as [|a [|? ?]]; simpl in Hnode; try lia. simpl.
      unfold bcast1. by rewrite (broadcast_single_l _ Rmult). }
  exists (map (fun ex => g ex emb) t). split_and!.
  - unfold EmbeddingLayer.forward, torch_mul, bcast3. fold emb.
    by rewrite (broadcast_single_r _ g t emb Hex).
  - destruct Ht as [Hlen Ht]. split; [by rewrite length_map|].
    apply Forall_forall. intros m Hm.
    apply list_elem_of_In, in_map_iff in Hm as (ex & <- & Hin).
    rewrite Forall_forall in Ht.
    destruct (Ht ex (proj2 (list_elem_of_In _ _) Hin)) as [Hn Hrows].
    destruct Hemb as [Hn' Hrows']. unfold g. split.
    + rewrite length_zip_with. lia.
    + apply Forall_forall. intros row Hrow.
      apply elem_of_lookup_zip_with in Hrow as (j & node & r & -> & _ & Hr).
      rewrite length_map. apply (Forall_lookup_1 _ _ _ _ Hrows' Hr).
  - intros i j k Hi Hj Hk. unfold entry3, entry.
    pose proof (length_nth_has_shape3 e n 1 t i Ht Hi) as [Hn _].
    destruct Ht as [Hlen Ht], Hemb as [Hn' Hrows'].
    rewrite (nth_map_lt _ _ _ []) by lia. unfold g.
    rewrite (nth_zip_with_lt _ _ _ _ [] []) by lia.
    rewrite (nth_map_lt _ _ _ 0).
    + f_equal. by destruct (nth j (nth i t []) []).
    + rewrite Forall_forall in Hrows'.
      rewrite (Hrows' (nth j emb [])); [done|].
      apply list_elem_of_In, nth_In. lia.
Qed.

(** X3.  [EmbeddingLayer.forward] on an input with one channel, [e]
    examples of [n] nodes, and an embedding of [s] numbers for each of the
    [n] nodes: the result has shape [(e, n, s)], and its entry [(i, j, k)]
    is the signal of node [j] in example [i] times entry [k] of the
    embedding of node [j]. *)
Theorem embedding_scales_each_node_by_its_embedding (self : EmbeddingLayer.t)
    (e n s : nat) (t : list (list (list R))) :
  is_matrix n s (EmbeddingLayer.emb self) →
  has_shape3 e n 1 t →
  ∃ out,
    EmbeddingLayer.forward self (Tensor3 t) = Ok (Tensor3 out)
    ∧ has_shape3 e n s out
    ∧ ∀ i j k, (i < e)%nat → (j < n)%nat → (k < s)%nat →
        entry3 out i j k = entry3 t i j 0 * entry (EmbeddingLayer.emb self) j k.
Proof. apply embedding_forward_value. Qed.

Lemma embedding_scales_each_node_by_its_embedding_witness :
  ∃ out,
    EmbeddingLayer.forward
      {| EmbeddingLayer.emb_size := 2; EmbeddingLayer.emb := [[1; 2]; [3; 4]] |}
      (Tensor3 [[[5]; [6]]; [[7]; [8]]; [[9]; [10]]]) = Ok (Tensor3 out)
    ∧ has_shape3 3 2 2 out
    ∧ ∀ i j k, (i < 3)%nat → (j < 2)%nat → (k < 2)%nat →
        entry3 out i j k
        = entry3 [[[5]; [6]]; [[7]; [8]]; [[9]; [10]]] i j 0
          * entry (EmbeddingLayer.emb
                     {| EmbeddingLayer.emb_size := 2;
                        EmbeddingLayer.emb := [[1; 2]; [3; 4]] |}) j k.
Proof.
  apply (embedding_scales_each_node_by_its_embedding
           {| EmbeddingLayer.emb_size := 2; EmbeddingLayer.emb := [[1; 2]; [3; 4]] |}
           3 2 2 [[[5]; [6]]; [[7]; [8]]; [[9]; [10]]]).
  - split; [reflexivity|]. repeat constructor.
  - split; [reflexivity|]. repeat constructor.
Defined.

(** ** The logistic models *)

Lemma linear_forward_mismatch (l : Linear.t) (row : list R) (x : list (list R)) :
  length row ≠ Linear.in_features l →
  Linear.forward l (row :: x) = Raise RuntimeError.
Proof.
  intros Hne. unfold Linear.forward. simpl. unfold Linear.apply_row.
  by destruct (Nat.eqb_spec (length row) (Linear.in_features l)).
Qed.

Lemma view2_rows_flatten (e n c : nat) (t : list (list (list R))) :
  (0 < e)%nat → has_shape3 e n c t →
  view2_rows e (flatten (Tensor3 t)) = Ok (map (@concat _) t).
Proof.
  intros He Ht. change (flatten (Tensor3 t)) with (concat (concat t)).
  rewrite <- concat_map_concat.
  apply (view2_rows_concat e (n * c)); [done|].
  by apply is_matrix_map_concat.
Qed.

(** The flattening and the read-out layer at the end of every model. *)
Lemma readout_value (layer : Linear.t) (e n c : nat) (t : list (list (list R))) :
  (0 < e)%nat → has_shape3 e n c t →
  (x ← view2_rows e (flatten (Tensor3 t)); Linear.forward layer x)
  = if Nat.eqb (n * c) (Linear.in_features layer)
    then Ok (map (fun example => Linear.output layer (concat example)) t)
    else Raise RuntimeError.
Proof.
  intros He Ht. rewrite (view2_rows_flatten e n c t He Ht), bind_Ok.
  pose proof (is_matrix_map_concat e n c t Ht) as Hm.
  destruct (Nat.eqb_spec (n * c) (Linear.in_features layer)) as [Heq|Hne].
  - rewrite Heq in Hm. rewrite (linear_forward_ok layer e _ Hm).
    by rewrite map_map.
  - destruct t as [|ex t]; [destruct Ht; simpl in *; lia|].
    simpl. apply linear_forward_mismatch.
    destruct Hm as [_ Hm]. apply Forall_cons_1 in Hm as [Hm _]. congruence.
Qed.

(** X4.  [SparseLogisticRegression.forward] and
    [LogisticRegression.forward] are the same read-out: on an input of [e]
    examples of [n] nodes and [c] channels they return, for every example,
    the last logistic layer applied to the entries of the example in
    storage order, provided that the layer takes [n * c] inputs; otherwise
    they raise [RuntimeError].  The Laplacian plays no role in the
    prediction. *)
Theorem logistic_forward_reads_out_flattened_examples
    (slr : SparseLogisticRegression.t) (lr : LogisticRegression.t)
    (layer : Linear.t) (e n c : nat) (t : list (list (list R))) :
  last (SparseLogisticRegression.my_logistic_layers slr) = Some layer →
  LogisticRegression.my_logistic_layers lr
  = SparseLogisticRegression.my_logistic_layers slr →
  (0 < e)%nat → (0 < n)%nat →
  has_shape3 e n c t →
  SparseLogisticRegression.forward slr (Tensor3 t)
  = (if Nat.eqb (n * c) (Linear.in_features layer)
     then Ok (map (fun example => Linear.output layer (concat example)) t)
     else Raise RuntimeError)
  ∧ LogisticRegression.forward lr (Tensor3 t)
    = SparseLogisticRegression.forward slr (Tensor3 t).
Proof.
  intros Hlast Hsame He Hn Ht. split.
  - unfold SparseLogisticRegression.forward.
    rewrite (size3_has_shape3 e n c t He Hn Ht), bind_Ok.
    rewrite <- (readout_value layer e n c t He Ht).
    destruct (view2_rows e (flatten (Tensor3 t))) as [x|]; [|done]. simpl.
    unfold last_item. by rewrite Hlast.
  - unfold LogisticRegression.forward, SparseLogisticRegression.forward.
    by rewrite Hsame.
Qed.

Lemma logistic_forward_reads_out_flattened_examples_witness :
  SparseLogisticRegression.forward
    {| SparseLogisticRegression.nb_nodes := 2;
       SparseLogisticRegression.input_dim := 1;
       SparseLogisticRegression.laplacian := [[1; 0]; [0; 1]];
       SparseLogisticRegression.out_dim := 1;
       SparseLogisticRegression.on_cuda := false;
       SparseLogisticRegression.my_logistic_layers :=
         [ {| Linear.in_features := 2; Linear.out_features := 1;
              Linear.weight := [[1; -1]]; Linear.bias := [0] |} ] |}
    (Tensor3 [[[3]; [4]]])
  = (if Nat.eqb (2 * 1) (Linear.in_features
                           {| Linear.in_features := 2; Linear.out_features := 1;
                              Linear.weight := [[1; -1]]; Linear.bias := [0] |})
     then Ok (map (fun example =>
                     Linear.output
                       {| Linear.in_features := 2; Linear.out_features := 1;
                          Linear.weight := [[1; -1]]; Linear.bias := [0] |}
                       (concat example))
                  [[[3]; [4]]])
     else Raise RuntimeError)
  ∧ LogisticRegression.forward
      {| LogisticRegression.nb_nodes := 2; LogisticRegression.input_dim := 1;
         LogisticRegression.out_dim := 1; LogisticRegression.on_cuda := false;
         LogisticRegression.my_logistic_layers :=
           [ {| Linear.in_features := 2; Linear.out_features := 1;
                Linear.weight := [[1; -1]]; Linear.bias := [0] |} ] |}
      (Tensor3 [[[3]; [4]]])
    = SparseLogisticRegression.forward
        {| SparseLogisticRegression.nb_nodes := 2;
           SparseLogisticRegression.input_dim := 1;
           SparseLogisticRegression.laplacian := [[1; 0]; [0; 1]];
           SparseLogisticRegression.out_dim := 1;
           SparseLogisticRegression.on_cuda := false;
           SparseLogisticRegression.my_logistic_layers :=
             [ {| Linear.in_features := 2; Linear.out_features := 1;
                  Linear.weight := [[1; -1]]; Linear.bias := [0] |} ] |}
        (Tensor3 [[[3]; [4]]]).
Proof.
  apply (logistic_forward_reads_out_flattened_examples _ _
           {| Linear.in_features := 2; Linear.out_features := 1;
              Linear.weight := [[1; -1]]; Linear.bias := [0] |} 1 2 1).
  - reflexivity.
  - reflexivity.
  - lia.
  - lia.
  - split; [reflexivity|]. repeat constructor.
Defined.

(** ** The L1 penalty *)

Lemma concat_map_map {A B : Type} (f : A → B) (m : list (list A)) :
  concat (map (map f) m) = map f (concat m).
Proof.
  induction m as [|row m IH]; [done|]. simpl. by rewrite map_app, IH.
Qed.

Lemma flatten_zeros_like (param : tensor) :
  flatten (zeros_like param) = map (fun _ => 0) (flatten param).
Proof.
  destruct param as [v|m|t]; simpl.
  - done.
  - apply concat_map_map.
  - by rewrite <- !concat_map_map.
Qed.

Lemma zip_with_abs_zero (xs : list R) :
  zip_with (fun a b => Rabs (a - b)) xs (map (fun _ => 0) xs) = map Rabs xs.
Proof.
  induction xs as [|x xs IH]; [done|]. simpl. rewrite IH. f_equal.
  f_equal. lra.
Qed.

(** The criterion of [main.py], against a target of zeros. *)
Lemma L1Loss_zeros (param : tensor) :
  L1Loss false param (zeros_like param) = Ok (l1_norm param).
Proof.
  unfold L1Loss, l1_norm. rewrite flatten_zeros_like, length_map, Nat.eqb_refl.
  by rewrite zip_with_abs_zero.
Qed.

Lemma calculate_l1_loss_loop_value (params : list tensor) (acc : R) :
  calculate_l1_loss_loop (L1Loss false) params acc
  = Ok (acc + sum_list (map l1_norm params)).
Proof.
  revert acc. induction params as [|param params IH]; intros acc; simpl.
  - f_equal. lra.
  - rewrite L1Loss_zeros. simpl. rewrite IH. f_equal. lra.
Qed.

Lemma calculate_l1_loss_value (params : list tensor) (l1_loss_lambda : R)
    (on_cuda : bool) :
  calculate_l1_loss params l1_loss_lambda (L1Loss false) on_cuda
  = Ok (sum_list (map l1_norm params) * l1_loss_lambda).
Proof.
  unfold calculate_l1_loss. rewrite calculate_l1_loss_loop_value. simpl.
  f_equal. lra.
Qed.

Lemma l1_norm_linear_parameters (l : Linear.t) :
  sum_list (map l1_norm (linear_parameters l)) = linear_l1_norm l.
Proof. unfold linear_parameters, linear_l1_norm. simpl. lra. Qed.

Lemma l1_norm_module_list_parameters (layers : list Linear.t) :
  sum_list (map l1_norm (module_list_parameters layers))
  = sum_list (map linear_l1_norm layers).
Proof.
  unfold module_list_parameters.
  induction layers as [|l layers IH]; [done|].
  cbn [map concat]. rewrite map_app, sum_list_app, IH.
  rewrite l1_norm_linear_parameters. reflexivity.
Qed.

Lemma sum_list_abs_nonneg (xs : list R) : 0 <= sum_list (map Rabs xs).
Proof.
  induction xs as [|x xs IH]; simpl; [lra|].
  pose proof (Rabs_pos x). lra.
Qed.

Lemma linear_l1_norm_nonneg (l : Linear.t) : 0 <= linear_l1_norm l.
Proof.
  unfold linear_l1_norm, l1_norm.
  pose proof (sum_list_abs_nonneg (flatten (Tensor2 (Linear.weight l)))).
  pose proof (sum_list_abs_nonneg (flatten (Tensor1 (Linear.bias l)))). lra.
Qed.

Lemma sum_linear_l1_norm_nonneg (layers : list Linear.t) :
  0 <= sum_list (map linear_l1_norm layers).
Proof.
  induction layers as [|l layers IH]; simpl; [lra|].
  pose proof (linear_l1_norm_nonneg l). lra.
Qed.

(** What [setup_l1_loss] adds up, model by model. *)
Lemma setup_l1_loss_value {L : Type} (my_model : model L) (l1_loss_lambda : R)
    (on_cuda : bool) :
  setup_l1_loss my_model l1_loss_lambda (L1Loss false) on_cuda
  = Ok (l1_loss_lambda
        * match my_model with
          | GraphNetworkModel m =>
              sum_list (map linear_l1_norm (GraphNetwork.my_logistic_layers m))
          | SparseLogisticRegressionModel m =>
              sum_list (map linear_l1_norm
                            (SparseLogisticRegression.my_logistic_layers m))
          | LogisticRegressionModel m =>
              sum_list (map linear_l1_norm (LogisticRegression.my_logistic_layers m))
          | MLPModel m =>
              match MLP.my_layers m with
              | first :: _ => linear_l1_norm first
              | [] => 0
              end + linear_l1_norm (MLP.last_layer m)
          | RandomModel m =>
              match Random.my_layers m with
              | first :: _ => linear_l1_norm first
              | [] => 0
              end + linear_l1_norm (Random.last_layer m)
          | CNNModel _ => 0
          end).
Proof.
  unfold setup_l1_loss.
  destruct my_model as [m|m|m|m|m|m]; simpl.
  - rewrite calculate_l1_loss_value, l1_norm_module_list_parameters. simpl.
    f_equal. lra.
  - rewrite calculate_l1_loss_value, l1_norm_module_list_parameters. simpl.
    f_equal. lra.
  - rewrite calculate_l1_loss_value, l1_norm_module_list_parameters. simpl.
    f_equal. lra.
  - destruct (MLP.my_layers m) as [|first rest]; simpl;
      rewrite ?calculate_l1_loss_value, ?l1_norm_linear_parameters; simpl;
      rewrite ?calculate_l1_loss_value, ?l1_norm_linear_parameters; simpl;
      f_equal; lra.
  - destruct (Random.my_layers m) as [|first rest]; simpl;
      rewrite ?calculate_l1_loss_value, ?l1_norm_linear_parameters; simpl;
      rewrite ?calculate_l1_loss_value, ?l1_norm_linear_parameters; simpl;
      f_equal; lra.
  - destruct (CNN.my_layers m); simpl; f_equal; lra.
Qed.

(** X5.  With the criterion of [main.py], [L1Loss(size_average=False)],
    [setup_l1_loss] never raises and returns [l1_loss_lambda] times a sum
    of absolute values of parameters, weights and biases alike: of all
    logistic layers for a graph network and for the two logistic
    regressions; of the first hidden layer and of the last layer only for
    an [MLP] or a [Random] model, so that the hidden layers after the
    first are not penalised; and of nothing at all for a [CNN], whose
    penalty is 0 whatever its parameters are. *)
Theorem l1_penalty_covers_the_read_out_and_the_first_layer {L : Type}
    (my_model : model L) (l1_loss_lambda : R) (on_cuda : bool) :
  setup_l1_loss my_model l1_loss_lambda (L1Loss false) on_cuda
  = Ok (l1_loss_lambda
        * match my_model with
          | GraphNetworkModel m =>
              sum_list (map linear_l1_norm (GraphNetwork.my_logistic_layers m))
          | SparseLogisticRegressionModel m =>
              sum_list (map linear_l1_norm
                            (SparseLogisticRegression.my_logistic_layers m))
          | LogisticRegressionModel m =>
              sum_list (map linear_l1_norm (LogisticRegression.my_logistic_layers m))
          | MLPModel m =>
              match MLP.my_layers m with
              | first :: _ => linear_l1_norm first
              | [] => 0
              end + linear_l1_norm (MLP.last_layer m)
          | RandomModel m =>
              match Random.my_layers m with
              | first :: _ => linear_l1_norm first
              | [] => 0
              end + linear_l1_norm (Random.last_layer m)
          | CNNModel _ => 0
          end).
Proof. apply setup_l1_loss_value. Qed.

Lemma setup_l1_loss_nonneg {L : Type} (my_model : model L)
    (l1_loss_lambda : R) (on_cuda : bool) :
  0 <= l1_loss_lambda →
  ∃ l1_loss,
    setup_l1_loss my_model l1_loss_lambda (L1Loss false) on_cuda = Ok l1_loss
    ∧ 0 <= l1_loss
    ∧ (l1_loss_lambda = 0 → l1_loss = 0).
Proof.
  intros Hlambda. rewrite setup_l1_loss_value. eexists. split; [reflexivity|].
  split; [|intros ->; lra].
  apply Rmult_le_pos; [done|].
  destruct my_model as [m|m|m|m|m|m]; try apply sum_linear_l1_norm_nonneg.
  - pose proof (linear_l1_norm_nonneg (MLP.last_layer m)).
    destruct (MLP.my_layers m) as [|first ?]; [lra|].
    pose proof (linear_l1_norm_nonneg first). lra.
  - pose proof (linear_l1_norm_nonneg (Random.last_layer m)).
    destruct (Random.my_layers m) as [|first ?]; [lra|].
    pose proof (linear_l1_norm_nonneg first). lra.
  - lra.
Qed.

(** X6.  The L1 penalty is never negative when [l1_loss_lambda] is not,
    and it is exactly 0 for [l1_loss_lambda = 0], the default of
    [--l1-loss-lambda]: for every model, on the CPU or on the GPU. *)
Theorem l1_penalty_is_nonnegative {L : Type} (my_model : model L)
    (l1_loss_lambda : R) (on_cuda : bool) :
  0 <= l1_loss_lambda →
  ∃ l1_loss,
    setup_l1_loss my_model l1_loss_lambda (L1Loss false) on_cuda = Ok l1_loss
    ∧ 0 <= l1_loss
    ∧ (l1_loss_lambda = 0 → l1_loss = 0).
Proof. apply setup_l1_loss_nonneg. Qed.

Lemma l1_penalty_is_nonnegative_witness :
  ∃ l1_loss,
    setup_l1_loss (GraphNetworkModel plain_network) (1 / 2) (L1Loss false) false
    = Ok l1_loss
    ∧ 0 <= l1_loss
    ∧ (1 / 2 = 0 → l1_loss = 0).
Proof.
  apply (l1_penalty_is_nonnegative (GraphNetworkModel plain_network) (1 / 2) false).
  lra.
Defined.

(** ** The loss that [main.py] minimises *)

Lemma sum_list_zip_with_nonneg (rs lambdas : list R) :
  Forall (fun r => 0 <= r) rs → Forall (fun l => 0 <= l) lambdas →
  0 <= sum_list (zip_with Rmult rs lambdas).
Proof.
  intros Hrs. revert lambdas.
  induction Hrs as [|r rs Hr Hrs IH]; intros lambdas Hl; simpl; [lra|].
  destruct Hl as [|l lambdas Hl Hls]; simpl; [lra|].
  pose proof (IH lambdas Hls). pose proof (Rmult_le_pos r l Hr Hl). lra.
Qed.

(** X7.  Lines 172-174 of [main.py]: for a model whose [regularization()]
    returned a list of non-negative numbers, and non-negative [--lambdas]
    and [--l1-loss-lambda], the loss that is minimised is never below the
    cross-entropy; and with the defaults of the two options, no lambdas
    and an L1 factor of 0, it is the cross-entropy itself, whatever the
    model's regulariser returned. *)
Theorem regularisers_only_add_to_the_loss {L : Type} (my_model : model L)
    (rs : list R) (cross_loss : R) (lambdas : list R) (l1_loss_lambda : R)
    (on_cuda : bool) :
  Main.model_regularization my_model = Ok (RegList rs) →
  Forall (fun r => 0 <= r) rs →
  Forall (fun l => 0 <= l) lambdas →
  0 <= l1_loss_lambda →
  ∃ total,
    Main.total_loss my_model cross_loss lambdas l1_loss_lambda on_cuda = Ok total
    ∧ cross_loss <= total
    ∧ (lambdas = [] → l1_loss_lambda = 0 → total = cross_loss).
Proof.
  intros Hreg Hrs Hls Hl1. unfold Main.total_loss. rewrite Hreg. simpl.
  destruct (setup_l1_loss_nonneg my_model l1_loss_lambda on_cuda Hl1)
    as (l1 & -> & Hpos & Hzero). simpl.
  eexists. split; [reflexivity|].
  pose proof (sum_list_zip_with_nonneg rs lambdas Hrs Hls). split; [lra|].
  intros -> Hz. rewrite (Hzero Hz).
  assert (zip_with Rmult rs [] = []) as -> by (by destruct rs).
  simpl. lra.
Qed.

Lemma regularisers_only_add_to_the_loss_witness :
  ∃ total,
    Main.total_loss (GraphNetworkModel plain_network) 1 [2; 3] (1 / 2) false
    = Ok total
    ∧ 1 <= total
    ∧ ([2; 3] = [] → 1 / 2 = 0 → total = 1).
Proof.
  apply (regularisers_only_add_to_the_loss (GraphNetworkModel plain_network) []
           1 [2; 3] (1 / 2) false).
  - reflexivity.
  - constructor.
  - repeat constructor; lra.
  - lra.
Defined.

(** X8.  The Laplacian regulariser as [main.py] applies it to the sparse
    logistic regression of [models.py], built on a symmetric adjacency
    matrix with non-negative weights: [regularization()] returns a list
    with the one non-negative penalty, and [zip] pairs it with the first
    of the [--lambdas] only.  The additional loss is the penalty times
    the first lambda; further lambdas are ignored, and with no lambda at
    all, the default, the additional loss is 0 and the regulariser is
    switched off. *)
Theorem laplacian_penalty_uses_the_first_lambda
    (σ : store) (nb_nodes input_dim n o : nat) (adj : loc)
    (out_dim : nat) (on_cuda : bool) (w0 : list (list R)) (b0 : list R)
    (a : list (list R)) :
  σ !! adj = Some a →
  is_matrix n n a → symmetric n a → nonnegative n a →
  is_matrix o n w0 →
  ∃ model σ' penalty,
    Legacy.SparseLogisticRegression.init σ nb_nodes input_dim adj out_dim
      on_cuda w0 b0 = Some (model, σ')
    ∧ Legacy.SparseLogisticRegression.regularization model = Ok (RegList [penalty])
    ∧ 0 <= penalty
    ∧ Legacy.other_loss (RegList [penalty]) [] = Ok 0
    ∧ ∀ l lambdas,
        Legacy.other_loss (RegList [penalty]) (l :: lambdas) = Ok (penalty * l).
Proof.
  intros Ha Hsq Hsym Hnn HW.
  pose proof (is_matrix_fill_diagonal n n a 0 Hsq) as Hsq'.
  pose proof (symmetric_fill_diagonal n a Hsym) as Hsym'.
  pose proof (nonnegative_fill_diagonal n a Hnn) as Hnn'.
  pose proof (is_matrix_make_laplacian n _ Hsq') as HLsq.
  pose proof (smoothness_penalty_value o n _ w0 HLsq HW) as Hpen.
  unfold Legacy.SparseLogisticRegression.init. rewrite Ha. cbn [mbind option_bind].
  rewrite (laplacian_aligned_square n) by done.
  eexists _, _, _. split_and!.
  - reflexivity.
  - unfold Legacy.SparseLogisticRegression.regularization. cbn.
    rewrite Hpen. reflexivity.
  - apply Rsum_nonneg. intros r _.
    apply (laplacian_positive_semidefinite n _ (fun k => Rabs (entry w0 r k))
             Hsq' Hsym' Hnn').
  - reflexivity.
  - intros l lambdas. unfold Legacy.other_loss. f_equal. simpl. lra.
Qed.

Lemma laplacian_penalty_uses_the_first_lambda_witness :
  ∃ model σ' penalty,
    Legacy.SparseLogisticRegression.init {[ 7%nat := [[5; 1]; [1; 3]] ]} 2 1 7 1
      false [[1; -2]] [0] = Some (model, σ')
    ∧ Legacy.SparseLogisticRegression.regularization model = Ok (RegList [penalty])
    ∧ 0 <= penalty
    ∧ Legacy.other_loss (RegList [penalty]) [] = Ok 0
    ∧ ∀ l lambdas,
        Legacy.other_loss (RegList [penalty]) (l :: lambdas) = Ok (penalty * l).
Proof.
  apply (laplacian_penalty_uses_the_first_lambda
           {[ 7%nat := [[5; 1]; [1; 3]] ]} 2 1 2 1 7 1 false
           [[1; -2]] [0] [[5; 1]; [1; 3]]).
  - apply lookup_singleton_eq.
  - split; [reflexivity|]. repeat constructor.
  - intros i j Hi Hj.
    destruct i as [|[|i]]; destruct j as [|[|j]]; try lia; reflexivity.
  - intros i j Hi Hj.
    destruct i as [|[|i]]; destruct j as [|[|j]];
      try lia; unfold entry; simpl; lra.
  - split; [reflexivity|]. repeat constructor.
Defined.

(** ** The summary that [main] returns *)

Lemma epochs_spec {Summary : Type} (results : list (R * Summary)) :
  ∀ (t0 : nat) (m : R) (b : option Summary) (m' : R) (b' : option Summary),
    Main.epochs t0 results (m, b) = (m', b') →
    m <= m'
    ∧ (∀ k a s, results !! k = Some (a, s) → (t0 + k ≠ 0)%nat → a <= m')
    ∧ ((m' = m ∧ b' = b)
       ∨ ∃ k s,
           results !! k = Some (m', s) ∧ (t0 + k ≠ 0)%nat ∧ b' = Some s ∧ m < m'
           ∧ ∀ k' a s', (k' < k)%nat → results !! k' = Some (a, s') →
               (t0 + k' ≠ 0)%nat → a < m').
Proof.
  induction results as [|[a0 s0] rest IH]; intros t0 m b m' b' Hrun.
  - simpl in Hrun. injection Hrun as <- <-. split_and!.
    + lra.
    + intros k a s Hk. by rewrite lookup_nil in Hk.
    + by left.
  - cbn [Main.epochs] in Hrun.
    destruct (Main.keep_best t0 a0 s0 (m, b)) as [m1 b1] eqn:Hkeep.
    destruct (IH (S t0) m1 b1 m' b' Hrun) as (Hle & Hall & Hcase).
    assert (m <= m1 ∧ ((t0 ≠ 0)%nat → a0 <= m1)
            ∧ ((m1 = m ∧ b1 = b)
               ∨ (m1 = a0 ∧ b1 = Some s0 ∧ m < a0 ∧ (t0 ≠ 0)%nat))) as (Hm & Ha0 & Hupd).
    { unfold Main.keep_best in Hkeep.
      destruct (Rlt_dec m a0) as [Hlt|Hge].
      - destruct (Nat.eqb_spec t0 0) as [->|Hne]; simpl in Hkeep;
          injection Hkeep as <- <-.
        + split_and!; [lra|lia|by left].
        + split_and!; [lra|intros; lra|right; done].
      - injection Hkeep as <- <-. split_and!; [lra|intros; lra|by left]. }
    split_and!.
    + lra.
    + intros [|k] a s Hk Hne; simpl in Hk.
      * injection Hk as <- <-.
        assert (a0 <= m1) by (apply Ha0; lia). lra.
      * apply (Hall k a s Hk). lia.
    + destruct Hcase as [[-> ->]|(k & s & Hk & Hne & -> & Hlt & Hbefore)].
      * destruct Hupd as [[-> ->]|(-> & -> & Hlt & Hne)]; [by left|].
        right. exists 0%nat, s0. split_and!; try done; [lia|].
        intros k' a s' Hk'. lia.
      * right. exists (S k), s. split_and!; try done; [lia|lra|].
        intros [|k'] a s' Hk' Hlook Hne'; simpl in Hlook.
        -- injection Hlook as <- <-.
           assert (a0 <= m1) by (apply Ha0; lia). lra.
        -- apply (Hbefore k' a s'); [lia|done|lia].
Qed.

(** X9.  What [main] returns.  The summary that is kept is never the one
    of the first epoch (epoch 0), even when that epoch has the best
    validation AUC: it is the summary of the first epoch, among the later
    ones, whose validation AUC is positive and largest.  The dictionary
    stays empty exactly when no epoch after the first has a positive
    validation AUC; in particular when the run has one epoch only. *)
Theorem best_summary_skips_the_first_epoch {Summary : Type}
    (results : list (R * Summary)) :
  match Main.best_summary results with
  | Some best =>
      ∃ t auc_valid,
        (1 <= t)%nat ∧ results !! t = Some (auc_valid, best) ∧ 0 < auc_valid
        ∧ (∀ t' a s, (1 <= t')%nat → results !! t' = Some (a, s) → a <= auc_valid)
        ∧ (∀ t' a s, (1 <= t' < t)%nat → results !! t' = Some (a, s) →
             a < auc_valid)
  | None =>
      ∀ t a s, (1 <= t)%nat → results !! t = Some (a, s) → a <= 0
  end.
Proof.
  unfold Main.best_summary.
  destruct (Main.epochs 0 results (0, None)) as [m' b'] eqn:Hrun.
  destruct (epochs_spec results 0 0 None m' b' Hrun) as (Hle & Hall & Hcase).
  simpl.
  destruct Hcase as [[-> ->]|(k & s & Hk & Hne & -> & Hlt & Hbefore)].
  - intros t a s Ht Hlook. apply (Hall t a s Hlook). lia.
  - exists k, m'. split_and!; try done.
    + lia.
    + intros t' a s' Ht' Hlook. apply (Hall t' a s' Hlook). lia.
    + intros t' a s' Ht' Hlook. apply (Hbefore t' a s'); [lia|done|lia].
Qed.

(** ** The other modes of [GraphNetwork] *)

(** X10.  [GraphNetwork.semi_supervised] and [GraphNetwork.gene_inference]
    never return a value: for every network, every input and every
    generator state they raise.  Both end by calling a layer,
    [self.last_semi_layer] and [self.last_inference_layer], that
    [__init__] does not create. *)
Theorem other_modes_never_return {L : Type} `{GraphLayer L}
    (self : GraphNetwork.t) (x : tensor) (g : Generator) :
  (∃ e, GraphNetwork.semi_supervised self x g = Raise e)
  ∧ (∃ e, GraphNetwork.gene_inference self x g = Raise e).
Proof.
  pose proof (semi_supervised_raises self x g) as Hs.
  pose proof (gene_inference_raises self x g) as Hg.
  split.
  - destruct (GraphNetwork.semi_supervised self x g) as [r|e]; [|by exists e].
    by destruct Hs.
  - destruct (GraphNetwork.gene_inference self x g) as [r|e]; [|by exists e].
    by destruct Hg.
Qed.

(** ** The forward pass of [models.py] and [supervised] *)

Lemma legacy_conv_gate_relu_refines {L : Type} `{GraphLayer L}
    (self : GraphNetwork.t) (layer : L) (gate : option ElementwiseGateLayer.t)
    (x : tensor) (last_g : option tensor) (x' : tensor) (last_g' : option tensor) :
  Legacy.GraphNetwork.conv_gate_relu self layer gate x last_g = Ok (x', last_g') →
  GraphNetwork.conv_gate_relu self layer gate x = Ok x'.
Proof.
  unfold Legacy.GraphNetwork.conv_gate_relu, GraphNetwork.conv_gate_relu.
  destruct (Rlt_dec 0 (GraphNetwork.use_gate self)).
  - destruct (layer_forward layer x) as [x1|]; cbn -[torch_mul]; [|discriminate].
    destruct gate as [gate|]; cbn -[torch_mul]; [|discriminate].
    destruct (ElementwiseGateLayer.forward gate x1) as [g|]; cbn -[torch_mul];
      [|discriminate].
    destruct last_g as [lg|]; cbn -[torch_mul].
    + destruct (torch_mul lg (Tensor3 g)); cbn -[torch_mul]; [|discriminate].
      destruct (torch_mul (Tensor3 g) x1); cbn -[torch_mul]; [|discriminate].
      by intros [= <- _].
    + destruct (torch_mul (Tensor3 g) x1); cbn -[torch_mul]; [|discriminate].
      by intros [= <- _].
  - destruct (layer_forward layer x); simpl; [|discriminate]. by intros [= <- _].
Qed.

Lemma legacy_conv_gate_relu_ungated {L : Type} `{GraphLayer L}
    (self : GraphNetwork.t) (layer : L) (gate : option ElementwiseGateLayer.t)
    (x : tensor) (last_g : option tensor) :
  ¬ 0 < GraphNetwork.use_gate self →
  Legacy.GraphNetwork.conv_gate_relu self layer gate x last_g
  = (x' ← GraphNetwork.conv_gate_relu self layer gate x; Ok (x', last_g)).
Proof.
  intros Hgate.
  unfold Legacy.GraphNetwork.conv_gate_relu, GraphNetwork.conv_gate_relu.
  destruct (Rlt_dec 0 (GraphNetwork.use_gate self)); [done|].
  by destruct (layer_forward layer x).
Qed.

Lemma legacy_run_layers_refines {L : Type} `{GraphLayer L}
    (self : GraphNetwork.t)
    (layers : list (L * option ElementwiseGateLayer.t * option Dropout.t)) :
  ∀ (x : tensor) (last_g : option tensor) (g : Generator) (r : tensor * Generator),
    Legacy.GraphNetwork.run_layers self layers x last_g g = Ok r →
    GraphNetwork.run_layers self layers x g = Ok r.
Proof.
  induction layers as [|[[layer gate] dropout] layers IH]; intros x last_g g r.
  - done.
  - cbn [Legacy.GraphNetwork.run_layers GraphNetwork.run_layers].
    unfold mbind, rand_bind, pure.
    destruct (Legacy.GraphNetwork.conv_gate_relu self layer gate x last_g)
      as [[x1 lg1]|] eqn:Hconv; [|discriminate].
    rewrite (legacy_conv_gate_relu_refines self layer gate x last_g x1 lg1 Hconv).
    destruct (GraphNetwork.apply_dropout dropout x1 g) as [[x2 g2]|]; [|discriminate].
    apply IH.
Qed.

Lemma legacy_run_layers_ungated {L : Type} `{GraphLayer L}
    (self : GraphNetwork.t)
    (layers : list (L * option ElementwiseGateLayer.t * option Dropout.t)) :
  ¬ 0 < GraphNetwork.use_gate self →
  ∀ (x : tensor) (last_g : option tensor) (g : Generator),
    Legacy.GraphNetwork.run_layers self layers x last_g g
    = GraphNetwork.run_layers self layers x g.
Proof.
  intros Hgate.
  induction layers as [|[[layer gate] dropout] layers IH]; intros x last_g g.
  - done.
  - cbn [Legacy.GraphNetwork.run_layers GraphNetwork.run_layers].
    rewrite (legacy_conv_gate_relu_ungated self layer gate x last_g Hgate).
    unfold mbind, rand_bind, pure.
    destruct (GraphNetwork.conv_gate_relu self layer gate x) as [x1|]; [|done].
    simpl.
    destruct (GraphNetwork.apply_dropout dropout x1 g) as [[x2 g2]|]; [|done].
    apply IH.
Qed.

(** X11.  The forward pass of [models.py] against [supervised] of
    [models/model_layers.py], on one network without attention heads.
    Whenever the older [forward] returns, [supervised] returns the same
    output and leaves the same generator state: the product of the gates
    that the older code accumulates in [last_g] is never used, it can only
    make the pass fail.  On a network without gates the two agree
    altogether, exceptions included. *)
Theorem supervised_extends_the_older_forward {L : Type} `{GraphLayer L}
    (self : GraphNetwork.t) (x : tensor) :
  GraphNetwork.attention_head self = 0%nat →
  (∀ g r, Legacy.GraphNetwork.forward self x g = Ok r →
          GraphNetwork.supervised self x g = Ok r)
  ∧ (¬ 0 < GraphNetwork.use_gate self →
     ∀ g, Legacy.GraphNetwork.forward self x g = GraphNetwork.supervised self x g).
Proof.
  intros Hhead.
  unfold Legacy.GraphNetwork.forward, GraphNetwork.supervised.
  rewrite Hhead. cbn [truthy_int]. split.
  - intros g r. unfold mbind, rand_bind, pure.
    destruct (size3 x) as [[[e n] c]|]; [|discriminate].
    destruct (if truthy (GraphNetwork.add_emb self) then _ else _) as [x1|];
      [|discriminate].
    destruct (Legacy.GraphNetwork.run_layers self _ x1 None g) as [[x2 g2]|] eqn:Hrun;
      [|discriminate].
    rewrite (legacy_run_layers_refines self _ x1 None g _ Hrun). done.
  - intros Hgate g. unfold mbind, rand_bind, pure.
    destruct (size3 x) as [[[e n] c]|]; [|done].
    destruct (if truthy (GraphNetwork.add_emb self) then _ else _) as [x1|];
      [|done].
    rewrite (legacy_run_layers_ungated self _ Hgate x1 None g).
    by destruct (GraphNetwork.run_layers self _ x1 g) as [[x2 g2]|].
Qed.

Lemma supervised_extends_the_older_forward_witness :
  (∀ g r, Legacy.GraphNetwork.forward (H := passthrough_layer) plain_network
            (Tensor3 [[[1]]]) g = Ok r →
          GraphNetwork.supervised (H := passthrough_layer) plain_network
            (Tensor3 [[[1]]]) g = Ok r)
  ∧ (¬ 0 < GraphNetwork.use_gate plain_network →
     ∀ g, Legacy.GraphNetwork.forward (H := passthrough_layer) plain_network
            (Tensor3 [[[1]]]) g
          = GraphNetwork.supervised (H := passthrough_layer) plain_network
              (Tensor3 [[[1]]]) g).
Proof.
  apply (supervised_extends_the_older_forward (H := passthrough_layer)
           plain_network (Tensor3 [[[1]]])).
  reflexivity.
Defined.

(** ** Shapes through [supervised] *)

Lemma has_shape3_relu3 (e n c : nat) (t : list (list (list R))) :
  has_shape3 e n c t → has_shape3 e n c (relu3 t).
Proof.
  intros Ht. unfold relu3.
  apply (has_shape3_map_map _ e n c c); [|done].
  intros node Hnode. by rewrite length_map.
Qed.

(** The convolution, the gate and the non-linearity keep the examples and
    the nodes. *)
Lemma conv_gate_relu_fits {L : Type} `{GraphLayer L} (self : GraphNetwork.t)
    (e n c c' : nat) (layer : L) (gate : option ElementwiseGateLayer.t)
    (t : list (list (list R))) :
  (0 < e)%nat → (0 < n)%nat → (0 < c')%nat →
  layer_maps e n c c' layer →
  gate_fits (GraphNetwork.use_gate self) c' gate →
  has_shape3 e n c t →
  ∃ t', GraphNetwork.conv_gate_relu self layer gate (Tensor3 t) = Ok (Tensor3 t')
        ∧ has_shape3 e n c' t'.
Proof.
  intros He Hn Hc' Hlayer Hgate Ht.
  destruct (Hlayer t Ht) as (t1 & Hfw & Ht1).
  unfold GraphNetwork.conv_gate_relu.
  destruct (Rlt_dec 0 (GraphNetwork.use_gate self)) as [Hpos|Hno].
  - destruct (Hgate Hpos) as (g & -> & Hwf & Hin).
    rewrite Hfw, bind_Ok.
    rewrite (gate_forward_ok g e n c' t1 Hwf Hin He Hn Hc' Ht1), bind_Ok.
    unfold torch_mul.
    rewrite (gate_times_features g e n c' t1 Hwf Ht1). cbn.
    eexists. split; [reflexivity|].
    apply has_shape3_relu3.
    apply (has_shape3_map_map _ e n c' c'); [|done].
    intros node Hnode. by rewrite length_map.
  - rewrite Hfw, bind_Ok. cbn. eexists. split; [reflexivity|].
    by apply has_shape3_relu3.
Qed.

(** A loop whose body always returns, returns. *)
Lemma rand_map_returns {A B : Type} (f : A → rand B) (Q : A → Prop) (P : B → Prop)
    (xs : list A) :
  (∀ x g, Q x → ∃ y g', f x g = Ok (y, g') ∧ P y) →
  Forall Q xs →
  ∀ g, ∃ ys g', rand_map f xs g = Ok (ys, g')
                ∧ length ys = length xs ∧ Forall P ys.
Proof.
  intros Hf Hxs. induction Hxs as [|x xs Hx Hxs IH]; intros g.
  - exists [], g. by split_and!.
  - destruct (Hf x g Hx) as (y & g1 & Hy & HP).
    destruct (IH g1) as (ys & g2 & Hys & Hlen & HPs).
    exists (y :: ys), g2. cbn [rand_map].
    unfold mbind, rand_bind. rewrite Hy, Hys. split_and!.
    + reflexivity.
    + simpl. by rewrite Hlen.
    + by constructor.
Qed.

Lemma dropout_forward_returns (d : Dropout.t) (e n : nat) (x : list (list R))
    (g : Generator) :
  is_matrix e n x →
  ∃ mask g', Dropout.forward d x g = Ok (mask, g') ∧ is_matrix e n mask.
Proof.
  intros [Hlen Hrows]. unfold Dropout.forward.
  destruct (Dropout.training d).
  - destruct (rand_map_returns (rand_map (Dropout.drop_entry d))
                (fun row => length row = n) (fun row => length row = n) x)
      with (g := g) as (mask & g' & Hmask & Hlen' & Hrows').
    + intros row g0 Hrow.
      destruct (rand_map_returns (Dropout.drop_entry d)
                  (fun _ => True) (fun _ => True) row)
        with (g := g0) as (row' & g1 & Hrow' & Hl & _).
      * intros a g1 _. unfold Dropout.drop_entry, mbind, rand_bind, uniform.
        eexists _, _. split; [reflexivity|done].
      * apply Forall_forall. done.
      * exists row', g1. split; [done|lia].
    + done.
    + exists mask, g'. split; [done|]. split; [lia|done].
  - exists x, g. by split.
Qed.

(** The product of the features with a mask of one number per example
    and node. *)
Lemma mask_times_features (e n c : nat) (t : list (list (list R)))
    (mask : list (list R)) :
  has_shape3 e n c t → is_matrix e n mask →
  torch_mul (Tensor3 t) (Tensor3 (map (map (fun k => [k])) mask))
  = Ok (Tensor3 (zip_with (zip_with (fun node k => map (fun a => a * k) node))
                          t mask)).
Proof.
  intros [Hlen Ht] [Hlen' Hmask]. unfold torch_mul, bcast3.
  rewrite (broadcast_same_length _
             (fun ex mk =>
                zip_with (fun node kk => map (fun a => a * hd 0 kk) node) ex mk)).
  - cbn. do 2 f_equal. rewrite zip_with_fmap_r.
    apply zip_with_ext; [|done..]. intros ex row.
    rewrite zip_with_fmap_r. reflexivity.
  - rewrite length_map. lia.
  - intros ex mk Hin.
    pose proof (elem_of_zip_l _ _ _ _ Hin) as Hex.
    pose proof (elem_of_zip_r _ _ _ _ Hin) as Hmk.
    apply list_elem_of_In, in_map_iff in Hmk as (row & <- & Hrow).
    rewrite Forall_forall in Ht. rewrite Forall_forall in Hmask.
    destruct (Ht ex Hex) as [Hn _].
    pose proof (Hmask row (proj2 (list_elem_of_In _ _) Hrow)) as Hn'.
    unfold bcast2. apply broadcast_same_length.
    + rewrite length_map. lia.
    + intros node kk Hin'.
      pose proof (elem_of_zip_r _ _ _ _ Hin') as Hkk.
      apply list_elem_of_In, in_map_iff in Hkk as (k & <- & _).
      unfold bcast1. by rewrite (broadcast_single_r _ Rmult).
Qed.

Lemma has_shape3_masked (e n c : nat) (t : list (list (list R)))
    (mask : list (list R)) :
  has_shape3 e n c t → is_matrix e n mask →
  has_shape3 e n c
    (zip_with (zip_with (fun node k => map (fun a => a * k) node)) t mask).
Proof.
  intros [Hlen Ht] [Hlen' Hmask]. split.
  - rewrite length_zip_with. lia.
  - apply Forall_forall. intros m Hm.
    apply elem_of_lookup_zip_with in Hm as (i & ex & row & -> & Hex & Hrow).
    destruct (Forall_lookup_1 _ _ _ _ Ht Hex) as [Hn Hnodes].
    pose proof (Forall_lookup_1 _ _ _ _ Hmask Hrow) as Hn'. simpl in Hn'. split.
    + rewrite length_zip_with. lia.
    + apply Forall_forall. intros node' Hnode'.
      apply elem_of_lookup_zip_with in Hnode' as (j & node & k & -> & Hnode & _).
      rewrite length_map. apply (Forall_lookup_1 _ _ _ _ Hnodes Hnode).
Qed.

Lemma is_matrix_ones (e n : nat) : is_matrix e n (ones e n).
Proof.
  unfold ones. split; [by rewrite length_replicate|].
  apply Forall_forall. intros row Hrow.
  apply elem_of_replicate in Hrow as [-> _]. by rewrite length_replicate.
Qed.

Lemma size_1_has_shape3 (e n c : nat) (t : list (list (list R))) :
  (0 < e)%nat → has_shape3 e n c t → size_1 (Tensor3 t) = Ok n.
Proof.
  intros He [Hlen Ht]. destruct t as [|ex t]; simpl in *; [lia|].
  apply Forall_cons_1 in Ht as [[Hn _] _]. by rewrite Hn.
Qed.

(** Drop-out, in training or in evaluation mode, keeps the shape. *)
Lemma apply_dropout_fits (dropout : option Dropout.t) (e n c : nat) (t : list (list (list R)))
    (g : Generator) :
  (0 < e)%nat → has_shape3 e n c t →
  ∃ t' g', GraphNetwork.apply_dropout dropout (Tensor3 t) g = Ok (Tensor3 t', g')
           ∧ has_shape3 e n c t'.
Proof.
  intros He Ht. destruct dropout as [d|]; cbn [GraphNetwork.apply_dropout].
  - unfold mbind, rand_bind, pure.
    rewrite (size_1_has_shape3 e n c t He Ht).
    cbn [size_0]. destruct Ht as [Hlen Ht']. rewrite Hlen.
    destruct (dropout_forward_returns d e n (ones e n) g (is_matrix_ones e n))
      as (mask & g' & -> & Hmask).
    rewrite (mask_times_features e n c t mask (conj Hlen Ht') Hmask).
    eexists _, _. split; [reflexivity|].
    by apply has_shape3_masked.
  - exists t, g. by split.
Qed.

Lemma run_layers_fits {L : Type} `{GraphLayer L} (self : GraphNetwork.t)
    (e n : nat)
    (layers : list (L * option ElementwiseGateLayer.t * option Dropout.t)) :
  (0 < e)%nat → (0 < n)%nat →
  ∀ (c c_last : nat) (t : list (list (list R))) (g : Generator),
    layers_fit (GraphNetwork.use_gate self) e n c layers c_last →
    has_shape3 e n c t →
    ∃ t' g', GraphNetwork.run_layers self layers (Tensor3 t) g = Ok (Tensor3 t', g')
             ∧ has_shape3 e n c_last t'.
Proof.
  intros He Hn.
  induction layers as [|[[layer gate] dropout] layers IH];
    intros c c_last t g Hfit Ht.
  - simpl in Hfit. subst c_last. exists t, g. by split.
  - destruct Hfit as (c' & Hc' & Hlayer & Hgate & Hfit).
    destruct (conv_gate_relu_fits self e n c c' layer gate t He Hn Hc'
                Hlayer Hgate Ht) as (t1 & Hconv & Ht1).
    destruct (apply_dropout_fits dropout e n c' t1 g He Ht1)
      as (t2 & g2 & Hdrop & Ht2).
    destruct (IH c' c_last t2 g2 Hfit Ht2) as (t3 & g3 & Hrun & Ht3).
    exists t3, g3. split; [|done].
    cbn [GraphNetwork.run_layers]. unfold mbind, rand_bind, pure.
    by rewrite Hconv, Hdrop.
Qed.

Lemma is_matrix_pooled (self : AttentionLayer.t) (e n c : nat)
    (t : list (list (list R))) :
  AttentionLayer.wf self → (0 < n)%nat → has_shape3 e n c t →
  is_matrix e (c * AttentionLayer.nb_attention_head self)
    (AttentionLayer.pooled self t).
Proof.
  intros Hwf Hn Ht. set (h := AttentionLayer.nb_attention_head self).
  unfold AttentionLayer.pooled.
  split; [rewrite length_map; by destruct Ht|].
  apply Forall_forall. intros row Hrow.
  apply list_elem_of_In, in_map_iff in Hrow as (ex & <- & Hex).
  apply (length_concat_is_matrix c h).
  destruct Ht as [_ Ht]. rewrite Forall_forall in Ht.
  destruct (Ht ex (proj2 (list_elem_of_In _ _) Hex)) as [Hlen Hnodes].
  apply (is_matrix_sum_matrices n c h); [done|].
  split; [by rewrite length_map|].
  apply Forall_forall. intros m Hm.
  apply list_elem_of_In, in_map_iff in Hm as (node & <- & Hnode).
  split.
  - rewrite length_map. rewrite Forall_forall in Hnodes.
    by apply Hnodes, list_elem_of_In.
  - apply Forall_forall. intros r Hr.
    apply list_elem_of_In, in_map_iff in Hr as (a & <- & _).
    rewrite length_map. by apply (length_normalized self n).
Qed.

Lemma is_matrix_linear_outputs (layer : Linear.t) (e : nat) (x : list (list R)) :
  Linear.wf layer → length x = e →
  is_matrix e (Linear.out_features layer) (map (Linear.output layer) x).
Proof.
  intros Hwf Hlen. split; [by rewrite length_map|].
  apply Forall_forall. intros row Hrow.
  apply list_elem_of_In, in_map_iff in Hrow as (r & <- & _).
  by apply length_linear_output.
Qed.

(** [supervised] on a network whose parts fit together. *)
Lemma supervised_fits {L : Type} `{GraphLayer L}
    (self : GraphNetwork.t) (e n c c0 c_last : nat) (layer : Linear.t)
    (t : list (list (list R))) (g : Generator) :
  (0 < e)%nat → (0 < n)%nat →
  has_shape3 e n c t →
  input_fits self n c c0 →
  layers_fit (GraphNetwork.use_gate self) e n c0
    (zip (zip (GraphNetwork.my_convs self) (GraphNetwork.gates self))
         (GraphNetwork.my_dropouts self)) c_last →
  readout_fits self n c_last layer →
  ∃ y g',
    GraphNetwork.supervised self (Tensor3 t) g = Ok (y, g')
    ∧ is_matrix e (Linear.out_features layer) y.
Proof.
  intros He Hn Ht Hinput Hlayers (Hlast & Hwf & Hread).
  unfold GraphNetwork.supervised.
  unfold mbind at 1, rand_bind at 1, pure at 1.
  rewrite (size3_has_shape3 e n c t He Hn Ht).
  (* the embedding *)
  assert (∃ t0, (if truthy (GraphNetwork.add_emb self)
                 then match GraphNetwork.emb self with
                      | Some emb => EmbeddingLayer.forward emb (Tensor3 t)
                      | None => Raise AttributeError
                      end
                 else Ok (Tensor3 t)) = Ok (Tensor3 t0)
                ∧ has_shape3 e n c0 t0) as (t0 & -> & Ht0).
  { unfold input_fits in Hinput.
    destruct (truthy (GraphNetwork.add_emb self)).
    - destruct Hinput as (emb & -> & Hemb & ->).
      destruct (embedding_forward_value emb e n c0 t Hemb Ht) as (out & -> & Hout & _).
      by exists out.
    - subst c0. by exists t. }
  unfold mbind at 1, rand_bind at 1, pure at 1.
  (* the layers *)
  destruct (run_layers_fits self e n _ He Hn c0 c_last t0 g Hlayers Ht0)
    as (t1 & g1 & Hrun & Ht1).
  unfold mbind at 1, rand_bind at 1. rewrite Hrun.
  (* the pooling and the logistic layer *)
  destruct (truthy_int (GraphNetwork.attention_head self)).
  - destruct Hread as (a & -> & Hwfa & Hin & Hheads & Hc & Hfeatures).
    unfold mbind at 1, rand_bind at 1, pure at 1.
    rewrite (attention_forward_ok a e n c_last t1 Hwfa Hin He Hn Hc Ht1).
    cbn [mbind result_bind].
    pose proof (is_matrix_pooled a e n c_last t1 Hwfa Hn Ht1) as Hpooled.
    unfold pure. cbn [flatten].
    rewrite (view2_rows_concat e _ _ He Hpooled), bind_Ok.
    unfold last_item. rewrite Hlast, bind_Ok.
    rewrite (linear_forward_ok layer e).
    + eexists _, _. split; [reflexivity|].
      apply is_matrix_linear_outputs; [done|by destruct Hpooled].
    + by rewrite Hfeatures, <- Hheads, Nat.mul_comm.
  - unfold mbind at 1, rand_bind at 1, pure at 1.
    unfold pure.
    rewrite (view2_rows_flatten e n c_last t1 He Ht1), bind_Ok.
    unfold last_item. rewrite Hlast, bind_Ok.
    rewrite (linear_forward_ok layer e).
    + eexists _, _. split; [reflexivity|].
      apply is_matrix_linear_outputs; [done|].
      rewrite length_map. by destruct Ht1.
    + rewrite Hread. by apply is_matrix_map_concat.
Qed.

(** X12.  A network whose parts fit together, as [__init__] builds them,
    never fails on a well-formed input: if every graph layer keeps the
    examples and the nodes, every gate reads the channels its layer
    writes, and the logistic layer reads [nb_nodes * dims[-1]] numbers,
    or [attention_head * dims[-1]] with attention, then [supervised]
    returns from every generator state, with or without embeddings, gates,
    drop-out and attention, and its output has one row per example and
    one column per class. *)
Theorem supervised_returns_one_row_per_example {L : Type} `{GraphLayer L}
    (self : GraphNetwork.t) (e n c c0 c_last : nat) (layer : Linear.t)
    (t : list (list (list R))) (g : Generator) :
  (0 < e)%nat → (0 < n)%nat →
  has_shape3 e n c t →
  input_fits self n c c0 →
  layers_fit (GraphNetwork.use_gate self) e n c0
    (zip (zip (GraphNetwork.my_convs self) (GraphNetwork.gates self))
         (GraphNetwork.my_dropouts self)) c_last →
  readout_fits self n c_last layer →
  ∃ y g',
    GraphNetwork.supervised self (Tensor3 t) g = Ok (y, g')
    ∧ is_matrix e (Linear.out_features layer) y.
Proof. apply supervised_fits. Qed.

Lemma supervised_returns_one_row_per_example_witness :
  ∃ y g',
    GraphNetwork.supervised (H := passthrough_layer) dropout_network
      (Tensor3 [[[1]]]) seeded_generator = Ok (y, g')
    ∧ is_matrix 1
        (Linear.out_features
           {| Linear.in_features := 1; Linear.out_features := 1;
              Linear.weight := [[1]]; Linear.bias := [0] |}) y.
Proof.
  apply (supervised_returns_one_row_per_example (H := passthrough_layer)
           dropout_network 1 1 1 1 1
           {| Linear.in_features := 1; Linear.out_features := 1;
              Linear.weight := [[1]]; Linear.bias := [0] |}
           [[[1]]] seeded_generator).
  - lia.
  - lia.
  - split; [reflexivity|]. repeat constructor.
  - reflexivity.
  - exists 1%nat. split_and!.
    + lia.
    + intros t Ht. exists t. by split.
    + intros Hgate. simpl in Hgate. lra.
    + reflexivity.
  - split_and!.
    + reflexivity.
    + split; [|reflexivity]. split; [reflexivity|]. repeat constructor.
    + reflexivity.
Defined.

(** ** The drop-out modules that the constructors create *)

Lemma advance_0 (g : Generator) : advance g 0 = g.
Proof. destruct g as [s k]. unfold advance. simpl. f_equal. lia. Qed.

Lemma advance_advance (g : Generator) (a b : nat) :
  advance (advance g a) b = advance g (a + b).
Proof. unfold advance. simpl. f_equal. lia. Qed.

Lemma rand_map_drop_entry_p0 (d : Dropout.t) (xs : list R) :
  Dropout.p d = 0 →
  ∀ g, (∀ k, stream g k < 1) →
       rand_map (Dropout.drop_entry d) xs g = Ok (xs, advance g (length xs)).
Proof.
  intros Hp. induction xs as [|x xs IH]; intros g Hdraws.
  - cbn. by rewrite advance_0.
  - cbn [rand_map]. unfold mbind at 1, rand_bind at 1.
    unfold Dropout.drop_entry at 1, mbind at 1, rand_bind at 1, uniform at 1.
    cbn [mret rand_ret].
    unfold mbind at 1, rand_bind at 1.
    rewrite (IH {| stream := stream g; cursor := S (cursor g) |}) by apply Hdraws.
    rewrite Hp. unfold mret, rand_ret.
    destruct (Rlt_dec (stream g (cursor g)) (1 - 0)) as [_|Hno].
    + replace (x / (1 - 0)) with x by (field; lra).
      do 2 f_equal. unfold advance. simpl. f_equal. lia.
    + destruct Hno. specialize (Hdraws (cursor g)). lra.
Qed.

Lemma dropout_forward_p0 (d : Dropout.t) (x : list (list R)) :
  Dropout.training d = true → Dropout.p d = 0 →
  ∀ g, (∀ k, stream g k < 1) →
       Dropout.forward d x g = Ok (x, advance g (length (concat x))).
Proof.
  intros Htrain Hp g Hdraws. unfold Dropout.forward. rewrite Htrain.
  revert g Hdraws. induction x as [|row x IH]; intros g Hdraws.
  - cbn. by rewrite advance_0.
  - cbn [rand_map]. unfold mbind at 1, rand_bind at 1.
    rewrite (rand_map_drop_entry_p0 d row Hp g Hdraws).
    unfold mbind at 1, rand_bind at 1.
    rewrite (IH (advance g (length row))) by apply Hdraws.
    cbn [mret rand_ret concat]. rewrite advance_advance, length_app. done.
Qed.

Lemma zip_with_replicate_r_map {A B C : Type} (f : A → B → C) (xs : list A)
    (y : B) (n : nat) :
  length xs = n → zip_with f xs (replicate n y) = map (fun x => f x y) xs.
Proof.
  intros <-. induction xs as [|x xs IH]; [done|]. simpl. by rewrite IH.
Qed.

Lemma masked_by_ones (e n c : nat) (t : list (list (list R))) :
  has_shape3 e n c t →
  zip_with (zip_with (fun node k => map (fun a => a * k) node)) t (ones e n) = t.
Proof.
  intros [Hlen Ht]. unfold ones.
  rewrite (zip_with_replicate_r_map _ t _ e Hlen).
  rewrite <- (map_id t) at 2. apply map_ext_in. intros ex Hex.
  rewrite Forall_forall in Ht.
  destruct (Ht ex (proj2 (list_elem_of_In _ _) Hex)) as [Hn _].
  rewrite (zip_with_replicate_r_map _ ex _ n Hn).
  rewrite <- (map_id ex) at 2. apply map_ext. intros node.
  rewrite <- (map_id node) at 2. apply map_ext. intros a. lra.
Qed.

(** X13.  In [models.py] the drop-out module of layer [i] has
    [p = min(i / 10, 0.5)], so the module of the first layer has [p = 0]:
    it keeps every node and scales by 1.  With draws from [0, 1), applying
    it to a well-formed tensor returns the tensor unchanged. *)
Theorem first_dropout_of_models_py_drops_nothing (nb_layers e n c : nat)
    (t : list (list (list R))) (g : Generator) :
  (0 < nb_layers)%nat →
  (0 < e)%nat →
  has_shape3 e n c t →
  (∀ k, stream g k < 1) →
  ∃ d g',
    Legacy.GraphNetwork.init_dropouts true nb_layers !! 0%nat = Some (Some d)
    ∧ Dropout.p d = 0
    ∧ GraphNetwork.apply_dropout (Some d) (Tensor3 t) g = Ok (Tensor3 t, g').
Proof.
  intros Hlayers He Ht Hdraws.
  destruct nb_layers as [|nb_layers]; [lia|].
  unfold Legacy.GraphNetwork.init_dropouts. cbn [seq map lookup list_lookup].
  eexists _, _. split; [reflexivity|].
  assert (1 * Rmin (INR 0 / 10) 0.5 = 0) as Hp.
  { simpl. unfold Rmin. destruct (Rle_dec _ _); lra. }
  split; [exact Hp|].
  cbn [GraphNetwork.apply_dropout]. unfold mbind, rand_bind, pure.
  rewrite (size_1_has_shape3 e n c t He Ht). cbn [size_0].
  pose proof Ht as [Hlen _]. rewrite Hlen.
  rewrite dropout_forward_p0 by done.
  rewrite (mask_times_features e n c t (ones e n) Ht (is_matrix_ones e n)).
  rewrite (masked_by_ones e n c t Ht). reflexivity.
Qed.

Lemma first_dropout_of_models_py_drops_nothing_witness :
  ∃ d g',
    Legacy.GraphNetwork.init_dropouts true 1 !! 0%nat = Some (Some d)
    ∧ Dropout.p d = 0
    ∧ GraphNetwork.apply_dropout (Some d)
        (Tensor3 [[[1; 2]; [3; 4]]]) seeded_generator
      = Ok (Tensor3 [[[1; 2]; [3; 4]]], g').
Proof.
  apply (first_dropout_of_models_py_drops_nothing
           1 1 2 2 [[[1; 2]; [3; 4]]] seeded_generator).
  - lia.
  - lia.
  - split; [reflexivity|]. repeat constructor.
  - intros [|k]; simpl; lra.
Defined.

(** X14.  The drop-out modules of [GraphNetwork.__init__] in
    [models/model_layers.py]: with [dropout] there is one module per
    layer, in training mode, and the module of layer [i] has
    [p = min((i + 1) / 10, 0.4)], which lies between 0.1 and 0.4; a node
    that is kept is scaled by [1 / (1 - p)], between 10/9 and 5/3.
    Without [dropout] every entry of the list is [None]. *)
Theorem dropout_rates_are_between_one_and_four_tenths (nb_layers i : nat) :
  (i < nb_layers)%nat →
  (∃ d,
     GraphNetwork.init_dropouts true nb_layers !! i = Some (Some d)
     ∧ Dropout.training d = true
     ∧ Dropout.p d = Rmin ((INR i + 1) / 10) (4 / 10)
     ∧ 1 / 10 <= Dropout.p d <= 4 / 10
     ∧ 10 / 9 <= 1 / (1 - Dropout.p d) <= 5 / 3)
  ∧ GraphNetwork.init_dropouts false nb_layers !! i = Some None.
Proof.
  intros Hi. unfold GraphNetwork.init_dropouts. split.
  - rewrite list_lookup_fmap, lookup_seq_lt by done. cbn.
    eexists. split; [reflexivity|]. cbn.
    pose proof (pos_INR i) as Hpos.
    assert (1 * Rmin ((INR i + 1) / 10) 0.4 = Rmin ((INR i + 1) / 10) (4 / 10)) as ->.
    { replace 0.4 with (4 / 10) by lra. lra. }
    assert (1 / 10 <= Rmin ((INR i + 1) / 10) (4 / 10) <= 4 / 10) as Hp.
    { unfold Rmin. destruct (Rle_dec _ _); lra. }
    set (p := Rmin ((INR i + 1) / 10) (4 / 10)) in *.
    split_and!; try done; try lra.
    + apply (Rmult_le_reg_r (1 - p)); [lra|].
      replace (1 / (1 - p) * (1 - p)) with 1 by (field; lra). lra.
    + apply (Rmult_le_reg_r (1 - p)); [lra|].
      replace (1 / (1 - p) * (1 - p)) with 1 by (field; lra). lra.
  - by apply lookup_replicate_2.
Qed.

Lemma dropout_rates_are_between_one_and_four_tenths_witness :
  (∃ d,
     GraphNetwork.init_dropouts true 6 !! 4%nat = Some (Some d)
     ∧ Dropout.training d = true
     ∧ Dropout.p d = Rmin ((INR 4 + 1) / 10) (4 / 10)
     ∧ 1 / 10 <= Dropout.p d <= 4 / 10
     ∧ 10 / 9 <= 1 / (1 - Dropout.p d) <= 5 / 3)
  ∧ GraphNetwork.init_dropouts false 6 !! 4%nat = Some None.
Proof.
  apply (dropout_rates_are_between_one_and_four_tenths 6 4). lia.
Defined.

(** ** The Laplacian of the sparse logistic regression *)

Lemma inv_sqrt_degrees_pos (n : nat) (a : list (list R)) (j : nat) :
  is_matrix n n a → nonnegative n a → (j < n)%nat →
  0 < nth j (inv_sqrt_degrees a) 0.
Proof.
  intros Hsq Hnn Hj.
  rewrite (nth_inv_sqrt_degrees n a j Hsq Hj), (nth_degrees n a j Hsq Hj).
  apply Rinv_0_lt_compat, sqrt_lt_R0.
  assert (0 <= Rsum n (fun i => entry a i j)).
  { apply Rsum_nonneg. intros i Hi. by apply Hnn. }
  lra.
Qed.

(** X15.  The Laplacian that [SparseLogisticRegression.__init__] stores,
    for a square adjacency matrix with non-negative weights: a square
    matrix with 1 everywhere on the diagonal, whatever self-loops the
    adjacency matrix had; off the diagonal an entry is negative where the
    two nodes are adjacent and 0 where they are not. *)
Theorem laplacian_has_unit_diagonal
    (σ : store) (nb_nodes input_dim n : nat) (adj : loc)
    (out_dim : option nat) (on_cuda : bool) (w0 : list (list R)) (b0 : list R)
    (a : list (list R)) :
  σ !! adj = Some a →
  is_matrix n n a → nonnegative n a →
  ∃ model σ',
    SparseLogisticRegression.init σ nb_nodes input_dim adj out_dim on_cuda w0 b0
    = Some (model, σ')
    ∧ is_matrix n n (SparseLogisticRegression.laplacian model)
    ∧ (∀ i, (i < n)%nat →
         entry (SparseLogisticRegression.laplacian model) i i = 1)
    ∧ (∀ i j, (i < n)%nat → (j < n)%nat → i ≠ j →
         (0 < entry a i j →
          entry (SparseLogisticRegression.laplacian model) i j < 0)
         ∧ (entry a i j = 0 →
            entry (SparseLogisticRegression.laplacian model) i j = 0)).
Proof.
  intros Ha Hsq Hnn.
  destruct (slr_init_unfold σ nb_nodes input_dim n adj out_dim on_cuda w0 b0 a
              Ha Hsq) as (model & Hinit & HL & _).
  pose proof (is_matrix_fill_diagonal n n a 0 Hsq) as Hsq'.
  pose proof (nonnegative_fill_diagonal n a Hnn) as Hnn'.
  exists model, (<[adj := fill_diagonal a 0]> σ). rewrite HL. split_and!.
  - exact Hinit.
  - by apply is_matrix_make_laplacian.
  - intros i Hi. rewrite (entry_make_laplacian n _ i i Hsq' Hi Hi).
    rewrite Nat.eqb_refl, entry_fill_diagonal_diag.
    + lra.
    + by rewrite (length_nth_is_matrix n n a i Hsq Hi).
  - intros i j Hi Hj Hij.
    rewrite (entry_make_laplacian n _ i j Hsq' Hi Hj).
    rewrite (proj2 (Nat.eqb_neq i j) Hij), entry_fill_diagonal_off by done.
    pose proof (inv_sqrt_degrees_pos n _ i Hsq' Hnn' Hi) as Hsi.
    pose proof (inv_sqrt_degrees_pos n _ j Hsq' Hnn' Hj) as Hsj.
    split.
    + intros Hpos.
      pose proof (Rmult_lt_0_compat _ _ Hsi Hpos) as H1.
      pose proof (Rmult_lt_0_compat _ _ H1 Hsj). lra.
    + intros ->. lra.
Qed.

Lemma laplacian_has_unit_diagonal_witness :
  ∃ model σ',
    SparseLogisticRegression.init {[ 7%nat := [[5; 1]; [1; 3]] ]} 2 1 7
      (Some 1%nat) false [[1; -2]] [0] = Some (model, σ')
    ∧ is_matrix 2 2 (SparseLogisticRegression.laplacian model)
    ∧ (∀ i, (i < 2)%nat →
         entry (SparseLogisticRegression.laplacian model) i i = 1)
    ∧ (∀ i j, (i < 2)%nat → (j < 2)%nat → i ≠ j →
         (0 < entry [[5; 1]; [1; 3]] i j →
          entry (SparseLogisticRegression.laplacian model) i j < 0)
         ∧ (entry [[5; 1]; [1; 3]] i j = 0 →
            entry (SparseLogisticRegression.laplacian model) i j = 0)).
Proof.
  apply (laplacian_has_unit_diagonal
           {[ 7%nat := [[5; 1]; [1; 3]] ]} 2 1 2 7 (Some 1%nat) false
           [[1; -2]] [0] [[5; 1]; [1; 3]]).
  - apply lookup_singleton_eq.
  - split; [reflexivity|]. repeat constructor.
  - intros i j Hi Hj.
    destruct i as [|[|i]]; destruct j as [|[|j]];
      try lia; unfold entry; simpl; lra.
Defined.

Lemma fill_diagonal_idempotent {T : Type} (a : list (list T)) (val : T) :
  fill_diagonal (fill_diagonal a val) val = fill_diagonal a val.
Proof.
  unfold fill_diagonal. apply list_eq. intros i.
  rewrite !list_lookup_imap.
  destruct (a !! i) as [row|]; [|done]. simpl.
  by rewrite list_insert_insert_eq.
Qed.

(** On an array that is not square the constructor raises: the first
    product of line 117 is not aligned. *)
Lemma slr_init_raises_on_non_square
    (σ : store) (nb_nodes input_dim r c : nat) (adj : loc)
    (out_dim : option nat) (on_cuda : bool) (w0 : list (list R)) (b0 : list R)
    (a : list (list R)) :
  σ !! adj = Some a →
  is_matrix r c a → (0 < r)%nat → r ≠ c →
  SparseLogisticRegression.init σ nb_nodes input_dim adj out_dim on_cuda w0 b0
  = None.
Proof.
  intros Ha Hrc Hr Hne. unfold SparseLogisticRegression.init. rewrite Ha.
  cbn [mbind option_bind].
  pose proof (is_matrix_fill_diagonal r c a 0 Hrc) as Hrc'.
  assert (laplacian_aligned (fill_diagonal a 0) = false) as ->; [|done].
  unfold laplacian_aligned, dot_aligned.
  destruct (shape_np_diag (inv_sqrt_degrees (fill_diagonal a 0))) as [_ ->].
  unfold inv_sqrt_degrees, degrees, sum_axis0.
  rewrite !length_map, length_seq.
  rewrite (ncols_is_matrix r c _ Hr Hrc').
  assert (nrows (fill_diagonal a 0) = r) as -> by (by destruct Hrc').
  apply andb_false_intro1. apply Nat.eqb_neq. lia.
Qed.

(** X16.  Constructing a sparse logistic regression a second time on the
    same square array changes nothing more: the first construction has
    zeroed the diagonal of the caller's array, the second finds it zeroed,
    leaves the store as it is and builds the same model, with the same
    Laplacian. *)
Theorem constructing_twice_is_constructing_once
    (σ : store) (nb_nodes input_dim n : nat) (adj : loc)
    (out_dim : option nat) (on_cuda : bool) (w0 : list (list R)) (b0 : list R)
    (a : list (list R)) :
  σ !! adj = Some a →
  is_matrix n n a →
  ∃ model σ',
    SparseLogisticRegression.init σ nb_nodes input_dim adj out_dim on_cuda w0 b0
    = Some (model, σ')
    ∧ SparseLogisticRegression.init σ' nb_nodes input_dim adj out_dim on_cuda
        w0 b0 = Some (model, σ').
Proof.
  intros Ha Hsq.
  pose proof (is_matrix_fill_diagonal n n a 0 Hsq) as Hsq'.
  destruct (slr_init_unfold σ nb_nodes input_dim n adj out_dim on_cuda w0 b0 a
              Ha Hsq) as (model & Hinit & HL & Hlayers).
  destruct (slr_init_unfold (<[adj := fill_diagonal a 0]> σ) nb_nodes input_dim
              n adj out_dim on_cuda w0 b0 (fill_diagonal a 0))
    as (model' & Hinit' & HL' & Hlayers'); [apply lookup_insert_eq|done|].
  exists model, (<[adj := fill_diagonal a 0]> σ). split; [done|].
  rewrite Hinit', fill_diagonal_idempotent, insert_insert_eq.
  do 2 f_equal.
  unfold SparseLogisticRegression.init in Hinit, Hinit'.
  rewrite Ha in Hinit. rewrite lookup_insert_eq in Hinit'.
  cbn [mbind option_bind] in Hinit, Hinit'.
  rewrite fill_diagonal_idempotent in Hinit'.
  rewrite (laplacian_aligned_square n) in Hinit, Hinit' by done.
  congruence.
Qed.

Lemma constructing_twice_is_constructing_once_witness :
  ∃ model σ',
    SparseLogisticRegression.init {[ 7%nat := [[5; 1]; [1; 3]] ]} 2 1 7
      (Some 1%nat) false [[1; -2]] [0] = Some (model, σ')
    ∧ SparseLogisticRegression.init σ' 2 1 7 (Some 1%nat) false [[1; -2]] [0]
      = Some (model, σ').
Proof.
  apply (constructing_twice_is_constructing_once
           {[ 7%nat := [[5; 1]; [1; 3]] ]} 2 1 2 7 (Some 1%nat) false
           [[1; -2]] [0] [[5; 1]; [1; 3]]).
  - apply lookup_singleton_eq.
  - split; [reflexivity|]. repeat constructor.
Defined.

(** ** Loading a snapshot: names and order *)

Section LoadStateDictOrder.
Variable compatible : tensor → tensor → bool.
Variable copied : tensor → tensor → tensor.

(** X17.  [GraphNetwork.load_state_dict] neither adds nor removes a
    parameter: afterwards the model has exactly the names it had.  And the
    order in which the loop meets the entries of the snapshot does not
    matter: two orders of the same entries, with distinct names, leave
    the same parameters. *)
Theorem load_state_dict_keeps_the_names
    (items items' : list (string * saved)) (own_state : gmap string tensor) :
  NoDup items.*1 →
  items ≡ₚ items' →
  ∃ own_state',
    load_items compatible copied items own_state = Ok own_state'
    ∧ load_items compatible copied items' own_state = Ok own_state'
    ∧ dom own_state' = dom own_state.
Proof.
  intros Hnodup Hperm.
  assert (NoDup items'.*1) as Hnodup' by (by rewrite <- Hperm).
  destruct (load_items_lookup compatible copied items own_state Hnodup)
    as (own1 & Hload1 & Hlookup1).
  destruct (load_items_lookup compatible copied items' own_state Hnodup')
    as (own2 & Hload2 & Hlookup2).
  exists own1. split_and!.
  - exact Hload1.
  - rewrite Hload2. f_equal. apply map_eq. intros name.
    rewrite Hlookup1, Hlookup2.
    by rewrite (list_to_map_proper items items' Hnodup Hperm).
  - apply set_eq. intros name. rewrite !elem_of_dom, Hlookup1.
    destruct (own_state !! name); simpl; split; intros [? ?]; eauto; done.
Qed.

(** The loader of [nn.Module] on entries that all fit, and on entries one
    of which does not. *)
Lemma entry_fits_insert (own_state : gmap string tensor) (n name : string)
    (own : tensor) (param : saved) :
  n ≠ name →
  entry_fits compatible (<[n := own]> own_state) name param
  = entry_fits compatible own_state name param.
Proof. intros Hne. unfold entry_fits. by rewrite lookup_insert_ne. Qed.

Lemma module_load_items_fits (items : list (string * saved))
    (own_state : gmap string tensor) :
  NoDup items.*1 →
  Forall (fun item => entry_fits compatible own_state item.1 item.2 = true)
         items →
  module_load_items compatible copied items own_state
  = load_items compatible copied items own_state.
Proof.
  revert own_state.
  induction items as [|[n p] items IH]; intros own_state Hnodup Hall; [done|].
  apply NoDup_cons in Hnodup as [Hn Hnodup].
  apply Forall_cons_1 in Hall as [Hfit Hall]. simpl in Hfit.
  cbn [module_load_items load_items].
  unfold module_load_entry, load_entry, copy_, entry_fits in *.
  destruct (own_state !! n) as [own|] eqn:Hown; [|done].
  rewrite Hfit. cbn [mbind result_bind]. apply IH; [done|].
  apply Forall_forall. intros [n' p'] Hin. rewrite Forall_forall in Hall.
  specialize (Hall _ Hin). simpl in *.
  rewrite lookup_insert_ne; [done|].
  intros <-. apply Hn. apply list_elem_of_fmap. by exists (n, p').
Qed.

Lemma module_load_items_raises (items : list (string * saved))
    (own_state : gmap string tensor) :
  NoDup items.*1 →
  Exists (fun item => entry_fits compatible own_state item.1 item.2 = false)
         items →
  ∃ e, module_load_items compatible copied items own_state = Raise e.
Proof.
  revert own_state.
  induction items as [|[n p] items IH]; intros own_state Hnodup Hex.
  { by apply Exists_nil in Hex. }
  apply NoDup_cons in Hnodup as [Hn Hnodup].
  cbn [module_load_items]. unfold module_load_entry, copy_.
  destruct (own_state !! n) as [own|] eqn:Hown; [|by exists KeyError].
  destruct (compatible own (saved_data p)) eqn:Hfit;
    [|by exists RuntimeError].
  cbn [mbind result_bind]. apply IH; [done|].
  apply Exists_cons in Hex as [Hhead|Htail].
  { unfold entry_fits in Hhead. simpl in Hhead.
    rewrite Hown, Hfit in Hhead. done. }
  apply Exists_exists in Htail as ([n' p'] & Hin & Hbad).
  apply Exists_exists. exists (n', p'). split; [done|]. simpl in *.
  rewrite entry_fits_insert; [done|].
  intros <-. apply Hn. apply list_elem_of_fmap. by exists (n, p').
Qed.

(** X18.  The end of [get_model]: it lays the snapshot over the model's
    own state and loads the result with the loader of the model's class.
    Let copying a tensor onto itself be allowed and change nothing.  For
    a graph network (['gcn'], ['lcg'], ['sgc']) this is loading the
    snapshot with [GraphNetwork.load_state_dict]: what does not fit is
    skipped.  For ['slr'], ['lr'] and ['mlp'], which inherit the strict
    loader of [nn.Module], it is the same when every entry of the snapshot
    names a parameter of the model and can be copied to it, and it raises
    otherwise.  Without a snapshot the parameters are left alone. *)
Theorem get_model_restores_by_loading_the_snapshot
    (model : ModelOption.t)
    (own_state : gmap string tensor) (model_state : gmap string saved) :
  (∀ t, compatible t t = true) →
  (∀ t, copied t t = t) →
  get_model_restore compatible copied model own_state None = Ok own_state
  ∧ (ModelOption.is_graph_network model = true →
     get_model_restore compatible copied model own_state (Some model_state)
     = load_state_dict compatible copied own_state model_state)
  ∧ (ModelOption.is_graph_network model = false →
     (snapshot_fits compatible own_state model_state →
      get_model_restore compatible copied model own_state (Some model_state)
      = load_state_dict compatible copied own_state model_state)
     ∧ (¬ snapshot_fits compatible own_state model_state →
        ∃ e, get_model_restore compatible copied model own_state
               (Some model_state) = Raise e)).
Proof.
  intros Hfit Hsame. split; [done|]. unfold get_model_restore. split.
  { intros ->. by apply get_model_restore_is_load_state_dict. }
  intros ->. unfold module_load_state_dict.
  pose proof (NoDup_fst_map_to_list (model_state ∪ (SavedTensor <$> own_state)))
    as Hnodup.
  split.
  - intros Hall.
    rewrite module_load_items_fits; [|done|].
    + fold (load_state_dict compatible copied own_state
              (model_state ∪ (SavedTensor <$> own_state))).
      rewrite (get_model_restore_is_load_state_dict compatible copied)
        by done.
      destruct (load_state_dict_lookup compatible copied own_state model_state)
        as (own' & -> & _).
      cbn [mbind result_bind].
      destruct (decide (dom own_state
                        ⊆ dom (model_state ∪ (SavedTensor <$> own_state))))
        as [_|Hnot]; [done|].
      exfalso. apply Hnot. rewrite dom_union, dom_fmap. set_solver.
    + apply Forall_forall. intros [n p] Hin%elem_of_map_to_list. simpl.
      apply lookup_union_Some_raw in Hin as [Hp|[Hnone Hp]].
      * by apply Hall.
      * rewrite lookup_fmap in Hp. unfold entry_fits.
        destruct (own_state !! n) as [own|]; simplify_eq/=. apply Hfit.
  - intros Hnot.
    apply map_not_Forall in Hnot; [|intros; apply _].
    destruct Hnot as (n & p & Hp & Hbad).
    apply not_true_is_false in Hbad.
    destruct (module_load_items_raises
                (map_to_list (model_state ∪ (SavedTensor <$> own_state)))
                own_state Hnodup) as [e ->]; [|by exists e].
    apply Exists_exists. exists (n, p). split; [|done].
    apply elem_of_map_to_list. by apply lookup_union_Some_l.
Qed.
End LoadStateDictOrder.

Lemma load_state_dict_keeps_the_names_witness :
  ∃ own_state',
    load_items same_shape (fun _ src => src)
      [("weight", SavedParameter (Tensor2 [[1; 2]]));
       ("bias", SavedTensor (Tensor1 [3; 4]))]
      (<["weight" := Tensor2 [[0; 0]]]> {["bias" := Tensor1 [0]]})
    = Ok own_state'
    ∧ load_items same_shape (fun _ src => src)
        [("bias", SavedTensor (Tensor1 [3; 4]));
         ("weight", SavedParameter (Tensor2 [[1; 2]]))]
        (<["weight" := Tensor2 [[0; 0]]]> {["bias" := Tensor1 [0]]})
      = Ok own_state'
    ∧ dom own_state'
      = dom (<["weight" := Tensor2 [[0; 0]]]> {["bias" := Tensor1 [0]]}
             : gmap string tensor).
Proof.
  apply (load_state_dict_keeps_the_names same_shape (fun _ src => src)
           [("weight", SavedParameter (Tensor2 [[1; 2]]));
            ("bias", SavedTensor (Tensor1 [3; 4]))]
           [("bias", SavedTensor (Tensor1 [3; 4]));
            ("weight", SavedParameter (Tensor2 [[1; 2]]))]).
  - simpl. apply NoDup_cons. split; [|apply NoDup_singleton].
    intros Hin. apply list_elem_of_singleton in Hin. discriminate.
  - apply perm_swap.
Defined.

(** A perceptron whose snapshot holds a weight of the right shape. *)
Lemma get_model_restores_by_loading_the_snapshot_witness :
  get_model_restore same_shape (fun _ src => src) ModelOption.mlp
    (<["weight" := Tensor2 [[0; 0]]]> {["bias" := Tensor1 [0]]}) None
  = Ok (<["weight" := Tensor2 [[0; 0]]]> {["bias" := Tensor1 [0]]})
  ∧ (ModelOption.is_graph_network ModelOption.mlp = true →
     get_model_restore same_shape (fun _ src => src) ModelOption.mlp
       (<["weight" := Tensor2 [[0; 0]]]> {["bias" := Tensor1 [0]]})
       (Some {["weight" := SavedParameter (Tensor2 [[1; 2]])]})
     = load_state_dict same_shape (fun _ src => src)
         (<["weight" := Tensor2 [[0; 0]]]> {["bias" := Tensor1 [0]]})
         {["weight" := SavedParameter (Tensor2 [[1; 2]])]})
  ∧ (ModelOption.is_graph_network ModelOption.mlp = false →
     (snapshot_fits same_shape
        (<["weight" := Tensor2 [[0; 0]]]> {["bias" := Tensor1 [0]]})
        {["weight" := SavedParameter (Tensor2 [[1; 2]])]} →
      get_model_restore same_shape (fun _ src => src) ModelOption.mlp
        (<["weight" := Tensor2 [[0; 0]]]> {["bias" := Tensor1 [0]]})
        (Some {["weight" := SavedParameter (Tensor2 [[1; 2]])]})
      = load_state_dict same_shape (fun _ src => src)
          (<["weight" := Tensor2 [[0; 0]]]> {["bias" := Tensor1 [0]]})
          {["weight" := SavedParameter (Tensor2 [[1; 2]])]})
     ∧ (¬ snapshot_fits same_shape
            (<["weight" := Tensor2 [[0; 0]]]> {["bias" := Tensor1 [0]]})
            {["weight" := SavedParameter (Tensor2 [[1; 2]])]} →
        ∃ e, get_model_restore same_shape (fun _ src => src) ModelOption.mlp
               (<["weight" := Tensor2 [[0; 0]]]> {["bias" := Tensor1 [0]]})
               (Some {["weight" := SavedParameter (Tensor2 [[1; 2]])]})
             = Raise e)).
Proof.
  apply (get_model_restores_by_loading_the_snapshot same_shape (fun _ src => src)).
  - intros t. unfold same_shape. by apply bool_decide_eq_true.
  - reflexivity.
Defined.

(** ** The size of the read-out of the [CNN] of [models.py] *)

Lemma consecutive_cons (a b : nat) (l : list nat) :
  CNN.consecutive (a :: b :: l) = (a, b) :: CNN.consecutive (b :: l).
Proof. reflexivity. Qed.

Lemma length_consecutive (a : nat) (l : list nat) :
  length (CNN.consecutive (a :: l)) = length l.
Proof.
  revert a. induction l as [|b l IH]; intros a; [done|].
  rewrite consecutive_cons. simpl. by rewrite IH.
Qed.

Lemma conv_loop_spec (pairs : list (nat * nat)) :
  ∀ (layers : list CNN.conv_block) (current_size : Z),
    CNN.conv_loop pairs layers current_size
    = (layers ++ map (fun p => {| CNN.c_in := p.1; CNN.c_out := p.2 |}) pairs,
       (current_size - Z.of_nat (length pairs))%Z).
Proof.
  induction pairs as [|[c_in c_out] pairs IH]; intros layers current_size.
  - simpl. rewrite app_nil_r. f_equal. lia.
  - cbn [CNN.conv_loop]. rewrite IH. rewrite <- app_assoc. f_equal.
    unfold CNN.ceil_div, CNN.padding, CNN.kernel_size, CNN.stride.
    rewrite Z.div_1_r. cbn [length]. lia.
Qed.

(** X19.  [CNN.__init__] of [models.py]: there is one convolution block
    for every entry of [channels], from each number of channels to the
    next; the loop takes 1 off the side of the grid for every block (a
    2 x 2 kernel, stride 1, no padding), and the fully connected layer at
    the end reads [(side - len(channels))^2 * dims[-1]] numbers, where
    [side] is [grid_shape[0]]. *)
Theorem cnn_read_out_size (input_dim : nat) (channels : list nat)
    (grid_shape : Z * Z) (out_dim : nat) (w0 : list (list R)) (b0 : list R) :
  CNN.my_layers (CNN.init input_dim channels grid_shape out_dim w0 b0)
  = map (fun p => {| CNN.c_in := p.1; CNN.c_out := p.2 |})
        (CNN.consecutive (input_dim :: channels))
  ∧ length (CNN.my_layers (CNN.init input_dim channels grid_shape out_dim w0 b0))
    = length channels
  ∧ Linear.in_features
      (CNN.fc (CNN.init input_dim channels grid_shape out_dim w0 b0))
    = Z.to_nat ((grid_shape.1 - Z.of_nat (length channels))
                * (grid_shape.1 - Z.of_nat (length channels))
                * Z.of_nat (List.last (input_dim :: channels) 0%nat))
  ∧ Linear.out_features
      (CNN.fc (CNN.init input_dim channels grid_shape out_dim w0 b0))
    = out_dim.
Proof.
  unfold CNN.init. rewrite conv_loop_spec. cbn [app CNN.my_layers CNN.fc].
  rewrite length_consecutive. split_and!; try reflexivity.
  by rewrite length_map, length_consecutive.
Qed.

(** ** What the attention layer pools *)

Lemma nth_concat_matrix (r c : nat) (m : list (list R)) (i j : nat) :
  is_matrix r c m → (i < r)%nat → (j < c)%nat →
  nth (i * c + j) (concat m) 0 = entry m i j.
Proof.
  revert r i. induction m as [|row m IH]; intros r i [Hlen Hrows] Hi Hj.
  - simpl in Hlen. lia.
  - apply Forall_cons_1 in Hrows as [Hrow Hrows]. simpl.
    destruct i as [|i].
    + simpl. rewrite app_nth1 by lia. reflexivity.
    + rewrite app_nth2 by (rewrite Hrow; simpl; lia).
      replace (S i * c + j - length row)%nat with (i * c + j)%nat
        by (rewrite Hrow; simpl; lia).
      simpl in Hlen. rewrite (IH (length m) i); [done|by split|lia|done].
Qed.

Lemma entry_sum_matrices (n c h : nat) (ms : list (list (list R))) (i k : nat) :
  (0 < n)%nat → has_shape3 n c h ms → (i < c)%nat → (k < h)%nat →
  entry (sum_matrices ms) i k = Rsum n (fun j => entry (nth j ms []) i k).
Proof.
  intros Hn Hms Hi Hk. unfold entry at 1, sum_matrices.
  assert (length (hd [] ms) = c) as ->.
  { destruct Hms as [Hlen Hms]. destruct ms as [|m ms]; simpl in *; [lia|].
    by apply Forall_cons_1 in Hms as [[? _] _]. }
  rewrite (nth_map_lt _ _ _ 0%nat) by (by rewrite length_seq).
  rewrite seq_nth by done. simpl.
  assert (is_matrix n h (map (fun m => nth i m []) ms)) as Hvs.
  { destruct Hms as [Hlen Hms]. split; [by rewrite length_map|].
    apply Forall_forall. intros v Hv.
    apply list_elem_of_In, in_map_iff in Hv as (m & <- & Hm).
    rewrite Forall_forall in Hms.
    apply (length_nth_is_matrix c h m i); [|done].
    by apply Hms, list_elem_of_In. }
  rewrite (nth_sum_vectors n h _ k Hn Hvs Hk).
  apply Rsum_ext. intros j Hj. unfold entry.
  destruct Hms as [Hlen _].
  by rewrite (nth_map_lt _ _ _ []) by lia.
Qed.

(** A weighted average lies between the smallest and the largest value. *)
Lemma weighted_average_bounds (n : nat) (w x : nat → R) (lo hi : R) :
  (∀ j, (j < n)%nat → 0 <= w j) →
  Rsum n w = 1 →
  (∀ j, (j < n)%nat → lo <= x j <= hi) →
  lo <= Rsum n (fun j => x j * w j) <= hi.
Proof.
  intros Hw Hsum Hx.
  assert (0 <= Rsum n (fun j => (x j - lo) * w j)) as Hlo.
  { apply Rsum_nonneg. intros j Hj. apply Rmult_le_pos; [|by apply Hw].
    specialize (Hx j Hj). lra. }
  assert (0 <= Rsum n (fun j => (hi - x j) * w j)) as Hhi.
  { apply Rsum_nonneg. intros j Hj. apply Rmult_le_pos; [|by apply Hw].
    specialize (Hx j Hj). lra. }
  rewrite (Rsum_ext n _ (fun j => x j * w j - lo * w j)) in Hlo
    by (intros; lra).
  rewrite (Rsum_ext n _ (fun j => hi * w j - x j * w j)) in Hhi
    by (intros; lra).
  rewrite Rsum_minus, Rsum_scal_l, Hsum in Hlo.
  rewrite Rsum_minus, Rsum_scal_l, Hsum in Hhi. lra.
Qed.

Lemma nth_normalized_pos (self : AttentionLayer.t) (n : nat)
    (example : list (list R)) (node : list R) (k : nat) :
  AttentionLayer.wf self → (0 < n)%nat → length example = n →
  (k < AttentionLayer.nb_attention_head self)%nat →
  0 < nth k (AttentionLayer.normalized self example node) 0.
Proof.
  intros Hwf Hn Hlen Hk.
  set (h := AttentionLayer.nb_attention_head self) in *.
  set (u := map (AttentionLayer.unnormalized self) example).
  assert (is_matrix n h u) as Hu.
  { split; [unfold u; by rewrite length_map|].
    apply Forall_forall. intros row Hrow.
    apply list_elem_of_In, in_map_iff in Hrow as (? & <- & _).
    by apply length_unnormalized. }
  unfold AttentionLayer.normalized. fold u.
  rewrite nth_zip_with_Rdiv
    by (rewrite ?length_unnormalized, ?(length_sum_vectors n h u Hn Hu); done).
  rewrite (nth_sum_vectors n h u k Hn Hu Hk).
  apply Rdiv_lt_0_compat; [by apply nth_unnormalized_pos|].
  apply Rsum_pos; [done|]. intros j Hj. unfold entry, u.
  rewrite (nth_map_lt _ _ _ []) by lia.
  by apply nth_unnormalized_pos.
Qed.

(** X20.  The features that [AttentionLayer.forward] returns, on a
    well-formed input of [e] examples, [n] nodes and [c] channels: one row
    per example with [c * H] entries, and the entry for channel [ch] and
    head [k], at column [ch * H + k], is the average of the channel over
    the nodes, weighted with the attention weights of the head.  It
    therefore lies between the smallest and the largest value of the
    channel among the nodes of the example. *)
Theorem attention_pools_by_weighted_average (self : AttentionLayer.t)
    (e n c : nat) (t : list (list (list R))) :
  AttentionLayer.wf self →
  AttentionLayer.in_dim self = c →
  (0 < e)%nat → (0 < n)%nat → (0 < c)%nat →
  has_shape3 e n c t →
  ∃ attn_applied attn_weights,
    AttentionLayer.forward self (Tensor3 t) = Ok (attn_applied, attn_weights)
    ∧ is_matrix e (c * AttentionLayer.nb_attention_head self) attn_applied
    ∧ ∀ i ch k,
        (i < e)%nat → (ch < c)%nat →
        (k < AttentionLayer.nb_attention_head self)%nat →
        entry attn_applied i (ch * AttentionLayer.nb_attention_head self + k)
        = Rsum n (fun j => entry3 t i j ch * entry3 attn_weights i j k)
        ∧ ∀ lo hi,
            (∀ j, (j < n)%nat → lo <= entry3 t i j ch <= hi) →
            lo <= entry attn_applied i
                    (ch * AttentionLayer.nb_attention_head self + k) <= hi.
Proof.
  intros Hwf Hc He Hn Hcpos Ht.
  set (h := AttentionLayer.nb_attention_head self) in *.
  exists (AttentionLayer.pooled self t), (AttentionLayer.weights self t).
  split; [by apply (attention_forward_ok self e n c)|].
  split; [by apply (is_matrix_pooled self e n c)|].
  intros i ch k Hi Hch Hk.
  pose proof (length_nth_has_shape3 e n c t i Ht Hi) as Hex.
  set (ex := nth i t []) in *.
  assert (length t = e) as Hlen by (by destruct Ht).
  (* the entry as a sum over the nodes *)
  assert (entry (AttentionLayer.pooled self t) i (ch * h + k)
          = Rsum n (fun j =>
              nth ch (nth j ex []) 0
              * nth k (AttentionLayer.normalized self ex (nth j ex [])) 0))
    as Hentry.
  { unfold entry at 1, AttentionLayer.pooled.
    rewrite (nth_map_lt _ _ _ []) by lia. fold ex.
    set (ms := map (fun node =>
                      map (fun a => map (Rmult a)
                                        (AttentionLayer.normalized self ex node))
                          node) ex).
    assert (has_shape3 n c h ms) as Hms.
    { destruct Hex as [Hlen' Hnodes]. split; [unfold ms; by rewrite length_map|].
      apply Forall_forall. intros m Hm.
      apply list_elem_of_In, in_map_iff in Hm as (node & <- & Hnode).
      split.
      - rewrite length_map. rewrite Forall_forall in Hnodes.
        by apply Hnodes, list_elem_of_In.
      - apply Forall_forall. intros r Hr.
        apply list_elem_of_In, in_map_iff in Hr as (a & <- & _).
        rewrite length_map. by apply (length_normalized self n). }
    change (@sc_zero R R_scalar) with 0.
    rewrite (nth_concat_matrix c h _ ch k
               (is_matrix_sum_matrices n c h ms Hn Hms) Hch Hk).
    rewrite (entry_sum_matrices n c h ms ch k Hn Hms Hch Hk).
    apply Rsum_ext. intros j Hj. unfold entry, ms.
    destruct Hex as [Hlen' Hnodes].
    rewrite (nth_map_lt _ _ _ []) by lia.
    assert (length (nth j ex []) = c) as Hnode.
    { rewrite Forall_forall in Hnodes.
      apply Hnodes, list_elem_of_In, nth_In. lia. }
    rewrite (nth_map_lt _ _ _ 0) by lia.
    rewrite (nth_map_lt _ _ _ 0)
      by (rewrite (length_normalized self n); [done..|lia]).
    reflexivity. }
  assert (∀ j, (j < n)%nat →
            entry3 (AttentionLayer.weights self t) i j k
            = nth k (AttentionLayer.normalized self ex (nth j ex [])) 0) as Hweights.
  { intros j Hj. unfold entry3, AttentionLayer.weights.
    rewrite (nth_map_lt _ _ _ []) by lia. fold ex.
    destruct Hex as [Hlen' _].
    by rewrite (nth_map_lt _ _ _ []) by lia. }
  split.
  - rewrite Hentry. apply Rsum_ext. intros j Hj.
    by rewrite (Hweights j Hj).
  - intros lo hi Hbounds. rewrite Hentry.
    apply (weighted_average_bounds n
             (fun j => nth k (AttentionLayer.normalized self ex (nth j ex [])) 0)
             (fun j => nth ch (nth j ex []) 0)).
    + intros j Hj. left.
      destruct Hex as [Hlen' _]. by apply (nth_normalized_pos self n).
    + destruct Hex as [Hlen' _]. by apply normalized_sums_to_one.
    + intros j Hj. apply (Hbounds j Hj).
Qed.

Lemma attention_pools_by_weighted_average_witness :
  ∃ attn_applied attn_weights,
    AttentionLayer.forward
      {| AttentionLayer.in_dim := 2; AttentionLayer.nb_attention_head := 2;
         AttentionLayer.attn :=
           {| Linear.in_features := 2; Linear.out_features := 2;
              Linear.weight := [[1; 0]; [0; 1]]; Linear.bias := [0; 0] |};
         AttentionLayer.temperature := 1 |}
      (Tensor3 [[[1; 2]; [3; 4]; [5; 6]]]) = Ok (attn_applied, attn_weights)
    ∧ is_matrix 1 (2 * 2) attn_applied
    ∧ ∀ i ch k,
        (i < 1)%nat → (ch < 2)%nat → (k < 2)%nat →
        entry attn_applied i (ch * 2 + k)
        = Rsum 3 (fun j => entry3 [[[1; 2]; [3; 4]; [5; 6]]] i j ch
                           * entry3 attn_weights i j k)
        ∧ ∀ lo hi,
            (∀ j, (j < 3)%nat →
                  lo <= entry3 [[[1; 2]; [3; 4]; [5; 6]]] i j ch <= hi) →
            lo <= entry attn_applied i (ch * 2 + k) <= hi.
Proof.
  apply (attention_pools_by_weighted_average
           {| AttentionLayer.in_dim := 2; AttentionLayer.nb_attention_head := 2;
              AttentionLayer.attn :=
                {| Linear.in_features := 2; Linear.out_features := 2;
                   Linear.weight := [[1; 0]; [0; 1]]; Linear.bias := [0; 0] |};
              AttentionLayer.temperature := 1 |}
           1 3 2 [[[1; 2]; [3; 4]; [5; 6]]]).
  - split_and!; try reflexivity. repeat constructor.
  - reflexivity.
  - lia.
  - lia.
  - lia.
  - split; [reflexivity|]. repeat constructor.
Defined.

(** ** The multi-layer perceptron *)

Lemma mlp_run_layers_fits (self : MLP.t) (e c_last : nat)
    (layers : list Linear.t) :
  (0 < e)%nat →
  (MLP.dropout self = true → ∃ d, MLP.my_dropout self = Some d) →
  ∀ (k : nat) (x : tensor) (rows : list (list R)) (g : Generator),
    view2_rows e (flatten x) = Ok rows →
    is_matrix e k rows →
    linear_chain_fits k layers c_last →
    ∃ x' rows' g',
      MLP.run_layers self e layers x g = Ok (x', g')
      ∧ view2_rows e (flatten x') = Ok rows'
      ∧ is_matrix e c_last rows'
      ∧ (MLP.dropout self = false →
         g' = g ∧ rows' = map (mlp_hidden layers) rows).
Proof.
  intros He Hdrop.
  induction layers as [|layer layers IH]; intros k x rows g Hview Hrows Hfit.
  - simpl in Hfit. subst k. exists x, rows, g. split_and!; try done.
    intros _. split; [done|]. unfold mlp_hidden. simpl. by rewrite map_id.
  - destruct Hfit as (Hwf & Hin & Hfit).
    set (x1 := map (map relu) (map (Linear.output layer) rows)).
    assert (is_matrix e (Linear.out_features layer) x1) as Hx1.
    { destruct Hrows as [Hlen _]. split; [unfold x1; by rewrite !length_map|].
      apply Forall_forall. intros r Hr. unfold x1 in Hr. rewrite map_map in Hr.
      apply list_elem_of_In, in_map_iff in Hr as (r0 & <- & _).
      by rewrite length_map, length_linear_output. }
    assert (∃ x2 g2,
              MLP.hidden_layer self e layer x g = Ok (Tensor2 x2, g2)
              ∧ is_matrix e (Linear.out_features layer) x2
              ∧ (MLP.dropout self = false → g2 = g ∧ x2 = x1))
      as (x2 & g2 & Hhidden & Hx2 & Hsame).
    { unfold MLP.hidden_layer. unfold mbind at 1, rand_bind at 1, pure at 1.
      rewrite Hview, bind_Ok.
      rewrite (linear_forward_ok layer e rows) by (by rewrite Hin).
      rewrite bind_Ok. fold x1.
      destruct (MLP.dropout self) eqn:Hd.
      - destruct (Hdrop eq_refl) as (d & ->).
        destruct (dropout_forward_returns d e _ x1 g Hx1) as (x2 & g2 & Hfw & Hx2).
        exists x2, g2. unfold mbind, rand_bind. rewrite Hfw. by split_and!.
      - exists x1, g. by split_and!. }
    destruct (IH (Linear.out_features layer) (Tensor2 x2) x2 g2)
      as (x' & rows' & g' & Hrun & Hview' & Hrows' & Hvalue).
    { by apply (view2_rows_concat e (Linear.out_features layer)). }
    { done. }
    { done. }
    exists x', rows', g'. split_and!; try done.
    + cbn [MLP.run_layers]. unfold mbind at 1, rand_bind at 1.
      by rewrite Hhidden.
    + intros Hd. destruct (Hsame Hd) as [-> ->].
      destruct (Hvalue Hd) as [-> ->]. split; [done|].
      unfold x1. rewrite !map_map. reflexivity.
Qed.

(** [forward] on a perceptron whose layers fit together. *)
Lemma mlp_forward_fits (self : MLP.t) (e n c c_last : nat)
    (t : list (list (list R))) (g : Generator) :
  (0 < e)%nat → (0 < n)%nat →
  has_shape3 e n c t →
  linear_chain_fits (c * n) (MLP.my_layers self) c_last →
  Linear.wf (MLP.last_layer self) →
  Linear.in_features (MLP.last_layer self) = c_last →
  (MLP.dropout self = true → ∃ d, MLP.my_dropout self = Some d) →
  ∃ y g',
    MLP.forward self (Tensor3 t) g = Ok (y, g')
    ∧ is_matrix e (Linear.out_features (MLP.last_layer self)) y
    ∧ (MLP.dropout self = false →
       g' = g
       ∧ y = map (fun example =>
                    Linear.output (MLP.last_layer self)
                      (mlp_hidden (MLP.my_layers self)
                                  (concat (transpose example))))
                 t).
Proof.
  intros He Hn Ht Hfit Hwf Hin Hdrop.
  pose proof (has_shape3_permute e n c t Hn Ht) as Hp.
  destruct (mlp_run_layers_fits self e c_last (MLP.my_layers self) He Hdrop
              (c * n) (Tensor3 (permute_0_2_1 t)) (map (@concat _) (permute_0_2_1 t)) g)
    as (x' & rows' & g' & Hrun & Hview' & Hrows' & Hvalue).
  { by apply (view2_rows_flatten e c n). }
  { by apply is_matrix_map_concat. }
  { done. }
  exists (map (Linear.output (MLP.last_layer self)) rows'), g'. split_and!.
  - unfold MLP.forward. unfold mbind at 1, rand_bind at 1, pure at 1.
    rewrite (size3_has_shape3 e n c t He Hn Ht).
    unfold mbind at 1, rand_bind at 1, pure at 1. cbn [torch_permute_0_2_1].
    unfold mbind at 1, rand_bind at 1. rewrite Hrun.
    unfold pure. rewrite Hview', bind_Ok.
    by rewrite (linear_forward_ok _ e rows') by (by rewrite Hin).
  - apply is_matrix_linear_outputs; [done|by destruct Hrows'].
  - intros Hd. destruct (Hvalue Hd) as [-> ->]. split; [done|].
    unfold permute_0_2_1. by rewrite !map_map.
Qed.

(** X21.  [MLP.forward] on a perceptron whose layers fit together, and a
    well-formed input of [e] examples, [n] nodes and [c] channels: it
    returns from every generator state, one row per example and one
    column per class.  Every example is flattened channel by channel
    (after the transposition), so the first layer reads [c * n] numbers.
    Without drop-out the generator is left alone and the output is, for
    every example, the last layer applied to the hidden layers, each
    followed by [relu]. *)
Theorem mlp_forward_is_a_chain_of_layers (self : MLP.t) (e n c c_last : nat)
    (t : list (list (list R))) (g : Generator) :
  (0 < e)%nat → (0 < n)%nat →
  has_shape3 e n c t →
  linear_chain_fits (c * n) (MLP.my_layers self) c_last →
  Linear.wf (MLP.last_layer self) →
  Linear.in_features (MLP.last_layer self) = c_last →
  (MLP.dropout self = true → ∃ d, MLP.my_dropout self = Some d) →
  ∃ y g',
    MLP.forward self (Tensor3 t) g = Ok (y, g')
    ∧ is_matrix e (Linear.out_features (MLP.last_layer self)) y
    ∧ (MLP.dropout self = false →
       g' = g
       ∧ y = map (fun example =>
                    Linear.output (MLP.last_layer self)
                      (mlp_hidden (MLP.my_layers self)
                                  (concat (transpose example))))
                 t).
Proof. apply mlp_forward_fits. Qed.

Lemma mlp_forward_is_a_chain_of_layers_witness :
  ∃ y g',
    MLP.forward
      {| MLP.out_dim := 1; MLP.on_cuda := false; MLP.dropout := false;
         MLP.my_layers :=
           [ {| Linear.in_features := 2; Linear.out_features := 1;
                Linear.weight := [[1; -1]]; Linear.bias := [0] |} ];
         MLP.last_layer :=
           {| Linear.in_features := 1; Linear.out_features := 1;
              Linear.weight := [[2]]; Linear.bias := [1] |};
         MLP.my_dropout := None |}
      (Tensor3 [[[3]; [4]]]) seeded_generator = Ok (y, g')
    ∧ is_matrix 1 1 y
    ∧ (false = false →
       g' = seeded_generator
       ∧ y = map (fun example =>
                    Linear.output
                      {| Linear.in_features := 1; Linear.out_features := 1;
                         Linear.weight := [[2]]; Linear.bias := [1] |}
                      (mlp_hidden
                         [ {| Linear.in_features := 2; Linear.out_features := 1;
                              Linear.weight := [[1; -1]]; Linear.bias := [0] |} ]
                         (concat (transpose example))))
                 [[[3]; [4]]]).
Proof.
  apply (mlp_forward_is_a_chain_of_layers
           {| MLP.out_dim := 1; MLP.on_cuda := false; MLP.dropout := false;
              MLP.my_layers :=
                [ {| Linear.in_features := 2; Linear.out_features := 1;
                     Linear.weight := [[1; -1]]; Linear.bias := [0] |} ];
              MLP.last_layer :=
                {| Linear.in_features := 1; Linear.out_features := 1;
                   Linear.weight := [[2]]; Linear.bias := [1] |};
              MLP.my_dropout := None |}
           1 2 1 1 [[[3]; [4]]] seeded_generator).
  - lia.
  - lia.
  - split; [reflexivity|]. repeat constructor.
  - split_and!; try reflexivity.
    split; [|reflexivity]. split; [reflexivity|]. repeat constructor.
  - split; [|reflexivity]. split; [reflexivity|]. repeat constructor.
  - reflexivity.
  - intros Hd. discriminate.
Defined.

(** ** The name of the experiment *)

Lemma del_each_present (keys : list string) :
  ∀ param : gmap string Main.option_value,
    NoDup keys →
    (∀ k, k ∈ keys → is_Some (param !! k)) →
    ∃ param',
      Main.del_each keys param = Some param'
      ∧ ∀ k, param' !! k = if bool_decide (k ∈ keys) then None else param !! k.
Proof.
  induction keys as [|key keys IH]; intros param Hnodup Hpresent.
  - exists param. split; [done|]. intros k.
    rewrite bool_decide_eq_false_2; [done|]. apply not_elem_of_nil.
  - apply NoDup_cons in Hnodup as [Hkey Hnodup].
    destruct (Hpresent key) as [v Hv]; [apply list_elem_of_here|].
    destruct (IH (delete key param) Hnodup) as (param' & Hdel & Hlookup).
    { intros k Hk. rewrite lookup_delete_ne by (intros ->; done).
      by apply Hpresent, list_elem_of_further. }
    exists param'. split.
    + cbn [Main.del_each]. unfold Main.del. rewrite Hv. exact Hdel.
    + intros k. rewrite Hlookup.
      destruct (decide (k = key)) as [->|Hne].
      * rewrite (bool_decide_eq_false_2 _ Hkey).
        rewrite bool_decide_eq_true_2 by apply list_elem_of_here.
        apply lookup_delete_eq.
      * rewrite lookup_delete_ne by done.
        destruct (decide (k ∈ keys)) as [Hin|Hnotin].
        -- rewrite (bool_decide_eq_true_2 _ Hin).
           by rewrite bool_decide_eq_true_2 by (by apply list_elem_of_further).
        -- rewrite (bool_decide_eq_false_2 _ Hnotin).
           rewrite bool_decide_eq_false_2; [done|].
           intros [?|?]%elem_of_cons; done.
Qed.

Lemma NoDup_useless_tags : NoDup Main.useless_tags.
Proof. apply (bool_decide_unpack _). by vm_compute. Qed.

Lemma experiment_param_lookup (opt : gmap string Main.option_value) :
  (∀ k, k ∈ Main.useless_tags → is_Some (opt !! k)) →
  ∃ param,
    Main.experiment_param opt = Some param
    ∧ ∀ k v, (param !! k = Some v)
             ↔ (k ∉ Main.useless_tags) ∧ opt !! k = Some v ∧ v ≠ Main.PyNone.
Proof.
  intros Hpresent. unfold Main.experiment_param.
  destruct (del_each_present Main.useless_tags opt NoDup_useless_tags Hpresent)
    as (param1 & -> & Hlookup1).
  cbn [mbind option_bind].
  set (v_to_delete := filter (fun v => Main.is_none param1 v) (map_to_list param1).*1).
  assert (∀ k, k ∈ v_to_delete ↔ param1 !! k = Some Main.PyNone) as Hdelete.
  { intros k. unfold v_to_delete. rewrite list_elem_of_filter. unfold Main.is_none.
    split.
    - intros [Hnone _]. by destruct (param1 !! k) as [[|?]|].
    - intros Hk. rewrite Hk. split; [done|].
      apply list_elem_of_fmap. exists (k, Main.PyNone). split; [done|].
      by apply elem_of_map_to_list. }
  destruct (del_each_present v_to_delete param1) as (param2 & -> & Hlookup2).
  { apply NoDup_filter, NoDup_fst_map_to_list. }
  { intros k Hk. apply Hdelete in Hk. by rewrite Hk. }
  exists param2. split; [done|]. intros k v. rewrite Hlookup2, Hlookup1.
  destruct (decide (k ∈ v_to_delete)) as [Hin|Hnotin].
  - rewrite (bool_decide_eq_true_2 _ Hin).
    apply Hdelete in Hin. rewrite Hlookup1 in Hin.
    split; [done|]. intros (Htag & Hopt & Hv).
    rewrite (bool_decide_eq_false_2 _ Htag) in Hin. congruence.
  - rewrite (bool_decide_eq_false_2 _ Hnotin).
    rewrite Hdelete, Hlookup1 in Hnotin.
    destruct (decide (k ∈ Main.useless_tags)) as [Htag|Htag].
    + rewrite (bool_decide_eq_true_2 _ Htag). split; [done|]. by intros [? _].
    + rewrite (bool_decide_eq_false_2 _ Htag) in Hnotin |- *.
      split.
      * intros Hopt. split_and!; [done..|]. intros ->. done.
      * by intros (_ & ? & _).
Qed.

(** X22.  The name under which [main] logs a run is made of the options
    that are left after the twelve "useless" tags ([data_dir], [cuda],
    [epoch], [batch_size], [train_ratio], [lambdas], ...) and the options
    whose value is [None] have been deleted: an option is part of the name
    exactly when it is not one of the tags and has a value.  Two runs
    whose options differ in the tags only, in the number of epochs or in
    the lambdas of the regulariser say, are therefore logged under the
    same name. *)
Theorem runs_that_differ_in_the_tags_share_a_name
    (opt1 opt2 : gmap string Main.option_value) :
  (∀ k, k ∈ Main.useless_tags → is_Some (opt1 !! k)) →
  (∀ k, k ∈ Main.useless_tags → is_Some (opt2 !! k)) →
  (∀ k, k ∉ Main.useless_tags → opt1 !! k = opt2 !! k) →
  ∃ param,
    Main.experiment_param opt1 = Some param
    ∧ Main.experiment_param opt2 = Some param
    ∧ (∀ k v, (param !! k = Some v)
              ↔ (k ∉ Main.useless_tags) ∧ opt1 !! k = Some v ∧ v ≠ Main.PyNone)
    ∧ Main.experiment_name opt1 = Some (Main.exp_name param)
    ∧ Main.experiment_name opt2 = Some (Main.exp_name param).
Proof.
  intros Hpresent1 Hpresent2 Hagree.
  destruct (experiment_param_lookup opt1 Hpresent1) as (param1 & Hparam1 & Hlookup1).
  destruct (experiment_param_lookup opt2 Hpresent2) as (param2 & Hparam2 & Hlookup2).
  assert (param2 = param1) as ->.
  { apply map_eq. intros k. apply option_eq. intros v.
    rewrite Hlookup1, Hlookup2. split; intros (Htag & Hopt & Hv).
    - by rewrite (Hagree k Htag).
    - by rewrite <- (Hagree k Htag). }
  exists param1. unfold Main.experiment_name. rewrite Hparam1, Hparam2.
  by split_and!.
Qed.

Lemma runs_that_differ_in_the_tags_share_a_name_witness :
  ∃ param,
    Main.experiment_param Main.example_options = Some param
    ∧ Main.experiment_param
        (<["epoch" := Main.PyValue "20"]> Main.example_options) = Some param
    ∧ (∀ k v, (param !! k = Some v)
              ↔ (k ∉ Main.useless_tags) ∧ Main.example_options !! k = Some v
                ∧ v ≠ Main.PyNone)
    ∧ Main.experiment_name Main.example_options = Some (Main.exp_name param)
    ∧ Main.experiment_name
        (<["epoch" := Main.PyValue "20"]> Main.example_options)
      = Some (Main.exp_name param).
Proof.
  assert (∀ k, k ∈ Main.useless_tags → is_Some (Main.example_options !! k)) as Hpresent.
  { intros k Hk. unfold Main.useless_tags in Hk.
    repeat (apply elem_of_cons in Hk as [->|Hk]; [by eexists; vm_compute|]).
    by apply elem_of_nil in Hk. }
  apply (runs_that_differ_in_the_tags_share_a_name Main.example_options
           (<["epoch" := Main.PyValue "20"]> Main.example_options)).
  - exact Hpresent.
  - intros k Hk. destruct (decide (k = "epoch")) as [->|Hne].
    + rewrite lookup_insert_eq. by eexists.
    + rewrite lookup_insert_ne by done. by apply Hpresent.
  - intros k Hk. rewrite lookup_insert_ne; [done|].
    intros <-. apply Hk. unfold Main.useless_tags.
    do 5 apply list_elem_of_further. apply list_elem_of_here.
Defined.

(** ** The networks that [GraphNetwork.__init__] builds *)

Section InitLemmas.
Context {L Adj Tr Ag : Type} `{GraphLayer L}.
Variable graph_layer_type :
  Adj → nat → nat → bool → nat → option (list Tr) → option Ag → L.
Variable layer_adj : L → Adj.
Variable adj_shape_0 : Adj → nat.

Lemma init_convs_app (on_cuda : bool) (transform_adj : list Tr)
    (aggregate_adj : option Ag) (prepool_extralayers : nat)
    (pairs : list (nat * nat)) :
  ∀ (i : nat) (adj : Adj) (convs : list L),
    init_convs graph_layer_type layer_adj on_cuda transform_adj aggregate_adj
      prepool_extralayers i pairs adj convs
    = convs ++ init_convs graph_layer_type layer_adj on_cuda transform_adj
                 aggregate_adj prepool_extralayers i pairs adj [].
Proof.
  induction pairs as [|[c_in c_out] pairs IH]; intros i adj convs.
  - simpl. by rewrite app_nil_r.
  - cbn [init_convs]. rewrite IH. symmetry. rewrite IH.
    destruct aggregate_adj; by rewrite ?app_nil_l, <- ?app_assoc.
Qed.

Lemma length_init_convs (on_cuda : bool) (transform_adj : list Tr)
    (aggregate_adj : option Ag) (prepool_extralayers : nat)
    (pairs : list (nat * nat)) :
  ∀ (i : nat) (adj : Adj),
    length (init_convs graph_layer_type layer_adj on_cuda transform_adj
              aggregate_adj prepool_extralayers i pairs adj [])
    = (length pairs * match aggregate_adj with
                      | Some _ => S prepool_extralayers
                      | None => 1
                      end)%nat.
Proof.
  induction pairs as [|[c_in c_out] pairs IH]; intros i adj.
  - done.
  - cbn [init_convs]. rewrite init_convs_app, length_app, IH.
    destruct aggregate_adj; simpl.
    + rewrite length_app, length_map, length_seq. simpl. lia.
    + lia.
Qed.

(** Without pooling, or without extra layers, there is one layer for
    every pair of consecutive dimensions. *)
Lemma init_convs_one_per_pair (on_cuda : bool) (transform_adj : list Tr)
    (aggregate_adj : option Ag) (prepool_extralayers : nat)
    (pairs : list (nat * nat)) :
  aggregate_adj = None ∨ prepool_extralayers = 0%nat →
  ∀ (i : nat) (adj : Adj),
    Forall2 (fun p layer =>
               ∃ adj' i' tr ag,
                 layer = graph_layer_type adj' p.1 p.2 on_cuda i' tr ag)
            pairs
            (init_convs graph_layer_type layer_adj on_cuda transform_adj
               aggregate_adj prepool_extralayers i pairs adj []).
Proof.
  intros Hpool.
  induction pairs as [|[c_in c_out] pairs IH]; intros i adj.
  - constructor.
  - cbn [init_convs]. rewrite init_convs_app.
    assert (match aggregate_adj with
            | Some _ =>
                [] ++ map (fun el => graph_layer_type adj c_in c_in on_cuda i None None)
                          (seq 0 prepool_extralayers)
            | None => []
            end = []) as ->.
    { destruct Hpool as [->| ->]; [done|]. by destruct aggregate_adj. }
    cbn [app]. constructor; [|apply IH]. by eexists _, _, _, _.
Qed.
End InitLemmas.

Lemma layers_fit_of_lists {L : Type} `{GraphLayer L} (use_gate : R) (e n : nat)
    (channels : list nat) :
  ∀ (c0 : nat) (convs : list L) (gates : list (option ElementwiseGateLayer.t))
    (dropouts : list (option Dropout.t)),
    Forall (fun c => (0 < c)%nat) channels →
    Forall2 (fun p layer => layer_maps e n p.1 p.2 layer)
            (CNN.consecutive (c0 :: channels)) convs →
    Forall2 (fun c gate => gate_fits use_gate c gate) channels gates →
    length dropouts = length channels →
    layers_fit use_gate e n c0 (zip (zip convs gates) dropouts)
      (List.last (c0 :: channels) 0%nat).
Proof.
  induction channels as [|c1 channels IH];
    intros c0 convs gates dropouts Hpos Hconvs Hgates Hdrop.
  - apply Forall2_nil_inv_l in Hconvs as ->. done.
  - rewrite consecutive_cons in Hconvs.
    apply Forall2_cons_inv_l in Hconvs as (layer & convs' & Hlayer & Hconvs & ->).
    apply Forall2_cons_inv_l in Hgates as (gate & gates' & Hgate & Hgates & ->).
    destruct dropouts as [|dropout dropouts]; [done|].
    apply Forall_cons_1 in Hpos as [Hc1 Hpos].
    cbn [zip zip_with layers_fit].
    exists c1. split_and!; try done.
    change (List.last (c0 :: c1 :: channels) 0%nat)
      with (List.last (c1 :: channels) 0%nat).
    apply IH; try done. simpl in Hdrop. lia.
Qed.

Lemma last_nonempty_pos (c0 : nat) (channels : list nat) :
  (0 < c0)%nat → Forall (fun c => (0 < c)%nat) channels →
  (0 < List.last (c0 :: channels) 0%nat)%nat.
Proof.
  intros Hc0 Hpos. revert c0 Hc0.
  induction Hpos as [|c1 channels Hc1 Hpos IH]; intros c0 Hc0; [done|].
  change (List.last (c0 :: c1 :: channels) 0%nat)
    with (List.last (c1 :: channels) 0%nat).
  by apply IH.
Qed.

Lemma length_init_dropouts (dropout : bool) (nb_layers : nat) :
  length (GraphNetwork.init_dropouts dropout nb_layers) = nb_layers.
Proof.
  unfold GraphNetwork.init_dropouts. destruct dropout.
  - by rewrite length_map, length_seq.
  - by rewrite length_replicate.
Qed.

(** A network that [__init__] has built, without pooling, runs. *)
Lemma constructed_network_fits {L Adj Tr Ag : Type} `{GraphLayer L}
    (graph_layer_type :
       Adj → nat → nat → bool → nat → option (list Tr) → option Ag → L)
    (layer_adj : L → Adj) (adj_shape_0 : Adj → nat)
    (nb_nodes input_dim : nat) (channels : list nat) (adj : Adj)
    (out_dim : option nat) (on_cuda : bool) (add_emb : option nat)
    (transform_adj : option (list Tr)) (aggregate_adj : option Ag)
    (prepool_extralayers : nat) (use_gate : R) (dropout : bool)
    (attention_head : nat) (values : initial_values)
    (e n : nat) (t : list (list (list R))) (g : Generator) :
  let self :=
    GraphNetwork_init graph_layer_type layer_adj adj_shape_0 nb_nodes input_dim
      channels adj out_dim on_cuda add_emb transform_adj aggregate_adj
      prepool_extralayers use_gate dropout attention_head values in
  (∀ adj' c_in c_out i tr ag,
     layer_maps e n c_in c_out (graph_layer_type adj' c_in c_out on_cuda i tr ag)) →
  aggregate_adj = None ∨ prepool_extralayers = 0%nat →
  parameters_have_their_shapes nb_nodes self →
  adj_shape_0 adj = n → nb_nodes = n →
  (0 < e)%nat → (0 < n)%nat → (0 < input_dim)%nat →
  Forall (fun c => (0 < c)%nat) channels →
  (truthy add_emb = true → input_dim = 1%nat) →
  has_shape3 e n input_dim t →
  ∃ y g',
    GraphNetwork.supervised self (Tensor3 t) g = Ok (y, g')
    ∧ is_matrix e (GraphNetwork.out_dim self) y.
Proof.
  intros self Hlayers Hpool (Hlogistic & Hgates & Hattention & Hemb)
    Hadj Hnodes He Hn Hinput Hchannels Hone Ht.
  (* the number of channels that the first layer reads *)
  set (c0 := match GraphNetwork.emb self with
             | Some emb => EmbeddingLayer.emb_size emb
             | None => input_dim
             end).
  set (dims := c0 :: channels).
  set (c_last := List.last dims 0%nat).
  assert (0 < c0)%nat as Hc0.
  { unfold c0, self, GraphNetwork_init. cbn [GraphNetwork.emb].
    destruct add_emb as [[|s]|]; cbn; lia. }
  assert (0 < c_last)%nat as Hclast by (by apply last_nonempty_pos).
  set (layer := {| Linear.in_features :=
                     if Nat.ltb 0 attention_head
                     then (attention_head * c_last)%nat
                     else (adj_shape_0 adj * c_last)%nat;
                   Linear.out_features := GraphNetwork.out_dim self;
                   Linear.weight := (init_logistic values).1;
                   Linear.bias := (init_logistic values).2 |}).
  assert (GraphNetwork.my_logistic_layers self = [layer]) as Hlayer by done.
  assert (GraphNetwork.my_convs self
          = init_convs graph_layer_type layer_adj on_cuda
              (match transform_adj with Some tr => tr | None => [] end)
              aggregate_adj prepool_extralayers 0 (CNN.consecutive dims) adj [])
    as Hconvs by done.
  assert (GraphNetwork.gates self
          = if Rlt_dec 0 use_gate
            then imap (fun i c_in => Some (new_gate c_in (init_gate values i)))
                      channels
            else replicate (length dims - 1) None) as Hgates' by done.
  assert (GraphNetwork.my_dropouts self
          = GraphNetwork.init_dropouts dropout (length dims - 1)) as Hdrops by done.
  apply (supervised_fits self e n input_dim c0 c_last layer t g He Hn Ht).
  - (* the embedding *)
    unfold input_fits.
    assert (GraphNetwork.add_emb self = add_emb) as -> by done.
    unfold c0 in *. clear Hlayer Hconvs Hgates' Hdrops layer.
    unfold self, GraphNetwork_init in Hemb |- *. cbn [GraphNetwork.emb] in Hemb |- *.
    destruct add_emb as [[|s]|]; cbn in Hemb |- *; try done.
    eexists. split; [reflexivity|]. cbn. subst nb_nodes. split; [done|].
    apply Hone. done.
  - (* the layers *)
    rewrite Hconvs, Hgates', Hdrops.
    assert (GraphNetwork.use_gate self = use_gate) as -> by done.
    apply layers_fit_of_lists.
    + done.
    + eapply Forall2_impl; [by apply init_convs_one_per_pair|].
      intros p l (adj' & i' & tr & ag & ->). apply Hlayers.
    + destruct (Rlt_dec 0 use_gate) as [Hgate|Hgate].
      * apply Forall2_same_length_lookup_2; [by rewrite length_imap|].
        intros i c gate Hc Hgate'.
        rewrite list_lookup_imap, Hc in Hgate'. injection Hgate' as <-.
        intros _. eexists. split; [reflexivity|].
        rewrite Hgates' in Hgates.
        destruct (Rlt_dec 0 use_gate) as [_|?]; [|done].
        assert (imap (fun i c_in => Some (new_gate c_in (init_gate values i)))
                     channels !! i
                = Some (Some (new_gate c (init_gate values i)))) as Hlook
          by (by rewrite list_lookup_imap, Hc).
        pose proof (Forall_lookup_1 _ _ _ _ Hgates Hlook) as Hwf.
        by split_and!.
      * apply Forall2_same_length_lookup_2.
        { rewrite length_replicate. simpl. lia. }
        intros i c gate _ _ Hpos. done.
    + rewrite length_init_dropouts. simpl. lia.
  - (* the logistic layer *)
    unfold readout_fits. rewrite Hlayer. split; [done|].
    split.
    { rewrite Hlayer in Hlogistic. by apply Forall_cons_1 in Hlogistic as [? _]. }
    assert (GraphNetwork.attention_head self = attention_head) as -> by done.
    destruct attention_head as [|heads]; cbn [truthy_int].
    + cbn. by rewrite Hadj.
    + eexists. split; [reflexivity|].
      split_and!; done.
Qed.

(** X23.  A network that [GraphNetwork.__init__] builds on a graph of [n]
    nodes, with any list of positive channel sizes, with or without node
    embeddings, gates, drop-out and attention heads, runs [supervised] on
    every well-formed input of [n] nodes without a shape error, and
    returns one row per example and one column per class ([out_dim], or
    2).  This holds when the graph layers that it creates keep the
    examples and the nodes and write the channels they were asked for,
    when there is no pooling (or no extra layer), and when torch has given
    every parameter the shape its constructor states: the sizes that
    [__init__] computes for the gates, the attention layer and the
    logistic layer are the ones that [supervised] needs. *)
Theorem a_constructed_network_runs {L Adj Tr Ag : Type} `{GraphLayer L}
    (graph_layer_type :
       Adj → nat → nat → bool → nat → option (list Tr) → option Ag → L)
    (layer_adj : L → Adj) (adj_shape_0 : Adj → nat)
    (nb_nodes input_dim : nat) (channels : list nat) (adj : Adj)
    (out_dim : option nat) (on_cuda : bool) (add_emb : option nat)
    (transform_adj : option (list Tr)) (aggregate_adj : option Ag)
    (prepool_extralayers : nat) (use_gate : R) (dropout : bool)
    (attention_head : nat) (values : initial_values)
    (e n : nat) (t : list (list (list R))) (g : Generator) :
  let self :=
    GraphNetwork_init graph_layer_type layer_adj adj_shape_0 nb_nodes input_dim
      channels adj out_dim on_cuda add_emb transform_adj aggregate_adj
      prepool_extralayers use_gate dropout attention_head values in
  (∀ adj' c_in c_out i tr ag,
     layer_maps e n c_in c_out (graph_layer_type adj' c_in c_out on_cuda i tr ag)) →
  aggregate_adj = None ∨ prepool_extralayers = 0%nat →
  parameters_have_their_shapes nb_nodes self →
  adj_shape_0 adj = n → nb_nodes = n →
  (0 < e)%nat → (0 < n)%nat → (0 < input_dim)%nat →
  Forall (fun c => (0 < c)%nat) channels →
  (truthy add_emb = true → input_dim = 1%nat) →
  has_shape3 e n input_dim t →
  ∃ y g',
    GraphNetwork.supervised self (Tensor3 t) g = Ok (y, g')
    ∧ is_matrix e (match out_dim with Some d => d | None => 2%nat end) y.
Proof. apply constructed_network_fits. Qed.

Lemma a_constructed_network_runs_witness :
  ∃ y g',
    GraphNetwork.supervised (H := zero_layer)
      (GraphNetwork_init (Adj := unit) (Tr := unit) (Ag := unit)
         (fun _ _ c_out _ _ _ _ => c_out) (fun _ => tt) (fun _ => 2%nat)
         2 1 [3%nat] tt (Some 2%nat) false None None None 0 1 true 0
         example_values)
      (Tensor3 [[[1]; [2]]]) seeded_generator = Ok (y, g')
    ∧ is_matrix 1 2 y.
Proof.
  apply (a_constructed_network_runs (H := zero_layer)
           (Adj := unit) (Tr := unit) (Ag := unit)
           (fun _ _ c_out _ _ _ _ => c_out) (fun _ => tt) (fun _ => 2%nat)
           2 1 [3%nat] tt (Some 2%nat) false None None None 0 1 true 0
           example_values 1 2 [[[1]; [2]]] seeded_generator).
  - intros _ c_in c_out _ _ _ t Ht. eexists. split; [reflexivity|].
    apply (has_shape3_map_map _ 1 2 c_in c_out); [|done].
    intros node _. by rewrite length_replicate.
  - by left.
  - unfold parameters_have_their_shapes, GraphNetwork_init. cbn.
    destruct (Rlt_dec 0 1) as [_|Hno]; [|lra]. cbn.
    split_and!; try done.
    + repeat constructor.
    + repeat constructor.
  - reflexivity.
  - reflexivity.
  - lia.
  - lia.
  - lia.
  - repeat constructor.
  - intros Hemb. discriminate.
  - split; [reflexivity|]. repeat constructor.
Defined.

(** X24.  With pooling ([aggregate_adj] given) and
    [prepool_extralayers = k], [__init__] creates [k + 1] graph layers for
    every entry of [channels], but one gate and one drop-out entry only.
    [supervised] walks the three lists together, so it runs as many
    layers as there are entries of [channels]: with [k > 0] and at least
    one channel, the layers at the end of [my_convs] are never run. *)
Theorem extra_layers_outnumber_the_gates {L Adj Tr Ag : Type}
    (graph_layer_type :
       Adj → nat → nat → bool → nat → option (list Tr) → option Ag → L)
    (layer_adj : L → Adj) (adj_shape_0 : Adj → nat)
    (nb_nodes input_dim : nat) (channels : list nat) (adj : Adj)
    (out_dim : option nat) (on_cuda : bool) (add_emb : option nat)
    (transform_adj : option (list Tr)) (aggregate : Ag)
    (prepool_extralayers : nat) (use_gate : R) (dropout : bool)
    (attention_head : nat) (values : initial_values) :
  let self :=
    GraphNetwork_init graph_layer_type layer_adj adj_shape_0 nb_nodes input_dim
      channels adj out_dim on_cuda add_emb transform_adj (Some aggregate)
      prepool_extralayers use_gate dropout attention_head values in
  length (GraphNetwork.my_convs self)
  = (length channels * S prepool_extralayers)%nat
  ∧ length (GraphNetwork.gates self) = length channels
  ∧ length (GraphNetwork.my_dropouts self) = length channels
  ∧ length (zip (zip (GraphNetwork.my_convs self) (GraphNetwork.gates self))
                (GraphNetwork.my_dropouts self))
    = length channels.
Proof.
  intros self.
  assert (length (GraphNetwork.my_convs self)
          = (length channels * S prepool_extralayers)%nat) as Hconvs.
  { unfold self, GraphNetwork_init. cbn [GraphNetwork.my_convs].
    by rewrite length_init_convs, length_consecutive. }
  assert (length (GraphNetwork.gates self) = length channels) as Hgates.
  { unfold self, GraphNetwork_init. cbn [GraphNetwork.gates].
    destruct (Rlt_dec 0 use_gate).
    - by rewrite length_imap.
    - rewrite length_replicate. simpl. lia. }
  assert (length (GraphNetwork.my_dropouts self) = length channels) as Hdrops.
  { unfold self, GraphNetwork_init. cbn [GraphNetwork.my_dropouts].
    rewrite length_init_dropouts. simpl. lia. }
  split_and!; try done.
  rewrite !length_zip, Hconvs, Hgates, Hdrops. nia.
Qed.

(** ** What the attention layer of [models.py] pools *)

Lemma entry_transpose (c n : nat) (m : list (list R)) (j ch : nat) :
  (0 < c)%nat → is_matrix c n m → (j < n)%nat → (ch < c)%nat →
  entry (transpose m) j ch = entry m ch j.
Proof.
  intros Hc Hm Hj Hch. unfold transpose.
  rewrite (ncols_is_matrix c n m Hc Hm). unfold nrows.
  destruct Hm as [-> _]. by rewrite entry_tabulate.
Qed.

Lemma singletons_of_heads (e n : nat) (w : list (list (list R))) :
  has_shape3 e n 1 w →
  map (map (fun k => [k])) (map (map (hd 0)) w) = w.
Proof.
  intros [_ Hw]. rewrite map_map. rewrite <- (map_id w) at 2.
  apply map_ext_in. intros ex Hex. rewrite map_map.
  rewrite <- (map_id ex) at 2. apply map_ext_in. intros v Hv.
  rewrite Forall_forall in Hw.
  destruct (Hw ex (proj2 (list_elem_of_In _ _) Hex)) as [_ Hrows].
  rewrite Forall_forall in Hrows.
  pose proof (Hrows v (proj2 (list_elem_of_In _ _) Hv)) as Hlen.
  by destruct v as [|k [|? ?]].
Qed.

(** X25.  [AttentionLayer.forward] of [models.py], on a well-formed input
    of [e] examples, [c] channels and [n] nodes: it returns one row of
    [c] numbers per example.  For every example there is one positive
    weight per node, the weights sum to 1, and the entry for a channel is
    the average of the channel over the nodes with these weights; it lies
    between the smallest and the largest value of the channel. *)
Theorem older_attention_is_a_weighted_average
    (self : Legacy.AttentionLayer.t) (e c n : nat) (t : list (list (list R))) :
  Legacy.AttentionLayer.wf self →
  Legacy.AttentionLayer.in_dim self = c →
  (0 < e)%nat → (0 < c)%nat → (0 < n)%nat →
  has_shape3 e c n t →
  ∃ attn_applied,
    Legacy.AttentionLayer.forward self (Tensor3 t) = Ok attn_applied
    ∧ is_matrix e c attn_applied
    ∧ ∀ i, (i < e)%nat →
        ∃ w : nat → R,
          (∀ j, (j < n)%nat → 0 < w j)
          ∧ Rsum n w = 1
          ∧ ∀ ch, (ch < c)%nat →
              entry attn_applied i ch = Rsum n (fun j => entry3 t i ch j * w j)
              ∧ ∀ lo hi,
                  (∀ j, (j < n)%nat → lo <= entry3 t i ch j <= hi) →
                  lo <= entry attn_applied i ch <= hi.
Proof.
  intros Hwf Hc He Hcpos Hn Ht.
  pose proof (legacy_one_head_wf self Hwf) as Hwf'.
  pose proof (has_shape3_permute e c n t Hcpos Ht) as Hp.
  set (xt := permute_0_2_1 t) in *.
  set (W := AttentionLayer.weights (one_head self) xt).
  set (mask := map (map (hd 0)) W).
  assert (has_shape3 e n 1 W) as HW.
  { destruct Hp as [Hlen Hex]. split.
    - unfold W, AttentionLayer.weights. by rewrite length_map.
    - apply Forall_forall. intros ex' Hex'.
      apply list_elem_of_In, in_map_iff in Hex' as (ex & <- & Hin).
      rewrite Forall_forall in Hex.
      destruct (Hex ex (proj2 (list_elem_of_In _ _) Hin)) as [Hn' _].
      split; [by rewrite length_map|].
      apply Forall_forall. intros row Hrow.
      apply list_elem_of_In, in_map_iff in Hrow as (node & <- & _).
      by apply (length_normalized (one_head self) n). }
  assert (is_matrix e n mask) as Hmask.
  { destruct HW as [Hlen Hex]. split; [unfold mask; by rewrite length_map|].
    apply Forall_forall. intros row Hrow.
    apply list_elem_of_In, in_map_iff in Hrow as (ex & <- & Hin).
    rewrite length_map. rewrite Forall_forall in Hex.
    by destruct (Hex ex (proj2 (list_elem_of_In _ _) Hin)). }
  set (Z := zip_with (zip_with (fun node k => map (fun a => a * k) node)) xt mask).
  pose proof (has_shape3_masked e n c xt mask Hp Hmask) as HZ. fold Z in HZ.
  assert (bcast3 Rmult xt W = Ok Z) as Hmul.
  { pose proof (mask_times_features e n c xt mask Hp Hmask) as Hm.
    unfold mask in Hm at 1. rewrite (singletons_of_heads e n W HW) in Hm.
    unfold torch_mul in Hm. fold Z in Hm.
    destruct (bcast3 Rmult xt W) as [z|]; [|discriminate].
    by injection Hm as ->. }
  exists (map sum_vectors Z). split_and!.
  - unfold Legacy.AttentionLayer.forward.
    rewrite (size3_has_shape3 e c n t He Hcpos Ht), bind_Ok.
    rewrite (legacy_attention_ok self e c n t Hwf Hc He Hcpos Hn Ht), bind_Ok.
    fold xt W. rewrite (view3_concat e n c xt Hp), bind_Ok.
    by rewrite Hmul.
  - destruct HZ as [Hlen HZ]. split; [by rewrite length_map|].
    apply Forall_forall. intros row Hrow.
    apply list_elem_of_In, in_map_iff in Hrow as (ex & <- & Hin).
    rewrite Forall_forall in HZ.
    by apply (length_sum_vectors n c), HZ, list_elem_of_In.
  - intros i Hi.
    pose proof (length_nth_has_shape3 e n c xt i Hp Hi) as Hex.
    pose proof (length_nth_has_shape3 e n c Z i HZ Hi) as HZi.
    pose proof (length_nth_has_shape3 e c n t i Ht Hi) as Hti.
    assert (length t = e) as Hlen by (by destruct Ht).
    assert (length xt = e) as Hlenx by (by destruct Hp).
    assert (length (nth i xt []) = n) as Hn' by (by destruct Hex).
    set (w := fun j =>
                nth 0 (AttentionLayer.normalized (one_head self) (nth i xt [])
                         (nth j (nth i xt []) [])) 0).
    assert (∀ j, (j < n)%nat → nth j (nth i mask []) 0 = w j) as Hw.
    { intros j Hj. unfold mask, W, AttentionLayer.weights.
      rewrite map_map. rewrite (nth_map_lt _ _ _ []) by lia.
      rewrite map_map. rewrite (nth_map_lt _ _ _ []) by lia.
      unfold w.
      by destruct (AttentionLayer.normalized _ _ _). }
    assert (∀ ch, (ch < c)%nat →
              entry (map sum_vectors Z) i ch
              = Rsum n (fun j => entry3 t i ch j * w j)) as Hentry.
    { intros ch Hch. unfold entry at 1.
      rewrite (nth_map_lt _ _ _ []) by (destruct HZ; lia).
      change (@sc_zero R R_scalar) with 0.
      rewrite (nth_sum_vectors n c _ ch Hn HZi Hch).
      apply Rsum_ext. intros j Hj. unfold entry at 1. unfold Z.
      rewrite (nth_zip_with_lt _ _ _ _ [] []) by (destruct Hmask; lia).
      rewrite (nth_zip_with_lt _ _ _ _ [] 0).
      - assert (length (nth j (nth i xt []) []) = c) as Hnode
          by (by apply (length_nth_is_matrix n c)).
        change (@sc_zero R R_scalar) with 0.
        rewrite (nth_map_lt _ _ _ 0) by lia.
        rewrite (Hw j Hj). f_equal.
        unfold xt, permute_0_2_1. rewrite (nth_map_lt _ _ _ []) by lia.
        pose proof (entry_transpose c n (nth i t []) j ch Hcpos Hti Hj Hch) as Ht'.
        unfold entry in Ht'. exact Ht'.
      - lia.
      - rewrite (length_nth_is_matrix e n mask i Hmask Hi). done. }
    exists w. split_and!.
    + intros j Hj. unfold w.
      apply (nth_normalized_pos (one_head self) n); try done. simpl. lia.
    + unfold w.
      apply (normalized_sums_to_one (one_head self) n); try done. simpl. lia.
    + intros ch Hch. split; [by apply Hentry|].
      intros lo hi Hbounds. rewrite (Hentry ch Hch).
      apply (weighted_average_bounds n w (fun j => entry3 t i ch j)).
      * intros j Hj. left. unfold w.
        apply (nth_normalized_pos (one_head self) n); try done. simpl. lia.
      * unfold w.
        apply (normalized_sums_to_one (one_head self) n); try done. simpl. lia.
      * exact Hbounds.
Qed.

Lemma older_attention_is_a_weighted_average_witness :
  ∃ attn_applied,
    Legacy.AttentionLayer.forward
      {| Legacy.AttentionLayer.in_dim := 2;
         Legacy.AttentionLayer.attn :=
           {| Linear.in_features := 2; Linear.out_features := 1;
              Linear.weight := [[1; -1]]; Linear.bias := [0] |};
         Legacy.AttentionLayer.temperature := 1 |}
      (Tensor3 [[[1; 2; 3]; [4; 5; 6]]]) = Ok attn_applied
    ∧ is_matrix 1 2 attn_applied
    ∧ ∀ i, (i < 1)%nat →
        ∃ w : nat → R,
          (∀ j, (j < 3)%nat → 0 < w j)
          ∧ Rsum 3 w = 1
          ∧ ∀ ch, (ch < 2)%nat →
              entry attn_applied i ch
              = Rsum 3 (fun j => entry3 [[[1; 2; 3]; [4; 5; 6]]] i ch j * w j)
              ∧ ∀ lo hi,
                  (∀ j, (j < 3)%nat →
                        lo <= entry3 [[[1; 2; 3]; [4; 5; 6]]] i ch j <= hi) →
                  lo <= entry attn_applied i ch <= hi.
Proof.
  apply (older_attention_is_a_weighted_average
           {| Legacy.AttentionLayer.in_dim := 2;
              Legacy.AttentionLayer.attn :=
                {| Linear.in_features := 2; Linear.out_features := 1;
                   Linear.weight := [[1; -1]]; Linear.bias := [0] |};
              Legacy.AttentionLayer.temperature := 1 |}
           1 2 3 [[[1; 2; 3]; [4; 5; 6]]]).
  - split_and!; try reflexivity. repeat constructor.
  - reflexivity.
  - lia.
  - lia.
  - lia.
  - split; [reflexivity|]. repeat constructor.
Defined.

(** ** The perceptrons that [MLP.__init__] builds *)

Lemma linear_chain_of_consecutive (channels : list nat) :
  ∀ (d : nat) (f : nat → nat * nat → Linear.t),
    (∀ i p, Linear.in_features (f i p) = p.1 ∧ Linear.out_features (f i p) = p.2) →
    Forall Linear.wf (imap f (CNN.consecutive (d :: channels))) →
    linear_chain_fits d (imap f (CNN.consecutive (d :: channels)))
      (List.last (d :: channels) 0%nat).
Proof.
  induction channels as [|c1 channels IH]; intros d f Hf Hwf.
  - done.
  - rewrite consecutive_cons, imap_cons in Hwf |- *.
    apply Forall_cons_1 in Hwf as [Hwf1 Hwf].
    destruct (Hf 0%nat (d, c1)) as [Hin Hout].
    cbn [linear_chain_fits]. split_and!; try done.
    rewrite Hout.
    change (List.last (d :: c1 :: channels) 0%nat)
      with (List.last (c1 :: channels) 0%nat).
    apply (IH c1 (f ∘ S)); [|done]. intros i p. apply Hf.
Qed.

(** X26.  A perceptron that [MLP.__init__] builds with [input_dim = c * n]
    runs [forward] on every well-formed input of [n] nodes and [c]
    channels, for any list of hidden sizes, with or without drop-out, when
    torch has given the layers the shapes that [__init__] asks for; the
    output has one row per example and one column per class.  [get_model]
    builds it with [input_dim = nb_nodes], which fits inputs of one
    channel. *)
Theorem a_constructed_perceptron_runs (input_dim : option nat)
    (channels : list nat) (out_dim : option nat) (on_cuda dropout : bool)
    (hidden_values : nat → list (list R) * list R)
    (last_values : list (list R) * list R)
    (e n c : nat) (t : list (list (list R))) (g : Generator) :
  let self :=
    MLP_init input_dim channels out_dim on_cuda dropout hidden_values
      last_values in
  Forall Linear.wf (MLP.my_layers self) →
  Linear.wf (MLP.last_layer self) →
  match input_dim with Some d => d | None => 2%nat end = (c * n)%nat →
  (0 < e)%nat → (0 < n)%nat →
  has_shape3 e n c t →
  ∃ y g',
    MLP.forward self (Tensor3 t) g = Ok (y, g')
    ∧ is_matrix e (match out_dim with Some d => d | None => 2%nat end) y.
Proof.
  intros self Hlayers Hlast Hinput He Hn Ht.
  set (d := match input_dim with Some d => d | None => 2%nat end) in *.
  destruct (mlp_forward_fits self e n c
              (List.last (d :: channels) 0%nat) t g He Hn Ht)
    as (y & g' & Hfw & Hy & _).
  - rewrite <- Hinput.
    apply linear_chain_of_consecutive; [by intros i [c_in c_out]|done].
  - done.
  - unfold self, MLP_init. fold d. cbn [MLP.last_layer].
    destruct channels as [|c1 channels]; [done|]. cbn [Linear.in_features].
    reflexivity.
  - intros Hd. unfold self, MLP_init in Hd |- *. cbn in Hd |- *.
    rewrite Hd. by eexists.
  - exists y, g'. split; [done|].
    assert (Linear.out_features (MLP.last_layer self)
            = match out_dim with Some d => d | None => 2%nat end) as <-; [|done].
    unfold self, MLP_init. cbn [MLP.last_layer]. by destruct channels.
Qed.

Lemma a_constructed_perceptron_runs_witness :
  ∃ y g',
    MLP.forward
      (MLP_init (Some 2%nat) [3%nat] (Some 2%nat) false true
         (fun _ => ([[1; 0]; [0; 1]; [1; 1]], [0; 0; 0]))
         ([[1; 0; 0]; [0; 0; 1]], [1; 2]))
      (Tensor3 [[[3]; [4]]]) seeded_generator = Ok (y, g')
    ∧ is_matrix 1 2 y.
Proof.
  apply (a_constructed_perceptron_runs (Some 2%nat) [3%nat] (Some 2%nat) false true
           (fun _ => ([[1; 0]; [0; 1]; [1; 1]], [0; 0; 0]))
           ([[1; 0; 0]; [0; 0; 1]], [1; 2])
           1 2 1 [[[3]; [4]]] seeded_generator).
  - repeat constructor.
  - split; [|reflexivity]. split; [reflexivity|]. repeat constructor.
  - reflexivity.
  - lia.
  - lia.
  - split; [reflexivity|]. repeat constructor.
Defined.

(** ** The constructor of [models.py] *)

(** X27.  [SparseLogisticRegression.__init__] of [models.py] writes into
    its argument as the one of [models/model_layers.py] does: after the
    call the caller's adjacency matrix has zeros on its diagonal, and
    its other entries are unchanged. *)
Theorem older_constructor_zeroes_the_diagonal
    (σ : store) (nb_nodes input_dim n : nat) (adj : loc)
    (out_dim : nat) (on_cuda : bool) (w0 : list (list R)) (b0 : list R)
    (a : list (list R)) :
  σ !! adj = Some a →
  is_matrix n n a →
  ∃ model a',
    Legacy.SparseLogisticRegression.init σ nb_nodes input_dim adj out_dim
      on_cuda w0 b0 = Some (model, <[adj := a']> σ)
    ∧ is_matrix n n a'
    ∧ (∀ i, (i < n)%nat → entry a' i i = 0)
    ∧ (∀ i j, i ≠ j → entry a' i j = entry a i j).
Proof. apply legacy_init_zeroes_the_diagonal. Qed.

Lemma older_constructor_zeroes_the_diagonal_witness :
  ∃ model a',
    Legacy.SparseLogisticRegression.init {[ 7%nat := [[5; 1]; [1; 3]] ]} 2 1 7 1
      false [[1; -2]] [0]
    = Some (model, <[7%nat := a']> {[ 7%nat := [[5; 1]; [1; 3]] ]})
    ∧ is_matrix 2 2 a'
    ∧ (∀ i, (i < 2)%nat → entry a' i i = 0)
    ∧ (∀ i j, i ≠ j → entry a' i j = entry [[5; 1]; [1; 3]] i j).
Proof.
  apply (older_constructor_zeroes_the_diagonal
           {[ 7%nat := [[5; 1]; [1; 3]] ]} 2 1 2 7 1 false [[1; -2]] [0]
           [[5; 1]; [1; 3]]).
  - apply lookup_singleton_eq.
  - split; [reflexivity|]. repeat constructor.
Defined.

(** ** The gate in the supervised pass *)




(** ** Degree normalisation on floats

    On an array of non-negative reals every degree is at least [1e-5].
    If no degree exceeds [1e300], no intermediate result overflows: the
    float computation never leaves the finite values and agrees with the
    computation on [R]. *)

Lemma max_float_bounds : 1.7e308 <= max_float < 1.8e308.
Proof. unfold max_float. lra. Qed.

Lemma np_float_in_range (r : R) :
  - max_float <= r <= max_float → np_float r = Finite r.
Proof.
  intros [Hlo Hhi]. unfold np_float.
  destruct (Rlt_dec max_float r); [lra|].
  destruct (Rlt_dec r (- max_float)); [lra|]. reflexivity.
Qed.

Lemma np_float_above (r : R) : max_float < r → np_float r = PosInf.
Proof. intros Hr. unfold np_float. by destruct (Rlt_dec max_float r). Qed.

Lemma sum_list_nonneg (xs : list R) :
  Forall (fun x => 0 <= x) xs → 0 <= sum_list xs.
Proof.
  induction 1 as [|x xs Hx Hxs IH]; simpl; lra.
Qed.

Lemma elem_le_sum_list (xs : list R) (x : R) :
  Forall (fun x => 0 <= x) xs → In x xs → x <= sum_list xs.
Proof.
  induction 1 as [|x' xs Hx Hxs IH]; intros Hin; [done|].
  pose proof (sum_list_nonneg xs Hxs) as Hrest. simpl.
  destruct Hin as [->|Hin]; [lra|]. specialize (IH Hin). lra.
Qed.

(** A sum of non-negative floats whose real sum is in range. *)
Lemma sc_sum_finite (xs : list R) :
  Forall (fun x => 0 <= x) xs → sum_list xs <= max_float →
  sc_sum (map Finite xs) = Finite (sum_list xs).
Proof.
  induction 1 as [|x xs Hx Hxs IH]; intros Hsum; [done|].
  pose proof (sum_list_nonneg xs Hxs) as Hpos. simpl in Hsum.
  change (sc_add (Finite x) (sc_sum (map Finite xs)) = Finite (x + sum_list xs)).
  rewrite IH by lra. simpl. apply np_float_in_range.
  pose proof max_float_bounds. lra.
Qed.

Lemma sc_sum_products {A : Type} (x y : A → R) (ks : list A) :
  (∀ k, k ∈ ks → 0 <= x k * y k) →
  sum_list (map (fun k => x k * y k) ks) <= max_float →
  sc_sum (map (fun k => sc_mul (Finite (x k)) (Finite (y k))) ks)
  = Finite (sum_list (map (fun k => x k * y k) ks)).
Proof.
  intros Hpos Hsum.
  assert (Forall (fun p => 0 <= p) (map (fun k => x k * y k) ks)) as Hall.
  { apply Forall_forall. intros p Hp.
    apply list_elem_of_In, in_map_iff in Hp as (k & <- & Hk).
    by apply Hpos, list_elem_of_In. }
  rewrite <- (sc_sum_finite _ Hall Hsum). f_equal. rewrite map_map.
  apply map_ext_in. intros k Hk. simpl. apply np_float_in_range.
  assert (x k * y k <= sum_list (map (fun k => x k * y k) ks)) as Hle.
  { apply elem_le_sum_list; [done|]. by apply (in_map (fun k => x k * y k)). }
  pose proof (Hpos k (proj2 (list_elem_of_In _ _) Hk)).
  pose proof max_float_bounds. lra.
Qed.

Lemma Rsum_term_le (n : nat) (f : nat → R) (i : nat) :
  (∀ k, (k < n)%nat → 0 <= f k) → (i < n)%nat → f i <= Rsum n f.
Proof.
  intros Hf Hi. unfold Rsum. apply elem_le_sum_list.
  - apply Forall_forall. intros x Hx.
    apply list_elem_of_In, in_map_iff in Hx as (k & <- & Hk%in_seq).
    apply Hf. lia.
  - apply in_map_iff. exists i. split; [done|]. apply in_seq. lia.
Qed.

(** The column sums of a square array of non-negative reals. *)
Lemma sum_axis0_bounds (n : nat) (a : list (list R)) (bound : R) :
  is_matrix n n a → nonnegative n a → degrees_at_most n a bound →
  Forall (fun d => 0 <= d <= bound) (sum_axis0 a).
Proof.
  intros Hsq Hnn Hb. unfold sum_axis0. apply Forall_forall. intros d Hd.
  apply list_elem_of_In, in_map_iff in Hd as (j & <- & Hj%in_seq).
  destruct (Nat.eq_dec n 0%nat) as [->|Hn].
  { destruct Hsq as [Hlen _]. apply nil_length_inv in Hlen. subst a.
    unfold ncols in Hj. simpl in Hj. lia. }
  rewrite (ncols_is_matrix n n a) in Hj by (done || lia).
  assert (nrows a = n) as -> by (by destruct Hsq).
  change (0 <= Rsum n (fun i => entry a i j) <= bound). split.
  - apply Rsum_nonneg. intros i Hi. apply Hnn; lia.
  - apply Hb. lia.
Qed.

Lemma sum_axis0_lift (n : nat) (a : list (list R)) :
  is_matrix n n a → nonnegative n a → degrees_at_most n a max_float →
  sum_axis0 (lift a) = map Finite (sum_axis0 a).
Proof.
  intros Hsq Hnn Hb. unfold sum_axis0.
  rewrite nrows_lift, ncols_lift, map_map.
  apply map_ext_in. intros j Hj%in_seq.
  destruct (Nat.eq_dec n 0%nat) as [->|Hn].
  { destruct Hsq as [Hlen _]. apply nil_length_inv in Hlen. subst a.
    unfold ncols in Hj. simpl in Hj. lia. }
  rewrite (ncols_is_matrix n n a) in Hj by (done || lia).
  assert (nrows a = n) as -> by (by destruct Hsq).
  rewrite (map_ext (fun i => entry (lift a) i j)
             (fun i => Finite (entry a i j))) by (intros; apply entry_lift).
  rewrite <- (map_map (fun i => entry a i j) Finite).
  apply sc_sum_finite.
  - apply Forall_forall. intros x Hx.
    apply list_elem_of_In, in_map_iff in Hx as (i & <- & Hi%in_seq).
    apply Hnn; lia.
  - apply Hb. lia.
Qed.

Lemma degrees_bounds (n : nat) (a : list (list R)) (bound : R) :
  is_matrix n n a → nonnegative n a → degrees_at_most n a bound →
  Forall (fun d => 1e-5 <= d <= bound + 1e-5) (degrees a).
Proof.
  intros Hsq Hnn Hb. unfold degrees. apply Forall_forall. intros d Hd.
  apply list_elem_of_In, in_map_iff in Hd as (d0 & <- & Hd0).
  pose proof (sum_axis0_bounds n a bound Hsq Hnn Hb) as Hall.
  rewrite Forall_forall in Hall.
  specialize (Hall d0 (proj2 (list_elem_of_In _ _) Hd0)). simpl. lra.
Qed.

Lemma degrees_lift (n : nat) (a : list (list R)) :
  is_matrix n n a → nonnegative n a → degrees_at_most n a 1e300 →
  degrees (lift a) = map Finite (degrees a).
Proof.
  intros Hsq Hnn Hb. unfold degrees.
  rewrite (sum_axis0_lift n a Hsq Hnn), !map_map.
  - apply map_ext_in. intros d Hd.
    pose proof (sum_axis0_bounds n a 1e300 Hsq Hnn Hb) as Hall.
    rewrite Forall_forall in Hall.
    specialize (Hall d (proj2 (list_elem_of_In _ _) Hd)).
    simpl. apply np_float_in_range. pose proof max_float_bounds. lra.
  - intros j Hj. specialize (Hb j Hj). pose proof max_float_bounds. lra.
Qed.

(** A degree of at least [1e-5] has an inverse root of at most 1000. *)
Lemma inv_sqrt_bounds (d : R) : 1e-5 <= d → 0 < / sqrt d <= 1000.
Proof.
  intros Hd.
  assert (/ 1000 <= sqrt d) as Hroot.
  { rewrite <- (sqrt_square (/ 1000)) by lra. apply sqrt_le_1; lra. }
  split.
  - apply Rinv_0_lt_compat. lra.
  - rewrite <- (Rinv_inv 1000). apply Rinv_le_contravar; lra.
Qed.

Lemma inv_sqrt_degrees_lift (n : nat) (a : list (list R)) :
  is_matrix n n a → nonnegative n a → degrees_at_most n a 1e300 →
  inv_sqrt_degrees (lift a) = map Finite (inv_sqrt_degrees a).
Proof.
  intros Hsq Hnn Hb. unfold inv_sqrt_degrees.
  rewrite (degrees_lift n a Hsq Hnn Hb), !map_map.
  apply map_ext_in. intros d Hd.
  pose proof (degrees_bounds n a 1e300 Hsq Hnn Hb) as Hall.
  rewrite Forall_forall in Hall.
  specialize (Hall d (proj2 (list_elem_of_In _ _) Hd)).
  pose proof (inv_sqrt_bounds d (proj1 Hall)) as Hs. simpl.
  destruct (Rlt_dec 0 d); [|lra].
  apply np_float_in_range. pose proof max_float_bounds. lra.
Qed.

Lemma nth_inv_sqrt_degrees_bounds (n : nat) (a : list (list R)) (i : nat) :
  is_matrix n n a → nonnegative n a → (i < n)%nat →
  0 < nth i (inv_sqrt_degrees a) 0 <= 1000.
Proof.
  intros Hsq Hnn Hi.
  rewrite (nth_inv_sqrt_degrees n a i Hsq Hi), (nth_degrees n a i Hsq Hi).
  apply inv_sqrt_bounds.
  assert (0 <= Rsum n (fun k => entry a k i)).
  { apply Rsum_nonneg. intros k Hk. by apply Hnn. }
  lra.
Qed.

Lemma np_diag_lift (v : list R) :
  np_diag (map Finite v) = lift (np_diag v).
Proof.
  unfold np_diag. rewrite lift_tabulate, length_map.
  apply tabulate_ext. intros i j _ _.
  destruct (Nat.eqb i j); [|done].
  apply (map_nth Finite).
Qed.

(** A product of arrays whose terms are non-negative and whose entries
    are in range. *)
Lemma np_dot_lift (a b : list (list R)) :
  (∀ i j k, (i < nrows a)%nat → (j < ncols b)%nat → (k < ncols a)%nat →
            0 <= entry a i k * entry b k j) →
  (∀ i j, (i < nrows a)%nat → (j < ncols b)%nat →
          Rsum (ncols a) (fun k => entry a i k * entry b k j) <= max_float) →
  np_dot (lift a) (lift b) = lift (np_dot a b).
Proof.
  intros Hpos Hsum. unfold np_dot.
  rewrite lift_tabulate, nrows_lift, !ncols_lift.
  apply tabulate_ext. intros i j Hi Hj.
  rewrite (map_ext (fun k => sc_mul (entry (lift a) i k) (entry (lift b) k j))
             (fun k => sc_mul (Finite (entry a i k)) (Finite (entry b k j))))
    by (intros; by rewrite !entry_lift).
  rewrite sc_sum_products.
  - reflexivity.
  - intros k Hk%list_elem_of_In%in_seq. apply Hpos; lia.
  - by apply Hsum.
Qed.

Lemma np_eye_lift (n : nat) : np_eye n = lift (np_eye n).
Proof.
  unfold np_eye. rewrite lift_tabulate. apply tabulate_ext.
  intros i j _ _. by destruct (Nat.eqb i j).
Qed.

Lemma np_sub_array_lift (a b : list (list R)) :
  (∀ i j, (i < nrows a)%nat → (j < ncols a)%nat →
          - max_float <= entry a i j - entry b i j <= max_float) →
  np_sub_array (lift a) (lift b) = lift (np_sub_array a b).
Proof.
  intros Hrange. unfold np_sub_array.
  rewrite lift_tabulate, nrows_lift, ncols_lift.
  apply tabulate_ext. intros i j Hi Hj. rewrite !entry_lift. simpl.
  apply np_float_in_range. apply (Hrange i j Hi Hj).
Qed.

Lemma entry_diag_dot (n : nat) (s : list R) (a : list (list R)) (i j : nat) :
  length s = n → is_matrix n n a → (i < n)%nat → (j < n)%nat →
  entry (np_dot (np_diag s) a) i j = nth i s 0 * entry a i j.
Proof.
  intros Hs Hsq Hi Hj. unfold np_dot.
  destruct (shape_np_diag s) as [-> ->]. rewrite Hs.
  rewrite (ncols_square n a Hsq), entry_tabulate by done.
  change (Rsum n (fun k => entry (np_diag s) i k * entry a k j)
          = nth i s 0 * entry a i j).
  rewrite (Rsum_ext n _ (fun k => if Nat.eqb i k
                                  then nth i s 0 * entry a k j else 0)).
  - by rewrite (Rsum_single n i (fun k => nth i s 0 * entry a k j)).
  - intros k Hk. rewrite entry_np_diag by lia.
    destruct (Nat.eqb i k); simpl; lra.
Qed.

Lemma shape_diag_dot (n : nat) (s : list R) (a : list (list R)) :
  length s = n → is_matrix n n a →
  nrows (np_dot (np_diag s) a) = n ∧ ncols (np_dot (np_diag s) a) = n.
Proof.
  intros Hs Hsq. unfold np_dot.
  destruct (shape_np_diag s) as [-> _]. rewrite Hs, (ncols_square n a Hsq).
  split.
  - unfold nrows. by rewrite length_tabulate.
  - apply ncols_square. apply is_matrix_tabulate.
Qed.

Lemma entry_le_degree (n : nat) (a : list (list R)) (bound : R) (i j : nat) :
  nonnegative n a → degrees_at_most n a bound →
  (i < n)%nat → (j < n)%nat → 0 <= entry a i j <= bound.
Proof.
  intros Hnn Hb Hi Hj. split; [by apply Hnn|].
  pose proof (Rsum_term_le n (fun k => entry a k j) i) as Hle.
  simpl in Hle. specialize (Hb j Hj).
  assert (entry a i j <= Rsum n (fun k => entry a k j)).
  { apply Hle; [|done]. intros k Hk. by apply Hnn. }
  lra.
Qed.

(** The float computation of the normalised adjacency and of the
    Laplacian is the real one. *)
Lemma normalized_adjacency_lift (n : nat) (a : list (list R)) :
  is_matrix n n a → nonnegative n a → degrees_at_most n a 1e300 →
  normalized_adjacency (lift a) = lift (normalized_adjacency a).
Proof.
  intros Hsq Hnn Hb. unfold normalized_adjacency.
  rewrite (inv_sqrt_degrees_lift n a Hsq Hnn Hb), np_diag_lift.
  set (s := inv_sqrt_degrees a).
  assert (length s = n) as Hs
    by (unfold s, inv_sqrt_degrees; by rewrite length_map, (length_degrees n a Hsq)).
  assert (∀ i, (i < n)%nat → 0 < nth i s 0 <= 1000) as Hsi
    by (intros i Hi; by apply (nth_inv_sqrt_degrees_bounds n)).
  destruct (shape_np_diag s) as [Hdr Hdc]. rewrite Hs in Hdr, Hdc.
  destruct (shape_diag_dot n s a Hs Hsq) as [Hmr Hmc].
  pose proof max_float_bounds as Hmax.
  rewrite (np_dot_lift (np_diag s) a).
  - apply np_dot_lift.
    + rewrite Hmr, Hdc, Hmc. intros i j k Hi Hj Hk.
      rewrite (entry_diag_dot n s a i k Hs Hsq Hi Hk), entry_np_diag by lia.
      pose proof (entry_le_degree n a _ i k Hnn Hb Hi Hk).
      pose proof (Hsi i Hi). pose proof (Hsi k Hk).
      destruct (Nat.eqb k j); [|lra].
      apply Rmult_le_pos; [apply Rmult_le_pos|]; lra.
    + rewrite Hmr, Hdc, Hmc. intros i j Hi Hj.
      rewrite (Rsum_ext n _ (fun k => if Nat.eqb k j
                                      then nth i s 0 * entry a i k * nth k s 0
                                      else 0)).
      * rewrite (Rsum_single_r n j
                   (fun k => nth i s 0 * entry a i k * nth k s 0) Hj).
        pose proof (entry_le_degree n a _ i j Hnn Hb Hi Hj).
        pose proof (Hsi i Hi). pose proof (Hsi j Hj).
        assert (nth i s 0 * entry a i j <= 1000 * 1e300)
          by (apply Rmult_le_compat; lra).
        assert (nth i s 0 * entry a i j * nth j s 0 <= 1000 * 1e300 * 1000).
        { apply Rmult_le_compat; try lra. apply Rmult_le_pos; lra. }
        lra.
      * intros k Hk.
        rewrite (entry_diag_dot n s a i k Hs Hsq Hi Hk), entry_np_diag by lia.
        destruct (Nat.eqb k j); lra.
  - rewrite Hdr, Hdc, (ncols_square n a Hsq). intros i j k Hi Hj Hk.
    rewrite entry_np_diag by lia.
    pose proof (entry_le_degree n a _ k j Hnn Hb Hk Hj).
    pose proof (Hsi i Hi).
    destruct (Nat.eqb i k); [|lra]. apply Rmult_le_pos; lra.
  - rewrite Hdr, Hdc, (ncols_square n a Hsq). intros i j Hi Hj.
    rewrite (Rsum_ext n _ (fun k => if Nat.eqb i k
                                    then nth i s 0 * entry a k j else 0)).
    + rewrite (Rsum_single n i (fun k => nth i s 0 * entry a k j) Hi).
      pose proof (entry_le_degree n a _ i j Hnn Hb Hi Hj).
      pose proof (Hsi i Hi).
      assert (nth i s 0 * entry a i j <= 1000 * 1e300)
        by (apply Rmult_le_compat; lra).
      lra.
    + intros k Hk. rewrite entry_np_diag by lia.
      destruct (Nat.eqb i k); lra.
Qed.

Lemma make_laplacian_lift (n : nat) (a : list (list R)) :
  is_matrix n n a → nonnegative n a → degrees_at_most n a 1e300 →
  make_laplacian (lift a) = lift (make_laplacian a).
Proof.
  intros Hsq Hnn Hb. unfold make_laplacian.
  rewrite (normalized_adjacency_lift n a Hsq Hnn Hb).
  rewrite (degrees_lift n a Hsq Hnn Hb), length_map, (length_degrees n a Hsq).
  rewrite np_eye_lift. apply np_sub_array_lift.
  assert (nrows (np_eye (T:=R) n) = n) as ->
    by (unfold nrows, np_eye; by rewrite length_tabulate).
  assert (ncols (np_eye (T:=R) n) = n) as ->
    by (apply ncols_square; unfold np_eye; apply is_matrix_tabulate).
  intros i j Hi Hj.
  rewrite (entry_normalized_adjacency n a i j Hsq Hi Hj).
  unfold np_eye. rewrite entry_tabulate by done.
  pose proof (entry_le_degree n a _ i j Hnn Hb Hi Hj).
  pose proof (nth_inv_sqrt_degrees_bounds n a i Hsq Hnn Hi).
  pose proof (nth_inv_sqrt_degrees_bounds n a j Hsq Hnn Hj).
  set (si := nth i (inv_sqrt_degrees a) 0) in *.
  set (sj := nth j (inv_sqrt_degrees a) 0) in *.
  assert (0 <= si * entry a i j <= 1000 * 1e300).
  { split; [apply Rmult_le_pos; lra|apply Rmult_le_compat; lra]. }
  assert (0 <= si * entry a i j * sj <= 1000 * 1e300 * 1000).
  { split; [apply Rmult_le_pos; lra|apply Rmult_le_compat; lra]. }
  pose proof max_float_bounds.
  destruct (Nat.eqb i j); simpl; lra.
Qed.

(** Zeroing the diagonal lowers the degrees. *)
Lemma degrees_at_most_fill_diagonal (n : nat) (a : list (list R)) (bound : R) :
  is_matrix n n a → nonnegative n a → degrees_at_most n a bound →
  degrees_at_most n (fill_diagonal a 0) bound.
Proof.
  intros Hsq Hnn Hb j Hj.
  apply (Rle_trans _ (Rsum n (fun i => entry a i j))); [|by apply Hb].
  assert (∀ m, (m <= n)%nat →
            Rsum m (fun i => entry (fill_diagonal a 0) i j)
            <= Rsum m (fun i => entry a i j)) as Hle; [|by apply Hle].
  induction m as [|m IH]; intros Hm; [rewrite !Rsum_0; lra|].
  rewrite !Rsum_S. specialize (IH ltac:(lia)).
  assert (entry (fill_diagonal a 0) m j <= entry a m j); [|lra].
  destruct (decide (m = j)) as [->|Hmj].
  - rewrite entry_fill_diagonal_diag
      by (by rewrite (length_nth_is_matrix n n a j Hsq Hj)).
    by apply Hnn.
  - rewrite entry_fill_diagonal_off by done. lra.
Qed.

(** C6.  For every square adjacency matrix with non-negative weights
    whose degrees (column sums) are at most [1e300], the degree
    normalisation [D^-1/2 A D^-1/2] with [D = A.sum(0) + 1e-5], computed
    on floats, has only finite entries: no NaN and no Inf.  This holds
    whether or not some node has degree zero, for the matrix as it is and
    for the matrix with its diagonal zeroed as the constructor of
    [SparseLogisticRegression] computes it, and the Laplacian built from
    it is finite as well: the float computation gives the values of the
    computation on the reals. *)
Theorem degree_normalization_is_finite (n : nat) (a : list (list R)) :
  is_matrix n n a →
  nonnegative n a →
  degrees_at_most n a 1e300 →
  all_finite (normalized_adjacency (lift a))
  ∧ all_finite (normalized_adjacency (fill_diagonal (lift a) (Finite 0)))
  ∧ all_finite (make_laplacian (fill_diagonal (lift a) (Finite 0)))
  ∧ normalized_adjacency (fill_diagonal (lift a) (Finite 0))
    = lift (normalized_adjacency (fill_diagonal a 0))
  ∧ make_laplacian (fill_diagonal (lift a) (Finite 0))
    = lift (make_laplacian (fill_diagonal a 0)).
Proof.
  intros Hsq Hnn Hb.
  pose proof (is_matrix_fill_diagonal n n a 0 Hsq) as Hsq'.
  pose proof (nonnegative_fill_diagonal n a Hnn) as Hnn'.
  pose proof (degrees_at_most_fill_diagonal n a _ Hsq Hnn Hb) as Hb'.
  rewrite fill_diagonal_lift.
  rewrite (normalized_adjacency_lift n a Hsq Hnn Hb).
  rewrite (normalized_adjacency_lift n _ Hsq' Hnn' Hb').
  rewrite (make_laplacian_lift n _ Hsq' Hnn' Hb').
  split_and!; try reflexivity; apply all_finite_lift.
Qed.

(** Three nodes, the third with no edge at all. *)
Lemma degree_normalization_is_finite_witness :
  all_finite (normalized_adjacency (lift [[0; 1; 0]; [1; 0; 0]; [0; 0; 0]]))
  ∧ all_finite (normalized_adjacency
                  (fill_diagonal (lift [[0; 1; 0]; [1; 0; 0]; [0; 0; 0]]) (Finite 0)))
  ∧ all_finite (make_laplacian
                  (fill_diagonal (lift [[0; 1; 0]; [1; 0; 0]; [0; 0; 0]]) (Finite 0)))
  ∧ normalized_adjacency
      (fill_diagonal (lift [[0; 1; 0]; [1; 0; 0]; [0; 0; 0]]) (Finite 0))
    = lift (normalized_adjacency
              (fill_diagonal [[0; 1; 0]; [1; 0; 0]; [0; 0; 0]] 0))
  ∧ make_laplacian
      (fill_diagonal (lift [[0; 1; 0]; [1; 0; 0]; [0; 0; 0]]) (Finite 0))
    = lift (make_laplacian
              (fill_diagonal [[0; 1; 0]; [1; 0; 0]; [0; 0; 0]] 0)).
Proof.
  apply (degree_normalization_is_finite 3 [[0; 1; 0]; [1; 0; 0]; [0; 0; 0]]).
  - split; [reflexivity|]. repeat constructor.
  - intros i j Hi Hj.
    destruct i as [|[|[|i]]]; destruct j as [|[|[|j]]];
      try lia; unfold entry; simpl; lra.
  - intros j Hj.
    destruct j as [|[|[|j]]]; try lia; unfold Rsum, entry; simpl; lra.
Defined.

(** Evaluation of a float computation on given numbers: a result in
    range is the real one, a result beyond the largest double is an
    infinity. *)
Ltac in_range := pose proof max_float_bounds; lra.

Ltac float_eval :=
  repeat first
    [ rewrite np_float_in_range by in_range
    | rewrite np_float_above by in_range
    | progress cbn -[np_float Z.pow_pos Rplus Rmult Rinv Rdiv IZR sqrt Rlt_dec] ].

(** The weights have to be non-negative: with a weight of -1 the degree is
    negative and its power is NaN. *)
Example negative_weight_gives_nan :
  entry (normalized_adjacency (lift [[0; -1]; [-1; 0]])) 0 1 = NaN.
Proof.
  unfold normalized_adjacency, inv_sqrt_degrees, degrees, sum_axis0, np_dot,
    np_diag, tabulate, entry, lift.
  float_eval.
  destruct (Rlt_dec 0 (0 + (-1 + 0) + 1e-5)) as [Hlt|_]; [lra|].
  destruct (Rlt_dec (0 + (-1 + 0) + 1e-5) 0) as [_|Hge]; [|lra].
  float_eval. reflexivity.
Qed.

(** The weights have to be bounded as well.  With the one edge weight
    [1e308], a double, the product of the weight with the inverse root
    [316.2...] of the degree [1e-5] of the other node overflows to [inf],
    and [inf * 0.0] is [nan]. *)
Lemma inv_sqrt_above (d : R) : 0 < d < 1e-4 → 100 < / sqrt d.
Proof.
  intros Hd.
  assert (0 < sqrt d) as Hpos by (apply sqrt_lt_R0; lra).
  assert (sqrt d < / 100) as Hroot.
  { rewrite <- (sqrt_square (/ 100)) by lra. apply sqrt_lt_1; lra. }
  rewrite <- (Rinv_inv 100). apply Rinv_lt_contravar; [|lra].
  apply Rmult_lt_0_compat; lra.
Qed.

Lemma all_finite_entry (a : list (list npfloat)) (i j : nat) :
  all_finite a → (i < length a)%nat → (j < length (nth i a []))%nat →
  is_finite (entry a i j).
Proof.
  intros Ha Hi Hj. unfold all_finite in Ha. rewrite Forall_forall in Ha.
  assert (Forall is_finite (nth i a [])) as Hrow
    by (apply Ha, list_elem_of_In, nth_In; lia).
  rewrite Forall_forall in Hrow.
  apply Hrow, list_elem_of_In, nth_In. lia.
Qed.

Lemma overflowing_entries :
  entry (normalized_adjacency (lift [[0; 1e308]; [0; 0]])) 0 0 = NaN
  ∧ entry (normalized_adjacency (lift [[0; 1e308]; [0; 0]])) 0 1 = PosInf.
Proof.
  pose proof (inv_sqrt_above (0 + (0 + 0) + 1e-5) ltac:(lra)) as Hs0.
  pose proof (inv_sqrt_bounds (0 + (0 + 0) + 1e-5) ltac:(lra)) as Hs0'.
  pose proof (inv_sqrt_bounds (1e308 + (0 + 0) + 1e-5) ltac:(lra)) as Hs1.
  unfold normalized_adjacency, inv_sqrt_degrees, degrees, sum_axis0, np_dot,
    np_diag, tabulate, entry, lift.
  float_eval.
  destruct (Rlt_dec 0 (0 + (0 + 0) + 1e-5)) as [_|?]; [|lra].
  destruct (Rlt_dec 0 (1e308 + (0 + 0) + 1e-5)) as [_|?]; [|lra].
  set (s0 := / sqrt (0 + (0 + 0) + 1e-5)) in *.
  set (s1 := / sqrt (1e308 + (0 + 0) + 1e-5)) in *.
  float_eval.
  unfold np_scale_inf.
  destruct (Rlt_dec 0 0) as [?|_]; [lra|].
  destruct (Rlt_dec 0 s1) as [_|?]; [|lra].
  float_eval. split; reflexivity.
Qed.

(** A square adjacency matrix of two nodes with non-negative weights, one
    node of degree [1e308] and one of degree zero, whose diagonal is zero
    already: the normalised adjacency that the constructor computes holds
    a NaN and an Inf. *)
Lemma large_weight_gives_nan_and_inf :
  is_matrix 2 2 [[0; 1e308]; [0; 0]]
  ∧ nonnegative 2 [[0; 1e308]; [0; 0]]
  ∧ fill_diagonal (lift [[0; 1e308]; [0; 0]]) (Finite 0)
    = lift [[0; 1e308]; [0; 0]]
  ∧ entry (normalized_adjacency
             (fill_diagonal (lift [[0; 1e308]; [0; 0]]) (Finite 0))) 0 0 = NaN
  ∧ entry (normalized_adjacency
             (fill_diagonal (lift [[0; 1e308]; [0; 0]]) (Finite 0))) 0 1 = PosInf
  ∧ ¬ all_finite (normalized_adjacency (lift [[0; 1e308]; [0; 0]]))
  ∧ ¬ all_finite (normalized_adjacency
                    (fill_diagonal (lift [[0; 1e308]; [0; 0]]) (Finite 0))).
Proof.
  destruct overflowing_entries as [Hnan Hinf].
  assert (fill_diagonal (lift [[0; 1e308]; [0; 0]]) (Finite 0)
          = lift [[0; 1e308]; [0; 0]]) as Hfill by reflexivity.
  assert (¬ all_finite (normalized_adjacency (lift [[0; 1e308]; [0; 0]])))
    as Hnot.
  { intros Hfin.
    pose proof (all_finite_entry _ 0 0 Hfin) as Hentry.
    rewrite Hnan in Hentry. apply Hentry.
    - unfold normalized_adjacency, np_dot, nrows. rewrite length_tabulate.
      unfold np_diag. rewrite length_tabulate. simpl. lia.
    - unfold normalized_adjacency, np_dot. rewrite nth_tabulate.
      + rewrite length_map, length_seq. unfold ncols, np_diag. simpl. lia.
      + unfold nrows. rewrite length_tabulate. unfold np_diag.
        rewrite length_tabulate. simpl. lia. }
  rewrite Hfill. split_and!; try done.
  - split; [reflexivity|]. repeat constructor.
  - intros i j Hi Hj.
    destruct i as [|[|i]]; destruct j as [|[|j]];
      try lia; unfold entry; simpl; lra.
Qed.

(** ** The forward pass given the seed

    A forward pass reads of the generator the draws ahead and nothing
    else: two passes that start with the same draws ahead, as after
    [torch.manual_seed] with one seed, have the same outcome. *)

Lemma same_draws_refl (g : Generator) : same_draws g g.
Proof. by intros k. Qed.

Lemma reproducible_pure {A : Type} (r : result A) : reproducible (pure r).
Proof.
  intros g1 g2 Hg. unfold pure. destruct r as [a|e]; simpl; [by split|done].
Qed.

Lemma reproducible_ret {A : Type} (a : A) : reproducible (mret a : rand A).
Proof. intros g1 g2 Hg. by split. Qed.

Lemma reproducible_bind {A B : Type} (m : rand A) (k : A → rand B) :
  reproducible m → (∀ a, reproducible (k a)) → reproducible (m ≫= k).
Proof.
  intros Hm Hk g1 g2 Hg. specialize (Hm g1 g2 Hg).
  unfold mbind, rand_bind, same_outcome in *.
  destruct (m g1) as [[a1 g1']|e1], (m g2) as [[a2 g2']|e2]; try done.
  destruct Hm as [<- Hg']. apply (Hk a1 g1' g2' Hg').
Qed.

Lemma reproducible_uniform : reproducible uniform.
Proof.
  intros g1 g2 Hg. unfold uniform. simpl. split.
  - specialize (Hg 0%nat). by rewrite !Nat.add_0_r in Hg.
  - intros k. simpl. specialize (Hg (S k)).
    by rewrite <- !Nat.add_succ_comm in Hg.
Qed.

Lemma reproducible_rand_map {A B : Type} (f : A → rand B) (xs : list A) :
  (∀ x, reproducible (f x)) → reproducible (rand_map f xs).
Proof.
  intros Hf. induction xs as [|x xs IH]; simpl.
  - apply reproducible_ret.
  - apply reproducible_bind; [apply Hf|]. intros y.
    apply reproducible_bind; [apply IH|]. intros ys. apply reproducible_ret.
Qed.

Lemma reproducible_dropout (d : Dropout.t) (x : list (list R)) :
  reproducible (Dropout.forward d x).
Proof.
  unfold Dropout.forward. destruct (Dropout.training d).
  - apply reproducible_rand_map. intros row.
    apply reproducible_rand_map. intros a. unfold Dropout.drop_entry.
    apply reproducible_bind; [apply reproducible_uniform|].
    intros u. apply reproducible_ret.
  - apply reproducible_ret.
Qed.

Lemma reproducible_apply_dropout (dropout : option Dropout.t) (x : tensor) :
  reproducible (GraphNetwork.apply_dropout dropout x).
Proof.
  destruct dropout as [d|]; simpl.
  - apply reproducible_bind; [apply reproducible_pure|]. intros n.
    apply reproducible_bind; [apply reproducible_dropout|]. intros mask.
    apply reproducible_pure.
  - apply reproducible_ret.
Qed.

Lemma reproducible_supervised {L : Type} `{GraphLayer L}
    (self : GraphNetwork.t) (x : tensor) :
  reproducible (GraphNetwork.supervised self x).
Proof.
  unfold GraphNetwork.supervised.
  apply reproducible_bind; [apply reproducible_pure|].
  intros [[nb_examples nb_nodes] nb_channels].
  apply reproducible_bind; [apply reproducible_pure|]. intros x1.
  apply reproducible_bind.
  - generalize (zip (zip (GraphNetwork.my_convs self) (GraphNetwork.gates self))
                    (GraphNetwork.my_dropouts self)).
    intros layers. revert x1.
    induction layers as [|[[layer gate] dropout] layers IH]; intros x1; simpl.
    + apply reproducible_ret.
    + apply reproducible_bind; [apply reproducible_pure|]. intros x2.
      apply reproducible_bind; [apply reproducible_apply_dropout|]. apply IH.
  - intros x2.
    apply reproducible_bind; [apply reproducible_pure|]. intros x3.
    apply reproducible_pure.
Qed.

Lemma reproducible_legacy_forward {L : Type} `{GraphLayer L}
    (self : GraphNetwork.t) (x : tensor) :
  reproducible (Legacy.GraphNetwork.forward self x).
Proof.
  unfold Legacy.GraphNetwork.forward.
  apply reproducible_bind; [apply reproducible_pure|].
  intros [[nb_examples nb_nodes] nb_channels].
  apply reproducible_bind; [apply reproducible_pure|]. intros x1.
  apply reproducible_bind; [|intros; apply reproducible_pure].
  generalize (zip (zip (GraphNetwork.my_convs self) (GraphNetwork.gates self))
                  (GraphNetwork.my_dropouts self)).
  intros layers. generalize (@None tensor). revert x1.
  induction layers as [|[[layer gate] dropout] layers IH];
    intros x1 last_g; simpl.
  - apply reproducible_ret.
  - apply reproducible_bind; [apply reproducible_pure|]. intros [x2 last_g'].
    apply reproducible_bind; [apply reproducible_apply_dropout|].
    intros x3. apply IH.
Qed.

Lemma reproducible_mlp_forward (self : MLP.t) (x : tensor) :
  reproducible (MLP.forward self x).
Proof.
  unfold MLP.forward.
  apply reproducible_bind; [apply reproducible_pure|].
  intros [[nb_examples nb_nodes] nb_channels].
  apply reproducible_bind; [apply reproducible_pure|]. intros x1.
  apply reproducible_bind; [|intros; apply reproducible_pure].
  generalize (MLP.my_layers self). intros layers. revert x1.
  induction layers as [|layer layers IH]; intros x1; simpl.
  - apply reproducible_ret.
  - apply reproducible_bind; [|apply IH].
    unfold MLP.hidden_layer.
    apply reproducible_bind; [apply reproducible_pure|]. intros y.
    destruct (MLP.dropout self); [|apply reproducible_ret].
    destruct (MLP.my_dropout self) as [d|]; [|apply reproducible_pure].
    apply reproducible_bind; [apply reproducible_dropout|].
    intros; apply reproducible_ret.
Qed.

(** C5.  Two forward passes over the same input with the same parameters
    that start with the same draws ahead in torch's generator have the
    same outcome: the same output, or the same exception, and the same
    draws ahead afterwards.  This holds for every graph network of
    [models/model_layers.py] and of [models.py] and for every MLP, with or
    without drop-out, gates, embeddings and attention.  In particular a
    pass that follows [torch.manual_seed(seed)] gives the same output
    whatever the generator had drawn before: the seed, the input and the
    parameters decide the output. *)
Theorem forward_is_reproducible_from_the_same_draws
    {L : Type} `{GraphLayer L} (self : GraphNetwork.t) (mlp : MLP.t)
    (x : tensor) (g1 g2 : Generator) :
  same_draws g1 g2 →
  same_outcome (GraphNetwork.forward self x g1) (GraphNetwork.forward self x g2)
  ∧ same_outcome (Legacy.GraphNetwork.forward self x g1)
                 (Legacy.GraphNetwork.forward self x g2)
  ∧ same_outcome (MLP.forward mlp x g1) (MLP.forward mlp x g2)
  ∧ ∀ (prng : Z → nat → R) (seed : Z) (h1 h2 : Generator),
      same_outcome
        ((manual_seed prng seed ≫= fun _ => GraphNetwork.forward self x) h1)
        ((manual_seed prng seed ≫= fun _ => GraphNetwork.forward self x) h2)
      ∧ same_outcome
          ((manual_seed prng seed ≫= fun _ => Legacy.GraphNetwork.forward self x) h1)
          ((manual_seed prng seed ≫= fun _ => Legacy.GraphNetwork.forward self x) h2)
      ∧ same_outcome
          ((manual_seed prng seed ≫= fun _ => MLP.forward mlp x) h1)
          ((manual_seed prng seed ≫= fun _ => MLP.forward mlp x) h2).
Proof.
  intros Hg.
  assert (reproducible (GraphNetwork.forward self x)) as Hforward.
  { intros a b Hab. rewrite !forward_unfold.
    destruct (size3 x) as [shape|e]; [|done].
    by apply reproducible_supervised. }
  split_and!.
  - by apply Hforward.
  - by apply reproducible_legacy_forward.
  - by apply reproducible_mlp_forward.
  - intros prng seed h1 h2. unfold mbind, rand_bind, manual_seed. split_and!.
    + apply Hforward, same_draws_refl.
    + apply reproducible_legacy_forward, same_draws_refl.
    + apply reproducible_mlp_forward, same_draws_refl.
Qed.

(** Two states with the draws 0, 19/20, 19/20, ... ahead, one fresh and
    one after five draws; the networks have active drop-out. *)
Lemma forward_is_reproducible_from_the_same_draws_witness :
  same_outcome
    (GraphNetwork.forward (H := passthrough_layer) dropout_network
       (Tensor3 [[[1]]]) seeded_generator)
    (GraphNetwork.forward (H := passthrough_layer) dropout_network
       (Tensor3 [[[1]]])
       {| stream := fun k => match (k - 5)%nat with O => 0 | S _ => 19 / 20 end;
          cursor := 5 |})
  ∧ same_outcome
      (Legacy.GraphNetwork.forward (H := passthrough_layer) dropout_network
         (Tensor3 [[[1]]]) seeded_generator)
      (Legacy.GraphNetwork.forward (H := passthrough_layer) dropout_network
         (Tensor3 [[[1]]])
         {| stream := fun k => match (k - 5)%nat with O => 0 | S _ => 19 / 20 end;
            cursor := 5 |})
  ∧ same_outcome
      (MLP.forward dropout_mlp (Tensor3 [[[1]]]) seeded_generator)
      (MLP.forward dropout_mlp (Tensor3 [[[1]]])
         {| stream := fun k => match (k - 5)%nat with O => 0 | S _ => 19 / 20 end;
            cursor := 5 |})
  ∧ ∀ (prng : Z → nat → R) (seed : Z) (h1 h2 : Generator),
      same_outcome
        ((manual_seed prng seed
          ≫= fun _ => GraphNetwork.forward (H := passthrough_layer)
                        dropout_network (Tensor3 [[[1]]])) h1)
        ((manual_seed prng seed
          ≫= fun _ => GraphNetwork.forward (H := passthrough_layer)
                        dropout_network (Tensor3 [[[1]]])) h2)
      ∧ same_outcome
          ((manual_seed prng seed
            ≫= fun _ => Legacy.GraphNetwork.forward (H := passthrough_layer)
                          dropout_network (Tensor3 [[[1]]])) h1)
          ((manual_seed prng seed
            ≫= fun _ => Legacy.GraphNetwork.forward (H := passthrough_layer)
                          dropout_network (Tensor3 [[[1]]])) h2)
      ∧ same_outcome
          ((manual_seed prng seed
            ≫= fun _ => MLP.forward dropout_mlp (Tensor3 [[[1]]])) h1)
          ((manual_seed prng seed
            ≫= fun _ => MLP.forward dropout_mlp (Tensor3 [[[1]]])) h2).
Proof.
  apply (forward_is_reproducible_from_the_same_draws (H := passthrough_layer)
           dropout_network dropout_mlp).
  intros k. simpl. by destruct k.
Defined.
